(** * KerberosHelper: the network-authentication selection engine (Source/na.c)

    A shallow embedding of the selection set, the guessers, the completion
    latch and the reference-key projection of [Source/na.c], with the
    properties the specification states about them.

    Conventions of the embedding.
    - A [CFStringRef] is a [string]; a nullable one is an [option string].
      [CFStringCompare] with option [0] is literal comparison; with
      [kCFCompareCaseInsensitive] the ASCII letters are folded.
    - The selection array holds references: a pointer to a selection is its
      index in [selections], and a write through the pointer is an update of
      the array at that index.
    - A block handed to [dispatch_async] on the background queue is recorded
      in [bgq] until it runs.  The queue is concurrent: the block runs at
      some point after its dispatch, before [NAHCreate] returns or after,
      and the schedule of the environment says at which.
    - Reference counts are not modelled; CoreFoundation allocation and the
      conversions between string encodings are taken to succeed. *)

From Stdlib Require Import ZArith Lia Strings.String Strings.Ascii.
From stdpp Require Import base tactics option list strings gmap.

Local Open Scope Z_scope.
Local Open Scope string_scope.

(** ** CoreFoundation strings *)

Definition kCFCompareCaseInsensitive : Z := 1.

Definition ascii_fold (c : ascii) : ascii :=
  let n := nat_of_ascii c in
  if (Nat.leb 65 n && Nat.leb n 90)%bool then ascii_of_nat (n + 32) else c.

Definition ascii_upper (c : ascii) : ascii :=
  let n := nat_of_ascii c in
  if (Nat.leb 97 n && Nat.leb n 122)%bool then ascii_of_nat (n - 32) else c.

Fixpoint string_map (f : ascii -> ascii) (s : string) : string :=
  match s with
  | EmptyString => EmptyString
  | String c s' => String (f c) (string_map f s')
  end.

(** [CFStringCompare(a, b, options)]; the result is the ordering. *)
Definition CFStringCompare (a b : string) (options : Z) : comparison :=
  if Z.testbit options 0
  then String.compare (string_map ascii_fold a) (string_map ascii_fold b)
  else String.compare a b.

Definition kCFCompareEqualTo : comparison := Eq.

Definition comparison_eqb (x y : comparison) : bool :=
  match x, y with
  | Eq, Eq | Lt, Lt | Gt, Gt => true
  | _, _ => false
  end.

(** [CFStringUppercase]. *)
Definition CFStringUppercase (s : string) : string := string_map ascii_upper s.

(** [CFStringHasPrefix(s, prefix)] is an anchored find, and a find of the
    empty string never succeeds. *)
Definition CFStringHasPrefix (s pre : string) : bool :=
  match pre with
  | EmptyString => false
  | _ => String.prefix pre s
  end.

(** [CFStringHasSuffix(s, suffix)], an anchored backwards find. *)
Definition CFStringHasSuffix (s suf : string) : bool :=
  match suf with
  | EmptyString => false
  | _ =>
      (Nat.leb (String.length suf) (String.length s)
       && String.eqb
            (String.substring (String.length s - String.length suf)
               (String.length suf) s) suf)%bool
  end.

(** [CFStringFindWithOptions(s, what, whole range, 0, &range)]: the location
    of the first occurrence, if any. *)
Definition CFStringFind (s what : string) : option nat :=
  match what with
  | EmptyString => None
  | _ => String.index 0 what s
  end.

(** The one-character string that separates a domain from a user, given
    by its code 92. *)
Definition backslash : string := String (ascii_of_nat 92) EmptyString.

(** [CFStringCreateWithSubstring] for a range [(location, length)]. *)
Definition CFStringCreateWithSubstring (s : string) (location len : nat) : string :=
  String.substring location len s.

(** ** Mechanisms *)

Inductive NAHMechType : Set :=
| NO_MECH
| GSS_KERBEROS
| GSS_KERBEROS_U2U
| GSS_KERBEROS_IAKERB
| GSS_KERBEROS_PKU2U
| GSS_NTLM.

#[global] Instance NAHMechType_eq_dec : EqDecision NAHMechType.
Proof. solve_decision. Defined.

Definition mechs : list (string * NAHMechType) :=
  [ ("Kerberos", GSS_KERBEROS);
    ("KerberosUser2User", GSS_KERBEROS_U2U);
    ("PKU2U", GSS_KERBEROS_PKU2U);
    ("IAKerb", GSS_KERBEROS_IAKERB);
    ("NTLM", GSS_NTLM) ].

Fixpoint name2mech_loop (tbl : list (string * NAHMechType)) (name : string)
  : NAHMechType :=
  match tbl with
  | [] => NO_MECH
  | (n, m) :: tbl' =>
      if comparison_eqb (CFStringCompare n name kCFCompareCaseInsensitive)
           kCFCompareEqualTo
      then m else name2mech_loop tbl' name
  end.

Definition name2mech (name : option string) : NAHMechType :=
  match name with
  | None => NO_MECH
  | Some name => name2mech_loop mechs name
  end.

Fixpoint mech2name_loop (tbl : list (string * NAHMechType)) (mech : NAHMechType)
  : option string :=
  match tbl with
  | [] => None
  | (n, m) :: tbl' => if decide (m = mech) then Some n else mech2name_loop tbl' mech
  end.

Definition mech2name (mech : NAHMechType) : option string :=
  mech2name_loop mechs mech.

(** ** Name types *)

Definition kNAHNTUsername : string := "kNAHNTUsername".
Definition kNAHNTServiceBasedName : string := "kNAHNTServiceBasedName".
Definition kNAHNTKRB5PrincipalReferral : string := "kNAHNTKRB5PrincipalReferral".
Definition kNAHNTKRB5Principal : string := "kNAHNTKRB5Principal".
Definition kNAHNTUUID : string := "kNAHNTUUID".

(** ** Service classes *)

Definition kNAHServiceAFPServer : string := "afpserver".
Definition kNAHServiceCIFSServer : string := "cifs".
Definition kNAHServiceHostServer : string := "host".
Definition kNAHServiceVNCServer : string := "vnc".

(** ** Certificates, caches and semaphores *)

#[global] Instance byte_eq_dec : EqDecision Byte.byte := Byte.byte_eq_dec.

(** What the certificate store and the X.509 provider report for one
    client certificate. *)
Record SecCertificate : Set := {
  cert_data : option (list Byte.byte);      (* SecCertificateCopyData *)
  cert_sha1 : list Byte.byte;               (* CC_SHA1 over [cert_data] *)
  cert_kerberos_principal : option string;  (* _CSCopyKerberosPrincipalForCertificate *)
  cert_appleid : option string              (* hx509_cert_get_appleid, None on error *)
}.

#[global] Instance SecCertificate_eq_dec : EqDecision SecCertificate.
Proof. solve_decision. Defined.

(** A [krb5_ccache] handle and a [dispatch_semaphore_t] handle. *)
Abbreviation krb5_ccache := nat (only parsing).
Abbreviation dispatch_semaphore_t := nat (only parsing).

(** ** Selections and sessions *)

Record NAHSelectionData : Set := {
  wait : option dispatch_semaphore_t;
  waiting : Z;
  have_cred : bool;
  canceled : bool;
  mech : NAHMechType;
  client : option string;
  clienttype : string;
  server : option string;
  servertype : string;
  certificate : option SecCertificate;
  spnego : bool;
  inferredLabel : option string;
  ccache : option krb5_ccache
}.

#[global] Instance NAHSelectionData_eq_dec : EqDecision NAHSelectionData.
Proof. solve_decision. Defined.

Record NAHData : Type := {
  hostname : string;
  service : string;
  username : string;
  specificname : option string;
  servermechs : option (gmap string (list Byte.byte));
  spnegoServerName : option string;
  x509identities : option (list SecCertificate);
  password : option string;
  context : bool;                    (* krb5 context opened *)
  hxctx : bool;                      (* hx509 context opened *)
  selections : list NAHSelectionData;
  bgq : list nat;                    (* resolvers dispatched and not yet run *)
  next_semaphore : dispatch_semaphore_t; (* next handle of dispatch_semaphore_create *)
  clock : nat                        (* scheduling points of the queue passed *)
}.

Definition set_selections (na : NAHData) (l : list NAHSelectionData) : NAHData :=
  {| hostname := hostname na; service := service na; username := username na;
     specificname := specificname na; servermechs := servermechs na;
     spnegoServerName := spnegoServerName na;
     x509identities := x509identities na; password := password na;
     context := context na; hxctx := hxctx na;
     selections := l; bgq := bgq na; next_semaphore := next_semaphore na;
     clock := clock na |}.

Definition set_next_semaphore (na : NAHData) (n : dispatch_semaphore_t) : NAHData :=
  {| hostname := hostname na; service := service na; username := username na;
     specificname := specificname na; servermechs := servermechs na;
     spnegoServerName := spnegoServerName na;
     x509identities := x509identities na; password := password na;
     context := context na; hxctx := hxctx na;
     selections := selections na; bgq := bgq na; next_semaphore := n;
     clock := clock na |}.

Definition dispatch_async_bgq (na : NAHData) (nasel : nat) : NAHData :=
  {| hostname := hostname na; service := service na; username := username na;
     specificname := specificname na; servermechs := servermechs na;
     spnegoServerName := spnegoServerName na;
     x509identities := x509identities na; password := password na;
     context := context na; hxctx := hxctx na;
     selections := selections na; bgq := bgq na ++ [nasel];
     next_semaphore := next_semaphore na; clock := clock na |}.

Definition set_contexts (na : NAHData) (c h : bool) : NAHData :=
  {| hostname := hostname na; service := service na; username := username na;
     specificname := specificname na; servermechs := servermechs na;
     spnegoServerName := spnegoServerName na;
     x509identities := x509identities na; password := password na;
     context := c; hxctx := h;
     selections := selections na; bgq := bgq na;
     next_semaphore := next_semaphore na; clock := clock na |}.

Definition set_bgq (na : NAHData) (q : list nat) : NAHData :=
  {| hostname := hostname na; service := service na; username := username na;
     specificname := specificname na; servermechs := servermechs na;
     spnegoServerName := spnegoServerName na;
     x509identities := x509identities na; password := password na;
     context := context na; hxctx := hxctx na;
     selections := selections na; bgq := q;
     next_semaphore := next_semaphore na; clock := clock na |}.

Definition set_clock (na : NAHData) (k : nat) : NAHData :=
  {| hostname := hostname na; service := service na; username := username na;
     specificname := specificname na; servermechs := servermechs na;
     spnegoServerName := spnegoServerName na;
     x509identities := x509identities na; password := password na;
     context := context na; hxctx := hxctx na;
     selections := selections na; bgq := bgq na;
     next_semaphore := next_semaphore na; clock := k |}.

(** [NAHSelectionAlloc]: a zeroed instance with [spnego = true]. *)
Definition NAHSelectionAlloc : NAHSelectionData :=
  {| wait := None; waiting := 0; have_cred := false; canceled := false;
     mech := NO_MECH; client := None; clienttype := ""; server := None;
     servertype := ""; certificate := None; spnego := true;
     inferredLabel := None; ccache := None |}.

(** ** addSelection *)

Definition USE_SPNEGO : Z := 1.
Definition FORCE_ADD : Z := 2.

(** A C condition [flags & bit]. *)
Definition flag_set (flags bit : Z) : bool := negb (Z.eqb (Z.land flags bit) 0).

(** The body of the duplicate loop for one element: [true] when none of the
    four [continue] statements fires. *)
Definition is_duplicate (nasel : NAHSelectionData)
    (client0 : string) (server0 : option string) (servertype0 : string)
    (mech0 : NAHMechType) : bool :=
  if negb (bool_decide (mech nasel = mech0)) then false
  else if negb (bool_decide (client nasel = Some client0)) then false
  else if
    match server nasel, server0 with
    | Some s, Some s0 =>
        negb (comparison_eqb (CFStringCompare s s0 0) kCFCompareEqualTo)
    | _, _ => false
    end then false
  else if negb (comparison_eqb (CFStringCompare (servertype nasel) servertype0 0)
                  kCFCompareEqualTo) then false
  else true.

(** The loop [for (n = 0; n < count; n++)], started at index [n]. *)
Fixpoint find_duplicate (l : list NAHSelectionData) (n : nat)
    (client0 : string) (server0 : option string) (servertype0 : string)
    (mech0 : NAHMechType) : option nat :=
  match l with
  | [] => None
  | nasel :: l' =>
      if is_duplicate nasel client0 server0 servertype0 mech0 then Some n
      else find_duplicate l' (S n) client0 server0 servertype0 mech0
  end.

(** What a call leaves behind: the session, the returned selection (its
    index, [None] for [NULL]) and the value stored through [duplicate], if
    a store happens (the caller may pass [NULL], then nothing is stored). *)
Record addSelection_result : Type := {
  res_na : NAHData;
  res_nasel : option nat;
  res_duplicate : option Z
}.

Definition addSelection (na : NAHData) (client0 : string)
    (clienttype0 : option string) (server0 : option string)
    (servertype0 : option string) (mech0 : NAHMechType) (flags : Z)
  : addSelection_result :=
  let clienttype1 := default kNAHNTUsername clienttype0 in
  let servertype1 := default kNAHNTServiceBasedName servertype0 in
  let matching :=
    (flag_set flags FORCE_ADD
     || match specificname na with
        | None => true
        | Some sn => CFStringHasPrefix client0 sn
        end)%bool in
  if negb matching then
    {| res_na := na; res_nasel := None; res_duplicate := None |}
  else
    match find_duplicate (selections na) 0 client0 server0 servertype1 mech0 with
    | Some n =>
        {| res_na := na; res_nasel := Some n; res_duplicate := Some 1 |}
    | None =>
        let nasel :=
          {| wait := match server0 with
                     | Some _ => None
                     | None => Some (next_semaphore na)
                     end;
             waiting := 0;
             have_cred := have_cred NAHSelectionAlloc;
             canceled := canceled NAHSelectionAlloc;
             mech := mech0;
             client := Some client0;
             clienttype := clienttype1;
             server := server0;
             servertype := servertype1;
             certificate := certificate NAHSelectionAlloc;
             spnego := flag_set flags USE_SPNEGO;
             inferredLabel := inferredLabel NAHSelectionAlloc;
             ccache := ccache NAHSelectionAlloc |} in
        let na1 :=
          match server0 with
          | Some _ => na
          | None => set_next_semaphore na (S (next_semaphore na))
          end in
        {| res_na := set_selections na1 (selections na1 ++ [nasel]);
           res_nasel := Some (List.length (selections na));
           res_duplicate := Some 0 |}
    end.

(** ** Writes through a selection pointer *)

Definition with_certificate (c : option SecCertificate) (s : NAHSelectionData)
  : NAHSelectionData :=
  {| wait := wait s; waiting := waiting s; have_cred := have_cred s;
     canceled := canceled s; mech := mech s; client := client s;
     clienttype := clienttype s; server := server s; servertype := servertype s;
     certificate := c; spnego := spnego s; inferredLabel := inferredLabel s;
     ccache := ccache s |}.

Definition with_have_cred (b : bool) (s : NAHSelectionData) : NAHSelectionData :=
  {| wait := wait s; waiting := waiting s; have_cred := b;
     canceled := canceled s; mech := mech s; client := client s;
     clienttype := clienttype s; server := server s; servertype := servertype s;
     certificate := certificate s; spnego := spnego s;
     inferredLabel := inferredLabel s; ccache := ccache s |}.

Definition with_ccache (id : option krb5_ccache) (s : NAHSelectionData)
  : NAHSelectionData :=
  {| wait := wait s; waiting := waiting s; have_cred := have_cred s;
     canceled := canceled s; mech := mech s; client := client s;
     clienttype := clienttype s; server := server s; servertype := servertype s;
     certificate := certificate s; spnego := spnego s;
     inferredLabel := inferredLabel s; ccache := id |}.

Definition with_inferredLabel (l : option string) (s : NAHSelectionData)
  : NAHSelectionData :=
  {| wait := wait s; waiting := waiting s; have_cred := have_cred s;
     canceled := canceled s; mech := mech s; client := client s;
     clienttype := clienttype s; server := server s; servertype := servertype s;
     certificate := certificate s; spnego := spnego s;
     inferredLabel := l; ccache := ccache s |}.

Definition with_client (c : option string) (s : NAHSelectionData)
  : NAHSelectionData :=
  {| wait := wait s; waiting := waiting s; have_cred := have_cred s;
     canceled := canceled s; mech := mech s; client := c;
     clienttype := clienttype s; server := server s; servertype := servertype s;
     certificate := certificate s; spnego := spnego s;
     inferredLabel := inferredLabel s; ccache := ccache s |}.

Definition with_server (v : option string) (s : NAHSelectionData)
  : NAHSelectionData :=
  {| wait := wait s; waiting := waiting s; have_cred := have_cred s;
     canceled := canceled s; mech := mech s; client := client s;
     clienttype := clienttype s; server := v; servertype := servertype s;
     certificate := certificate s; spnego := spnego s;
     inferredLabel := inferredLabel s; ccache := ccache s |}.

Definition with_latch (w : option dispatch_semaphore_t) (n : Z) (c : bool)
    (s : NAHSelectionData) : NAHSelectionData :=
  {| wait := w; waiting := n; have_cred := have_cred s;
     canceled := c; mech := mech s; client := client s;
     clienttype := clienttype s; server := server s; servertype := servertype s;
     certificate := certificate s; spnego := spnego s;
     inferredLabel := inferredLabel s; ccache := ccache s |}.

(** [nasel->field = ...] for the selection at index [nasel]. *)
Definition update_selection (na : NAHData) (nasel : nat)
    (f : NAHSelectionData -> NAHSelectionData) : NAHData :=
  set_selections na (alter f nasel (selections na)).

(** ** Server hints *)

(** Modelled from the spec: the mechanism-OID identifiers that key the
    server-hints map are declared in the GSS headers, not in this file;
    they are taken as six distinct strings. *)
Definition kGSSAPIMechNTLMOID : string := "1.3.6.1.4.1.311.2.2.10".
Definition kGSSAPIMechKerberosOID : string := "1.2.840.113554.1.2.2".
Definition kGSSAPIMechKerberosMicrosoftOID : string := "1.2.840.48018.1.2.2".
Definition kGSSAPIMechPKU2UOID : string := "1.3.6.1.5.2.7".
Definition kGSSAPIMechIAKERB : string := "1.3.6.1.5.2.5".
Definition kGSSAPIMechSupportsAppleLKDC : string := "1.2.752.43.14.3".

Definition haveMech (na : NAHData) (m : string) : bool :=
  match servermechs na with
  | None => false
  | Some d => match d !! m with Some _ => true | None => false end
  end.

(** ** The external collaborators *)

(** A principal as the Kerberos provider presents it. *)
Record krb5_principal : Set := {
  princ_unparsed : option string;   (* krb5_unparse_name, None on error *)
  princ_realm : string;             (* krb5_principal_get_realm *)
  princ_is_lkdc : bool              (* krb5_principal_is_lkdc *)
}.

(** One credential cache of the collection. *)
Record ccache_info : Set := {
  cc_handle : krb5_ccache;
  cc_principal : option krb5_principal;   (* krb5_cc_get_principal *)
  cc_lkdc_hostname : option string;       (* config "lkdc-hostname" *)
  cc_FriendlyName : option string         (* config "FriendlyName" *)
}.

(** A value stored in a preferences dictionary, and an element of the
    preferences array. *)
Inductive CFValue : Set :=
| CFStringValue (s : string)
| CFOtherValue.

Inductive CFElement : Type :=
| CFDictionaryElement (d : gmap string CFValue)
| CFOtherElement.

Inductive CFTypeID : Set :=
| CFStringTypeID
| CFOtherTypeID.

#[global] Instance CFTypeID_eq_dec : EqDecision CFTypeID.
Proof. solve_decision. Defined.

Record Environment : Type := {
  pref_GSSEnable : option bool;                  (* preference "GSSEnable" *)
  pref_UserSelections : option (list CFElement); (* preference "UserSelections",
                                                    None unless an array *)
  krb5_init_context_ret : Z;
  hx509_context_init_ret : Z;
  cccol : option (list ccache_info);             (* None: no cursor *)
  krb5_get_host_realm : string -> option (list string);
  krb5_get_default_realms : option (list string);
  gss_iter_creds_NTLM : list string;             (* display names of held creds *)
  getlogin : option string;
  CFNetServiceDeconstructServiceName : string -> option string;
  LKDCDiscoverRealm : string -> option string;   (* None on error *)
  resolver_runs : nat -> nat -> bool             (* the schedule of the global
                                                    queue: by the scheduling
                                                    point [k] the pending
                                                    resolver of selection [n]
                                                    has run *)
}.

(** [nah_use_gss_uam] once [init_globals] has run. *)
Definition nah_use_gss_uam (env : Environment) : bool :=
  default true (pref_GSSEnable env).

(** ** Results of code that can stop the process *)

Inductive result (A : Type) : Type :=
| Done (a : A)
| Fault.
Arguments Done {A} a.
Arguments Fault {A}.

Definition result_bind {A B : Type} (r : result A) (k : A -> result B)
  : result B :=
  match r with
  | Done a => k a
  | Fault => Fault
  end.

Notation "x <- r ;; k" := (result_bind r (fun x => k))
  (at level 100, r at next level, right associativity).

(** ** Semaphores and the release of a latch *)

Abbreviation semaphores := (gmap dispatch_semaphore_t Z) (only parsing).

Definition sem_value (sems : semaphores) (h : dispatch_semaphore_t) : Z :=
  default 0 (sems !! h).

Definition dispatch_semaphore_signal (w : option dispatch_semaphore_t)
    (sems : semaphores) : semaphores :=
  match w with
  | Some h => <[h := sem_value sems h + 1]> sems
  | None => sems
  end.

(** [while (s->waiting > 0) { dispatch_semaphore_signal(s->wait);
    s->waiting--; }]: the body runs [waiting] times when that is positive,
    and not at all otherwise. *)
Definition signal_waiters (s : NAHSelectionData) (sems : semaphores)
  : Z * semaphores :=
  (waiting s - Z.of_nat (Z.to_nat (waiting s)),
   Nat.iter (Z.to_nat (waiting s)) (dispatch_semaphore_signal (wait s)) sems).

(** The block of [signal_result]. *)
Definition signal_result_block (s : NAHSelectionData) (sems : semaphores)
  : NAHSelectionData * semaphores :=
  match wait s with
  | None => (s, sems)
  | Some _ =>
      let '(n, sems1) := signal_waiters s sems in
      (with_latch None n (canceled s) s, sems1)
  end.

(** ** The background queue

    [classic_lkdc] hands its resolvers to the concurrent global queue: a
    resolver runs at some point after its dispatch, while [NAHCreate] goes
    on or after it has returned.  A resolver is taken as one step: it
    writes the server and then the client of its selection, and a scan that
    would fall between the two writes is not modelled.  Of the fields it
    writes (client, server and the latch) the code of [NAHCreate] reads
    client and server in the scan of [addSelection] only, and writes none of
    them once a selection is in the list.  So the queue is given a turn
    before each scan of a Kerberos name that can follow a dispatch, and once
    more after the last: [bgq] holds the resolvers dispatched and not yet
    run, [clock] counts the turns, and the schedule [resolver_runs] of the
    environment says which pending resolvers have run by each turn.  The
    NTLM guesses that follow need no turn: a resolver that runs among them
    leaves what one that runs before them leaves
    ([guess_ntlm_run_resolver]).  A schedule that is [false] throughout
    leaves every resolver to run after [NAHCreate] has returned; one that is
    [true] throughout runs each at the first turn after its dispatch. *)

(** [classic_lkdc_background], the resolver dispatched by [classic_lkdc],
    on the selection at index [nasel]: on a discovered realm it rewrites
    server and client, and in every case it ends with [signal_result].
    The semaphore side of the signal belongs to the latch system below;
    here only the selection is kept. *)
Definition classic_lkdc_background (env : Environment) (na : NAHData)
    (nasel : nat) : NAHData :=
  let na1 :=
    match LKDCDiscoverRealm env (hostname na) with
    | None => na
    | Some realm =>
        update_selection na nasel
          (fun s =>
             with_client
               (Some (default EmptyString (client s) +:+ "@" +:+ realm))
               (with_server
                  (Some (service na +:+ "/" +:+ realm +:+ "@" +:+ realm)) s))
    end in
  update_selection na1 nasel (fun s => fst (signal_result_block s ∅)).

(** The resolver dispatched for the selection at index [nasel] leaves the
    queue and runs. *)
Definition run_resolver (env : Environment) (na : NAHData) (nasel : nat)
  : NAHData :=
  set_bgq (classic_lkdc_background env na nasel)
    (filter (fun n => n <> nasel) (bgq na)).

(** A turn of the queue: the pending resolvers that the schedule names run.
    They are taken in the order of their dispatch; any other order gives
    the same ([run_resolver_comm]). *)
Definition yield (env : Environment) (na : NAHData) : NAHData :=
  set_clock
    (foldl (fun na0 n =>
              if resolver_runs env (clock na) n then run_resolver env na0 n
              else na0)
       na (bgq na))
    (S (clock na)).

(** ** classic_lkdc *)

Definition hex_digit (n : N) : ascii :=
  if (n <? 10)%N then ascii_of_N (48 + n) else ascii_of_N (55 + n).

(** [sprintf(cp, "%02X", digest[m])]. *)
Definition sprintf_02X (b : Byte.byte) : string :=
  let n := Byte.to_N b in
  String (hex_digit (n / 16)) (String (hex_digit (n mod 16)) EmptyString).

Fixpoint hex_string (digest : list Byte.byte) : string :=
  match digest with
  | [] => EmptyString
  | b :: digest' => sprintf_02X b +:+ hex_string digest'
  end.

Definition is_local_hostname (hostname0 : string) : bool :=
  if CFStringHasSuffix hostname0 ".local" then true
  else if CFStringHasSuffix hostname0 ".members.mac.com" then true
  else if CFStringHasSuffix hostname0 ".members.me.com" then true
  else false.

(** One turn of the certificate loop of [classic_lkdc].  The queue has its
    turn before the list is scanned: a resolver of an earlier certificate
    may have run by then. *)
Definition classic_lkdc_cert (env : Environment) (flags : Z) (na : NAHData)
    (cert : SecCertificate) : NAHData :=
  match cert_data cert with
  | None => na
  | Some _ =>
      let u := hex_string (cert_sha1 cert) in
      let r := addSelection (yield env na) u (Some kNAHNTKRB5Principal)
                 None (Some kNAHNTKRB5PrincipalReferral) GSS_KERBEROS flags in
      match res_nasel r, res_duplicate r with
      | Some nasel, Some 0 =>
          dispatch_async_bgq
            (update_selection (res_na r) nasel (with_certificate (Some cert)))
            nasel
      | _, _ => res_na r
      end
  end.

(** [classic_lkdc]: a selection for each certificate, then one for the
    password; each new one is handed to a resolver on the queue, which has
    its turn again before the scan for the password. *)
Definition classic_lkdc (env : Environment) (na : NAHData) (flags : Z)
  : NAHData :=
  if negb (is_local_hostname (hostname na)) then na
  else
    let na1 :=
      match x509identities na with
      | None => na
      | Some certs => foldl (classic_lkdc_cert env flags) na certs
      end in
    match password na1 with
    | None => na1
    | Some _ =>
        let r := addSelection (yield env na1) (username na1)
                   (Some kNAHNTKRB5Principal)
                   None (Some kNAHNTKRB5PrincipalReferral) GSS_KERBEROS flags in
        match res_nasel r, res_duplicate r with
        | Some nasel, Some 0 => dispatch_async_bgq (res_na r) nasel
        | _, _ => res_na r
        end
    end.

(** ** Classic Kerberos *)

Definition add_realms (na : NAHData) (realms : list string) (flags : Z)
  : NAHData :=
  foldl
    (fun na0 realm =>
       let u := username na0 +:+ "@" +:+ realm in
       let s := service na0 +:+ "/" +:+ hostname na0 +:+ "@" +:+ realm in
       res_na (addSelection na0 u (Some kNAHNTKRB5Principal)
                 (Some s) (Some kNAHNTKRB5PrincipalReferral) GSS_KERBEROS flags))
    na realms.

Definition use_classic_kerberos (env : Environment) (na : NAHData) (flags : Z)
  : NAHData :=
  if is_local_hostname (hostname na) then na
  else
    let len := String.length (username na) in
    let na1 :=
      match CFStringFind (username na) "@" with
      | Some loc =>
          let domain :=
            CFStringCreateWithSubstring (username na) (loc + 1) (len - (loc + 1)) in
          let domainm := CFStringUppercase domain in
          let s := service na +:+ "/" +:+ hostname na +:+ "@" +:+ domainm in
          res_na (addSelection na (username na) (Some kNAHNTKRB5Principal)
                    (Some s) (Some kNAHNTKRB5PrincipalReferral) GSS_KERBEROS flags)
      | None => na
      end in
    let na2 :=
      match CFStringFind (username na1) backslash with
      | Some loc =>
          let user :=
            CFStringCreateWithSubstring (username na1) (loc + 1) (len - (loc + 1)) in
          let domain := CFStringCreateWithSubstring (username na1) 0 loc in
          let domainm := CFStringUppercase domain in
          let user2 := user +:+ "@" +:+ domain in
          let s := service na1 +:+ "/" +:+ hostname na1 +:+ "@" +:+ domainm in
          res_na (addSelection na1 user2 (Some kNAHNTKRB5Principal)
                    (Some s) (Some kNAHNTKRB5PrincipalReferral) GSS_KERBEROS
                    (Z.lor flags FORCE_ADD))
      | None => na1
      end in
    let na3 :=
      match krb5_get_host_realm env (hostname na2) with
      | Some realms => add_realms na2 realms flags
      | None => na2
      end in
    match krb5_get_default_realms env with
    | Some realms => add_realms na3 realms flags
    | None => na3
    end.

(** ** Existing credential caches *)

(** One turn of the cursor loop of [use_existing_principals].  The second
    pass runs after [classic_lkdc], so the queue has its turn before the
    list is scanned. *)
Definition use_existing_principal (env : Environment) (only_lkdc : bool)
    (flags : Z) (na : NAHData) (id : ccache_info) : NAHData :=
  match cc_principal id with
  | None => na
  | Some client0 =>
      let is_lkdc := princ_is_lkdc client0 in
      if ((only_lkdc && negb is_lkdc) || (negb only_lkdc && is_lkdc))%bool then na
      else
        match princ_unparsed client0 with
        | None => na
        | Some u =>
            let server0 :=
              if is_lkdc then
                match cc_lkdc_hostname id with
                | None => None
                | Some cr =>
                    if negb (comparison_eqb (CFStringCompare (hostname na) cr 0)
                               kCFCompareEqualTo)
                    then None
                    else Some (service na +:+ "/" +:+ princ_realm client0
                               +:+ "@" +:+ princ_realm client0)
                end
              else Some (service na +:+ "/" +:+ hostname na
                         +:+ "@" +:+ princ_realm client0) in
            match server0 with
            | None => na
            | Some s =>
                let r := addSelection (yield env na) u (Some kNAHNTKRB5Principal)
                           (Some s) (Some kNAHNTKRB5PrincipalReferral)
                           GSS_KERBEROS flags in
                match res_nasel r with
                | Some nasel =>
                    match selections (res_na r) !! nasel with
                    | Some sel =>
                        match ccache sel with
                        | None =>
                            update_selection (res_na r) nasel
                              (fun x =>
                                 let x1 := with_have_cred true
                                             (with_ccache (Some (cc_handle id)) x) in
                                 match inferredLabel x1, cc_FriendlyName id with
                                 | None, Some l => with_inferredLabel (Some l) x1
                                 | _, _ => x1
                                 end)
                        | Some _ => res_na r
                        end
                    | None => res_na r
                    end
                | None => res_na r
                end
            end
        end
  end.

Definition use_existing_principals (env : Environment) (na : NAHData)
    (only_lkdc : bool) (flags : Z) : NAHData :=
  match cccol env with
  | None => na
  | Some caches => foldl (use_existing_principal env only_lkdc flags) na caches
  end.

(** ** Well-known LKDC *)

Definition kWELLKNOWN_LKDC : string := "WELLKNOWN:COM.APPLE.LKDC".

(** One turn of the certificate loop of [wellknown_lkdc]. *)
Definition wellknown_lkdc_cert (s : string) (mechtype : NAHMechType) (flags : Z)
    (na : NAHData) (cert : SecCertificate) : NAHData :=
  let u :=
    match cert_kerberos_principal cert with
    | None =>
        match cert_appleid cert with
        | None => None
        | Some str => Some (str +:+ "@" +:+ kWELLKNOWN_LKDC)
        end
    | Some csstr => Some (csstr +:+ "@" +:+ kWELLKNOWN_LKDC)
    end in
  match u with
  | None => na
  | Some u =>
      let r := addSelection na u (Some kNAHNTKRB5Principal) (Some s)
                 (Some kNAHNTKRB5PrincipalReferral) mechtype flags in
      match res_nasel r with
      | Some nasel =>
          update_selection (res_na r) nasel (with_certificate (Some cert))
      | None => res_na r
      end
  end.

Definition wellknown_lkdc (na : NAHData) (mechtype : NAHMechType) (flags : Z)
  : NAHData :=
  let u := username na +:+ "@" +:+ kWELLKNOWN_LKDC in
  let s := service na +:+ "/localhost@" +:+ kWELLKNOWN_LKDC in
  let na1 :=
    match password na with
    | Some _ =>
        res_na (addSelection na u (Some kNAHNTKRB5Principal)
                  (Some s) (Some kNAHNTKRB5Principal) mechtype flags)
    | None => na
    end in
  match x509identities na1 with
  | None => na1
  | Some certs => foldl (wellknown_lkdc_cert s mechtype flags) na1 certs
  end.

(** ** The Kerberos pipeline *)

Definition is_smb (na : NAHData) : bool :=
  (comparison_eqb (CFStringCompare (service na) kNAHServiceHostServer 0)
     kCFCompareEqualTo
   || comparison_eqb (CFStringCompare (service na) kNAHServiceCIFSServer 0)
        kCFCompareEqualTo)%bool.

(** [CFStringFind(s, what, 0).location == kCFNotFound]. *)
Definition CFStringNotFound (s what : string) : bool :=
  match CFStringFind s what with
  | None => true
  | Some _ => false
  end.

Record kerberos_decisions : Set := {
  try_lkdc_classic : bool;
  try_wlkdc : bool;
  try_iakerb_with_lkdc : bool;
  have_kerberos : bool;
  krb_flags : Z
}.

(** The part of [guess_kerberos] before the contexts are opened. *)
Definition guess_kerberos_decide (env : Environment) (na : NAHData)
  : kerberos_decisions :=
  let iakerb :=
    (nah_use_gss_uam env
     && match password na with Some _ => true | None => false end
     && haveMech na kGSSAPIMechIAKERB
     && haveMech na kGSSAPIMechSupportsAppleLKDC
     && negb (is_smb na))%bool in
  let wlkdc :=
    if iakerb then false
    else if (haveMech na kGSSAPIMechPKU2UOID
             || haveMech na kGSSAPIMechSupportsAppleLKDC)%bool then true
    else if comparison_eqb (CFStringCompare (service na) kNAHServiceVNCServer 0)
              kCFCompareEqualTo then true
    else false in
  let classic :=
    if (haveMech na kGSSAPIMechPKU2UOID
        || haveMech na kGSSAPIMechSupportsAppleLKDC)%bool then false
    else
      match spnegoServerName na with
      | Some name => if CFStringNotFound name "@LKDC" then false else true
      | None => true
      end in
  let flags :=
    if (comparison_eqb (CFStringCompare (service na) kNAHServiceAFPServer 0)
          kCFCompareEqualTo
        && negb (haveMech na kGSSAPIMechSupportsAppleLKDC))%bool
    then Z.land USE_SPNEGO (Z.lnot USE_SPNEGO)
    else USE_SPNEGO in
  let have :=
    (match servermechs na with None => true | Some _ => false end
     || haveMech na kGSSAPIMechIAKERB
     || haveMech na kGSSAPIMechKerberosOID
     || haveMech na kGSSAPIMechKerberosMicrosoftOID
     || haveMech na kGSSAPIMechPKU2UOID)%bool in
  {| try_lkdc_classic := classic; try_wlkdc := wlkdc;
     try_iakerb_with_lkdc := iakerb; have_kerberos := have;
     krb_flags := flags |}.

(** The part of [guess_kerberos] after both contexts are open.  After the
    last Kerberos guess the queue has one more turn: what has not run by
    then runs after [NAHCreate] has returned. *)
Definition guess_kerberos_run (env : Environment) (d : kerberos_decisions)
    (na : NAHData) : NAHData :=
  let flags := krb_flags d in
  let na1 := use_existing_principals env na true flags in
  let na2 :=
    if try_iakerb_with_lkdc d then wellknown_lkdc na1 GSS_KERBEROS_IAKERB flags
    else na1 in
  let na3 :=
    if try_wlkdc d then wellknown_lkdc na2 GSS_KERBEROS flags else na2 in
  let na4 :=
    match password na3 with
    | Some _ => use_classic_kerberos env na3 flags
    | None => na3
    end in
  let na5 := if try_lkdc_classic d then classic_lkdc env na4 flags else na4 in
  yield env (use_existing_principals env na5 false flags).

Definition guess_kerberos (env : Environment) (na : NAHData) : NAHData :=
  let d := guess_kerberos_decide env na in
  if negb (have_kerberos d) then na
  else if negb (Z.eqb (krb5_init_context_ret env) 0) then na
  else
    let na1 := set_contexts na true (hxctx na) in
    if negb (Z.eqb (hx509_context_init_ret env) 0) then na1
    else guess_kerberos_run env d (set_contexts na1 true true).

(** ** The NTLM pipeline *)

Definition raw_tag : list Byte.byte := [Byte.x72; Byte.x61; Byte.x77].

Definition guess_ntlm (env : Environment) (na : NAHData) : NAHData :=
  if negb (haveMech na kGSSAPIMechNTLMOID) then na
  else
    let flags :=
      match servermechs na with
      | Some d =>
          match d !! kGSSAPIMechNTLMOID with
          | Some data =>
              if (Nat.eqb (List.length data) 3 && bool_decide (data = raw_tag))%bool
              then Z.land USE_SPNEGO (Z.lnot USE_SPNEGO)
              else USE_SPNEGO
          | None => USE_SPNEGO
          end
      | None => USE_SPNEGO
      end in
    let s := service na +:+ "@" +:+ hostname na in
    let na1 :=
      match password na with
      | Some _ =>
          let len := String.length (username na) in
          let '(u, flags2) :=
            match CFStringFind (username na) "@" with
            | Some _ => (username na, FORCE_ADD)
            | None =>
                match CFStringFind (username na) backslash with
                | Some loc =>
                    let dstr := CFStringCreateWithSubstring (username na) 0 loc in
                    let ustr :=
                      CFStringCreateWithSubstring (username na) (loc + 1)
                        (len - (loc + 1)) in
                    (ustr +:+ "@" +:+ dstr, FORCE_ADD)
                | None => (username na +:+ "@" +:+ backslash +:+ hostname na, 0)
                end
            end in
          let na0 :=
            res_na (addSelection na u (Some kNAHNTUsername) (Some s) None
                      GSS_NTLM (Z.lor flags flags2)) in
          match specificname na0 with
          | Some sn =>
              res_na (addSelection na0 (sn +:+ "@" +:+ backslash +:+ hostname na0)
                        (Some kNAHNTUsername) (Some s) None GSS_NTLM flags)
          | None => na0
          end
      | None => na
      end in
    foldl
      (fun na0 u =>
         let r := addSelection na0 u (Some kNAHNTUsername) (Some s) None
                    GSS_NTLM flags in
         match res_nasel r with
         | Some nasel => update_selection (res_na r) nasel (with_have_cred true)
         | None => res_na r
         end)
      na1 (gss_iter_creds_NTLM env).

(** ** User-selection overrides *)

Definition kDomainKey : string := "domain".
Definition kUsername : string := "user".
Definition kMech : string := "mech".
Definition kClient : string := "client".

(** [CFGetTypeID(cf)]; the call reads through its argument, so a [NULL]
    argument stops the process. *)
Definition CFGetTypeID (cf : option CFValue) : result CFTypeID :=
  match cf with
  | None => Fault
  | Some (CFStringValue _) => Done CFStringTypeID
  | Some CFOtherValue => Done CFOtherTypeID
  end.

Definition CFStringGetTypeID : CFTypeID := CFStringTypeID.

(** A value known to be a string, read as one. *)
Definition as_string (cf : option CFValue) : string :=
  match cf with
  | Some (CFStringValue s) => s
  | _ => EmptyString
  end.

(** [x == NULL || CFGetTypeID(x) != CFStringGetTypeID()]. *)
Definition null_or_not_string (cf : option CFValue) : result bool :=
  match cf with
  | None => Done true
  | Some _ =>
      t <- CFGetTypeID cf ;; Done (negb (bool_decide (t = CFStringGetTypeID)))
  end.

(** [x == NULL && CFGetTypeID(x) != CFStringGetTypeID()]. *)
Definition null_and_not_string (cf : option CFValue) : result bool :=
  match cf with
  | None =>
      t <- CFGetTypeID cf ;; Done (negb (bool_decide (t = CFStringGetTypeID)))
  | Some _ => Done false
  end.

(** One turn of the loop of [add_user_selections]. *)
Definition add_user_selection (na : NAHData) (elem : CFElement)
  : result NAHData :=
  match elem with
  | CFOtherElement => Done na
  | CFDictionaryElement dict =>
      let m := dict !! kMech in
      let d := dict !! kDomainKey in
      let u := dict !! kUsername in
      let c := dict !! kClient in
      skip_c <- null_or_not_string c ;;
      if skip_c : bool then Done na else
      skip_m <- null_or_not_string m ;;
      if skip_m : bool then Done na else
      skip_d <- null_or_not_string d ;;
      if skip_d : bool then Done na else
      skip_u <- null_and_not_string u ;;
      if skip_u : bool then Done na else
      if negb (comparison_eqb
                 (CFStringCompare (as_string d) (hostname na)
                    kCFCompareCaseInsensitive) kCFCompareEqualTo)
      then Done na else
      if (match u with None => true | Some _ => false end
          && negb (comparison_eqb
                     (CFStringCompare (as_string d) (username na) 0)
                     kCFCompareEqualTo))%bool
      then Done na else
      let mech0 := name2mech (Some (as_string m)) in
      if bool_decide (mech0 = NO_MECH) then Done na else
      let server0 := service na +:+ "@" +:+ hostname na in
      Done (res_na (addSelection na (as_string c) None (Some server0) None
                      mech0 (Z.b2z true)))
  end.

Fixpoint add_user_selections_loop (na : NAHData) (array : list CFElement)
  : result NAHData :=
  match array with
  | [] => Done na
  | elem :: array' =>
      na1 <- add_user_selection na elem ;; add_user_selections_loop na1 array'
  end.

Definition add_user_selections (env : Environment) (na : NAHData)
  : result NAHData :=
  match pref_UserSelections env with
  | None => Done na
  | Some array => add_user_selections_loop na array
  end.

(** ** NAHCreate *)

Inductive Certificates : Set :=
| CertificateArray (certs : list SecCertificate)
| CertificateOrIdentity (cert : SecCertificate)
| CertificatesOfUnknownType.

Record NegTokenInit : Type := {
  kSPNEGONegTokenInitMechs : option (gmap string (list Byte.byte));
  kSPNEGONegTokenInitHintsHostname : option string
}.

Record Info : Type := {
  kNAHUserName : option string;
  kNAHPassword : option string;
  kNAHNegTokenInit : option NegTokenInit;
  kNAHCertificates : option Certificates
}.

Definition is_dot (c : ascii) : bool := Ascii.eqb c ".".

Fixpoint trim_leading_dots (s : string) : string :=
  match s with
  | EmptyString => EmptyString
  | String c s' => if is_dot c then trim_leading_dots s' else s
  end.

Fixpoint trim_trailing_dots (s : string) : string :=
  match s with
  | EmptyString => EmptyString
  | String c s' =>
      match trim_trailing_dots s' with
      | EmptyString => if is_dot c then EmptyString else String c EmptyString
      | t => String c t
      end
  end.

(** [CFStringTrim(hostname, CFSTR("."))]. *)
Definition CFStringTrim_dots (s : string) : string :=
  trim_trailing_dots (trim_leading_dots s).

(** [findUsername]: the user name and the specific name, or failure. *)
Definition findUsername (env : Environment) (info : option Info)
  : option (string * option string) :=
  match match info with Some i => kNAHUserName i | None => None end with
  | Some username0 =>
      let len := String.length username0 in
      match CFStringFind username0 "@" with
      | Some loc =>
          Some (username0, Some (CFStringCreateWithSubstring username0 0 loc))
      | None =>
          match CFStringFind username0 backslash with
          | Some loc =>
              Some (username0,
                    Some (CFStringCreateWithSubstring username0 (loc + 1)
                            (len - (loc + 1))))
          | None => Some (username0, Some username0)
          end
      end
  | None =>
      match getlogin env with
      | None => None
      | Some name => Some (name, None)
      end
  end.

(** The session as [NAHCreate] has it when the guessing starts. *)
Definition NAHCreate_session (env : Environment) (hostname0 service0 : string)
    (info : option Info) : option NAHData :=
  let canonname :=
    match CFNetServiceDeconstructServiceName env hostname0 with
    | Some hostnamestr => hostnamestr
    | None => hostname0
    end in
  match findUsername env info with
  | None => None
  | Some (username0, specificname0) =>
      let nti := match info with Some i => kNAHNegTokenInit i | None => None end in
      Some
        {| hostname := CFStringTrim_dots canonname;
           service := service0;
           username := username0;
           specificname := specificname0;
           servermechs :=
             match nti with
             | Some t => kSPNEGONegTokenInitMechs t
             | None => None
             end;
           spnegoServerName :=
             match nti with
             | Some t => kSPNEGONegTokenInitHintsHostname t
             | None => None
             end;
           x509identities :=
             match match info with
                   | Some i => kNAHCertificates i
                   | None => None
                   end with
             | Some (CertificateArray certs) => Some certs
             | Some (CertificateOrIdentity cert) => Some [cert]
             | Some CertificatesOfUnknownType => None
             | None => None
             end;
           password :=
             match info with Some i => kNAHPassword i | None => None end;
           context := false;
           hxctx := false;
           selections := [];
           bgq := [];
           next_semaphore := O;
           clock := O |}
  end.

(** The guessing game: overrides, Kerberos, then NTLM for SMB only. *)
Definition NAHCreate_guess (env : Environment) (na : NAHData) : result NAHData :=
  na1 <- add_user_selections env na ;;
  let na2 := guess_kerberos env na1 in
  Done (if (match x509identities na2 with None => true | Some _ => false end
            && is_smb na2)%bool
        then guess_ntlm env na2 else na2).

Definition NAHCreate (env : Environment) (hostname0 service0 : string)
    (info : option Info) : result (option NAHData) :=
  match NAHCreate_session env hostname0 service0 info with
  | None => Done None
  | Some na => na1 <- NAHCreate_guess env na ;; Done (Some na1)
  end.

Definition NAHGetSelections (na : NAHData) : list NAHSelectionData :=
  selections na.

(** ** Reference keys *)

Definition NAHCopyReferenceKey (selection : NAHSelectionData) : option string :=
  match client selection with
  | None => None
  | Some c =>
      match mech selection with
      | GSS_KERBEROS | GSS_KERBEROS_PKU2U | GSS_KERBEROS_IAKERB =>
          Some ("krb5" +:+ ":" +:+ c)
      | GSS_NTLM => Some ("ntlm" +:+ ":" +:+ c)
      | _ => None
      end
  end.

(** ** Kerberos acquisition *)

(** Modelled from the spec: the enterprise flag of [krb5_parse_name_flags]
    is declared in the Kerberos headers, not in this file; its value plays
    no part below. *)
Definition KRB5_PRINCIPAL_PARSE_ENTERPRISE : Z := 4.

(** What the Kerberos provider and the certificate store answer during one
    run of [acquire_kerberos]: the status of each call, and the client
    principal of the credentials the exchange returns. *)
Record krb5_exchange : Type := {
  krb5_parse_name_flags_ret : string -> Z -> Z;
  krb5_get_init_creds_opt_alloc_ret : Z;
  krb5_get_init_creds_opt_set_pkinit_ret : Z;
  krb5_init_creds_init_ret : Z;
  hx509_cert_init_SecFramework_ret : Z;
  krb5_init_creds_set_pkinit_client_cert_ret : Z;
  krb5_init_creds_set_password_ret : Z;
  krb5_init_creds_get_ret : Z;
  krb5_init_creds_get_creds_ret : Z;
  krb5_cc_cache_match_ret : Z;
  krb5_cc_new_unique_ret : Z;
  krb5_cc_initialize_ret : Z;
  krb5_cc_store_cred_ret : Z;
  krb5_init_creds_store_config_ret : Z;
  cred_client_realm : string;          (* krb5_principal_get_realm(cred.client) *)
  krb5_realm_is_lkdc : string -> bool;
  krb5_unparse_name_ret : Z;
  cred_client_unparsed : string;       (* krb5_unparse_name(cred.client) *)
  certificate_label : option string    (* the label [setFriendlyName] derives
                                          from a certificate, if it derives one *)
}.

(** The enterprise-name test: a second [@] after the first. *)
Definition parseflags_of (str : string) : Z :=
  match String.index 0 "@" str with
  | Some p =>
      match String.index (p + 1) "@" str with
      | Some _ => KRB5_PRINCIPAL_PARSE_ENTERPRISE
      | None => 0
      end
  | None => 0
  end.

Definition setFriendlyName (x : krb5_exchange) (na : NAHData)
    (cert : option SecCertificate) (is_lkdc : bool)
    (selection : NAHSelectionData) : NAHSelectionData :=
  let label :=
    match cert with
    | Some _ => certificate_label x
    | None =>
        if (match specificname na with Some _ => true | None => false end
            || is_lkdc)%bool
        then Some (username na)
        else client selection
    end in
  match label with
  | Some l => with_inferredLabel (Some l) selection
  | None => selection
  end.

(** The referral block of [acquire_kerberos]. *)
Definition update_principals (x : krb5_exchange) (na : NAHData)
    (selection : NAHSelectionData) : NAHSelectionData :=
  let realm := cred_client_realm x in
  let is_lkdc := krb5_realm_is_lkdc x realm in
  let newclient := cred_client_unparsed x in
  if negb (comparison_eqb
             (CFStringCompare newclient (default EmptyString (client selection)) 0)
             kCFCompareEqualTo)
  then
    let newserver :=
      if is_lkdc then service na +:+ "/" +:+ realm +:+ "@" +:+ realm
      else service na +:+ "/" +:+ hostname na +:+ "@" +:+ realm in
    with_server (Some newserver) (with_client (Some newclient) selection)
  else selection.

(** [ret = call; if (ret) goto out;] *)
Definition check {A : Type} (na : A) (ret : Z) (k : result (Z * A))
  : result (Z * A) :=
  if Z.eqb ret 0 then k else Done (ret, na).

Definition is_some {A : Type} (o : option A) : bool :=
  match o with Some _ => true | None => false end.

Notation "'status' ret 'else_out' na ;; k" := (check na ret k)
  (at level 100, ret at next level, na at next level, right associativity).

(** [acquire_kerberos] on the selection at index [selection]; the result is
    the returned status and the session, or [Fault] where the code reaches
    [abort]. *)
Definition acquire_kerberos (x : krb5_exchange) (na : NAHData)
    (selection : nat) (password0 : option string)
    (cert : option SecCertificate) : result (Z * NAHData) :=
  match selections na !! selection with
  | None => Fault
  | Some sel =>
      let str := default EmptyString (client sel) in
      status krb5_parse_name_flags_ret x str (parseflags_of str) else_out na ;;
      status krb5_get_init_creds_opt_alloc_ret x else_out na ;;
      status (if is_some cert then krb5_get_init_creds_opt_set_pkinit_ret x
              else 0) else_out na ;;
      status krb5_init_creds_init_ret x else_out na ;;
      match cert, password0 with
      | None, None => Fault
      | _, _ =>
          status (if is_some cert then hx509_cert_init_SecFramework_ret x
                  else 0) else_out na ;;
          status (if is_some cert
                  then krb5_init_creds_set_pkinit_client_cert_ret x
                  else krb5_init_creds_set_password_ret x) else_out na ;;
          status krb5_init_creds_get_ret x else_out na ;;
          status krb5_init_creds_get_creds_ret x else_out na ;;
          status (if Z.eqb (krb5_cc_cache_match_ret x) 0 then 0
                  else krb5_cc_new_unique_ret x) else_out na ;;
          status krb5_cc_initialize_ret x else_out na ;;
          status krb5_cc_store_cred_ret x else_out na ;;
          status krb5_init_creds_store_config_ret x else_out na ;;
          status krb5_unparse_name_ret x else_out na ;;
          let is_lkdc := krb5_realm_is_lkdc x (cred_client_realm x) in
          Done (0,
                update_selection na selection
                  (fun s => setFriendlyName x na cert is_lkdc
                              (update_principals x na s)))
      end
  end.

(** ** The completion latch

    [wait_result], [signal_result] and [NAHCancel] run concurrently.  The
    blocks they hand to the serial queue are atomic; a caller of
    [wait_result] is a thread that moves through the four points of the
    function.  A semaphore is a counter: a signal adds one, a wait takes
    one as soon as one is there. *)

(** The block of [wait_result]: the selection, and the local [sema]. *)
Definition wait_result_block (s : NAHSelectionData)
  : NAHSelectionData * option dispatch_semaphore_t :=
  if canceled s then (s, None)
  else
    match wait s with
    | Some h => (with_latch (wait s) (waiting s + 1) (canceled s) s, Some h)
    | None => (s, None)
    end.

(** The body of the loop of [NAHCancel] for one selection. *)
Definition cancel_selection (s : NAHSelectionData) (sems : semaphores)
  : NAHSelectionData * semaphores :=
  let s1 := with_latch (wait s) (waiting s) true s in
  let '(n, sems1) := signal_waiters s1 sems in
  (with_latch (wait s1) n true s1, sems1).

(** The block of [NAHCancel]. *)
Fixpoint NAHCancel_block (l : list NAHSelectionData) (sems : semaphores)
  : list NAHSelectionData * semaphores :=
  match l with
  | [] => ([], sems)
  | s :: l' =>
      let '(s1, sems1) := cancel_selection s sems in
      let '(l1, sems2) := NAHCancel_block l' sems1 in
      (s1 :: l1, sems2)
  end.

(** The background queue drained: every pending resolver has run. *)
Definition run_resolvers (env : Environment) (na : NAHData) : NAHData :=
  foldl (classic_lkdc_background env) na (bgq na).

(** Where a caller of [wait_result] stands. *)
Inductive wait_pc : Set :=
| AtBlock                                       (* before the dispatch_sync *)
| AtSemaphore (sema : option dispatch_semaphore_t)  (* before [if (sema) wait] *)
| AtCheck                                       (* before [if (s->canceled)] *)
| Returned (r : bool).

#[global] Instance wait_pc_eq_dec : EqDecision wait_pc.
Proof. solve_decision. Defined.

Record waiter : Set := {
  w_selection : nat;
  w_pc : wait_pc
}.

Record latch_system : Type := {
  sys_selections : list NAHSelectionData;
  sys_semaphores : semaphores;
  sys_waiters : list waiter
}.


(** [NAHCancel] as a function on the system. *)
Definition NAHCancel (sys : latch_system) : latch_system :=
  let '(l1, sems1) :=
    NAHCancel_block (sys_selections sys) (sys_semaphores sys) in
  {| sys_selections := l1; sys_semaphores := sems1;
     sys_waiters := sys_waiters sys |}.

(** [signal_result] on selection [i] as a function on the system. *)
Definition signal_result (i : nat) (sys : latch_system) : latch_system :=
  match sys_selections sys !! i with
  | None => sys
  | Some s =>
      let '(s1, sems1) := signal_result_block s (sys_semaphores sys) in
      {| sys_selections := <[i := s1]> (sys_selections sys);
         sys_semaphores := sems1;
         sys_waiters := sys_waiters sys |}
  end.







(** Sums over the selections and over the callers. *)
Fixpoint sumZ {A : Type} (f : A -> Z) (l : list A) : Z :=
  match l with
  | [] => 0
  | a :: l' => f a + sumZ f l'
  end.

(** Callers standing before the wait on semaphore [h]. *)
Definition blocked_on (h : dispatch_semaphore_t) (w : waiter) : Z :=
  if bool_decide (w_pc w = AtSemaphore (Some h)) then 1 else 0.

(** Waiters that selection [s] has counted on semaphore [h]. *)
Definition counted_on (h : dispatch_semaphore_t) (s : NAHSelectionData) : Z :=
  if bool_decide (wait s = Some h) then waiting s else 0.

(** The latch is consistent: counts are non-negative and zero without a
    semaphore, no two selections share a semaphore, a caller before a wait
    holds the semaphore of its own selection, and every such caller is
    either counted in [waiting] or has its signal in the semaphore. *)
Record latch_inv (sys : latch_system) : Prop := {
  inv_waiting :
    forall i s, sys_selections sys !! i = Some s ->
                0 <= waiting s /\ (wait s = None -> waiting s = 0);
  inv_distinct :
    forall i j s s' h,
      sys_selections sys !! i = Some s -> sys_selections sys !! j = Some s' ->
      wait s = Some h -> wait s' = Some h -> i = j;
  inv_holder :
    forall t i h j s,
      sys_waiters sys !! t
        = Some {| w_selection := i; w_pc := AtSemaphore (Some h) |} ->
      sys_selections sys !! j = Some s -> wait s = Some h -> j = i;
  inv_index :
    forall t w, sys_waiters sys !! t = Some w ->
                (w_selection w < List.length (sys_selections sys))%nat;
  inv_count :
    forall h,
      sumZ (blocked_on h) (sys_waiters sys)
      = sem_value (sys_semaphores sys) h
        + sumZ (counted_on h) (sys_selections sys)
}.

(** No selection of the session is canceled. *)
Definition none_canceled (sys : latch_system) : Prop :=
  forall i s, sys_selections sys !! i = Some s -> canceled s = false.

(** ** Statements *)

(** [s] begins with [pre]; [s] ends in [suf]. *)
Definition begins_with (s pre : string) : Prop := exists rest, s = pre +:+ rest.
Definition ends_in (s suf : string) : Prop := exists front, s = front +:+ suf.

(** The de-duplication key of the specification: the same mechanism, the
    same client, the same server when both are present, the same
    server-name-type. *)
Definition same_key (a b : NAHSelectionData) : Prop :=
  mech a = mech b /\ client a = client b
  /\ (forall s t, server a = Some s -> server b = Some t -> s = t)
  /\ servertype a = servertype b.

Definition unique_selections (l : list NAHSelectionData) : Prop :=
  forall i j a b, l !! i = Some a -> l !! j = Some b -> same_key a b -> i = j.

(** The arguments of one call of [addSelection]. *)
Record addSelection_call : Set := {
  call_client : string;
  call_clienttype : option string;
  call_server : option string;
  call_servertype : option string;
  call_mech : NAHMechType;
  call_flags : Z
}.

Definition addSelection_of (na : NAHData) (c : addSelection_call)
  : addSelection_result :=
  addSelection na (call_client c) (call_clienttype c) (call_server c)
    (call_servertype c) (call_mech c) (call_flags c).

(** A sequence of calls, each on the session the one before left. *)
Definition addSelection_calls (na : NAHData) (calls : list addSelection_call)
  : NAHData :=
  foldl (fun na0 c => res_na (addSelection_of na0 c)) na calls.

(** Selection [r] has the key that call [c] asks for. *)
Definition has_key_of (r : NAHSelectionData) (c : addSelection_call) : Prop :=
  mech r = call_mech c /\ client r = Some (call_client c)
  /\ (forall s t, server r = Some s -> call_server c = Some t -> s = t)
  /\ servertype r = default kNAHNTServiceBasedName (call_servertype c).

(** The call passes the specific-name filter. *)
Definition passes_filter (na : NAHData) (c : addSelection_call) : Prop :=
  flag_set (call_flags c) FORCE_ADD = true
  \/ specificname na = None
  \/ exists sn, specificname na = Some sn
                /\ CFStringHasPrefix (call_client c) sn = true.

(** The fields the duplicate scan reads. *)
Definition key_view (s : NAHSelectionData)
  : NAHMechType * option string * option string * string :=
  (mech s, client s, server s, servertype s).

(** The fields of the session that [NAHCreate] fills in before the
    guessing starts. *)
Definition inputs (na : NAHData) :=
  (hostname na, service na, username na, specificname na, servermechs na,
   spnegoServerName na, x509identities na, password na).

(** What a guesser does to the session, one step at a time: a call of
    [addSelection] whose mechanism and server satisfy [Q], a write to a
    selection that leaves the scanned fields alone, the dispatch of a
    resolver for a selection without a server, the opening of a context, the
    run of a pending resolver that the schedule names, and the end of a
    turn of the queue. *)
Inductive guess_step (env : Environment) (Q : NAHMechType -> option string -> Prop)
  : NAHData -> NAHData -> Prop :=
| guess_add na c ct sv st m flags :
    Q m sv -> guess_step env Q na (res_na (addSelection na c ct sv st m flags))
| guess_write na n f :
    (forall s, key_view (f s) = key_view s) ->
    guess_step env Q na (update_selection na n f)
| guess_dispatch na n sel :
    selections na !! n = Some sel -> server sel = None -> n ∉ bgq na ->
    guess_step env Q na (dispatch_async_bgq na n)
| guess_contexts na c h :
    guess_step env Q na (set_contexts na c h)
| guess_resolve na n sel :
    n ∈ bgq na -> selections na !! n = Some sel -> server sel = None ->
    resolver_runs env (clock na) n = true ->
    guess_step env Q na (run_resolver env na n)
| guess_turn na :
    guess_step env Q na (set_clock na (S (clock na))).

Definition guesses (env : Environment) (Q : NAHMechType -> option string -> Prop)
  : NAHData -> NAHData -> Prop :=
  rtc (guess_step env Q).

(** The queue holds no resolver twice, and only resolvers of selections
    that have no server yet. *)
Definition pending (na : NAHData) : Prop :=
  NoDup (bgq na)
  /\ forall n, n ∈ bgq na ->
               exists sel, selections na !! n = Some sel /\ server sel = None.

(** How a key can change while the guessers run: a key with a server
    stays; a key without one keeps mechanism and server-name-type. *)
Definition key_step (k k' : NAHMechType * option string * option string * string)
  : Prop :=
  k' = k \/ (k.1.2 = None /\ k'.1.1.1 = k.1.1.1 /\ k'.2 = k.2).

(** The three ways a call of [addSelection] ends. *)
Inductive addSelection_outcome (na : NAHData) (c : string) (ct sv st : option string)
    (m : NAHMechType) (flags : Z) : addSelection_result -> Prop :=
| outcome_filtered sn :
    flag_set flags FORCE_ADD = false ->
    specificname na = Some sn -> CFStringHasPrefix c sn = false ->
    addSelection_outcome na c ct sv st m flags
      {| res_na := na; res_nasel := None; res_duplicate := None |}
| outcome_duplicate n sel :
    selections na !! n = Some sel ->
    is_duplicate sel c sv (default kNAHNTServiceBasedName st) m = true ->
    addSelection_outcome na c ct sv st m flags
      {| res_na := na; res_nasel := Some n; res_duplicate := Some 1 |}
| outcome_appended na' nasel :
    (forall i r, selections na !! i = Some r ->
                 is_duplicate r c sv (default kNAHNTServiceBasedName st) m = false) ->
    selections na' = (selections na ++ [nasel])%list ->
    inputs na' = inputs na -> bgq na' = bgq na ->
    context na' = context na -> hxctx na' = hxctx na ->
    mech nasel = m -> client nasel = Some c -> server nasel = sv ->
    servertype nasel = default kNAHNTServiceBasedName st ->
    clienttype nasel = default kNAHNTUsername ct ->
    spnego nasel = flag_set flags USE_SPNEGO ->
    ccache nasel = None -> certificate nasel = None ->
    addSelection_outcome na c ct sv st m flags
      {| res_na := na'; res_nasel := Some (List.length (selections na));
         res_duplicate := Some 0 |}.

(** The scanned fields of the whole list, in order. *)
Definition keys (na : NAHData)
  : list (NAHMechType * option string * option string * string) :=
  key_view <$> selections na.

Definition key_mech (k : NAHMechType * option string * option string * string)
  : NAHMechType := k.1.1.1.
Definition key_server (k : NAHMechType * option string * option string * string)
  : option string := k.1.2.

(** Conditions on the calls a guesser makes. *)
Definition any_key : NAHMechType -> option string -> Prop := fun _ _ => True.
Definition kerberos_key : NAHMechType -> option string -> Prop :=
  fun m _ => m = GSS_KERBEROS.
Definition resolved_key (m0 : NAHMechType) : NAHMechType -> option string -> Prop :=
  fun m sv => m = m0 /\ is_Some sv.
Definition with_server_key : NAHMechType -> option string -> Prop :=
  fun _ sv => is_Some sv.

Definition kerberos_family_key : NAHMechType -> option string -> Prop :=
  fun m _ => m = GSS_KERBEROS \/ m = GSS_KERBEROS_IAKERB.

(** The client and the server of the well-known LKDC selection. *)
Definition wellknown_client (na : NAHData) : string :=
  username na +:+ "@" +:+ kWELLKNOWN_LKDC.
Definition wellknown_server (na : NAHData) : string :=
  service na +:+ "/localhost@" +:+ kWELLKNOWN_LKDC.

(** The list holds a selection with this mechanism, client and server. *)
Definition has_selection (na : NAHData) (m : NAHMechType) (c s : string) : Prop :=
  exists i sel, selections na !! i = Some sel /\ mech sel = m
                /\ client sel = Some c /\ server sel = Some s.

(** Every selection of the list has its server. *)
Definition all_resolved (na : NAHData) : Prop :=
  Forall (fun k => is_Some (key_server k)) (keys na).



(** ** Sample sessions *)

(** A machine with no preferences, no caches, no realms and no stored
    credentials, whose providers all succeed. *)
Definition quiet_environment : Environment :=
  {| pref_GSSEnable := None;
     pref_UserSelections := None;
     krb5_init_context_ret := 0;
     hx509_context_init_ret := 0;
     cccol := Some [];
     krb5_get_host_realm := fun _ => None;
     krb5_get_default_realms := None;
     gss_iter_creds_NTLM := [];
     getlogin := Some "alice";
     CFNetServiceDeconstructServiceName := fun _ => None;
     LKDCDiscoverRealm := fun _ => None;
     resolver_runs := fun _ _ => false |}.

Definition with_UserSelections (env : Environment) (array : list CFElement)
  : Environment :=
  {| pref_GSSEnable := pref_GSSEnable env;
     pref_UserSelections := Some array;
     krb5_init_context_ret := krb5_init_context_ret env;
     hx509_context_init_ret := hx509_context_init_ret env;
     cccol := cccol env;
     krb5_get_host_realm := krb5_get_host_realm env;
     krb5_get_default_realms := krb5_get_default_realms env;
     gss_iter_creds_NTLM := gss_iter_creds_NTLM env;
     getlogin := getlogin env;
     CFNetServiceDeconstructServiceName :=
       CFNetServiceDeconstructServiceName env;
     LKDCDiscoverRealm := LKDCDiscoverRealm env;
     resolver_runs := resolver_runs env |}.

(** A machine that holds an LKDC cache for [bob] on [mac-mini.local], and
    whose realm discovery for that host answers with the realm of the
    cache. *)
Definition lkdc_cache_environment : Environment :=
  {| pref_GSSEnable := None;
     pref_UserSelections := None;
     krb5_init_context_ret := 0;
     hx509_context_init_ret := 0;
     cccol :=
       Some [ {| cc_handle := 7%nat;
                 cc_principal :=
                   Some {| princ_unparsed := Some "bob@LKDC:SHA1.ABC";
                           princ_realm := "LKDC:SHA1.ABC";
                           princ_is_lkdc := true |};
                 cc_lkdc_hostname := Some "mac-mini.local";
                 cc_FriendlyName := Some "bob" |} ];
     krb5_get_host_realm := fun _ => None;
     krb5_get_default_realms := None;
     gss_iter_creds_NTLM := [];
     getlogin := Some "bob";
     CFNetServiceDeconstructServiceName := fun _ => None;
     LKDCDiscoverRealm := fun _ => Some "LKDC:SHA1.ABC";
     resolver_runs := fun _ _ => false |}.

(** A machine without caches or realms whose realm discovery answers, and
    on which the global queue runs every resolver as soon as it can. *)
Definition eager_environment : Environment :=
  {| pref_GSSEnable := None;
     pref_UserSelections := None;
     krb5_init_context_ret := 0;
     hx509_context_init_ret := 0;
     cccol := Some [];
     krb5_get_host_realm := fun _ => None;
     krb5_get_default_realms := None;
     gss_iter_creds_NTLM := [];
     getlogin := Some "bob";
     CFNetServiceDeconstructServiceName := fun _ => None;
     LKDCDiscoverRealm := fun _ => Some "LKDC:SHA1.ABC";
     resolver_runs := fun _ _ => true |}.

(** A client certificate, and the information of a caller who names no
    user and hands in that certificate twice. *)
Definition sample_certificate : SecCertificate :=
  {| cert_data := Some []; cert_sha1 := [Byte.xab; Byte.x01];
     cert_kerberos_principal := None; cert_appleid := None |}.

Definition twin_certificates : option Info :=
  Some {| kNAHUserName := None; kNAHPassword := None;
          kNAHNegTokenInit := None;
          kNAHCertificates :=
            Some (CertificateArray [sample_certificate; sample_certificate]) |}.

Definition sample_info (user : string) (pw : option string) : option Info :=
  Some {| kNAHUserName := Some user; kNAHPassword := pw;
          kNAHNegTokenInit := None; kNAHCertificates := None |}.

(** The session [NAHCreate] builds for [sample_info] before it guesses. *)
Definition sample_session (host svc user : string) (pw : option string)
  : NAHData :=
  {| hostname := host; service := svc; username := user;
     specificname := Some user; servermechs := None;
     spnegoServerName := None; x509identities := None; password := pw;
     context := false; hxctx := false; selections := []; bgq := [];
     next_semaphore := O; clock := O |}.

(** The session of a [NAHCreate] that returns one, else [fallback]. *)
Definition created (r : result (option NAHData)) (fallback : NAHData) : NAHData :=
  match r with
  | Done (Some na) => na
  | _ => fallback
  end.

(** An override entry of the preferences. *)
Definition sample_override (m d u c : string) : gmap string CFValue :=
  <[kMech := CFStringValue m]>
    (<[kDomainKey := CFStringValue d]>
       (<[kUsername := CFStringValue u]>
          (<[kClient := CFStringValue c]> ∅))).

(** A selection waiting for its server, with its latch. *)
Definition sample_unresolved : NAHSelectionData :=
  {| wait := Some O; waiting := 0; have_cred := false; canceled := false;
     mech := GSS_KERBEROS; client := Some "alice";
     clienttype := kNAHNTKRB5Principal; server := None;
     servertype := kNAHNTKRB5PrincipalReferral; certificate := None;
     spnego := true; inferredLabel := None; ccache := None |}.

Definition sample_selection (m : NAHMechType) (c : string) : NAHSelectionData :=
  {| wait := None; waiting := 0; have_cred := false; canceled := false;
     mech := m; client := Some c; clienttype := kNAHNTUsername;
     server := Some "cifs@fs.corp.example.com";
     servertype := kNAHNTServiceBasedName; certificate := None;
     spnego := true; inferredLabel := None; ccache := None |}.

Definition sample_call (c : string) (sv : option string) (m : NAHMechType)
    (flags : Z) : addSelection_call :=
  {| call_client := c; call_clienttype := Some kNAHNTKRB5Principal;
     call_server := sv; call_servertype := Some kNAHNTKRB5PrincipalReferral;
     call_mech := m; call_flags := flags |}.

(** A latch with one caller counted and standing before the wait. *)
Definition sample_latch : latch_system :=
  {| sys_selections := [with_latch (Some O) 1 false sample_unresolved];
     sys_semaphores := ∅;
     sys_waiters := [{| w_selection := O; w_pc := AtSemaphore (Some O) |}] |}.

(** An exchange in which every call succeeds and the KDC names the client
    [client0] in the realm [realm0]. *)
Definition sample_exchange (client0 realm0 : string) (lkdc : bool)
  : krb5_exchange :=
  {| krb5_parse_name_flags_ret := fun _ _ => 0;
     krb5_get_init_creds_opt_alloc_ret := 0;
     krb5_get_init_creds_opt_set_pkinit_ret := 0;
     krb5_init_creds_init_ret := 0;
     hx509_cert_init_SecFramework_ret := 0;
     krb5_init_creds_set_pkinit_client_cert_ret := 0;
     krb5_init_creds_set_password_ret := 0;
     krb5_init_creds_get_ret := 0;
     krb5_init_creds_get_creds_ret := 0;
     krb5_cc_cache_match_ret := 0;
     krb5_cc_new_unique_ret := 0;
     krb5_cc_initialize_ret := 0;
     krb5_cc_store_cred_ret := 0;
     krb5_init_creds_store_config_ret := 0;
     cred_client_realm := realm0;
     krb5_realm_is_lkdc := fun _ => lkdc;
     krb5_unparse_name_ret := 0;
     cred_client_unparsed := client0;
     certificate_label := None |}.

(** The session left by [acquire_kerberos], else [fallback]. *)
Definition acquired (r : result (Z * NAHData)) (fallback : NAHData) : NAHData :=
  match r with
  | Done (_, na) => na
  | Fault => fallback
  end.


(** ** Strings, once more *)

(** Every character of [s] is a dot. *)
Fixpoint only_dots (s : string) : bool :=
  match s with
  | EmptyString => true
  | String c s' => (is_dot c && only_dots s')%bool
  end.

(** Every character of [s] is one of [0-9A-F]. *)
Fixpoint upper_hex (s : string) : bool :=
  match s with
  | EmptyString => true
  | String c s' =>
      let n := nat_of_ascii c in
      (((Nat.leb 48 n && Nat.leb n 57) || (Nat.leb 65 n && Nat.leb n 70))
       && upper_hex s')%bool
  end.

(** The value of a hexadecimal digit, and the byte two digits spell; used
    to read a fingerprint back. *)
Definition hex_value (c : ascii) : N :=
  let n := N_of_ascii c in
  if (n <? 58)%N then (n - 48)%N else (n - 55)%N.

Definition unhex_02X (h l : ascii) : option Byte.byte :=
  Byte.of_N (16 * hex_value h + hex_value l).

(** A user name in the domain form, and the information dictionary that
    carries it. *)
Definition domain_user : string := "CORP" +:+ backslash +:+ "ann".

Definition domain_user_info : Info :=
  {| kNAHUserName := Some domain_user; kNAHPassword := None;
     kNAHNegTokenInit := None; kNAHCertificates := None |}.


(** ** The shape of a session *)

(** The selection a call of [addSelection] appends: the zeroed instance of
    [NAHSelectionAlloc] with the fields the call stores, and a fresh
    semaphore when no server is given. *)
Definition new_selection (sem : dispatch_semaphore_t) (c : string)
    (ct sv st : option string) (m : NAHMechType) (flags : Z)
  : NAHSelectionData :=
  {| wait := match sv with Some _ => None | None => Some sem end;
     waiting := 0; have_cred := false; canceled := false;
     mech := m; client := Some c;
     clienttype := default kNAHNTUsername ct;
     server := sv;
     servertype := default kNAHNTServiceBasedName st;
     certificate := None; spnego := flag_set flags USE_SPNEGO;
     inferredLabel := None; ccache := None |}.

(** The fields a guesser never writes once a selection is in the list. *)
Definition frame_view (s : NAHSelectionData) :=
  (wait s, waiting s, canceled s, mech s, client s, clienttype s, server s,
   servertype s, spnego s).

(** The writes the guessers make through a selection pointer: a
    certificate or a label, which leave cache and [have_cred] alone; a
    cache bound to a Kerberos selection that had none; [have_cred] set on
    an NTLM selection. *)
Inductive write_ok (s s' : NAHSelectionData) : Prop :=
| write_annotation :
    ccache s' = ccache s -> have_cred s' = have_cred s -> write_ok s s'
| write_cache :
    mech s = GSS_KERBEROS -> ccache s = None -> is_Some (ccache s') ->
    have_cred s' = true -> write_ok s s'
| write_have_cred :
    mech s = GSS_NTLM -> ccache s' = ccache s -> have_cred s' = true ->
    write_ok s s'.

(** [addSelection] without a server, followed by the dispatch of the
    resolver when the selection is new: the pattern of [classic_lkdc]. *)
Definition add_unresolved (na : NAHData) (c : string) (ct st : option string)
    (m : NAHMechType) (flags : Z) : NAHData :=
  let r := addSelection na c ct None st m flags in
  match res_nasel r, res_duplicate r with
  | Some nasel, Some 0 => dispatch_async_bgq (res_na r) nasel
  | _, _ => res_na r
  end.

(** What a selection offers: its mechanism, whether its server is known,
    and whether it is wrapped in SPNEGO. *)
Definition offer (s : NAHSelectionData) : NAHMechType * bool * bool :=
  (mech s, is_some (server s), spnego s).

(** What [NAHCreate] does to the session, one step at a time: a call of
    [addSelection] with a server, one without a server together with the
    dispatch of its resolver, a write through a selection pointer, the
    opening of a context, the run of a resolver, the end of a turn of the
    queue.  [Q] holds of the mechanism of each call, of whether it gives a
    server, and of its SPNEGO flag. *)
Inductive build_step (env : Environment) (Q : NAHMechType -> bool -> bool -> Prop)
  : NAHData -> NAHData -> Prop :=
| build_add na c ct s st m flags :
    Q m true (flag_set flags USE_SPNEGO) ->
    build_step env Q na (res_na (addSelection na c ct (Some s) st m flags))
| build_add_unresolved na c ct st m flags :
    Q m false (flag_set flags USE_SPNEGO) ->
    build_step env Q na (add_unresolved na c ct st m flags)
| build_write na n f :
    (forall s, frame_view (f s) = frame_view s) ->
    (forall s, selections na !! n = Some s -> write_ok s (f s)) ->
    build_step env Q na (update_selection na n f)
| build_contexts na c h :
    build_step env Q na (set_contexts na c h)
| build_resolve na n :
    build_step env Q na (run_resolver env na n)
| build_turn na :
    build_step env Q na (set_clock na (S (clock na))).

Definition builds (env : Environment) (Q : NAHMechType -> bool -> bool -> Prop)
  : NAHData -> NAHData -> Prop :=
  rtc (build_step env Q).

(** Conditions on the calls of a guesser. *)
Definition any_mech : NAHMechType -> bool -> bool -> Prop :=
  fun m _ _ => m <> NO_MECH.
Definition offers (P : NAHMechType -> bool -> Prop) (b : bool)
  : NAHMechType -> bool -> bool -> Prop :=
  fun m r b' => P m r /\ b' = b.
Definition with_server_of (m0 : NAHMechType) : NAHMechType -> bool -> Prop :=
  fun m r => m = m0 /\ r = true.
Definition known_with_server : NAHMechType -> bool -> Prop :=
  fun m r => m <> NO_MECH /\ r = true.
Definition kerberos_mech : NAHMechType -> bool -> Prop :=
  fun m _ => m = GSS_KERBEROS.
Definition kerberos_family : NAHMechType -> bool -> Prop :=
  fun m r => m = GSS_KERBEROS \/ (m = GSS_KERBEROS_IAKERB /\ r = true).

(** The server hints name NTLM with the tag [raw]. *)
Definition raw_ntlm (na : NAHData) : bool :=
  match servermechs na with
  | Some d =>
      match d !! kGSSAPIMechNTLMOID with
      | Some data =>
          (Nat.eqb (List.length data) 3 && bool_decide (data = raw_tag))%bool
      | None => false
      end
  | None => false
  end.

(** The service is AFP and the server hints lack the AppleLKDC marker. *)
Definition afp_without_lkdc (na : NAHData) : bool :=
  (comparison_eqb (CFStringCompare (service na) kNAHServiceAFPServer 0)
     kCFCompareEqualTo
   && negb (haveMech na kGSSAPIMechSupportsAppleLKDC))%bool.

(** A selection as [NAHCreate] leaves it. *)
Record selection_wf (s : NAHSelectionData) : Prop := {
  wf_waiting : waiting s = 0;
  wf_canceled : canceled s = false;
  wf_mech : mech s <> NO_MECH;
  wf_client : is_Some (client s);
  wf_latch : is_Some (wait s) -> server s = None;
  wf_ccache : is_Some (ccache s) -> have_cred s = true /\ mech s = GSS_KERBEROS;
  wf_have_cred : have_cred s = true -> is_Some (ccache s) \/ mech s = GSS_NTLM
}.

(** A session as [NAHCreate] leaves it: every selection is well formed,
    the semaphores still held are distinct and were created by this
    session, the background queue holds one resolver for each selection
    that still holds its semaphore and nothing else, and a selection that
    has neither server nor semaphore is one whose realm discovery failed. *)
Record session_wf (env : Environment) (na : NAHData) : Prop := {
  wf_selections :
    forall i s, selections na !! i = Some s -> selection_wf s;
  wf_semaphore :
    forall i s h, selections na !! i = Some s -> wait s = Some h ->
                  (h < next_semaphore na)%nat;
  wf_distinct :
    forall i j s s' h,
      selections na !! i = Some s -> selections na !! j = Some s' ->
      wait s = Some h -> wait s' = Some h -> i = j;
  wf_bgq_NoDup : NoDup (bgq na);
  wf_bgq :
    forall n, n ∈ bgq na
              <-> exists s, selections na !! n = Some s /\ is_Some (wait s);
  wf_failed :
    forall i s, selections na !! i = Some s -> server s = None ->
                wait s = None -> LKDCDiscoverRealm env (hostname na) = None
}.

(** The latch system of a session on which nobody waits yet. *)
Definition latch_of (na : NAHData) : latch_system :=
  {| sys_selections := selections na; sys_semaphores := ∅; sys_waiters := [] |}.

(** What the resolver of [classic_lkdc] leaves of an unresolved selection:
    with a discovered realm, the client and the server in that realm; in
    every case the latch released. *)
Definition resolved_selection (env : Environment) (na : NAHData)
    (s : NAHSelectionData) : NAHSelectionData :=
  let s1 :=
    match LKDCDiscoverRealm env (hostname na) with
    | None => s
    | Some realm =>
        with_client (Some (default EmptyString (client s) +:+ "@" +:+ realm))
          (with_server (Some (service na +:+ "/" +:+ realm +:+ "@" +:+ realm)) s)
    end in
  with_latch None 0 (canceled s1) s1.

(** The session [NAHCreate] returns on a machine with an LKDC cache, for a
    local AFP server and a password. *)
Definition local_session : NAHData :=
  created (NAHCreate lkdc_cache_environment "mac-mini.local" "afpserver"
             (sample_info "bob" (Some "p")))
    (sample_session "" "" "" None).


(** ** What a selection tells *)

Definition kNAHSelectionHaveCredential : string := "kNAHSelectionHaveCredential".
Definition kNAHSelectionUserPrintable : string := "kNAHSelectionUserPrintable".
Definition kNAHClientPrincipal : string := "kNAHClientPrincipal".
Definition kNAHServerPrincipal : string := "kNAHServerPrincipal".
Definition kNAHMechanism : string := "kNAHMechanism".
Definition kNAHInnerMechanism : string := "kNAHInnerMechanism".
Definition kNAHCredentialType : string := "kNAHCredentialType".
Definition kNAHUseSPNEGO : string := "kNAHUseSPNEGO".
Definition kNAHClientNameType : string := "kNAHClientNameType".
Definition kNAHClientNameTypeGSSD : string := "kNAHClientNameTypeGSSD".
Definition kNAHServerNameType : string := "kNAHServerNameType".
Definition kNAHServerNameTypeGSSD : string := "kNAHServerNameTypeGSSD".
Definition kNAHInferredLabel : string := "kNAHInferredLabel".

(** The name of the SPNEGO mechanism, spelled as the source spells it. *)
Definition kGSSAPIMechSPNEGO : string := "SPENGO".

(** Modelled from the spec: the name-type codes of the GSS daemon are
    declared in its headers, not in this file; they are taken as five
    distinct constants. *)
Inductive gssd_nametype : Set :=
| GSSD_USER
| GSSD_KRB5_PRINCIPAL
| GSSD_NTLM_PRINCIPAL
| GSSD_HOSTBASED
| GSSD_KRB5_REFERRAL.

(** The values the accessors hand out: a boolean, a string, a number
    holding a name-type code. *)
Inductive CFTypeRef : Set :=
| CFBooleanRef (b : bool)
| CFStringRef (s : string)
| CFNumberRef (n : gssd_nametype).

#[global] Instance gssd_nametype_eq_dec : EqDecision gssd_nametype.
Proof. solve_decision. Defined.

#[global] Instance CFTypeRef_eq_dec : EqDecision CFTypeRef.
Proof. solve_decision. Defined.

(** [wait_result] for a caller alone with the selection: what it returns
    when it returns at once, and [None] when the caller has to wait on the
    semaphore (the wait itself belongs to the latch system). *)
Definition wait_result_alone (s : NAHSelectionData) : option bool :=
  match wait_result_block s with
  | (_, Some _) => None
  | (_, None) => Some (negb (canceled s))
  end.

(** A call that may have to wait, and may stop the process. *)
Definition waits_bind {A B : Type} (m : option (result A))
    (k : A -> option (result B)) : option (result B) :=
  match m with
  | None => None
  | Some Fault => Some Fault
  | Some (Done a) => k a
  end.

(** [NAHSelectionGetInfoForKey]: the value, [Some None] for [NULL]. *)
Definition NAHSelectionGetInfoForKey (selection : NAHSelectionData)
    (key : string) : option (option CFTypeRef) :=
  match wait_result_alone selection with
  | None => None
  | Some false => Some None
  | Some true =>
      Some
        (if comparison_eqb (CFStringCompare kNAHSelectionHaveCredential key 0)
              kCFCompareEqualTo then
           match ccache selection with
           | Some _ => Some (CFBooleanRef true)
           | None => Some (CFBooleanRef false)
           end
         else if comparison_eqb (CFStringCompare kNAHSelectionUserPrintable key 0)
                   kCFCompareEqualTo then
           CFStringRef <$> client selection
         else if comparison_eqb (CFStringCompare kNAHServerPrincipal key 0)
                   kCFCompareEqualTo then
           CFStringRef <$> server selection
         else if comparison_eqb (CFStringCompare kNAHClientPrincipal key 0)
                   kCFCompareEqualTo then
           CFStringRef <$> client selection
         else if comparison_eqb (CFStringCompare kNAHMechanism key 0)
                   kCFCompareEqualTo then
           if negb (spnego selection)
           then CFStringRef <$> mech2name (mech selection)
           else Some (CFStringRef kGSSAPIMechSPNEGO)
         else if comparison_eqb (CFStringCompare kNAHInnerMechanism key 0)
                   kCFCompareEqualTo then
           CFStringRef <$> mech2name (mech selection)
         else if comparison_eqb (CFStringCompare kNAHUseSPNEGO key 0)
                   kCFCompareEqualTo then
           Some (CFBooleanRef (spnego selection))
         else if comparison_eqb (CFStringCompare kNAHCredentialType key 0)
                   kCFCompareEqualTo then
           CFStringRef <$> mech2name (mech selection)
         else if comparison_eqb (CFStringCompare kNAHInferredLabel key 0)
                   kCFCompareEqualTo then
           CFStringRef <$> inferredLabel selection
         else None)
  end.

(** [CFDictionaryAddValue(dict, key, value)]: a key already present keeps
    its value; a [NULL] value stops the process. *)
Definition CFDictionaryAddValue (dict : gmap string CFTypeRef) (key : string)
    (value : option CFTypeRef) : result (gmap string CFTypeRef) :=
  match value with
  | None => Fault
  | Some v =>
      Done match dict !! key with
           | Some _ => dict
           | None => <[key := v]> dict
           end
  end.

(** [CFDictionaryAddValue(dict, key, NAHSelectionGetInfoForKey(selection,
    infokey))]. *)
Definition add_info (selection : NAHSelectionData) (dict : gmap string CFTypeRef)
    (key : string) : option (result (gmap string CFTypeRef)) :=
  match NAHSelectionGetInfoForKey selection key with
  | None => None
  | Some v => Some (CFDictionaryAddValue dict key v)
  end.

Definition gssdclient_of (clienttype0 : string) : gssd_nametype :=
  if comparison_eqb (CFStringCompare clienttype0 kNAHNTUUID 0) kCFCompareEqualTo
  then GSSD_USER
  else if comparison_eqb (CFStringCompare clienttype0 kNAHNTKRB5Principal 0)
            kCFCompareEqualTo
  then GSSD_KRB5_PRINCIPAL
  else if comparison_eqb (CFStringCompare clienttype0 kNAHNTUsername 0)
            kCFCompareEqualTo
  then GSSD_NTLM_PRINCIPAL
  else GSSD_USER.

Definition gssdserver_of (servertype0 : string) : gssd_nametype :=
  if comparison_eqb (CFStringCompare servertype0 kNAHNTServiceBasedName 0)
       kCFCompareEqualTo
  then GSSD_HOSTBASED
  else if comparison_eqb (CFStringCompare servertype0 kNAHNTKRB5PrincipalReferral 0)
            kCFCompareEqualTo
  then GSSD_KRB5_REFERRAL
  else if comparison_eqb (CFStringCompare servertype0 kNAHNTKRB5Principal 0)
            kCFCompareEqualTo
  then GSSD_KRB5_PRINCIPAL
  else GSSD_HOSTBASED.

(** [NAHSelectionCopyAuthInfo]: the dictionary, [Done None] for [NULL]. *)
Definition NAHSelectionCopyAuthInfo (selection : NAHSelectionData)
  : option (result (option (gmap string CFTypeRef))) :=
  match wait_result_alone selection with
  | None => None
  | Some false => Some (Done None)
  | Some true =>
      match server selection with
      | None => Some (Done None)
      | Some _ =>
          waits_bind (add_info selection ∅ kNAHMechanism) (fun d1 =>
          waits_bind (add_info selection d1 kNAHCredentialType) (fun d2 =>
          waits_bind
            (Some (CFDictionaryAddValue d2 kNAHClientNameType
                     (Some (CFStringRef (clienttype selection))))) (fun d3 =>
          waits_bind
            (Some (CFDictionaryAddValue d3 kNAHServerNameType
                     (Some (CFStringRef (servertype selection))))) (fun d4 =>
          waits_bind
            (Some (CFDictionaryAddValue d4 kNAHClientNameTypeGSSD
                     (Some (CFNumberRef (gssdclient_of (clienttype selection))))))
            (fun d5 =>
          waits_bind
            (Some (CFDictionaryAddValue d5 kNAHServerNameTypeGSSD
                     (Some (CFNumberRef (gssdserver_of (servertype selection))))))
            (fun d6 =>
          waits_bind (add_info selection d6 kNAHClientPrincipal) (fun d7 =>
          waits_bind (add_info selection d7 kNAHServerPrincipal) (fun d8 =>
          waits_bind
            (match NAHSelectionGetInfoForKey selection kNAHInferredLabel with
             | None => None
             | Some None => Some (Done d8)
             | Some (Some string0) =>
                 Some (CFDictionaryAddValue d8 kNAHInferredLabel (Some string0))
             end) (fun d9 =>
          waits_bind (add_info selection d9 kNAHUseSPNEGO) (fun d10 =>
          Some (Done (Some d10))))))))))))
      end
  end.

(** The keys under which [NAHSelectionCopyAuthInfo] stores what
    [NAHSelectionGetInfoForKey] answers. *)
Definition info_keys : list string :=
  [kNAHMechanism; kNAHCredentialType; kNAHClientPrincipal; kNAHServerPrincipal;
   kNAHInferredLabel; kNAHUseSPNEGO].

(** A machine that holds an NTLM credential for [ann@CORP], the
    information of a server that offers NTLM, and the session [NAHCreate]
    returns for them. *)
Definition ntlm_environment : Environment :=
  {| pref_GSSEnable := None;
     pref_UserSelections := None;
     krb5_init_context_ret := 0;
     hx509_context_init_ret := 0;
     cccol := Some [];
     krb5_get_host_realm := fun _ => None;
     krb5_get_default_realms := None;
     gss_iter_creds_NTLM := ["ann@CORP"];
     getlogin := Some "ann";
     CFNetServiceDeconstructServiceName := fun _ => None;
     LKDCDiscoverRealm := fun _ => None;
     resolver_runs := fun _ _ => false |}.

Definition ntlm_info : option Info :=
  Some {| kNAHUserName := Some "ann"; kNAHPassword := None;
          kNAHNegTokenInit :=
            Some {| kSPNEGONegTokenInitMechs :=
                      Some (<[kGSSAPIMechNTLMOID := []]> ∅);
                    kSPNEGONegTokenInitHintsHostname := None |};
          kNAHCertificates := None |}.

Definition smb_session : NAHData :=
  created (NAHCreate ntlm_environment "fs.corp.example.com" "cifs" ntlm_info)
    (sample_session "" "" "" None).

(** Lookups in a dictionary built by insertions under distinct keys. *)
Ltac fresh_key :=
  repeat (rewrite lookup_insert_ne by discriminate); apply lookup_empty.

Ltac find_key :=
  repeat (rewrite lookup_insert_ne by discriminate);
  first [ rewrite lookup_insert_eq; reflexivity | apply lookup_empty ].


(** ** Acquisition through a selection *)

(** Modelled from the spec: [GSS_S_COMPLETE] is declared in the GSS
    headers, not in this file; it is the zero status. *)
Definition GSS_S_COMPLETE : Z := 0.

(** What the GSS provider answers during one acquisition: the status of
    each call, whether the completion of [gss_acquire_cred_ex] receives a
    credential, and the elements of the buffer set of
    [gss_inquire_cred_by_oid] as [CFStringCreateWithBytes] reads them
    ([None] where it returns [NULL]). *)
Record gss_exchange : Type := {
  gss_import_name_major : string -> Z;
  gss_acquire_cred_ex_major : Z;
  gss_acquire_cred_ex_cred : bool;
  gss_aapl_initial_cred_major : Z;
  gss_inquire_cred_by_oid_major : Z;
  gss_inquire_cred_by_oid_dataset : list (option string)
}.

(** What a call of [NAHSelectionAcquireCredentialHaveResult] leaves behind
    once the blocks it dispatched have run: the returned boolean, the
    session, the calls of the result block (each with the code of its
    error, [None] for no error) and the clients handed to
    [KRBCredChangeReferenceCount]. *)
Record acquisition : Type := {
  acq_return : bool;
  acq_na : NAHData;
  acq_results : list (option Z);
  acq_references : list (option string)
}.

Definition with_clienttype (t : string) (s : NAHSelectionData)
  : NAHSelectionData :=
  {| wait := wait s; waiting := waiting s; have_cred := have_cred s;
     canceled := canceled s; mech := mech s; client := client s;
     clienttype := t; server := server s; servertype := servertype s;
     certificate := certificate s; spnego := spnego s;
     inferredLabel := inferredLabel s; ccache := ccache s |}.

(** [return false] with the result block released unused. *)
Definition acquisition_refused (na : NAHData) : acquisition :=
  {| acq_return := false; acq_na := na; acq_results := [];
     acq_references := [] |}.

Definition NAHSelectionAcquireCredentialHaveResult (x : krb5_exchange)
    (g : gss_exchange) (na : NAHData) (selection : nat) : result acquisition :=
  match selections na !! selection with
  | None => Fault
  | Some sel =>
      match mech sel with
      | GSS_KERBEROS =>
          match ccache sel with
          | Some _ =>
              Done {| acq_return := true; acq_na := na; acq_results := [None];
                      acq_references := [client sel] |}
          | None =>
              if (negb (is_some (password na))
                  && negb (is_some (certificate sel)))%bool
              then Done (acquisition_refused na)
              else
                r <- acquire_kerberos x na selection (password na)
                       (certificate sel) ;;
                Done {| acq_return := true; acq_na := snd r;
                        acq_results :=
                          [if Z.eqb (fst r) 0 then None else Some (fst r)];
                        acq_references := [] |}
          end
      | GSS_NTLM =>
          if have_cred sel then
            Done {| acq_return := true; acq_na := na; acq_results := [None];
                    acq_references := [] |}
          else
            match password na with
            | None => Done (acquisition_refused na)
            | Some _ =>
                match client sel with
                | None => Fault
                | Some user =>
                    if negb (Z.eqb (gss_import_name_major g user) 0)
                    then Done (acquisition_refused na)
                    else
                      let na1 :=
                        update_selection na selection
                          (with_inferredLabel (Some user)) in
                      let error :=
                        if Z.eqb (gss_acquire_cred_ex_major g) GSS_S_COMPLETE
                        then if gss_acquire_cred_ex_cred g then None else Some 1
                        else Some (gss_acquire_cred_ex_major g) in
                      Done {| acq_return := true; acq_na := na1;
                              acq_results := [error]; acq_references := [] |}
                end
            end
      | GSS_KERBEROS_IAKERB =>
          if (have_cred sel || negb (is_some (password na)))%bool
          then Done (acquisition_refused na)
          else
            match client sel with
            | None => Fault
            | Some user =>
                if negb (Z.eqb (gss_import_name_major g user) 0)
                then Done (acquisition_refused na)
                else
                  let na1 :=
                    update_selection na selection
                      (with_inferredLabel (Some user)) in
                  if negb (Z.eqb (gss_aapl_initial_cred_major g) 0)
                  then Done (acquisition_refused na1)
                  else if (negb (Z.eqb (gss_inquire_cred_by_oid_major g) 0)
                           || negb (Nat.eqb
                                      (List.length
                                         (gss_inquire_cred_by_oid_dataset g)) 1))%bool
                  then Done (acquisition_refused na1)
                  else
                    let na2 :=
                      match gss_inquire_cred_by_oid_dataset g with
                      | Some newclient :: _ =>
                          update_selection na1 selection
                            (fun s =>
                               with_clienttype kNAHNTUUID
                                 (with_client (Some newclient) s))
                      | _ => na1
                      end in
                    Done {| acq_return := true; acq_na := na2;
                            acq_results := [None]; acq_references := [] |}
            end
      | _ => Done (acquisition_refused na)
      end
  end.


(** The fields an acquisition never writes. *)
Definition acquire_frame (s : NAHSelectionData) :=
  (wait s, waiting s, have_cred s, canceled s, mech s, servertype s,
   certificate s, spnego s, ccache s).

(** The session differs from [na] at most in the fields of selection [n]
    that an acquisition writes, and the selection keeps a client if it had
    one. *)
Definition acquired_from (na : NAHData) (n : nat) (na' : NAHData) : Prop :=
  inputs na' = inputs na /\ bgq na' = bgq na
  /\ next_semaphore na' = next_semaphore na
  /\ List.length (selections na') = List.length (selections na)
  /\ (forall i, i <> n -> selections na' !! i = selections na !! i)
  /\ (forall sel, selections na !! n = Some sel ->
        exists sel', selections na' !! n = Some sel'
                     /\ acquire_frame sel' = acquire_frame sel
                     /\ (is_Some (client sel) -> is_Some (client sel'))).

(** A provider that grants every request, and one that refuses every
    request. *)
Definition willing_gss : gss_exchange :=
  {| gss_import_name_major := fun _ => 0;
     gss_acquire_cred_ex_major := 0;
     gss_acquire_cred_ex_cred := true;
     gss_aapl_initial_cred_major := 0;
     gss_inquire_cred_by_oid_major := 0;
     gss_inquire_cred_by_oid_dataset := [] |}.

Definition unwilling_gss : gss_exchange :=
  {| gss_import_name_major := fun _ => 1;
     gss_acquire_cred_ex_major := 1;
     gss_acquire_cred_ex_cred := false;
     gss_aapl_initial_cred_major := 1;
     gss_inquire_cred_by_oid_major := 1;
     gss_inquire_cred_by_oid_dataset := [] |}.


(** The same with a password, and what a granted NTLM acquisition makes
    of it. *)
Definition ntlm_password_session : NAHData :=
  set_selections (sample_session "fs.corp.example.com" "cifs" "ann" (Some "p"))
    [sample_selection GSS_NTLM "ann@CORP"].

Definition ntlm_acquisition : acquisition :=
  {| acq_return := true;
     acq_na :=
       update_selection ntlm_password_session O
         (with_inferredLabel (Some "ann@CORP"));
     acq_results := [None];
     acq_references := [] |}.


(** ** References to credentials *)

Definition nah_created : string := "nah-created".

Inductive gss_OID : Set :=
| GSS_KRB5_MECHANISM
| GSS_NTLM_MECHANISM.

#[global] Instance gss_OID_eq_dec : EqDecision gss_OID.
Proof. solve_decision. Defined.

Abbreviation gss_cred_id_t := nat (only parsing).

(** What the GSS credential store answers: whether a name imports, the
    credential held for a name under a mechanism, whether a credential
    carries a label, and the credentials [gss_iter_creds] hands to its
    block ([None] for a null credential). *)
Record gss_credentials : Type := {
  gss_import_name : string -> bool;
  gss_acquire_cred : gss_OID -> string -> option gss_cred_id_t;
  gss_cred_label_get : gss_cred_id_t -> string -> bool;
  gss_iter_creds : list (option gss_cred_id_t)
}.

(** The calls that change a credential. *)
Inductive gss_cred_call : Set :=
| gss_cred_hold (cred : gss_cred_id_t)
| gss_cred_unhold (cred : gss_cred_id_t)
| gss_cred_label_set (cred : gss_cred_id_t) (label : string)
    (value : option string).

Definition call_cred (c : gss_cred_call) : gss_cred_id_t :=
  match c with
  | gss_cred_hold cred => cred
  | gss_cred_unhold cred => cred
  | gss_cred_label_set cred _ _ => cred
  end.

(** The inner block of [CredChange], for the mechanism and the name the
    reference key gave: the returned boolean and the calls made. *)
Definition CredChange_named (g : gss_credentials) (oid : gss_OID)
    (name : string) (count : Z) (label : option string)
  : bool * list gss_cred_call :=
  if negb (gss_import_name g name) then (false, [])
  else
    match gss_acquire_cred g oid name with
    | None => (false, [])
    | Some cred =>
        if negb (gss_cred_label_get g cred nah_created) then (false, [])
        else
          (true,
           ((if Z.eqb count 0 then []
             else if Z.ltb 0 count then [gss_cred_hold cred]
             else [gss_cred_unhold cred])
            ++ match label with
               | Some l => [gss_cred_label_set cred l (Some "1")]
               | None => []
               end)%list)
    end.

Definition CredChange (g : gss_credentials) (referenceKey : option string)
    (count : Z) (label : option string) : bool * list gss_cred_call :=
  match referenceKey with
  | None => (false, [])
  | Some key =>
      match (if CFStringHasPrefix key "krb5:" then Some GSS_KRB5_MECHANISM
             else if CFStringHasPrefix key "ntlm:" then Some GSS_NTLM_MECHANISM
             else None) with
      | None => (false, [])
      | Some oid =>
          CredChange_named g oid
            (CFStringCreateWithSubstring key 5 (String.length key - 5))
            count label
      end
  end.


Definition NAHCredAddReference (g : gss_credentials)
    (referenceKey : option string) : bool * list gss_cred_call :=
  CredChange g referenceKey 1 None.

Definition NAHCredRemoveReference (g : gss_credentials)
    (referenceKey : option string) : bool * list gss_cred_call :=
  CredChange g referenceKey (-1) None.

(** The block of [NAHFindByLabelAndRelease] for one credential. *)
Definition release_labelled (g : gss_credentials) (identifier : string)
    (cred : option gss_cred_id_t) : list gss_cred_call :=
  match cred with
  | None => []
  | Some c =>
      if negb (gss_cred_label_get g c nah_created) then []
      else if gss_cred_label_get g c identifier
      then [gss_cred_label_set c identifier None; gss_cred_unhold c]
      else []
  end.

Definition NAHFindByLabelAndRelease (g : gss_credentials) (identifier : string)
  : list gss_cred_call :=
  flat_map (release_labelled g identifier) (gss_iter_creds g).

(** The mechanism under which the credential of a selection is kept. *)
Definition credential_oid (m : NAHMechType) : option gss_OID :=
  match m with
  | GSS_KERBEROS | GSS_KERBEROS_PKU2U | GSS_KERBEROS_IAKERB =>
      Some GSS_KRB5_MECHANISM
  | GSS_NTLM => Some GSS_NTLM_MECHANISM
  | _ => None
  end.

(** A store with one credential made by this library, for [ann@CORP]
    under NTLM. *)
Definition sample_credentials : gss_credentials :=
  {| gss_import_name := fun _ => true;
     gss_acquire_cred :=
       fun oid name =>
         if (bool_decide (oid = GSS_NTLM_MECHANISM)
             && String.eqb name "ann@CORP")%bool
         then Some 1%nat else None;
     gss_cred_label_get := fun _ l => String.eqb l nah_created;
     gss_iter_creds := [Some 1%nat] |}.


(** ** The synchronous acquisition *)

(** What [NAHSelectionAcquireCredential] leaves behind: the returned
    boolean, the error stored through [error] ([None] for [NULL]), and
    the session. *)
Record sync_acquisition : Type := {
  sync_return : bool;
  sync_error : option Z;
  sync_na : NAHData
}.

(** The first block of [NAHSelectionAcquireCredential]: [abort] when a
    waiter is counted, else the caller counts itself, on a new semaphore
    if the selection has none. *)
Definition acquire_block (na : NAHData) (selection : nat) : result NAHData :=
  match selections na !! selection with
  | None => Fault
  | Some sel =>
      if negb (Z.eqb (waiting sel) 0) then Fault
      else
        match wait sel with
        | Some _ =>
            Done (update_selection na selection
                    (fun s => with_latch (wait s) 1 (canceled s) s))
        | None =>
            Done (update_selection
                    (set_next_semaphore na (S (next_semaphore na))) selection
                    (fun s => with_latch (Some (next_semaphore na)) 1
                                (canceled s) s))
        end
  end.

(** The block that runs when the inner call returned false. *)
Definition acquire_unwind (s : NAHSelectionData) : NAHSelectionData :=
  if Z.eqb (waiting s - 1) 0
  then with_latch None (waiting s - 1) (canceled s) s
  else with_latch (wait s) (waiting s - 1) (canceled s) s.

(** One run of the result block that [NAHSelectionAcquireCredential]
    passes on: it records the outcome and the error, and ends with
    [signal_result]. *)
Definition acquire_result_block (selection : nat)
    (st : bool * option Z * NAHData) (e : option Z) : bool * option Z * NAHData :=
  let '(_, error, na) := st in
  (match e with Some _ => false | None => true end,
   match e with Some _ => e | None => error end,
   update_selection na selection (fun s => fst (signal_result_block s ∅))).

(** [NAHSelectionAcquireCredential] for a caller alone with the session,
    in the schedule in which the blocks the inner call dispatched run
    before the caller's last [wait_result]; [error0] is what [*error] held
    before the call, and [None] stands for a caller left waiting. *)
Definition NAHSelectionAcquireCredential (x : krb5_exchange) (g : gss_exchange)
    (na : NAHData) (selection : nat) (error0 : option Z)
  : option (result sync_acquisition) :=
  match selections na !! selection with
  | None => Some Fault
  | Some sel =>
      match wait_result_alone sel with
      | None => None
      | Some false =>
          Some (Done {| sync_return := false; sync_error := error0;
                        sync_na := na |})
      | Some true =>
          match acquire_block na selection with
          | Fault => Some Fault
          | Done na1 =>
              match NAHSelectionAcquireCredentialHaveResult x g na1 selection with
              | Fault => Some Fault
              | Done o =>
                  if negb (acq_return o) then
                    Some (Done {| sync_return := false; sync_error := None;
                                  sync_na :=
                                    update_selection (acq_na o) selection
                                      acquire_unwind |})
                  else
                    let '(b, error, na2) :=
                      foldl (acquire_result_block selection)
                        (false, error0, acq_na o) (acq_results o) in
                    match selections na2 !! selection with
                    | None => Some Fault
                    | Some sel2 =>
                        match wait_result_alone sel2 with
                        | None => None
                        | Some false =>
                            Some (Done {| sync_return := false;
                                          sync_error := error; sync_na := na2 |})
                        | Some true =>
                            Some (Done {| sync_return := b;
                                          sync_error := error; sync_na := na2 |})
                        end
                    end
              end
          end
      end
  end.


(** ** The names the guessers make *)

(** The server of the classic Kerberos selection for a user of [domain]:
    the realm is the domain in upper case. *)
Definition classic_server (na : NAHData) (domain : string) : string :=
  service na +:+ "/" +:+ hostname na +:+ "@" +:+ CFStringUppercase domain.

(** The client of the NTLM selection [guess_ntlm] makes of the user name:
    [user@domain] as it is, [DOMAIN\user] turned around, and a plain name
    with the host as its domain. *)
Definition ntlm_client (na : NAHData) : string :=
  match CFStringFind (username na) "@" with
  | Some _ => username na
  | None =>
      match CFStringFind (username na) backslash with
      | Some loc =>
          CFStringCreateWithSubstring (username na) (loc + 1)
            (String.length (username na) - (loc + 1))
          +:+ "@" +:+ CFStringCreateWithSubstring (username na) 0 loc
      | None => username na +:+ "@" +:+ backslash +:+ hostname na
      end
  end.

Definition ntlm_server (na : NAHData) : string :=
  service na +:+ "@" +:+ hostname na.

(** The information of a user of a realm, with a password and a server
    that offers NTLM, and the session [NAHCreate] returns for it on a host
    that is not local. *)
Definition realm_user_info : Info :=
  {| kNAHUserName := Some ("ann" +:+ "@" +:+ "corp.example.com");
     kNAHPassword := Some "p";
     kNAHNegTokenInit :=
       Some {| kSPNEGONegTokenInitMechs :=
                 Some (<[kGSSAPIMechNTLMOID := []]>
                         (<[kGSSAPIMechKerberosOID := []]> ∅));
               kSPNEGONegTokenInitHintsHostname := None |};
     kNAHCertificates := None |}.

Definition realm_session : NAHData :=
  created (NAHCreate quiet_environment "fs.corp.example.com" "cifs"
             (Some realm_user_info))
    (sample_session "" "" "" None).

(** * Properties *)

(** ** Strings *)

Lemma comparison_eqb_eq x y : comparison_eqb x y = true <-> x = y.
Proof. destruct x, y; simpl; split; congruence. Qed.

Lemma string_compare_refl (s : string) : String.compare s s = Eq.
Proof.
  induction s as [|c s IH]; simpl; [reflexivity|].
  unfold Ascii.compare. rewrite N.compare_refl. exact IH.
Qed.

Lemma string_compare_eq (a b : string) : String.compare a b = Eq <-> a = b.
Proof.
  split; [apply String.compare_eq_iff | intros ->; apply string_compare_refl].
Qed.

Lemma CFStringCompare_literal a b :
  comparison_eqb (CFStringCompare a b 0) kCFCompareEqualTo = true <-> a = b.
Proof.
  unfold CFStringCompare, kCFCompareEqualTo. simpl.
  rewrite comparison_eqb_eq. apply string_compare_eq.
Qed.

Lemma CFStringCompare_literal_false a b :
  comparison_eqb (CFStringCompare a b 0) kCFCompareEqualTo = false <-> a <> b.
Proof.
  rewrite <- CFStringCompare_literal.
  destruct (comparison_eqb _ _); split; congruence.
Qed.

Lemma prefix_begins_with pre s :
  String.prefix pre s = true <-> begins_with s pre.
Proof.
  unfold begins_with. revert s.
  induction pre as [|a pre IH]; intros s; simpl.
  - split; [intros _; exists s; reflexivity | intros _; destruct s; reflexivity].
  - destruct s as [|b s]; simpl.
    + split; [discriminate | intros [r Hr]; discriminate].
    + destruct (Ascii.ascii_dec a b) as [->|Hab].
      * rewrite IH. split; intros [r Hr]; exists r;
          [rewrite Hr; reflexivity
          | change (String b s = String b (pre +:+ r)) in Hr; injection Hr; auto].
      * split; [discriminate|]. intros [r Hr].
        change (String b s = String a (pre +:+ r)) in Hr. congruence.
Qed.

Lemma CFStringHasPrefix_begins_with s pre :
  CFStringHasPrefix s pre = true -> begins_with s pre.
Proof.
  unfold CFStringHasPrefix. destruct pre; [discriminate|].
  apply prefix_begins_with.
Qed.

Lemma string_app_cons c (a b : string) :
  String c a +:+ b = String c (a +:+ b).
Proof. reflexivity. Qed.

Lemma string_app_nil (b : string) : EmptyString +:+ b = b.
Proof. reflexivity. Qed.

Lemma length_app_string (a b : string) :
  String.length (a +:+ b) = (String.length a + String.length b)%nat.
Proof.
  induction a as [|c a IH]; [reflexivity|].
  rewrite string_app_cons. simpl. congruence.
Qed.

Lemma substring_app_drop (a b : string) :
  String.substring (String.length a) (String.length b) (a +:+ b) = b.
Proof.
  induction a as [|c a IH].
  - rewrite string_app_nil. simpl.
    induction b as [|c b IHb]; simpl; [reflexivity|].
    f_equal. exact IHb.
  - rewrite string_app_cons. simpl. exact IH.
Qed.

Lemma substring_split (n : nat) (s : string) :
  (n <= String.length s)%nat ->
  s = String.substring 0 n s +:+ String.substring n (String.length s - n) s.
Proof.
  revert s. induction n as [|n IH]; intros s Hn.
  - rewrite Nat.sub_0_r.
    replace (String.substring 0 0 s) with EmptyString by (destruct s; reflexivity).
    rewrite string_app_nil. clear.
    induction s as [|c s IHs]; simpl; [reflexivity|].
    f_equal. exact IHs.
  - destruct s as [|c s]; simpl in *; [lia|].
    rewrite string_app_cons. f_equal. apply IH. lia.
Qed.

Lemma CFStringHasSuffix_ends_in s suf :
  suf <> EmptyString ->
  (CFStringHasSuffix s suf = true <-> ends_in s suf).
Proof.
  intros Hne. unfold CFStringHasSuffix, ends_in.
  destruct suf as [|c suf]; [congruence|].
  set (x := String c suf) in *.
  rewrite andb_true_iff, Nat.leb_le, String.eqb_eq. split.
  - intros [Hle Hsub].
    exists (String.substring 0 (String.length s - String.length x) s).
    pose proof (substring_split (String.length s - String.length x) s) as H.
    replace (String.length s - (String.length s - String.length x))%nat
      with (String.length x) in H by lia.
    rewrite Hsub in H. apply H. lia.
  - intros [front ->]. rewrite length_app_string. split; [lia|].
    replace (String.length front + String.length x - String.length x)%nat
      with (String.length front) by lia.
    apply substring_app_drop.
Qed.

Lemma is_local_hostname_ends_in h :
  is_local_hostname h = true
  <-> ends_in h ".local" \/ ends_in h ".members.mac.com"
      \/ ends_in h ".members.me.com".
Proof.
  unfold is_local_hostname.
  rewrite <- !CFStringHasSuffix_ends_in by discriminate.
  destruct (CFStringHasSuffix h ".local"),
    (CFStringHasSuffix h ".members.mac.com"),
    (CFStringHasSuffix h ".members.me.com"); intuition congruence.
Qed.


(** ** addSelection *)

Lemma is_duplicate_true r c sv st m :
  is_duplicate r c sv st m = true
  <-> mech r = m /\ client r = Some c
      /\ (forall s t, server r = Some s -> sv = Some t -> s = t)
      /\ servertype r = st.
Proof.
  unfold is_duplicate.
  destruct (bool_decide_reflect (mech r = m)) as [Hm|Hm]; simpl;
    [|split; [discriminate | tauto]].
  destruct (bool_decide_reflect (client r = Some c)) as [Hc|Hc]; simpl;
    [|split; [discriminate | tauto]].
  destruct (comparison_eqb (CFStringCompare (servertype r) st 0)
              kCFCompareEqualTo) eqn:Hst.
  - apply CFStringCompare_literal in Hst.
    destruct (server r) as [s|], sv as [t|]; simpl;
      try (split; [intros _; repeat split; auto; congruence | reflexivity]).
    destruct (comparison_eqb (CFStringCompare s t 0) kCFCompareEqualTo) eqn:Hs;
      simpl.
    + apply CFStringCompare_literal in Hs.
      split; [intros _; repeat split; auto; congruence | reflexivity].
    + apply CFStringCompare_literal_false in Hs.
      split; [discriminate|]. intros (_ & _ & H & _).
      exfalso. apply Hs. apply H; reflexivity.
  - apply CFStringCompare_literal_false in Hst.
    destruct (match server r with
              | Some s => match sv with
                          | Some s0 => _
                          | None => false
                          end
              | None => false
              end); simpl; (split; [discriminate | tauto]).
Qed.

Lemma find_duplicate_Some l n c sv st m k :
  find_duplicate l n c sv st m = Some k ->
  exists r, (n <= k)%nat /\ l !! (k - n)%nat = Some r
            /\ is_duplicate r c sv st m = true.
Proof.
  revert n. induction l as [|a l IH]; intros n; simpl; [discriminate|].
  destruct (is_duplicate a c sv st m) eqn:Ha.
  - intros [= <-]. exists a. rewrite Nat.sub_diag. auto.
  - intros H. destruct (IH _ H) as (r & Hle & Hr & Hd).
    exists r. split; [lia|]. split; [|exact Hd].
    replace (k - n)%nat with (S (k - S n)) by lia. exact Hr.
Qed.

Lemma find_duplicate_None l n c sv st m :
  find_duplicate l n c sv st m = None ->
  forall i r, l !! i = Some r -> is_duplicate r c sv st m = false.
Proof.
  revert n. induction l as [|a l IH]; intros n; simpl.
  - intros _ i r H. rewrite lookup_nil in H. discriminate.
  - destruct (is_duplicate a c sv st m) eqn:Ha; [discriminate|].
    intros H [|i] r; simpl; [congruence | eauto].
Qed.

Lemma find_duplicate_is_Some l n c sv st m i r :
  l !! i = Some r -> is_duplicate r c sv st m = true ->
  exists k, find_duplicate l n c sv st m = Some k.
Proof.
  intros Hi Hr.
  destruct (find_duplicate l n c sv st m) as [k|] eqn:H; [eauto|].
  rewrite (find_duplicate_None _ _ _ _ _ _ H _ _ Hi) in Hr. discriminate.
Qed.

Lemma addSelection_cases na c ct sv st m flags :
  addSelection_outcome na c ct sv st m flags (addSelection na c ct sv st m flags).
Proof.
  unfold addSelection.
  destruct (flag_set flags FORCE_ADD) eqn:Hf; simpl.
  2: destruct (specificname na) as [sn|] eqn:Hsn.
  2: destruct (CFStringHasPrefix c sn) eqn:Hp; simpl.
  3: { eapply outcome_filtered; eauto. }
  all: destruct (find_duplicate (selections na) 0 c sv
                   (default kNAHNTServiceBasedName st) m) as [k|] eqn:Hfind.
  all: try (apply find_duplicate_Some in Hfind as (r & _ & Hr & Hd);
            rewrite Nat.sub_0_r in Hr; eapply outcome_duplicate; eauto).
  all: pose proof (find_duplicate_None _ _ _ _ _ _ Hfind) as Hnone.
  all: destruct sv; eapply outcome_appended; eauto.
Qed.


Lemma has_key_of_is_duplicate r c :
  has_key_of r c
  <-> is_duplicate r (call_client c) (call_server c)
        (default kNAHNTServiceBasedName (call_servertype c)) (call_mech c) = true.
Proof. unfold has_key_of. rewrite is_duplicate_true. reflexivity. Qed.

Lemma passes_filter_dec na c :
  passes_filter na c
  \/ (flag_set (call_flags c) FORCE_ADD = false
      /\ exists sn, specificname na = Some sn
                    /\ CFStringHasPrefix (call_client c) sn = false).
Proof.
  unfold passes_filter.
  destruct (flag_set (call_flags c) FORCE_ADD); [auto|].
  destruct (specificname na) as [sn|]; [|auto].
  destruct (CFStringHasPrefix (call_client c) sn) eqn:H; [left|right]; eauto.
Qed.

Lemma unique_selections_nil : unique_selections [].
Proof. intros i j a b H. rewrite lookup_nil in H. discriminate. Qed.

Lemma unique_selections_snoc l nasel c sv st m :
  unique_selections l ->
  (forall i r, l !! i = Some r -> is_duplicate r c sv st m = false) ->
  mech nasel = m -> client nasel = Some c -> server nasel = sv ->
  servertype nasel = st ->
  unique_selections (l ++ [nasel]).
Proof.
  intros Hu Hnone Hm Hc Hs Ht i j a b Hi Hj Hk.
  apply lookup_app_Some in Hi as [Hi|[Hil Hi]];
    apply lookup_app_Some in Hj as [Hj|[Hjl Hj]].
  - eapply Hu; eauto.
  - apply list_lookup_singleton_Some in Hj as [_ <-].
    exfalso. pose proof (Hnone _ _ Hi) as Hd.
    destruct Hk as (K1 & K2 & K3 & K4).
    assert (is_duplicate a c sv st m = true); [|congruence].
    apply is_duplicate_true. repeat split; try congruence.
    intros s t Hs1 Hs2. apply K3; congruence.
  - apply list_lookup_singleton_Some in Hi as [_ <-].
    exfalso. pose proof (Hnone _ _ Hj) as Hd.
    destruct Hk as (K1 & K2 & K3 & K4).
    assert (is_duplicate b c sv st m = true); [|congruence].
    apply is_duplicate_true. repeat split; try congruence.
    intros s t Hs1 Hs2. symmetry. apply K3; congruence.
  - apply list_lookup_singleton_Some in Hi as [Hi _].
    apply list_lookup_singleton_Some in Hj as [Hj _]. lia.
Qed.

Lemma addSelection_unique na c ct sv st m flags :
  unique_selections (selections na) ->
  unique_selections (selections (res_na (addSelection na c ct sv st m flags))).
Proof.
  intros Hu.
  destruct (addSelection_cases na c ct sv st m flags); simpl; try assumption.
  match goal with H : selections _ = _ |- _ => rewrite H end.
  eapply unique_selections_snoc; eauto.
Qed.

Lemma calls_preserve_unique na calls :
  unique_selections (selections na) ->
  unique_selections (selections (addSelection_calls na calls)).
Proof.
  unfold addSelection_calls. revert na.
  induction calls as [|c calls IH]; intros na Hu; simpl; [exact Hu|].
  apply IH. apply addSelection_unique. exact Hu.
Qed.

Lemma addSelection_duplicate_found na c i r :
  selections na !! i = Some r -> has_key_of r c -> passes_filter na c ->
  exists n sel,
    addSelection_of na c
    = {| res_na := na; res_nasel := Some n; res_duplicate := Some 1 |}
    /\ selections na !! n = Some sel /\ has_key_of sel c.
Proof.
  intros Hi Hk Hp. unfold addSelection_of.
  apply has_key_of_is_duplicate in Hk.
  destruct (addSelection_cases na (call_client c) (call_clienttype c)
              (call_server c) (call_servertype c) (call_mech c) (call_flags c))
    as [sn Hf Hsn Hpre | n sel Hn Hd | na' nasel Hnone].
  - exfalso. destruct Hp as [Hp|[Hp|(sn' & Hp & Hq)]]; congruence.
  - exists n, sel. split; [reflexivity|]. split; [exact Hn|].
    apply has_key_of_is_duplicate. exact Hd.
  - rewrite (Hnone _ _ Hi) in Hk. discriminate.
Qed.

Lemma addSelection_filtered na c :
  ~ passes_filter na c ->
  addSelection_of na c
  = {| res_na := na; res_nasel := None; res_duplicate := None |}.
Proof.
  intros Hp. destruct (passes_filter_dec na c) as [H|(Hf & sn & Hsn & Hpre)];
    [contradiction|].
  unfold addSelection_of, addSelection. rewrite Hf, Hsn, Hpre. reflexivity.
Qed.

(** C2. With a specific-name present, the FORCE_ADD flag clear and a client
    that does not begin with the specific-name, [addSelection] returns no
    selection, stores nothing through [duplicate] and leaves the session,
    its selection list included, as it was. *)
Theorem addSelection_filter_noop (na : NAHData) (c : string)
    (ct sv st : option string) (m : NAHMechType) (flags : Z) (sn : string)
    (Hspecific : specificname na = Some sn)
    (Hforce : Z.land flags FORCE_ADD = 0)
    (Hclient : ~ begins_with c sn) :
  addSelection na c ct sv st m flags
  = {| res_na := na; res_nasel := None; res_duplicate := None |}.
Proof.
  unfold addSelection, flag_set. rewrite Hforce, Hspecific. simpl.
  destruct (CFStringHasPrefix c sn) eqn:Hp; [|reflexivity].
  exfalso. apply Hclient. apply CFStringHasPrefix_begins_with. exact Hp.
Qed.

(** C10. A call of [addSelection] that finds a duplicate leaves the whole
    session as it was: every selection of the list, the one returned
    included, keeps all its fields (client, server, name types, SPNEGO
    flag, mechanism, certificate, cache, have_cred, latch), the list keeps
    its length, and no semaphore is created, whatever flags, client type
    and server the caller passed. *)
Theorem addSelection_duplicate_frame (na : NAHData) (c : addSelection_call)
    (i : nat) (r : NAHSelectionData)
    (Hexisting : selections na !! i = Some r)
    (Hkey : has_key_of r c)
    (Hfilter : passes_filter na c) :
  res_na (addSelection_of na c) = na
  /\ res_duplicate (addSelection_of na c) = Some 1
  /\ (exists n sel,
        res_nasel (addSelection_of na c) = Some n
        /\ selections na !! n = Some sel /\ has_key_of sel c
        /\ selections (res_na (addSelection_of na c)) !! n = Some sel)
  /\ selections (res_na (addSelection_of na c)) = selections na
  /\ next_semaphore (res_na (addSelection_of na c)) = next_semaphore na.
Proof.
  destruct (addSelection_duplicate_found _ _ _ _ Hexisting Hkey Hfilter)
    as (n & sel & -> & Hn & Hk); simpl.
  repeat split; try reflexivity. exists n, sel. auto.
Qed.


(** ** What every guesser preserves *)

Lemma guesses_refl env Q na : guesses env Q na na.
Proof. apply rtc_refl. Qed.

Lemma guesses_trans env Q na1 na2 na3 :
  guesses env Q na1 na2 -> guesses env Q na2 na3 -> guesses env Q na1 na3.
Proof. intros H1 H2. unfold guesses in *. etrans; eassumption. Qed.

Lemma guesses_mono env (Q Q' : NAHMechType -> option string -> Prop) na na' :
  (forall m sv, Q m sv -> Q' m sv) -> guesses env Q na na' -> guesses env Q' na na'.
Proof.
  intros HQ H. induction H as [|x y z Hxy _ IH]; [apply rtc_refl|].
  eapply rtc_l; [|exact IH].
  destruct Hxy; [apply guess_add; auto | apply guess_write; auto
                | eapply guess_dispatch; eauto | apply guess_contexts
                | eapply guess_resolve; eauto | apply guess_turn].
Qed.

Lemma guesses_add env Q na na1 c ct sv st m flags :
  guesses env Q na na1 -> Q m sv ->
  guesses env Q na (res_na (addSelection na1 c ct sv st m flags)).
Proof. intros H HQ. eapply rtc_r; [exact H | apply guess_add; exact HQ]. Qed.

Lemma guesses_write env Q na na1 n f :
  guesses env Q na na1 -> (forall s, key_view (f s) = key_view s) ->
  guesses env Q na (update_selection na1 n f).
Proof. intros H Hf. eapply rtc_r; [exact H | apply guess_write; exact Hf]. Qed.

Lemma guesses_dispatch env Q na na1 n sel :
  guesses env Q na na1 ->
  selections na1 !! n = Some sel -> server sel = None -> n ∉ bgq na1 ->
  guesses env Q na (dispatch_async_bgq na1 n).
Proof.
  intros H Hn Hsv Hq. eapply rtc_r; [exact H | eapply guess_dispatch; eauto].
Qed.

Lemma guesses_contexts env Q na na1 c h :
  guesses env Q na na1 -> guesses env Q na (set_contexts na1 c h).
Proof. intros H. eapply rtc_r; [exact H | apply guess_contexts]. Qed.

Lemma guesses_foldl {A : Type} env Q (f : NAHData -> A -> NAHData) (l : list A) na na1 :
  (forall a x, guesses env Q a (f a x)) ->
  guesses env Q na na1 -> guesses env Q na (foldl f na1 l).
Proof.
  intros Hf. revert na1. induction l as [|x l IH]; intros na1 H; simpl; [exact H|].
  apply IH. eapply guesses_trans; [exact H | apply Hf].
Qed.

Lemma keys_alter na n f :
  (forall s, key_view (f s) = key_view s) ->
  keys (update_selection na n f) = keys na.
Proof.
  intros Hf. unfold keys, update_selection. simpl.
  generalize (selections na). intros l. revert n.
  induction l as [|a l IH]; intros [|n]; simpl; try reflexivity.
  - rewrite Hf. reflexivity.
  - f_equal. apply IH.
Qed.

(** *** A resolver, seen from the list *)

Lemma classic_lkdc_background_selections env na n :
  selections (classic_lkdc_background env na n)
  = alter (fun s =>
             fst (signal_result_block
                    match LKDCDiscoverRealm env (hostname na) with
                    | None => s
                    | Some realm =>
                        with_client
                          (Some (default EmptyString (client s) +:+ "@" +:+ realm))
                          (with_server
                             (Some (service na +:+ "/" +:+ realm +:+ "@" +:+ realm))
                             s)
                    end ∅)) n (selections na)
  /\ inputs (classic_lkdc_background env na n) = inputs na.
Proof.
  unfold classic_lkdc_background.
  destruct (LKDCDiscoverRealm env (hostname na)) as [realm|]; simpl;
    [|split; reflexivity].
  rewrite list_alter_alter_eq. split; reflexivity.
Qed.

Lemma classic_lkdc_background_frame env na n :
  bgq (classic_lkdc_background env na n) = bgq na
  /\ clock (classic_lkdc_background env na n) = clock na
  /\ next_semaphore (classic_lkdc_background env na n) = next_semaphore na
  /\ context (classic_lkdc_background env na n) = context na
  /\ hxctx (classic_lkdc_background env na n) = hxctx na.
Proof.
  unfold classic_lkdc_background.
  destruct (LKDCDiscoverRealm env (hostname na)); simpl; auto.
Qed.

(** What the resolver leaves of a selection. *)
Lemma signal_result_block_fields s sems :
  frame_view (fst (signal_result_block s sems))
  = (None, (match wait s with
            | Some _ => waiting s - Z.of_nat (Z.to_nat (waiting s))
            | None => waiting s
            end), canceled s, mech s, client s, clienttype s, server s,
     servertype s, spnego s)
  /\ certificate (fst (signal_result_block s sems)) = certificate s
  /\ inferredLabel (fst (signal_result_block s sems)) = inferredLabel s
  /\ ccache (fst (signal_result_block s sems)) = ccache s
  /\ have_cred (fst (signal_result_block s sems)) = have_cred s.
Proof.
  unfold signal_result_block, signal_waiters, frame_view.
  destruct (wait s) eqn:Hw; simpl; rewrite ?Hw; auto.
Qed.

Lemma run_resolver_frame env na n :
  inputs (run_resolver env na n) = inputs na
  /\ clock (run_resolver env na n) = clock na
  /\ bgq (run_resolver env na n) = filter (fun k => k <> n) (bgq na)
  /\ next_semaphore (run_resolver env na n) = next_semaphore na
  /\ context (run_resolver env na n) = context na
  /\ hxctx (run_resolver env na n) = hxctx na
  /\ (forall i, i <> n ->
                selections (run_resolver env na n) !! i = selections na !! i)
  /\ List.length (selections (run_resolver env na n))
     = List.length (selections na).
Proof.
  destruct (classic_lkdc_background_selections env na n) as [Hs Hi].
  destruct (classic_lkdc_background_frame env na n) as (Hb & Hc & Hn & Hx & Hh).
  unfold run_resolver.
  set (a := classic_lkdc_background env na n) in *.
  change (inputs (set_bgq a (filter (fun k => k <> n) (bgq na))))
    with (inputs a).
  change (selections (set_bgq a (filter (fun k => k <> n) (bgq na))))
    with (selections a).
  rewrite Hs. cbn [set_bgq clock bgq next_semaphore context hxctx].
  repeat split; auto.
  - intros i Hne. apply list_lookup_alter_ne. congruence.
  - apply length_alter.
Qed.

Lemma run_resolver_selection env na n sel :
  selections na !! n = Some sel ->
  exists sel',
    selections (run_resolver env na n) !! n = Some sel'
    /\ mech sel' = mech sel /\ servertype sel' = servertype sel
    /\ wait sel' = None /\ spnego sel' = spnego sel
    /\ match LKDCDiscoverRealm env (hostname na) with
       | Some realm =>
           client sel' = Some (default EmptyString (client sel) +:+ "@" +:+ realm)
           /\ server sel'
              = Some (service na +:+ "/" +:+ realm +:+ "@" +:+ realm)
       | None => client sel' = client sel /\ server sel' = server sel
       end.
Proof.
  intros Hn. destruct (classic_lkdc_background_selections env na n) as [Hs _].
  unfold run_resolver.
  change (selections (set_bgq (classic_lkdc_background env na n)
                        (filter (fun k => k <> n) (bgq na))))
    with (selections (classic_lkdc_background env na n)).
  rewrite Hs, list_lookup_alter_eq, Hn. cbn [fmap option_fmap option_map].
  eexists. split; [reflexivity|].
  match goal with
  | |- context [signal_result_block ?x ?e] =>
      destruct (signal_result_block_fields x e) as (Hf & _);
      unfold frame_view in Hf; injection Hf as F1 F2 F3 F4 F5 F6 F7 F8 F9
  end.
  rewrite F4, F8, F1, F5, F7, F9.
  destruct (LKDCDiscoverRealm env (hostname na)); simpl; auto 10.
Qed.

Lemma guess_step_inputs env Q na na' :
  guess_step env Q na na' -> inputs na' = inputs na.
Proof.
  intros [na0 c ct sv st m flags _| | | |na0 n sel _ _ _ _|]; try reflexivity.
  - destruct (addSelection_cases na0 c ct sv st m flags); simpl; auto.
  - apply run_resolver_frame.
Qed.

Lemma guesses_inputs env Q na na' : guesses env Q na na' -> inputs na' = inputs na.
Proof.
  intros H. induction H as [|x y z Hxy _ IH]; [reflexivity|].
  rewrite IH. eapply guess_step_inputs; eauto.
Qed.

(** *** The queue stays in order *)

Lemma guess_step_pending env Q na na' :
  guess_step env Q na na' -> pending na -> pending na'.
Proof.
  intros [na0 c ct sv st m flags _|na0 n f Hf|na0 n sel Hn Hsv Hq|na0 c h
         |na0 n sel Hq Hn Hsv _|na0] [Hnd Hp].
  - destruct (addSelection_cases na0 c ct sv st m flags)
      as [| |na1 nasel _ Hsel _ Hb _ _ _ _ _ _ _ _ _ _]; simpl;
      try (split; assumption).
    unfold pending. rewrite Hb. split; [exact Hnd|]. intros k Hk.
    destruct (Hp k Hk) as (x & Hx & Hxs). exists x. split; [|exact Hxs].
    rewrite Hsel. apply lookup_app_l_Some. exact Hx.
  - split; [exact Hnd|]. intros k Hk. simpl in *.
    destruct (Hp k Hk) as (x & Hx & Hxs).
    destruct (decide (n = k)) as [->|Hne].
    + exists (f x). rewrite list_lookup_alter_eq, Hx. split; [reflexivity|].
      pose proof (Hf x) as E. unfold key_view in E. injection E as _ _ E _.
      congruence.
    + exists x. rewrite list_lookup_alter_ne by exact Hne. auto.
  - simpl. split.
    + apply NoDup_app. split; [exact Hnd|]. split; [|apply NoDup_singleton].
      intros k Hk Hk'. apply list_elem_of_singleton in Hk'. congruence.
    + intros k Hk. apply elem_of_app in Hk as [Hk|Hk]; [apply Hp; exact Hk|].
      apply list_elem_of_singleton in Hk as ->. eauto.
  - split; assumption.
  - destruct (run_resolver_frame env na0 n) as (_ & _ & Hb & _ & _ & _ & Hs & _).
    unfold pending. rewrite Hb. split; [apply NoDup_filter; exact Hnd|].
    intros k Hk. apply list_elem_of_filter in Hk as [Hne Hk].
    rewrite (Hs k Hne). apply Hp. exact Hk.
  - split; assumption.
Qed.

Lemma guesses_pending env Q na na' :
  guesses env Q na na' -> pending na -> pending na'.
Proof.
  intros H. induction H as [|x y z Hxy _ IH]; [auto|].
  intros Hp. apply IH. eapply guess_step_pending; eauto.
Qed.

Lemma guesses_foldl_pending {A : Type} env Q (f : NAHData -> A -> NAHData)
    (l : list A) na na1 :
  (forall a x, pending a -> guesses env Q a (f a x)) ->
  pending na1 ->
  guesses env Q na na1 -> guesses env Q na (foldl f na1 l).
Proof.
  intros Hf. revert na1. induction l as [|x l IH]; intros na1 Hp H; simpl;
    [exact H|].
  apply IH.
  - eapply guesses_pending; [apply Hf; exact Hp | exact Hp].
  - eapply guesses_trans; [exact H | apply Hf; exact Hp].
Qed.

(** A turn of the queue is a run of pending resolvers. *)
Lemma yield_guesses env Q na : pending na -> guesses env Q na (yield env na).
Proof.
  intros Hp. unfold yield.
  assert (Hfold : forall l a,
             pending a -> clock a = clock na -> NoDup l ->
             (forall n, n ∈ l -> n ∈ bgq a) ->
             let a' := foldl (fun na0 n =>
                                if resolver_runs env (clock na) n
                                then run_resolver env na0 n else na0) a l in
             guesses env Q a a' /\ clock a' = clock na).
  { induction l as [|n l IH]; intros a Ha Hc Hnd Hin; simpl.
    - split; [apply guesses_refl | exact Hc].
    - apply NoDup_cons in Hnd as [Hn Hnd].
      destruct (resolver_runs env (clock na) n) eqn:Hrun.
      + destruct Ha as [Hq Hsel].
        destruct (Hsel n (Hin n ltac:(apply elem_of_cons; auto)))
          as (sel & Hs & Hsv).
        assert (Hstep : guess_step env Q a (run_resolver env a n)).
        { apply (guess_resolve env Q a n sel);
            [apply Hin; apply elem_of_cons; auto | exact Hs | exact Hsv
            |rewrite Hc; exact Hrun]. }
        destruct (run_resolver_frame env a n) as (_ & Hc' & Hb & _).
        destruct (IH (run_resolver env a n)) as [G C].
        * eapply guess_step_pending; [exact Hstep | split; assumption].
        * rewrite Hc'. exact Hc.
        * exact Hnd.
        * intros k Hk. rewrite Hb. apply list_elem_of_filter. split.
          -- intros ->. contradiction.
          -- apply Hin. apply elem_of_cons. auto.
        * split; [|exact C]. eapply rtc_l; [exact Hstep | exact G].
      + apply IH; auto. intros k Hk. apply Hin. apply elem_of_cons. auto. }
  destruct (Hfold (bgq na) na Hp eq_refl (proj1 Hp) (fun _ H => H)) as [G C].
  cbv zeta in G, C. set (a' := foldl _ _ _) in *.
  eapply rtc_r; [exact G|]. rewrite <- C. apply guess_turn.
Qed.

(** *** Keys *)

Lemma key_step_refl k : key_step k k.
Proof. left. reflexivity. Qed.

Lemma key_step_trans k1 k2 k3 : key_step k1 k2 -> key_step k2 k3 -> key_step k1 k3.
Proof.
  intros [->|(H1 & H2 & H3)] [->|(H4 & H5 & H6)]; unfold key_step; auto.
  right. split; [exact H1|]. split; congruence.
Qed.

Lemma Forall2_key_step_refl l : Forall2 key_step l l.
Proof. induction l; constructor; auto using key_step_refl. Qed.

Lemma Forall2_key_step_trans l1 l2 l3 :
  Forall2 key_step l1 l2 -> Forall2 key_step l2 l3 -> Forall2 key_step l1 l3.
Proof.
  intros H. revert l3. induction H as [|a b l1 l2 Hab _ IH]; intros l3 H3.
  - inversion H3. constructor.
  - inversion H3 as [|? c ? l3' Hbc H3']; subst. constructor.
    + eapply key_step_trans; eauto.
    + apply IH. exact H3'.
Qed.

Lemma Forall2_key_step_resolved l l' :
  Forall2 key_step l l' -> Forall (fun k => is_Some (key_server k)) l -> l' = l.
Proof.
  intros H. induction H as [|a b l l' Hab _ IH]; intros Hall; [reflexivity|].
  apply Forall_cons in Hall as [Ha Hall]. f_equal; [|apply IH; exact Hall].
  destruct Hab as [->|(Hn & _)]; [reflexivity|].
  unfold key_server in Ha. rewrite Hn in Ha. destruct Ha. discriminate.
Qed.

Lemma Forall2_key_step_elem l l' k :
  Forall2 key_step l l' -> k ∈ l -> is_Some (key_server k) -> k ∈ l'.
Proof.
  intros H. induction H as [|a b l l' Hab _ IH]; intros Hk Hs.
  - inversion Hk.
  - apply elem_of_cons in Hk as [->|Hk].
    + destruct Hab as [->|(Hn & _)]; [apply elem_of_cons; auto|].
      unfold key_server in Hs. rewrite Hn in Hs. destruct Hs. discriminate.
    + apply elem_of_cons. right. apply IH; assumption.
Qed.

Lemma keys_resolve env na n sel :
  selections na !! n = Some sel -> server sel = None ->
  Forall2 key_step (keys na) (keys (run_resolver env na n)).
Proof.
  intros Hn Hsv.
  destruct (run_resolver_frame env na n) as (_ & _ & _ & _ & _ & _ & Hs & Hl).
  destruct (run_resolver_selection env na n sel Hn) as (sel' & Hn' & Hm & Ht & _).
  apply Forall2_same_length_lookup_2.
  - unfold keys. rewrite !length_fmap. symmetry. exact Hl.
  - intros i x y. unfold keys. rewrite !list_lookup_fmap.
    destruct (decide (i = n)) as [->|Hne].
    + rewrite Hn, Hn'. simpl. intros [= <-] [= <-]. right.
      unfold key_view. simpl. auto.
    + rewrite (Hs i Hne). intros Hx Hy. rewrite Hx in Hy. injection Hy as <-.
      apply key_step_refl.
Qed.

Lemma guess_step_keys env Q na na' :
  guess_step env Q na na' ->
  exists ks0 ks, keys na' = (ks0 ++ ks)%list
                 /\ Forall2 key_step (keys na) ks0
                 /\ Forall (fun k => Q (key_mech k) (key_server k)) ks.
Proof.
  intros [na0 c ct sv st m flags HQ|na0 n f Hf|na0 n sel _ _ _|na0 c h
         |na0 n sel _ Hn Hsv _|na0].
  - destruct (addSelection_cases na0 c ct sv st m flags)
      as [| |na1 nasel _ Hsel _ _ _ _ Hm _ Hs]; simpl.
    1,2: exists (keys na0), []; rewrite app_nil_r;
         auto using Forall2_key_step_refl.
    exists (keys na0), [key_view nasel]. unfold keys at 1.
    rewrite Hsel, fmap_app. split; [reflexivity|].
    split; [apply Forall2_key_step_refl|].
    constructor; [|constructor]. unfold key_mech, key_server, key_view; simpl.
    rewrite Hm, Hs. exact HQ.
  - exists (keys na0), []. rewrite app_nil_r, keys_alter;
      auto using Forall2_key_step_refl.
  - exists (keys na0), []. rewrite app_nil_r. auto using Forall2_key_step_refl.
  - exists (keys na0), []. rewrite app_nil_r. auto using Forall2_key_step_refl.
  - exists (keys (run_resolver env na0 n)), []. rewrite app_nil_r.
    split; [reflexivity|]. split; [|constructor].
    eapply keys_resolve; eauto.
  - exists (keys na0), []. rewrite app_nil_r. auto using Forall2_key_step_refl.
Qed.

(** The keys after a run of the guessers: those of the start, each gone
    through [key_step], then those of the calls made, each gone through
    [key_step] since its call. *)
Lemma guesses_keys env Q na na' :
  guesses env Q na na' ->
  exists ks0 ks,
    keys na' = (ks0 ++ ks)%list
    /\ Forall2 key_step (keys na) ks0
    /\ Forall (fun k => exists k0, key_step k0 k
                                   /\ Q (key_mech k0) (key_server k0)) ks.
Proof.
  intros H. induction H as [x|x y z Hxy _ (ks0 & ks & Hks & H0 & HQ)].
  - exists (keys x), []. rewrite app_nil_r.
    auto using Forall2_key_step_refl.
  - destruct (guess_step_keys _ _ _ _ Hxy) as (js0 & js & Hjs & J0 & JQ).
    rewrite Hjs in H0. apply Forall2_app_inv_l in H0 as (a1 & a2 & A1 & A2 & ->).
    exists a1, (a2 ++ ks)%list. rewrite Hks, app_assoc. split; [reflexivity|].
    split; [eapply Forall2_key_step_trans; eauto|].
    apply Forall_app. split; [|exact HQ].
    clear -A2 JQ. induction A2 as [|a b l l' Hab _ IH]; [constructor|].
    apply Forall_cons in JQ as [Ja JQ]. constructor; [|apply IH; exact JQ].
    exists a. auto.
Qed.

(** With every key of the start resolved, the start is a prefix. *)
Lemma guesses_keys_resolved env Q na na' :
  guesses env Q na na' -> all_resolved na ->
  exists ks,
    keys na' = (keys na ++ ks)%list
    /\ Forall (fun k => exists k0, key_step k0 k
                                   /\ Q (key_mech k0) (key_server k0)) ks.
Proof.
  intros H Hall. destruct (guesses_keys _ _ _ _ H) as (ks0 & ks & Hks & H0 & HQ).
  rewrite (Forall2_key_step_resolved _ _ H0 Hall) in Hks. eauto.
Qed.

Lemma unique_selections_keys l l' :
  key_view <$> l' = key_view <$> l -> unique_selections l -> unique_selections l'.
Proof.
  intros Hk Hu i j a b Hi Hj Hs.
  assert (Ha : (key_view <$> l) !! i = Some (key_view a))
    by (rewrite <- Hk, list_lookup_fmap, Hi; reflexivity).
  assert (Hb : (key_view <$> l) !! j = Some (key_view b))
    by (rewrite <- Hk, list_lookup_fmap, Hj; reflexivity).
  rewrite list_lookup_fmap in Ha, Hb.
  destruct (l !! i) as [a0|] eqn:Ha0; [|discriminate].
  destruct (l !! j) as [b0|] eqn:Hb0; [|discriminate].
  simpl in Ha, Hb. injection Ha as Ha1 Ha2 Ha3 Ha4.
  injection Hb as Hb1 Hb2 Hb3 Hb4.
  apply (Hu i j a0 b0 Ha0 Hb0).
  destruct Hs as (S1 & S2 & S3 & S4).
  repeat split; try congruence.
  intros s t Hs Ht. apply S3; congruence.
Qed.

(** *** Uniqueness, as long as no resolver runs *)

Lemma guess_step_unique env Q na na' :
  guess_step env Q na na' ->
  bgq na = [] \/ (forall k n, resolver_runs env k n = false) ->
  unique_selections (selections na) -> unique_selections (selections na').
Proof.
  intros [na0 c ct sv st m flags _|na0 n f Hf|na0 n sel _ _ _|na0 c h
         |na0 n sel Hq _ _ Hrun|na0] Hquiet Hu; try exact Hu.
  - apply addSelection_unique. exact Hu.
  - eapply unique_selections_keys; [|exact Hu].
    apply (keys_alter na0 n f Hf).
  - exfalso. destruct Hquiet as [E|E].
    + rewrite E in Hq. inversion Hq.
    + rewrite E in Hrun. discriminate.
Qed.

Lemma guesses_unique_deferred env Q na na' :
  (forall k n, resolver_runs env k n = false) ->
  guesses env Q na na' ->
  unique_selections (selections na) -> unique_selections (selections na').
Proof.
  intros Hdef H. induction H as [|x y z Hxy _ IH]; [auto|].
  intros Hu. apply IH. eapply guess_step_unique; eauto.
Qed.

(** ** The guessers, step by step *)

Lemma pending_fresh na : pending na -> List.length (selections na) ∉ bgq na.
Proof.
  intros [_ Hp] Hin. destruct (Hp _ Hin) as (sel & Hsel & _).
  apply lookup_lt_Some in Hsel. lia.
Qed.

Lemma classic_lkdc_cert_guesses env flags na cert :
  pending na -> guesses env kerberos_key na (classic_lkdc_cert env flags na cert).
Proof.
  intros Hp. unfold classic_lkdc_cert.
  destruct (cert_data cert); [|apply guesses_refl].
  pose proof (yield_guesses env kerberos_key na Hp) as G0.
  pose proof (guesses_pending _ _ _ _ G0 Hp) as P0.
  set (a0 := yield env na) in *. cbv zeta.
  pose proof (guesses_add env kerberos_key na a0 (hex_string (cert_sha1 cert))
                (Some kNAHNTKRB5Principal) None (Some kNAHNTKRB5PrincipalReferral)
                GSS_KERBEROS flags G0 eq_refl) as G1.
  pose proof (pending_fresh a0 P0) as Hfresh.
  destruct (addSelection_cases a0 (hex_string (cert_sha1 cert))
              (Some kNAHNTKRB5Principal) None (Some kNAHNTKRB5PrincipalReferral)
              GSS_KERBEROS flags)
    as [| |na' nasel _ Hsel _ Hb _ _ _ _ Hs _ _ _ _ _];
    cbn [res_na res_nasel res_duplicate] in *; try exact G1.
  apply (guesses_dispatch env kerberos_key na _ _
           (with_certificate (Some cert) nasel)).
  - apply guesses_write; [exact G1 | reflexivity].
  - unfold update_selection. cbn [set_selections selections].
    rewrite list_lookup_alter_eq, Hsel, lookup_app_r by reflexivity.
    rewrite Nat.sub_diag. reflexivity.
  - exact Hs.
  - unfold update_selection. cbn [set_selections bgq]. rewrite Hb. exact Hfresh.
Qed.

Lemma classic_lkdc_guesses env na flags :
  pending na -> guesses env kerberos_key na (classic_lkdc env na flags).
Proof.
  intros Hp. unfold classic_lkdc.
  destruct (negb (is_local_hostname (hostname na))); [apply guesses_refl|].
  assert (H1 : guesses env kerberos_key na
                 match x509identities na with
                 | Some certs => foldl (classic_lkdc_cert env flags) na certs
                 | None => na
                 end).
  { destruct (x509identities na) as [certs|]; [|apply guesses_refl].
    apply guesses_foldl_pending; [|exact Hp|apply guesses_refl].
    intros a x Ha. apply classic_lkdc_cert_guesses. exact Ha. }
  set (na1 := match x509identities na with
              | Some certs => foldl (classic_lkdc_cert env flags) na certs
              | None => na
              end) in *.
  destruct (password na1); [|exact H1].
  pose proof (guesses_pending _ _ _ _ H1 Hp) as P1.
  pose proof (yield_guesses env kerberos_key na1 P1) as G0.
  pose proof (guesses_pending _ _ _ _ G0 P1) as P0.
  set (a0 := yield env na1) in *. cbv zeta.
  pose proof (guesses_add env kerberos_key na a0 (username na1)
                (Some kNAHNTKRB5Principal) None (Some kNAHNTKRB5PrincipalReferral)
                GSS_KERBEROS flags (guesses_trans _ _ _ _ _ H1 G0) eq_refl) as G1.
  pose proof (pending_fresh a0 P0) as Hfresh.
  destruct (addSelection_cases a0 (username na1)
              (Some kNAHNTKRB5Principal) None (Some kNAHNTKRB5PrincipalReferral)
              GSS_KERBEROS flags)
    as [| |na' nasel _ Hsel _ Hb _ _ _ _ Hs _ _ _ _ _];
    cbn [res_na res_nasel res_duplicate] in *; try exact G1.
  apply (guesses_dispatch env kerberos_key na _ _ nasel).
  - exact G1.
  - rewrite Hsel, lookup_app_r by reflexivity.
    rewrite Nat.sub_diag. reflexivity.
  - exact Hs.
  - rewrite Hb. exact Hfresh.
Qed.

Lemma add_realms_guesses env na realms flags :
  guesses env (resolved_key GSS_KERBEROS) na (add_realms na realms flags).
Proof.
  unfold add_realms. apply guesses_foldl; [|apply guesses_refl].
  intros a x. apply guesses_add; [apply guesses_refl|].
  split; [reflexivity | eauto].
Qed.

Lemma use_classic_kerberos_guesses env na flags :
  guesses env (resolved_key GSS_KERBEROS) na (use_classic_kerberos env na flags).
Proof.
  unfold use_classic_kerberos.
  destruct (is_local_hostname (hostname na)); [apply guesses_refl|].
  repeat match goal with
         | |- guesses _ _ _ (match ?x with Some _ => _ | None => _ end) =>
             destruct x
         | |- guesses _ _ _ (add_realms _ _ _) =>
             eapply guesses_trans; [|apply add_realms_guesses]
         | |- guesses _ _ _ (res_na (addSelection _ _ _ _ _ _ _)) =>
             apply guesses_add; [|split; [reflexivity | eauto]]
         | |- guesses _ _ ?a ?a => apply guesses_refl
         end.
Qed.

Lemma use_existing_principal_guesses env only_lkdc flags na id :
  pending na ->
  guesses env (resolved_key GSS_KERBEROS) na
    (use_existing_principal env only_lkdc flags na id).
Proof.
  intros Hp. unfold use_existing_principal.
  destruct (cc_principal id) as [p|]; [|apply guesses_refl].
  destruct (_ || _)%bool; [apply guesses_refl|].
  destruct (princ_unparsed p) as [u|]; [|apply guesses_refl].
  match goal with
  | |- guesses _ _ _ (match ?x with Some _ => _ | None => _ end) =>
      destruct x as [s|]; [|apply guesses_refl]
  end.
  assert (Hadd : guesses env (resolved_key GSS_KERBEROS) na
                   (res_na (addSelection (yield env na) u
                              (Some kNAHNTKRB5Principal) (Some s)
                              (Some kNAHNTKRB5PrincipalReferral) GSS_KERBEROS flags)))
    by (apply guesses_add;
        [apply yield_guesses; exact Hp | split; [reflexivity | eauto]]).
  cbv zeta.
  destruct (res_nasel _) as [n|]; [|exact Hadd].
  destruct (_ !! n) as [sel|]; [|exact Hadd].
  destruct (ccache sel); [exact Hadd|].
  apply guesses_write; [exact Hadd|].
  intros x. simpl. destruct (inferredLabel x), (cc_FriendlyName id); reflexivity.
Qed.

Lemma use_existing_principals_guesses env na only_lkdc flags :
  pending na ->
  guesses env (resolved_key GSS_KERBEROS) na
    (use_existing_principals env na only_lkdc flags).
Proof.
  intros Hp. unfold use_existing_principals.
  destruct (cccol env) as [caches|]; [|apply guesses_refl].
  apply guesses_foldl_pending; [|exact Hp|apply guesses_refl].
  intros a id Ha. apply use_existing_principal_guesses. exact Ha.
Qed.

Lemma wellknown_lkdc_guesses env na mechtype flags :
  guesses env (resolved_key mechtype) na (wellknown_lkdc na mechtype flags).
Proof.
  unfold wellknown_lkdc.
  set (u := username na +:+ "@" +:+ kWELLKNOWN_LKDC).
  set (s := service na +:+ "/localhost@" +:+ kWELLKNOWN_LKDC).
  assert (H1 : guesses env (resolved_key mechtype) na
                 match password na with
                 | Some _ =>
                     res_na (addSelection na u (Some kNAHNTKRB5Principal)
                               (Some s) (Some kNAHNTKRB5Principal) mechtype flags)
                 | None => na
                 end).
  { destruct (password na); [|apply guesses_refl].
    apply guesses_add; [apply guesses_refl | split; [reflexivity | eauto]]. }
  destruct (x509identities _) as [certs|]; [|exact H1].
  apply guesses_foldl; [|exact H1].
  intros a cert. unfold wellknown_lkdc_cert.
  match goal with
  | |- guesses _ _ _ (match ?x with Some _ => _ | None => _ end) =>
      destruct x as [u0|]; [|apply guesses_refl]
  end.
  assert (Hadd : guesses env (resolved_key mechtype) a
                   (res_na (addSelection a u0 (Some kNAHNTKRB5Principal) (Some s)
                              (Some kNAHNTKRB5PrincipalReferral) mechtype flags)))
    by (apply guesses_add; [apply guesses_refl | split; [reflexivity | eauto]]).
  destruct (res_nasel _); [|exact Hadd].
  apply guesses_write; [exact Hadd | reflexivity].
Qed.

(** The stages of [guess_kerberos_run], each with the queue in order. *)
Lemma guess_kerberos_run_stages env d na :
  pending na ->
  let flags := krb_flags d in
  let na1 := use_existing_principals env na true flags in
  let na2 := if try_iakerb_with_lkdc d
             then wellknown_lkdc na1 GSS_KERBEROS_IAKERB flags else na1 in
  let na3 := if try_wlkdc d then wellknown_lkdc na2 GSS_KERBEROS flags else na2 in
  let na4 := match password na3 with
             | Some _ => use_classic_kerberos env na3 flags
             | None => na3
             end in
  let na5 := if try_lkdc_classic d then classic_lkdc env na4 flags else na4 in
  let na6 := use_existing_principals env na5 false flags in
  guess_kerberos_run env d na = yield env na6
  /\ (guesses env (resolved_key GSS_KERBEROS) na na1 /\ pending na1)
  /\ (guesses env (resolved_key GSS_KERBEROS_IAKERB) na1 na2 /\ pending na2)
  /\ (guesses env (resolved_key GSS_KERBEROS) na2 na3 /\ pending na3)
  /\ (guesses env (resolved_key GSS_KERBEROS) na3 na4 /\ pending na4)
  /\ (guesses env kerberos_key na4 na5 /\ pending na5)
  /\ (guesses env (resolved_key GSS_KERBEROS) na5 na6 /\ pending na6)
  /\ (forall Q, guesses env Q na6 (yield env na6)) /\ pending (yield env na6).
Proof.
  intros P0 flags na1 na2 na3 na4 na5 na6.
  assert (G1 : guesses env (resolved_key GSS_KERBEROS) na na1)
    by (apply use_existing_principals_guesses; exact P0).
  pose proof (guesses_pending _ _ _ _ G1 P0) as P1.
  assert (G2 : guesses env (resolved_key GSS_KERBEROS_IAKERB) na1 na2)
    by (subst na2; destruct (try_iakerb_with_lkdc d);
        [apply wellknown_lkdc_guesses | apply guesses_refl]).
  pose proof (guesses_pending _ _ _ _ G2 P1) as P2.
  assert (G3 : guesses env (resolved_key GSS_KERBEROS) na2 na3)
    by (subst na3; destruct (try_wlkdc d);
        [apply wellknown_lkdc_guesses | apply guesses_refl]).
  pose proof (guesses_pending _ _ _ _ G3 P2) as P3.
  assert (G4 : guesses env (resolved_key GSS_KERBEROS) na3 na4)
    by (subst na4; destruct (password na3);
        [apply use_classic_kerberos_guesses | apply guesses_refl]).
  pose proof (guesses_pending _ _ _ _ G4 P3) as P4.
  assert (G5 : guesses env kerberos_key na4 na5)
    by (subst na5; destruct (try_lkdc_classic d);
        [apply classic_lkdc_guesses; exact P4 | apply guesses_refl]).
  pose proof (guesses_pending _ _ _ _ G5 P4) as P5.
  assert (G6 : guesses env (resolved_key GSS_KERBEROS) na5 na6)
    by (apply use_existing_principals_guesses; exact P5).
  pose proof (guesses_pending _ _ _ _ G6 P5) as P6.
  pose proof (yield_guesses env any_key na6 P6) as G7.
  pose proof (guesses_pending _ _ _ _ G7 P6) as P7.
  split; [reflexivity|]. do 6 (split; [split; assumption|]).
  split; [|exact P7]. intros Q. apply yield_guesses. exact P6.
Qed.

Lemma guess_kerberos_run_guesses env d na :
  pending na -> guesses env kerberos_family_key na (guess_kerberos_run env d na).
Proof.
  intros P0.
  destruct (guess_kerberos_run_stages env d na P0)
    as (-> & [G1 _] & [G2 _] & [G3 _] & [G4 _] & [G5 _] & [G6 _] & G7 & _).
  assert (Hk : forall m sv, resolved_key GSS_KERBEROS m sv -> kerberos_family_key m sv)
    by (intros m sv [-> _]; left; reflexivity).
  assert (Hi : forall m sv,
             resolved_key GSS_KERBEROS_IAKERB m sv -> kerberos_family_key m sv)
    by (intros m sv [-> _]; right; reflexivity).
  assert (Hc : forall m sv, kerberos_key m sv -> kerberos_family_key m sv)
    by (intros m sv ->; left; reflexivity).
  eapply guesses_trans; [eapply guesses_mono; [exact Hk | exact G1]|].
  eapply guesses_trans; [eapply guesses_mono; [exact Hi | exact G2]|].
  eapply guesses_trans; [eapply guesses_mono; [exact Hk | exact G3]|].
  eapply guesses_trans; [eapply guesses_mono; [exact Hk | exact G4]|].
  eapply guesses_trans; [eapply guesses_mono; [exact Hc | exact G5]|].
  eapply guesses_trans; [eapply guesses_mono; [exact Hk | exact G6]|].
  apply G7.
Qed.

Lemma guess_kerberos_guesses env na :
  pending na -> guesses env kerberos_family_key na (guess_kerberos env na).
Proof.
  intros P0. unfold guess_kerberos.
  destruct (negb (have_kerberos _)); [apply guesses_refl|].
  destruct (negb (Z.eqb (krb5_init_context_ret env) 0)); [apply guesses_refl|].
  destruct (negb (Z.eqb (hx509_context_init_ret env) 0)).
  - apply guesses_contexts, guesses_refl.
  - eapply guesses_trans; [|apply guess_kerberos_run_guesses].
    + apply guesses_contexts, guesses_contexts, guesses_refl.
    + exact P0.
Qed.

Lemma guess_ntlm_guesses env na :
  guesses env (resolved_key GSS_NTLM) na (guess_ntlm env na).
Proof.
  unfold guess_ntlm.
  destruct (negb (haveMech na kGSSAPIMechNTLMOID)); [apply guesses_refl|].
  apply guesses_foldl.
  - intros a u.
    assert (Hadd : forall st fl,
               guesses env (resolved_key GSS_NTLM) a
                 (res_na (addSelection a u (Some kNAHNTUsername)
                            (Some (service na +:+ "@" +:+ hostname na)) st GSS_NTLM fl)))
      by (intros; apply guesses_add;
          [apply guesses_refl | split; [reflexivity | eauto]]).
    destruct (res_nasel _); [|apply Hadd].
    apply guesses_write; [apply Hadd | reflexivity].
  - destruct (password na); [|apply guesses_refl].
    match goal with
    | |- guesses env _ _ (let '(_, _) := ?X in _) => destruct X as [u flags2]
    end.
    match goal with
    | |- guesses env _ _ (match ?x with Some _ => _ | None => _ end) =>
        destruct x
    end;
    repeat (apply guesses_add; [|split; [reflexivity | eauto]]);
    apply guesses_refl.
Qed.

Lemma add_user_selection_guesses env na elem na' :
  add_user_selection na elem = Done na' -> guesses env with_server_key na na'.
Proof.
  unfold add_user_selection. destruct elem as [dict|];
    [|intros [= <-]; apply guesses_refl].
  unfold null_or_not_string, null_and_not_string, CFGetTypeID.
  repeat match goal with
         | |- context [dict !! ?k] => destruct (dict !! k) as [[?|]|]; simpl
         | |- Fault = Done _ -> _ => discriminate
         | |- Done ?a = Done _ -> _ => intros [= <-]
         | |- (if ?b then _ else _) = Done _ -> _ => destruct b
         | |- guesses env _ ?a ?a => apply guesses_refl
         | |- guesses env _ _ (res_na (addSelection _ _ _ _ _ _ _)) =>
             apply guesses_add; [apply guesses_refl | red; eauto]
         end.
Qed.

Lemma add_user_selections_guesses env na na' :
  add_user_selections env na = Done na' -> guesses env with_server_key na na'.
Proof.
  unfold add_user_selections.
  destruct (pref_UserSelections env) as [array|];
    [|intros [= <-]; apply guesses_refl].
  revert na. induction array as [|elem array IH]; intros na; simpl.
  - intros [= <-]. apply guesses_refl.
  - destruct (add_user_selection na elem) as [na1|] eqn:H1; simpl; [|discriminate].
    intros H. eapply guesses_trans; [|apply IH; exact H].
    eapply add_user_selection_guesses; eauto.
Qed.

Lemma inputs_fields a b :
  inputs a = inputs b ->
  hostname a = hostname b /\ service a = service b /\ username a = username b
  /\ specificname a = specificname b /\ servermechs a = servermechs b
  /\ spnegoServerName a = spnegoServerName b
  /\ x509identities a = x509identities b /\ password a = password b.
Proof. unfold inputs. intros [=]. repeat split; assumption. Qed.

Lemma all_resolved_lookup na i sel :
  all_resolved na -> selections na !! i = Some sel -> is_Some (server sel).
Proof.
  unfold all_resolved, keys. rewrite Forall_forall. intros H Hi.
  apply (H (key_view sel)). apply list_elem_of_fmap. exists sel.
  split; [reflexivity|]. eapply list_elem_of_lookup_2; eauto.
Qed.

Lemma guesses_keys_elem env Q na na' k :
  guesses env Q na na' -> k ∈ keys na -> is_Some (key_server k) -> k ∈ keys na'.
Proof.
  intros H Hk Hs. destruct (guesses_keys _ _ _ _ H) as (ks0 & ks & -> & H0 & _).
  apply elem_of_app. left. eapply Forall2_key_step_elem; eauto.
Qed.

Lemma key_step_mech k0 k : key_step k0 k -> key_mech k = key_mech k0.
Proof. intros [->|(_ & H & _)]; [reflexivity | exact H]. Qed.

Lemma key_step_resolved k0 k : key_step k0 k -> is_Some (key_server k0) -> k = k0.
Proof.
  intros [->|(Hn & _)] Hs; [reflexivity|].
  unfold key_server in Hs. rewrite Hn in Hs. destruct Hs. discriminate.
Qed.

Lemma guesses_all_resolved env m0 na na' :
  guesses env (resolved_key m0) na na' -> all_resolved na -> all_resolved na'.
Proof.
  intros H Hall. destruct (guesses_keys_resolved _ _ _ _ H Hall) as (ks & Hks & HQ).
  unfold all_resolved. rewrite Hks. apply Forall_app. split; [exact Hall|].
  eapply Forall_impl; [exact HQ|]. intros k (k0 & Hstep & _ & Hk).
  rewrite (key_step_resolved _ _ Hstep Hk). exact Hk.
Qed.

Lemma guesses_with_server_all_resolved env na na' :
  guesses env with_server_key na na' -> all_resolved na -> all_resolved na'.
Proof.
  intros H Hall. destruct (guesses_keys_resolved _ _ _ _ H Hall) as (ks & Hks & HQ).
  unfold all_resolved. rewrite Hks. apply Forall_app. split; [exact Hall|].
  eapply Forall_impl; [exact HQ|]. intros k (k0 & Hstep & Hk).
  rewrite (key_step_resolved _ _ Hstep Hk). exact Hk.
Qed.

(** With every key resolved and nothing in the queue, calls that all give
    a server leave the queue empty and the keys unique. *)
Lemma guesses_with_server_quiet env na na' :
  guesses env with_server_key na na' ->
  all_resolved na -> bgq na = [] ->
  bgq na' = []
  /\ (unique_selections (selections na) -> unique_selections (selections na')).
Proof.
  intros H. induction H as [x|x y z Hxy Hyz IH]; [auto|].
  intros Hall Hq.
  assert (Hall' : all_resolved y)
    by (eapply guesses_with_server_all_resolved; [|exact Hall];
        eapply rtc_once; exact Hxy).
  assert (Hq' : bgq y = []).
  { destruct Hxy as [na0 c ct sv st m flags _|na0 n f Hf|na0 n sel Hn Hsv _|na0 c h
                    |na0 n sel Hin _ _ _|na0]; try exact Hq.
    - destruct (addSelection_cases na0 c ct sv st m flags)
        as [| |na1 nasel _ _ _ Hb]; simpl; congruence.
    - destruct (all_resolved_lookup _ _ _ Hall Hn) as [v Hv]. congruence.
    - rewrite Hq in Hin. inversion Hin. }
  destruct (IH Hall' Hq') as [Hz Hu]. split; [exact Hz|].
  intros Hux. apply Hu. eapply guess_step_unique; eauto.
Qed.

Lemma has_selection_keys na m c s :
  has_selection na m c s <-> exists st, (m, Some c, Some s, st) ∈ keys na.
Proof.
  unfold has_selection, keys. split.
  - intros (i & sel & Hi & <- & Hc & Hs). exists (servertype sel).
    apply list_elem_of_fmap. exists sel. split.
    + unfold key_view. rewrite Hc, Hs. reflexivity.
    + eapply list_elem_of_lookup_2; eauto.
  - intros (st & Hk). apply list_elem_of_fmap in Hk as (sel & Hv & Hin).
    apply list_elem_of_lookup_1 in Hin as [i Hi].
    unfold key_view in Hv. injection Hv as -> Hc Hs _.
    exists i, sel. auto.
Qed.


(** ** Locality of the LKDC guessers *)

(** C5. On a hostname that ends in [.local], [.members.mac.com] or
    [.members.me.com] the classic Kerberos guesser (the [user@domain],
    domain-and-user, host-realm and default-realm forms) does nothing, and on
    a hostname with none of these endings the classic LKDC guesser (the
    fingerprint and password forms with an unresolved server) does nothing:
    no selection is added and no resolver is dispatched. *)
Theorem lkdc_locality (env : Environment) (na : NAHData) (flags : Z) :
  (ends_in (hostname na) ".local" \/ ends_in (hostname na) ".members.mac.com"
   \/ ends_in (hostname na) ".members.me.com" ->
   use_classic_kerberos env na flags = na)
  /\ (~ (ends_in (hostname na) ".local"
         \/ ends_in (hostname na) ".members.mac.com"
         \/ ends_in (hostname na) ".members.me.com") ->
      classic_lkdc env na flags = na).
Proof.
  rewrite <- is_local_hostname_ends_in.
  unfold use_classic_kerberos, classic_lkdc.
  destruct (is_local_hostname (hostname na)); simpl; split; intros H;
    congruence.
Qed.

(** ** User-selection overrides *)

(** C3, as the code has it.  An override entry whose [mech], [domain] and
    [client] are strings, whose [user] is the user name of the session,
    whose domain equals the hostname up to case and whose mechanism name is
    known, is handed to [addSelection] with the flags [USE_SPNEGO] alone
    and the server [<service>@<hostname>].  FORCE_ADD is clear, so the
    specific-name filter applies: a client that lacks the specific-name
    prefix adds nothing, and otherwise the selection returned has the
    entry's mechanism and client, the service-based server type and, when
    it is new, that server and the SPNEGO flag. *)
Theorem add_user_selection_filtered (na : NAHData) (dict : gmap string CFValue)
    (ms ds cs : string)
    (Hmech : dict !! kMech = Some (CFStringValue ms))
    (Hdomain : dict !! kDomainKey = Some (CFStringValue ds))
    (Hclient : dict !! kClient = Some (CFStringValue cs))
    (Huser : dict !! kUsername = Some (CFStringValue (username na)))
    (Hhost : CFStringCompare ds (hostname na) kCFCompareCaseInsensitive
             = kCFCompareEqualTo)
    (Hknown : name2mech (Some ms) <> NO_MECH) :
  add_user_selection na (CFDictionaryElement dict)
  = Done (res_na (addSelection na cs None
                    (Some (service na +:+ "@" +:+ hostname na)) None
                    (name2mech (Some ms)) USE_SPNEGO))
  /\ flag_set USE_SPNEGO FORCE_ADD = false
  /\ (forall sn, specificname na = Some sn -> CFStringHasPrefix cs sn = false ->
        add_user_selection na (CFDictionaryElement dict) = Done na)
  /\ (specificname na = None
      \/ (exists sn, specificname na = Some sn /\ CFStringHasPrefix cs sn = true) ->
      exists n sel,
        res_nasel (addSelection na cs None
                     (Some (service na +:+ "@" +:+ hostname na)) None
                     (name2mech (Some ms)) USE_SPNEGO) = Some n
        /\ selections
             (res_na (addSelection na cs None
                        (Some (service na +:+ "@" +:+ hostname na)) None
                        (name2mech (Some ms)) USE_SPNEGO)) !! n = Some sel
        /\ mech sel = name2mech (Some ms) /\ client sel = Some cs
        /\ servertype sel = kNAHNTServiceBasedName
        /\ (forall s, server sel = Some s -> s = service na +:+ "@" +:+ hostname na)
        /\ (res_duplicate (addSelection na cs None
                             (Some (service na +:+ "@" +:+ hostname na)) None
                             (name2mech (Some ms)) USE_SPNEGO) = Some 0 ->
            server sel = Some (service na +:+ "@" +:+ hostname na)
            /\ spnego sel = true)).
Proof.
  assert (Hcall : add_user_selection na (CFDictionaryElement dict)
                  = Done (res_na (addSelection na cs None
                                    (Some (service na +:+ "@" +:+ hostname na)) None
                                    (name2mech (Some ms)) USE_SPNEGO))).
  { unfold add_user_selection. rewrite Hmech, Hdomain, Hclient, Huser.
    cbn [null_or_not_string null_and_not_string CFGetTypeID result_bind
         as_string].
    rewrite !bool_decide_eq_true_2 by reflexivity.
    cbn [negb result_bind as_string]. rewrite Hhost.
    cbn [comparison_eqb kCFCompareEqualTo negb andb].
    rewrite bool_decide_eq_false_2 by exact Hknown. reflexivity. }
  split; [exact Hcall|]. split; [reflexivity|]. split.
  - intros sn Hsn Hpre. rewrite Hcall. unfold addSelection.
    rewrite Hsn, Hpre. reflexivity.
  - intros Hpass.
    destruct (addSelection_cases na cs None
                (Some (service na +:+ "@" +:+ hostname na)) None
                (name2mech (Some ms)) USE_SPNEGO)
      as [sn Hf Hsn Hpre | n sel Hn Hd
         | na' nasel Hnone Hsel _ _ _ _ Hm Hc Hs Ht _ Hsp _ _]; simpl.
    + exfalso. destruct Hpass as [Hp|(sn' & Hp & Hq)]; congruence.
    + apply is_duplicate_true in Hd as (D1 & D2 & D3 & D4).
      exists n, sel.
      split; [reflexivity|]. split; [exact Hn|]. split; [exact D1|].
      split; [exact D2|]. split; [exact D4|].
      split; [intros s Hs; eapply D3; eauto | discriminate].
    + exists (List.length (selections na)), nasel. rewrite Hsel.
      split; [reflexivity|]. split.
      { rewrite lookup_app_r by reflexivity. rewrite Nat.sub_diag. reflexivity. }
      split; [exact Hm|]. split; [exact Hc|]. split; [exact Ht|].
      split; [intros s; rewrite Hs; congruence|].
      intros _. split; [exact Hs | rewrite Hsp; reflexivity].
Qed.


(** ** NAHCreate *)

Lemma NAHCreate_session_selections env h s info na0 :
  NAHCreate_session env h s info = Some na0 -> selections na0 = [].
Proof.
  unfold NAHCreate_session. destruct (findUsername env info) as [[u sn]|];
    [|discriminate].
  intros [= <-]. reflexivity.
Qed.

Lemma NAHCreate_stages env h s info na :
  NAHCreate env h s info = Done (Some na) ->
  exists na0 na1,
    NAHCreate_session env h s info = Some na0
    /\ add_user_selections env na0 = Done na1
    /\ na = (if (match x509identities (guess_kerberos env na1) with
                 | None => true
                 | Some _ => false
                 end && is_smb (guess_kerberos env na1))%bool
             then guess_ntlm env (guess_kerberos env na1)
             else guess_kerberos env na1).
Proof.
  unfold NAHCreate, NAHCreate_guess.
  destruct (NAHCreate_session env h s info) as [na0|]; [|discriminate].
  destruct (add_user_selections env na0) as [na1|] eqn:H1; simpl; [|discriminate].
  intros [= <-]. exists na0, na1. repeat split; auto.
Qed.

Lemma NAHCreate_session_pending env h s info na0 :
  NAHCreate_session env h s info = Some na0 ->
  pending na0 /\ bgq na0 = [] /\ all_resolved na0
  /\ unique_selections (selections na0).
Proof.
  unfold NAHCreate_session. destruct (findUsername env info) as [[u sn]|];
    [|discriminate].
  intros [= <-]. unfold pending, all_resolved, keys. simpl.
  split; [split; [apply NoDup_nil_2 | intros n Hn; inversion Hn]|].
  split; [reflexivity|]. split; [constructor | apply unique_selections_nil].
Qed.

(** The queue is in order after the overrides, and every key resolved. *)
Lemma NAHCreate_overrides env h s info na0 na1 :
  NAHCreate_session env h s info = Some na0 ->
  add_user_selections env na0 = Done na1 ->
  guesses env with_server_key na0 na1 /\ pending na1 /\ all_resolved na1
  /\ bgq na1 = [] /\ unique_selections (selections na1).
Proof.
  intros H0 H1.
  destruct (NAHCreate_session_pending _ _ _ _ _ H0) as (P0 & B0 & A0 & U0).
  pose proof (add_user_selections_guesses _ _ _ H1) as G1.
  destruct (guesses_with_server_quiet _ _ _ G1 A0 B0) as [B1 U1].
  split; [exact G1|]. split; [eapply guesses_pending; eauto|].
  split; [eapply guesses_with_server_all_resolved; eauto|]. auto.
Qed.

Lemma NAHCreate_guesses env h s info na0 na :
  NAHCreate_session env h s info = Some na0 ->
  NAHCreate env h s info = Done (Some na) ->
  guesses env any_key na0 na.
Proof.
  intros H0 H. destruct (NAHCreate_stages _ _ _ _ _ H) as (na0' & na1 & H0' & H1 & ->).
  rewrite H0 in H0'. injection H0' as <-.
  destruct (NAHCreate_overrides _ _ _ _ _ _ H0 H1) as (G1 & P1 & _).
  assert (Hany : forall Q m sv, Q m sv -> any_key m sv) by (intros; exact I).
  eapply guesses_trans; [eapply guesses_mono; [apply Hany | exact G1]|].
  eapply guesses_trans;
    [eapply guesses_mono; [apply Hany | apply guess_kerberos_guesses; exact P1]|].
  destruct (_ && _)%bool; [|apply guesses_refl].
  eapply guesses_mono; [apply Hany | apply guess_ntlm_guesses].
Qed.

Lemma is_smb_inputs a b : inputs a = inputs b -> is_smb a = is_smb b.
Proof.
  intros H. apply inputs_fields in H as (_ & Hs & _). unfold is_smb.
  rewrite Hs. reflexivity.
Qed.

Lemma haveMech_inputs a b m : inputs a = inputs b -> haveMech a m = haveMech b m.
Proof.
  intros H. apply inputs_fields in H as (_ & _ & _ & _ & Hs & _).
  unfold haveMech. rewrite Hs. reflexivity.
Qed.

Lemma guess_kerberos_decide_inputs env a b :
  inputs a = inputs b -> guess_kerberos_decide env a = guess_kerberos_decide env b.
Proof.
  intros H. unfold guess_kerberos_decide.
  rewrite !(haveMech_inputs a b) by exact H.
  rewrite (is_smb_inputs a b) by exact H.
  apply inputs_fields in H as (_ & -> & _ & _ & -> & -> & _ & ->).
  reflexivity.
Qed.

(** ** Resolvers and the NTLM guesses *)

(** The NTLM guesses come last, with no turn of the queue among them.  This
    section shows that none is needed: a resolver works on a Kerberos
    selection, the NTLM guesses read and write NTLM selections only, and so
    a resolver that runs among them leaves the same session as one that
    runs before them. *)

Lemma find_duplicate_alter (f : NAHSelectionData -> NAHSelectionData)
    (l : list NAHSelectionData) (n k : nat) c sv st m0 :
  (forall s, l !! n = Some s ->
             is_duplicate (f s) c sv st m0 = is_duplicate s c sv st m0) ->
  find_duplicate (alter f n l) k c sv st m0 = find_duplicate l k c sv st m0.
Proof.
  revert n k. induction l as [|a l IH]; intros [|n] k Hf; try reflexivity.
  - simpl. rewrite (Hf a eq_refl). reflexivity.
  - change (alter f (S n) (a :: l)) with (a :: alter f n l). simpl.
    rewrite IH; [reflexivity|]. intros s Hs. apply Hf. exact Hs.
Qed.

(** A resolver changes nothing that a call of [addSelection] for another
    mechanism reads: the call finds the same duplicate, or none, whether
    the resolver of a Kerberos selection has run or not, and the two can be
    taken in either order. *)
Lemma run_resolver_addSelection env na n sel c ct sv st m0 flags :
  selections na !! n = Some sel -> mech sel <> m0 ->
  addSelection (run_resolver env na n) c ct sv st m0 flags
  = {| res_na := run_resolver env (res_na (addSelection na c ct sv st m0 flags)) n;
       res_nasel := res_nasel (addSelection na c ct sv st m0 flags);
       res_duplicate := res_duplicate (addSelection na c ct sv st m0 flags) |}.
Proof.
  intros Hn Hm.
  destruct (classic_lkdc_background_selections env na n) as [Hs _].
  assert (Hfind : find_duplicate (selections (run_resolver env na n)) 0 c sv
                    (default kNAHNTServiceBasedName st) m0
                  = find_duplicate (selections na) 0 c sv
                      (default kNAHNTServiceBasedName st) m0).
  { unfold run_resolver.
    change (selections (set_bgq (classic_lkdc_background env na n)
                          (filter (fun k => k <> n) (bgq na))))
      with (selections (classic_lkdc_background env na n)).
    rewrite Hs. apply find_duplicate_alter. intros s Hs'.
    rewrite Hn in Hs'. injection Hs' as <-.
    match goal with
    | |- is_duplicate (fst (signal_result_block ?x ?e)) _ _ _ _ = _ =>
        destruct (signal_result_block_fields x e) as (Hf & _);
        unfold frame_view in Hf; injection Hf as _ _ _ F4 _ _ _ _ _
    end.
    unfold is_duplicate. rewrite F4.
    assert (E : mech match LKDCDiscoverRealm env (hostname na) with
                     | Some realm =>
                         with_client
                           (Some (default "" (client sel) +:+ "@" +:+ realm))
                           (with_server
                              (Some (service na +:+ "/" +:+ realm +:+ "@" +:+ realm))
                              sel)
                     | None => sel
                     end = mech sel)
      by (destruct (LKDCDiscoverRealm env (hostname na)); reflexivity).
    rewrite E. rewrite !bool_decide_eq_false_2 by exact Hm. reflexivity. }
  assert (Hsn : specificname (run_resolver env na n) = specificname na).
  { destruct (run_resolver_frame env na n) as (Hi & _).
    apply inputs_fields in Hi as (_ & _ & _ & E & _). exact E. }
  unfold addSelection at 1. rewrite Hsn.
  unfold addSelection.
  destruct (negb _); [reflexivity|].
  cbv zeta. rewrite Hfind.
  destruct (find_duplicate (selections na) 0 c sv _ m0); [reflexivity|].
  cbn [res_na res_nasel res_duplicate]. f_equal.
  - apply lookup_lt_Some in Hn. clear Hs Hfind Hsn.
    destruct na as [h0 ? ? ? ? ? ? ? ? ? l0 ? ? ?];
      unfold run_resolver, classic_lkdc_background, update_selection;
      cbn in Hn |- *.
    destruct (LKDCDiscoverRealm env h0) eqn:E; destruct sv; cbn;
      rewrite ?E; cbn;
      rewrite ?list_alter_alter_eq, ?alter_app_l by (rewrite ?length_alter; lia);
      reflexivity.
  - destruct (run_resolver_frame env na n) as (_ & _ & _ & _ & _ & _ & _ & Hl).
    rewrite Hl. reflexivity.
Qed.

Lemma alter_alter_ne {A} (f g : A -> A) (i j : nat) (l : list A) :
  i <> j -> alter f i (alter g j l) = alter g j (alter f i l).
Proof.
  intros Hij. apply list_eq. intros k.
  destruct (decide (k = i)) as [->|Hki].
  - rewrite list_lookup_alter_eq, !list_lookup_alter_ne by congruence.
    rewrite list_lookup_alter_eq. reflexivity.
  - rewrite (list_lookup_alter_ne f) by congruence.
    destruct (decide (k = j)) as [->|Hkj].
    + rewrite !list_lookup_alter_eq, list_lookup_alter_ne by congruence.
      reflexivity.
    + rewrite !list_lookup_alter_ne by congruence. reflexivity.
Qed.

Lemma run_resolver_update_selection env na n k f :
  k <> n ->
  run_resolver env (update_selection na k f) n
  = update_selection (run_resolver env na n) k f.
Proof.
  intros Hk. destruct na as [h0 ? ? ? ? ? ? ? ? ? l0 ? ? ?].
  unfold run_resolver, classic_lkdc_background, update_selection. cbn.
  destruct (LKDCDiscoverRealm env h0) eqn:E; cbn; rewrite ?E; cbn;
    rewrite ?(alter_alter_ne _ f n k) by congruence; reflexivity.
Qed.

Lemma NAHData_eq (a b : NAHData) :
  inputs a = inputs b -> context a = context b -> hxctx a = hxctx b ->
  selections a = selections b -> bgq a = bgq b ->
  next_semaphore a = next_semaphore b -> clock a = clock b -> a = b.
Proof.
  destruct a, b. unfold inputs. cbn. intros [=] ? ? ? ? ? ?. subst. reflexivity.
Qed.

Lemma run_resolver_selections env na n :
  selections (run_resolver env na n)
  = alter (fun s => fst (signal_result_block
                           match LKDCDiscoverRealm env (hostname na) with
                           | Some realm =>
                               with_client
                                 (Some (default EmptyString (client s) +:+ "@" +:+ realm))
                                 (with_server
                                    (Some (service na +:+ "/" +:+ realm +:+ "@" +:+ realm)) s)
                           | None => s
                           end ∅)) n (selections na).
Proof.
  unfold run_resolver, classic_lkdc_background, update_selection.
  destruct (LKDCDiscoverRealm env (hostname na)); cbn;
    rewrite ?list_alter_alter_eq; reflexivity.
Qed.

(** Two resolvers work on two selections: the order in which they run
    makes no difference. *)
Lemma run_resolver_comm env na n m :
  n <> m ->
  run_resolver env (run_resolver env na n) m
  = run_resolver env (run_resolver env na m) n.
Proof.
  intros Hnm.
  destruct (run_resolver_frame env na n) as (In & Cn & Bn & Sn & Xn & Hn & _).
  destruct (run_resolver_frame env na m) as (Im & Cm & Bm & Sm & Xm & Hm & _).
  destruct (run_resolver_frame env (run_resolver env na n) m)
    as (Inm & Cnm & Bnm & Snm & Xnm & Hnm' & _).
  destruct (run_resolver_frame env (run_resolver env na m) n)
    as (Imn & Cmn & Bmn & Smn & Xmn & Hmn & _).
  apply NAHData_eq; try congruence.
  - rewrite !run_resolver_selections.
    pose proof (inputs_fields _ _ In) as (-> & -> & _).
    pose proof (inputs_fields _ _ Im) as (-> & -> & _).
    apply alter_alter_ne. congruence.
  - rewrite Bnm, Bmn, Bn, Bm. clear.
    induction (bgq na) as [|x q IH]; [reflexivity|].
    rewrite !filter_cons. repeat (case_decide; rewrite ?filter_cons);
      try congruence; rewrite ?IH; reflexivity.
Qed.

Lemma addSelection_keeps na n sel c ct sv st m fl :
  selections na !! n = Some sel ->
  selections (res_na (addSelection na c ct sv st m fl)) !! n = Some sel.
Proof.
  intros Hn.
  destruct (addSelection_cases na c ct sv st m fl)
    as [sn Hf Hsn Hpre | k r Hk Hd | na' nasel _ Hsel _ _ _ _ _ _ _ _ _ _ _ _];
    simpl; try exact Hn.
  rewrite Hsel. apply lookup_app_l_Some. exact Hn.
Qed.

Lemma addSelection_elsewhere na n sel c ct sv st m fl k :
  selections na !! n = Some sel -> mech sel <> m ->
  res_nasel (addSelection na c ct sv st m fl) = Some k -> k <> n.
Proof.
  intros Hn Hm.
  destruct (addSelection_cases na c ct sv st m fl)
    as [sn Hf Hsn Hpre | k' r Hk Hd | na' nasel _ Hsel _ _ _ _ _ _ _ _ _ _ _ _];
    simpl; [discriminate| |].
  - intros [= <-] ->. rewrite Hn in Hk. injection Hk as <-.
    apply is_duplicate_true in Hd as (D & _). contradiction.
  - intros [= <-]. apply lookup_lt_Some in Hn. lia.
Qed.

(** The NTLM guesses add and compare NTLM selections only, so the resolver
    of a selection of another mechanism can run before them or after them,
    and hence at any point among them, with the same outcome. *)
Lemma guess_ntlm_run_resolver env na n sel :
  selections na !! n = Some sel -> mech sel <> GSS_NTLM ->
  guess_ntlm env (run_resolver env na n) = run_resolver env (guess_ntlm env na) n.
Proof.
  intros Hn Hm.
  destruct (run_resolver_frame env na n) as (Hi & _).
  pose proof (inputs_fields _ _ Hi) as (Eh & Es & Eu & Esn & Em & _ & _ & Ep).
  unfold guess_ntlm.
  rewrite (haveMech_inputs _ _ _ Hi), Eh, Es, Eu, Em, Ep.
  destruct (negb (haveMech na kGSSAPIMechNTLMOID)); [reflexivity|].
  cbv zeta.
  set (flags := match servermechs na with Some _ => _ | None => _ end).
  set (s := service na +:+ "@" +:+ hostname na).
  assert (Hstep : forall us a,
             selections a !! n = Some sel ->
             foldl (fun na0 u =>
                      match res_nasel (addSelection na0 u (Some kNAHNTUsername)
                                         (Some s) None GSS_NTLM flags) with
                      | Some nasel =>
                          update_selection
                            (res_na (addSelection na0 u (Some kNAHNTUsername)
                                       (Some s) None GSS_NTLM flags))
                            nasel (with_have_cred true)
                      | None =>
                          res_na (addSelection na0 u (Some kNAHNTUsername)
                                    (Some s) None GSS_NTLM flags)
                      end) (run_resolver env a n) us
             = run_resolver env
                 (foldl (fun na0 u =>
                      match res_nasel (addSelection na0 u (Some kNAHNTUsername)
                                         (Some s) None GSS_NTLM flags) with
                      | Some nasel =>
                          update_selection
                            (res_na (addSelection na0 u (Some kNAHNTUsername)
                                       (Some s) None GSS_NTLM flags))
                            nasel (with_have_cred true)
                      | None =>
                          res_na (addSelection na0 u (Some kNAHNTUsername)
                                    (Some s) None GSS_NTLM flags)
                      end) a us) n).
  { induction us as [|u us IH]; intros a Ha; [reflexivity|].
    cbn [foldl].
    rewrite (run_resolver_addSelection env a n sel u _ _ _ _ flags Ha Hm).
    cbn [res_na res_nasel].
    pose proof (addSelection_keeps a n sel u (Some kNAHNTUsername) (Some s)
                  None GSS_NTLM flags Ha) as Hk.
    destruct (res_nasel (addSelection a u (Some kNAHNTUsername) (Some s) None
                           GSS_NTLM flags)) as [k|] eqn:Hr.
    - pose proof (addSelection_elsewhere _ _ _ _ _ _ _ _ _ _ Ha Hm Hr) as Hne.
      rewrite <- run_resolver_update_selection by exact Hne.
      apply IH. unfold update_selection.
      change (alter (with_have_cred true) k
                (selections (res_na (addSelection a u (Some kNAHNTUsername)
                                       (Some s) None GSS_NTLM flags))) !! n
              = Some sel).
      rewrite list_lookup_alter_ne by exact Hne. exact Hk.
    - apply IH. exact Hk. }
  destruct (password na); [|apply Hstep; exact Hn].
  match goal with
  | |- context [let '(_, _) := ?X in _] => destruct X as [u flags2]
  end.
  rewrite (run_resolver_addSelection env na n sel u _ _ _ _ _ Hn Hm).
  cbn [res_na].
  pose proof (addSelection_keeps na n sel u (Some kNAHNTUsername) (Some s)
                None GSS_NTLM (Z.lor flags flags2) Hn) as Hk.
  set (na0 := res_na (addSelection na u (Some kNAHNTUsername) (Some s) None
                        GSS_NTLM (Z.lor flags flags2))) in *.
  destruct (run_resolver_frame env na0 n) as (Hi0 & _).
  pose proof (inputs_fields _ _ Hi0) as (Eh0 & _ & _ & Esn0 & _).
  rewrite Esn0, Eh0.
  destruct (specificname na0) as [sn|].
  - rewrite (run_resolver_addSelection env na0 n sel _ _ _ _ _ _ Hk Hm).
    cbn [res_na]. apply Hstep. apply addSelection_keeps. exact Hk.
  - apply Hstep. exact Hk.
Qed.

(** C6, as the code has it.  When client certificates were supplied, or
    the service is neither CIFS nor host, or the server hints do not hold
    the NTLM OID (absent hints included), every selection that follows
    those of the user-selection overrides has a mechanism other than NTLM;
    with no override list in the preferences the result holds no NTLM
    selection at all. *)
Theorem NAHCreate_ntlm_gated (env : Environment) (h s : string)
    (info : option Info) (na : NAHData)
    (Hcreate : NAHCreate env h s info = Done (Some na))
    (Hgate : x509identities na <> None \/ is_smb na = false
             \/ haveMech na kGSSAPIMechNTLMOID = false) :
  exists na0 na1 ks,
    NAHCreate_session env h s info = Some na0
    /\ add_user_selections env na0 = Done na1
    /\ keys na = (keys na1 ++ ks)%list
    /\ Forall (fun k => key_mech k <> GSS_NTLM) ks
    /\ (pref_UserSelections env = None ->
        forall i sel, selections na !! i = Some sel -> mech sel <> GSS_NTLM).
Proof.
  destruct (NAHCreate_stages _ _ _ _ _ Hcreate) as (na0 & na1 & H0 & H1 & Hna).
  set (na2 := guess_kerberos env na1) in *.
  assert (Hna2 : na = na2).
  { rewrite Hna.
    destruct (_ && is_smb na2)%bool eqn:Hcond; [|reflexivity].
    apply andb_true_iff in Hcond as [Hx Hsmb].
    pose proof (guesses_inputs _ _ _ _ (guess_ntlm_guesses env na2)) as Hin.
    rewrite <- Hna in Hin.
    assert (Hmech : haveMech na2 kGSSAPIMechNTLMOID = false).
    { destruct Hgate as [Hg|[Hg|Hg]].
      - apply inputs_fields in Hin as (_ & _ & _ & _ & _ & _ & Hx' & _).
        rewrite Hx' in Hg. destruct (x509identities na2); [discriminate|].
        exfalso. apply Hg. reflexivity.
      - rewrite (is_smb_inputs _ _ Hin) in Hg. congruence.
      - rewrite (haveMech_inputs _ _ _ Hin) in Hg. exact Hg. }
    unfold guess_ntlm. rewrite Hmech. reflexivity. }
  destruct (NAHCreate_overrides _ _ _ _ _ _ H0 H1) as (_ & P1 & A1 & _).
  destruct (guesses_keys_resolved _ _ _ _ (guess_kerberos_guesses env na1 P1) A1)
    as (ks & Hks & HQ).
  fold na2 in Hks. exists na0, na1, ks. rewrite Hna2.
  assert (Hks' : Forall (fun k => key_mech k <> GSS_NTLM) ks).
  { eapply Forall_impl; [exact HQ|]. intros k (k0 & Hstep & HK).
    rewrite (key_step_mech _ _ Hstep).
    destruct HK as [E|E]; rewrite E; discriminate. }
  repeat split; auto.
  intros Hpref i sel Hi Hm.
  assert (Hk1 : keys na1 = []).
  { unfold add_user_selections in H1. rewrite Hpref in H1. injection H1 as <-.
    unfold keys. rewrite (NAHCreate_session_selections _ _ _ _ _ H0). reflexivity. }
  rewrite Hk1 in Hks. simpl in Hks.
  assert (Hin : key_view sel ∈ ks).
  { rewrite <- Hks. unfold keys. apply list_elem_of_fmap. exists sel.
    split; [reflexivity|]. eapply list_elem_of_lookup_2; eauto. }
  rewrite Forall_forall in Hks'. apply (Hks' _ Hin). exact Hm.
Qed.


(** ** The well-known LKDC selection *)

Lemma has_selection_guesses env Q na na' m c s :
  guesses env Q na na' -> has_selection na m c s -> has_selection na' m c s.
Proof.
  rewrite !has_selection_keys. intros H [st Hk]. exists st.
  eapply guesses_keys_elem; eauto.
Qed.


Lemma wellknown_lkdc_cert_guesses env s mechtype flags na cert :
  guesses env (resolved_key mechtype) na (wellknown_lkdc_cert s mechtype flags na cert).
Proof.
  unfold wellknown_lkdc_cert.
  match goal with
  | |- guesses env _ _ (match ?x with Some _ => _ | None => _ end) =>
      destruct x as [u0|]; [|apply guesses_refl]
  end.
  assert (Hadd : guesses env (resolved_key mechtype) na
                   (res_na (addSelection na u0 (Some kNAHNTKRB5Principal) (Some s)
                              (Some kNAHNTKRB5PrincipalReferral) mechtype flags)))
    by (apply guesses_add; [apply guesses_refl | split; [reflexivity | eauto]]).
  destruct (res_nasel _); [|exact Hadd].
  apply guesses_write; [exact Hadd | reflexivity].
Qed.

Lemma wellknown_lkdc_adds na mechtype flags :
  all_resolved na -> is_Some (password na) ->
  (specificname na = None
   \/ exists sn, specificname na = Some sn
                 /\ CFStringHasPrefix (wellknown_client na) sn = true) ->
  has_selection (wellknown_lkdc na mechtype flags) mechtype
    (wellknown_client na) (wellknown_server na).
Proof.
  intros Hall [pw Hpw] Hfilter. unfold wellknown_lkdc. rewrite Hpw.
  fold (wellknown_client na). fold (wellknown_server na).
  set (r := addSelection na (wellknown_client na) (Some kNAHNTKRB5Principal)
              (Some (wellknown_server na)) (Some kNAHNTKRB5Principal)
              mechtype flags).
  assert (Hfirst : has_selection (res_na r) mechtype
                     (wellknown_client na) (wellknown_server na)).
  { subst r.
    destruct (addSelection_cases na (wellknown_client na)
                (Some kNAHNTKRB5Principal) (Some (wellknown_server na))
                (Some kNAHNTKRB5Principal) mechtype flags)
      as [sn Hf Hsn Hpre | n sel Hn Hd
         | na' nasel Hnone Hsel _ _ _ _ Hm Hc Hs _ _ _ _ _]; simpl.
    - exfalso. destruct Hfilter as [Hp|(sn' & Hp & Hq)]; congruence.
    - apply is_duplicate_true in Hd as (D1 & D2 & D3 & D4).
      destruct (all_resolved_lookup _ _ _ Hall Hn) as [s' Hs'].
      exists n, sel. repeat split; auto.
      rewrite Hs'. f_equal. eapply D3; eauto.
    - exists (List.length (selections na)), nasel. rewrite Hsel.
      rewrite lookup_app_r by reflexivity. rewrite Nat.sub_diag. auto. }
  destruct (x509identities (res_na r)) as [certs|]; [|exact Hfirst].
  eapply (has_selection_guesses quiet_environment); [|exact Hfirst].
  apply guesses_foldl; [|apply guesses_refl].
  intros a cert. apply wellknown_lkdc_cert_guesses.
Qed.

Lemma wellknown_inputs a b :
  inputs a = inputs b ->
  wellknown_client a = wellknown_client b
  /\ wellknown_server a = wellknown_server b.
Proof.
  intros H. apply inputs_fields in H as (_ & Hs & Hu & _).
  unfold wellknown_client, wellknown_server. rewrite Hs, Hu. auto.
Qed.

Lemma guess_kerberos_run_wellknown env d na :
  pending na ->
  all_resolved na -> is_Some (password na) ->
  (specificname na = None
   \/ exists sn, specificname na = Some sn
                 /\ CFStringHasPrefix (wellknown_client na) sn = true) ->
  (try_iakerb_with_lkdc d = true ->
   has_selection (guess_kerberos_run env d na) GSS_KERBEROS_IAKERB
     (wellknown_client na) (wellknown_server na))
  /\ (try_wlkdc d = true ->
      has_selection (guess_kerberos_run env d na) GSS_KERBEROS
        (wellknown_client na) (wellknown_server na)).
Proof.
  intros Hp Hall Hpw Hfilter.
  pose proof (guess_kerberos_run_stages env d na Hp) as Hst. cbv zeta in Hst.
  set (flags := krb_flags d) in *.
  set (na1 := use_existing_principals env na true flags) in *.
  set (na2 := if try_iakerb_with_lkdc d
              then wellknown_lkdc na1 GSS_KERBEROS_IAKERB flags else na1) in *.
  set (na3 := if try_wlkdc d then wellknown_lkdc na2 GSS_KERBEROS flags else na2)
    in *.
  destruct Hst as (-> & [G1 _] & [G2 _] & [G3 _] & [G4 _] & [G5 _] & [G6 _] & G7 & _).
  pose proof (guesses_inputs _ _ _ _ G1) as I1.
  pose proof (guesses_all_resolved _ _ _ _ G1 Hall) as A1.
  destruct (wellknown_inputs _ _ I1) as [C1 S1].
  assert (P1 : is_Some (password na1)).
  { apply inputs_fields in I1 as (_ & _ & _ & _ & _ & _ & _ & ->). exact Hpw. }
  assert (F1 : specificname na1 = None
               \/ exists sn, specificname na1 = Some sn
                             /\ CFStringHasPrefix (wellknown_client na1) sn = true).
  { rewrite C1. apply inputs_fields in I1 as (_ & _ & _ & -> & _). exact Hfilter. }
  pose proof (guesses_inputs _ _ _ _ G2) as I2.
  pose proof (guesses_all_resolved _ _ _ _ G2 A1) as A2.
  destruct (wellknown_inputs _ _ I2) as [C2 S2].
  assert (Htail : forall m c sv,
             has_selection na3 m c sv ->
             has_selection
               (yield env
                  (use_existing_principals env
                     (if try_lkdc_classic d
                      then classic_lkdc env
                             match password na3 with
                             | Some _ => use_classic_kerberos env na3 flags
                             | None => na3
                             end flags
                      else match password na3 with
                           | Some _ => use_classic_kerberos env na3 flags
                           | None => na3
                           end) false flags)) m c sv).
  { intros m c sv H3.
    eapply has_selection_guesses; [apply (G7 any_key)|].
    eapply has_selection_guesses; [exact G6|].
    eapply has_selection_guesses; [exact G5|].
    eapply has_selection_guesses; [exact G4|]. exact H3. }
  split; intros Htry; apply Htail.
  - eapply has_selection_guesses; [exact G3|].
    subst na2. rewrite Htry. rewrite <- C1, <- S1.
    apply wellknown_lkdc_adds; assumption.
  - subst na3. rewrite Htry. rewrite <- C1, <- S1, <- C2, <- S2.
    apply wellknown_lkdc_adds; [exact A2 | |].
    + apply inputs_fields in I2 as (_ & _ & _ & _ & _ & _ & _ & ->). exact P1.
    + rewrite C2. apply inputs_fields in I2 as (_ & _ & _ & -> & _). exact F1.
Qed.

(** C4, as the code has it.  When the Kerberos pipeline runs (the hints
    allow Kerberos and both contexts open) with [try_iakerb_with_lkdc] or
    with [try_wlkdc] set, a password is present and the client
    [<username>@WELLKNOWN:COM.APPLE.LKDC] passes the specific-name filter,
    the list [NAHCreate] returns holds a selection with that client and
    the server [<service>/localhost@WELLKNOWN:COM.APPLE.LKDC], of
    mechanism IAKERB in the first case and Kerberos in the second. *)
Theorem NAHCreate_wellknown_lkdc (env : Environment) (h s : string)
    (info : option Info) (na0 na : NAHData)
    (Hsession : NAHCreate_session env h s info = Some na0)
    (Hcreate : NAHCreate env h s info = Done (Some na))
    (Hhave : have_kerberos (guess_kerberos_decide env na0) = true)
    (Hkrb5 : krb5_init_context_ret env = 0)
    (Hhx509 : hx509_context_init_ret env = 0)
    (Hpassword : is_Some (password na0))
    (Hfilter : specificname na0 = None
               \/ exists sn, specificname na0 = Some sn
                             /\ CFStringHasPrefix (wellknown_client na0) sn = true) :
  (try_iakerb_with_lkdc (guess_kerberos_decide env na0) = true ->
   has_selection na GSS_KERBEROS_IAKERB (wellknown_client na0) (wellknown_server na0))
  /\ (try_wlkdc (guess_kerberos_decide env na0) = true ->
      has_selection na GSS_KERBEROS (wellknown_client na0) (wellknown_server na0)).
Proof.
  destruct (NAHCreate_stages _ _ _ _ _ Hcreate) as (na0' & na1 & H0 & H1 & Hna).
  rewrite Hsession in H0. injection H0 as <-.
  pose proof (add_user_selections_guesses _ _ _ H1) as G1.
  pose proof (guesses_inputs _ _ _ _ G1) as I1.
  assert (A0 : all_resolved na0).
  { unfold all_resolved, keys.
    rewrite (NAHCreate_session_selections _ _ _ _ _ Hsession). constructor. }
  pose proof (guesses_with_server_all_resolved _ _ _ G1 A0) as A1.
  destruct (wellknown_inputs _ _ I1) as [C1 S1].
  rewrite <- (guess_kerberos_decide_inputs env _ _ I1).
  rewrite <- C1, <- S1.
  assert (Hrun : guess_kerberos env na1
                 = guess_kerberos_run env (guess_kerberos_decide env na1)
                     (set_contexts (set_contexts na1 true (hxctx na1)) true true)).
  { unfold guess_kerberos.
    rewrite (guess_kerberos_decide_inputs env _ _ I1), Hhave, Hkrb5, Hhx509.
    reflexivity. }
  set (na1' := set_contexts (set_contexts na1 true (hxctx na1)) true true) in *.
  assert (Hw : (try_iakerb_with_lkdc (guess_kerberos_decide env na1) = true ->
                has_selection (guess_kerberos env na1) GSS_KERBEROS_IAKERB
                  (wellknown_client na1) (wellknown_server na1))
               /\ (try_wlkdc (guess_kerberos_decide env na1) = true ->
                   has_selection (guess_kerberos env na1) GSS_KERBEROS
                     (wellknown_client na1) (wellknown_server na1))).
  { rewrite Hrun.
    apply (guess_kerberos_run_wellknown env (guess_kerberos_decide env na1) na1').
    - exact (proj1 (proj2 (NAHCreate_overrides _ _ _ _ _ _ Hsession H1))).
    - exact A1.
    - apply inputs_fields in I1 as (_ & _ & _ & _ & _ & _ & _ & E).
      change (is_Some (password na1)). rewrite E. exact Hpassword.
    - change (specificname na1 = None
              \/ exists sn, specificname na1 = Some sn
                            /\ CFStringHasPrefix (wellknown_client na1) sn = true).
      rewrite C1. apply inputs_fields in I1 as (_ & _ & _ & E & _).
      rewrite E. exact Hfilter. }
  assert (Hlast : guesses env (resolved_key GSS_NTLM) (guess_kerberos env na1) na).
  { rewrite Hna. destruct (_ && _)%bool;
      [apply guess_ntlm_guesses | apply guesses_refl]. }
  destruct Hw as [Hw1 Hw2].
  split; intros Htry; eapply has_selection_guesses; eauto.
Qed.


(** ** Remote hosts have no unresolved selection *)

Lemma resolved_with_server m0 m sv : resolved_key m0 m sv -> with_server_key m sv.
Proof. intros [_ H]. exact H. Qed.

Lemma guess_kerberos_run_remote env d na :
  pending na ->
  is_local_hostname (hostname na) = false ->
  guesses env with_server_key na (guess_kerberos_run env d na).
Proof.
  intros Hp Hremote.
  pose proof (guess_kerberos_run_stages env d na Hp) as Hst. cbv zeta in Hst.
  set (flags := krb_flags d) in *.
  set (na1 := use_existing_principals env na true flags) in *.
  set (na2 := if try_iakerb_with_lkdc d
              then wellknown_lkdc na1 GSS_KERBEROS_IAKERB flags else na1) in *.
  set (na3 := if try_wlkdc d then wellknown_lkdc na2 GSS_KERBEROS flags else na2)
    in *.
  set (na4 := match password na3 with
              | Some _ => use_classic_kerberos env na3 flags
              | None => na3
              end) in *.
  destruct Hst as (-> & [G1 _] & [G2 _] & [G3 _] & [G4 _] & _ & [G6 _] & G7 & _).
  assert (G14 : guesses env with_server_key na na4).
  { eapply guesses_trans;
      [eapply guesses_mono; [apply resolved_with_server | exact G1]|].
    eapply guesses_trans;
      [eapply guesses_mono; [apply resolved_with_server | exact G2]|].
    eapply guesses_trans;
      [eapply guesses_mono; [apply resolved_with_server | exact G3]|].
    eapply guesses_mono; [apply resolved_with_server | exact G4]. }
  assert (Hclassic : classic_lkdc env na4 flags = na4).
  { unfold classic_lkdc.
    pose proof (guesses_inputs _ _ _ _ G14) as I4.
    apply inputs_fields in I4 as (-> & _). rewrite Hremote. reflexivity. }
  assert (E5 : (if try_lkdc_classic d then classic_lkdc env na4 flags else na4)
               = na4)
    by (destruct (try_lkdc_classic d); [exact Hclassic | reflexivity]).
  rewrite E5 in *.
  eapply guesses_trans; [exact G14|].
  eapply guesses_trans;
    [eapply guesses_mono; [apply resolved_with_server | exact G6]|].
  apply G7.
Qed.

(** On a hostname that is not local every call of [NAHCreate] gives a
    server. *)
Lemma NAHCreate_remote_guesses env h s info na0 na :
  NAHCreate_session env h s info = Some na0 ->
  NAHCreate env h s info = Done (Some na) ->
  is_local_hostname (hostname na) = false ->
  guesses env with_server_key na0 na.
Proof.
  intros H0 Hcreate Hremote.
  destruct (NAHCreate_stages _ _ _ _ _ Hcreate) as (na0' & na1 & H0' & H1 & Hna).
  rewrite H0 in H0'. injection H0' as <-.
  pose proof (NAHCreate_guesses _ _ _ _ _ _ H0 Hcreate) as Gall.
  pose proof (guesses_inputs _ _ _ _ Gall) as Iall.
  destruct (NAHCreate_overrides _ _ _ _ _ _ H0 H1) as (G1 & P1 & _).
  pose proof (guesses_inputs _ _ _ _ G1) as I1.
  assert (Hremote1 : is_local_hostname (hostname na1) = false).
  { apply inputs_fields in Iall as (E & _). apply inputs_fields in I1 as (E1 & _).
    rewrite E1, <- E. exact Hremote. }
  assert (G2 : guesses env with_server_key na1 (guess_kerberos env na1)).
  { unfold guess_kerberos.
    destruct (negb (have_kerberos _)); [apply guesses_refl|].
    destruct (negb (Z.eqb (krb5_init_context_ret env) 0)); [apply guesses_refl|].
    destruct (negb (Z.eqb (hx509_context_init_ret env) 0)).
    - apply guesses_contexts, guesses_refl.
    - eapply guesses_trans;
        [|apply guess_kerberos_run_remote; [exact P1 | exact Hremote1]].
      apply guesses_contexts, guesses_contexts, guesses_refl. }
  eapply guesses_trans; [exact G1|]. eapply guesses_trans; [exact G2|].
  rewrite Hna. destruct (_ && _)%bool; [|apply guesses_refl].
  eapply guesses_mono; [apply resolved_with_server | apply guess_ntlm_guesses].
Qed.

(** On a hostname that is not local every selection [NAHCreate] returns has
    its server: none awaits a resolver. *)
Lemma NAHCreate_remote_resolved env h s info na :
  NAHCreate env h s info = Done (Some na) ->
  is_local_hostname (hostname na) = false ->
  all_resolved na.
Proof.
  intros Hcreate Hremote.
  destruct (NAHCreate_stages _ _ _ _ _ Hcreate) as (na0 & na1 & H0 & H1 & Hna).
  pose proof (NAHCreate_remote_guesses _ _ _ _ _ _ H0 Hcreate Hremote) as G3.
  apply (guesses_with_server_all_resolved _ _ _ G3).
  apply (NAHCreate_session_pending _ _ _ _ _ H0).
Qed.

(** The list [NAHCreate] returns has no two selections with the same key
    when no resolver ran before it returned: on a hostname that is not
    local, where none is dispatched, and under a schedule that runs them
    later. *)
Lemma NAHCreate_unique env h s info na :
  NAHCreate env h s info = Done (Some na) ->
  is_local_hostname (hostname na) = false
  \/ (forall k n, resolver_runs env k n = false) ->
  unique_selections (selections na).
Proof.
  intros Hcreate Hquiet.
  destruct (NAHCreate_stages _ _ _ _ _ Hcreate) as (na0 & na1 & H0 & _ & _).
  destruct (NAHCreate_session_pending _ _ _ _ _ H0) as (_ & B0 & A0 & U0).
  destruct Hquiet as [Hremote|Hdeferred].
  - pose proof (NAHCreate_remote_guesses _ _ _ _ _ _ H0 Hcreate Hremote) as G3.
    apply (guesses_with_server_quiet _ _ _ G3 A0 B0). exact U0.
  - eapply guesses_unique_deferred; [exact Hdeferred | |exact U0].
    eapply NAHCreate_guesses; eauto.
Qed.

(** C1, as the code has it.  After every sequence of [addSelection]
    calls with no resolver run in between, on a session whose list has no
    two selections with the same key (such as the empty list [NAHCreate]
    starts from), the list has no two selections with the same mechanism,
    the same client, the same server when both servers are present, and
    the same server-name-type.  A further call for which such a selection
    already exists appends nothing: it returns that selection and reports
    a duplicate when the call passes the name filter, and returns nothing
    when it does not.  So the list [NAHCreate] returns has no two
    selections with the same key on every host that is not local, where no
    resolver is dispatched, and under every schedule that leaves the
    resolvers for later.  The list is not scanned again after a resolver
    has rewritten a selection. *)
Theorem addSelection_calls_unique (na : NAHData) (calls : list addSelection_call)
    (Hstart : unique_selections (selections na)) :
  unique_selections (selections (addSelection_calls na calls))
  /\ (forall c i r,
       selections (addSelection_calls na calls) !! i = Some r ->
       has_key_of r c ->
       res_na (addSelection_of (addSelection_calls na calls) c)
       = addSelection_calls na calls
       /\ (passes_filter (addSelection_calls na calls) c ->
           exists n sel,
             res_nasel (addSelection_of (addSelection_calls na calls) c) = Some n
             /\ selections (addSelection_calls na calls) !! n = Some sel
             /\ has_key_of sel c
             /\ res_duplicate (addSelection_of (addSelection_calls na calls) c)
                = Some 1)
       /\ (~ passes_filter (addSelection_calls na calls) c ->
           res_nasel (addSelection_of (addSelection_calls na calls) c) = None))
  /\ forall env h s info na',
       NAHCreate env h s info = Done (Some na') ->
       is_local_hostname (hostname na') = false
       \/ (forall k n, resolver_runs env k n = false) ->
       unique_selections (NAHGetSelections na').
Proof.
  split; [apply calls_preserve_unique; exact Hstart|].
  split; [|intros env h s info na' Hc Hq; eapply NAHCreate_unique; eauto].
  set (na' := addSelection_calls na calls). intros c i r Hi Hk.
  destruct (passes_filter_dec na' c) as [Hp|Hnp].
  - destruct (addSelection_duplicate_found _ _ _ _ Hi Hk Hp)
      as (n & sel & -> & Hn & Hkey); simpl.
    split; [reflexivity|]. split; [|intros H; contradiction].
    intros _. exists n, sel. auto.
  - assert (Hnot : ~ passes_filter na' c).
    { destruct Hnp as (Hf & sn & Hsn & Hpre).
      intros [H|[H|(sn' & H & H')]]; congruence. }
    rewrite (addSelection_filtered _ _ Hnot); simpl.
    split; [reflexivity|]. split; [intros H; contradiction | reflexivity].
Qed.

(** ** Kerberos acquisition *)

Lemma check_success {A : Type} (na : A) ret k na' :
  check na ret k = Done (0, na') -> ret = 0 /\ k = Done (0, na').
Proof.
  unfold check. destruct (Z.eqb_spec ret 0) as [->|Hne]; [auto|].
  intros [= E _]. contradiction.
Qed.

Lemma acquire_kerberos_success x na n pw cert na' :
  acquire_kerberos x na n pw cert = Done (0, na') ->
  na' = update_selection na n
          (fun s => setFriendlyName x na cert
                      (krb5_realm_is_lkdc x (cred_client_realm x))
                      (update_principals x na s)).
Proof.
  unfold acquire_kerberos. destruct (selections na !! n) as [sel|]; [|discriminate].
  intros H.
  repeat (apply check_success in H as [_ H]).
  destruct cert as [cert|], pw as [pw|]; try discriminate;
    repeat (apply check_success in H as [_ H]); congruence.
Qed.

Lemma setFriendlyName_principals x na cert is_lkdc s :
  client (setFriendlyName x na cert is_lkdc s) = client s
  /\ server (setFriendlyName x na cert is_lkdc s) = server s.
Proof.
  unfold setFriendlyName.
  destruct (match cert with Some _ => _ | None => _ end); auto.
Qed.

(** C8. After a successful [acquire_kerberos] on a selection with client
    [c]: when the client principal of the returned credentials differs from
    [c] as a string, the selection's client is that principal and its
    server is [<service>/<realm>@<realm>] if the principal's realm is an
    LKDC realm and [<service>/<hostname>@<realm>] otherwise; when it equals
    [c], client and server are as before. *)
Theorem acquire_kerberos_referral (x : krb5_exchange) (na na' : NAHData)
    (n : nat) (sel : NAHSelectionData) (c : string)
    (pw : option string) (cert : option SecCertificate)
    (Hselection : selections na !! n = Some sel)
    (Hclient : client sel = Some c)
    (Hsuccess : acquire_kerberos x na n pw cert = Done (0, na')) :
  exists sel',
    selections na' !! n = Some sel'
    /\ (cred_client_unparsed x <> c ->
        client sel' = Some (cred_client_unparsed x)
        /\ server sel'
           = Some (if krb5_realm_is_lkdc x (cred_client_realm x)
                   then service na +:+ "/" +:+ cred_client_realm x
                        +:+ "@" +:+ cred_client_realm x
                   else service na +:+ "/" +:+ hostname na
                        +:+ "@" +:+ cred_client_realm x))
    /\ (cred_client_unparsed x = c ->
        client sel' = client sel /\ server sel' = server sel).
Proof.
  apply acquire_kerberos_success in Hsuccess. subst na'.
  unfold update_selection. simpl.
  rewrite list_lookup_alter, decide_True by reflexivity.
  rewrite Hselection. simpl. eexists. split; [reflexivity|].
  destruct (setFriendlyName_principals x na cert
              (krb5_realm_is_lkdc x (cred_client_realm x))
              (update_principals x na sel)) as [-> ->].
  unfold update_principals. rewrite Hclient. simpl.
  destruct (comparison_eqb (CFStringCompare (cred_client_unparsed x) c 0)
              kCFCompareEqualTo) eqn:E; simpl.
  - apply CFStringCompare_literal in E. split; [intros H; contradiction|].
    intros _. rewrite Hclient. auto.
  - apply CFStringCompare_literal_false in E. split; [|intros H; contradiction].
    intros _. split; [reflexivity|].
    destruct (krb5_realm_is_lkdc x (cred_client_realm x)); reflexivity.
Qed.

(** ** Reference keys *)

(** C9, as the code has it.  For a selection with client [c],
    [NAHCopyReferenceKey] is [krb5:c] for the mechanisms Kerberos,
    KerberosIAKERB and KerberosPKU2U, [ntlm:c] for NTLM, and null for
    KerberosU2U and for no mechanism. *)
Theorem NAHCopyReferenceKey_by_mechanism (sel : NAHSelectionData) (c : string)
    (Hclient : client sel = Some c) :
  NAHCopyReferenceKey sel
  = match mech sel with
    | GSS_KERBEROS | GSS_KERBEROS_IAKERB | GSS_KERBEROS_PKU2U =>
        Some ("krb5:" +:+ c)
    | GSS_NTLM => Some ("ntlm:" +:+ c)
    | GSS_KERBEROS_U2U | NO_MECH => None
    end.
Proof.
  unfold NAHCopyReferenceKey. rewrite Hclient.
  destruct (mech sel); reflexivity.
Qed.


(** ** The completion latch *)



Lemma sumZ_zero {A : Type} (f : A -> Z) (l : list A) :
  (forall i a, l !! i = Some a -> f a = 0) -> sumZ f l = 0.
Proof.
  induction l as [|x l IH]; intros H; simpl; [reflexivity|].
  rewrite (H 0%nat x eq_refl), IH; [reflexivity|].
  intros i a Hi. apply (H (S i)). exact Hi.
Qed.




Lemma sem_value_insert (sems : semaphores) h h' v :
  sem_value (<[h := v]> sems) h' = if decide (h = h') then v else sem_value sems h'.
Proof.
  unfold sem_value. destruct (decide (h = h')) as [->|Hne].
  - rewrite lookup_insert_eq. reflexivity.
  - rewrite lookup_insert_ne by exact Hne. reflexivity.
Qed.

Lemma sem_value_signal_iter n w (sems : semaphores) h :
  sem_value (Nat.iter n (dispatch_semaphore_signal w) sems) h
  = sem_value sems h + (if decide (w = Some h) then Z.of_nat n else 0).
Proof.
  induction n as [|n IH].
  - simpl. destruct (decide _); lia.
  - rewrite Nat.iter_succ. unfold dispatch_semaphore_signal at 1.
    destruct w as [h0|].
    + rewrite sem_value_insert, IH.
      destruct (decide (h0 = h)) as [->|Hne];
        repeat (destruct (decide (Some _ = Some _))); try congruence; lia.
    + rewrite IH. reflexivity.
Qed.

Lemma signal_waiters_spec s sems :
  0 <= waiting s ->
  fst (signal_waiters s sems) = 0
  /\ forall h, sem_value (snd (signal_waiters s sems)) h
               = sem_value sems h + counted_on h s.
Proof.
  intros Hw. unfold signal_waiters. simpl. split; [lia|].
  intros h. rewrite sem_value_signal_iter. unfold counted_on.
  destruct (decide (wait s = Some h)) as [E|E].
  - rewrite bool_decide_eq_true_2 by exact E. lia.
  - rewrite bool_decide_eq_false_2 by exact E. lia.
Qed.

Lemma cancel_selection_spec s sems :
  0 <= waiting s ->
  fst (cancel_selection s sems) = with_latch (wait s) 0 true s
  /\ forall h, sem_value (snd (cancel_selection s sems)) h
               = sem_value sems h + counted_on h s.
Proof.
  intros Hw. unfold cancel_selection.
  pose proof (signal_waiters_spec (with_latch (wait s) (waiting s) true s) sems Hw)
    as [H1 H2].
  destruct (signal_waiters (with_latch (wait s) (waiting s) true s) sems)
    as [n sems1]. simpl in *. subst n. split; [reflexivity|].
  intros h. rewrite H2. reflexivity.
Qed.

Lemma NAHCancel_block_spec l sems :
  (forall i s, l !! i = Some s -> 0 <= waiting s) ->
  fst (NAHCancel_block l sems) = (fun s => with_latch (wait s) 0 true s) <$> l
  /\ forall h, sem_value (snd (NAHCancel_block l sems)) h
               = sem_value sems h + sumZ (counted_on h) l.
Proof.
  revert sems. induction l as [|s l IH]; intros sems Hw.
  - simpl. split; [reflexivity | intros; lia].
  - cbn [NAHCancel_block].
    pose proof (cancel_selection_spec s sems (Hw 0%nat s eq_refl)) as [H1 H2].
    destruct (cancel_selection s sems) as [s1 sems1]. cbn [fst snd] in H1, H2.
    specialize (IH sems1 (fun i => Hw (S i))). destruct IH as [H3 H4].
    destruct (NAHCancel_block l sems1) as [l1 sems2]. cbn [fst snd] in *.
    split; [rewrite H1, H3; reflexivity|].
    intros h. rewrite H4, H2. cbn [sumZ]. lia.
Qed.

Lemma counted_on_canceled h s : counted_on h (with_latch (wait s) 0 true s) = 0.
Proof. unfold counted_on. simpl. destruct (bool_decide _); reflexivity. Qed.

(** *** The invariant holds along every run *)





Lemma NAHCancel_selections sys :
  latch_inv sys ->
  sys_selections (NAHCancel sys)
  = (fun s => with_latch (wait s) 0 true s) <$> sys_selections sys
  /\ (forall h, sem_value (sys_semaphores (NAHCancel sys)) h
                = sem_value (sys_semaphores sys) h
                  + sumZ (counted_on h) (sys_selections sys))
  /\ sys_waiters (NAHCancel sys) = sys_waiters sys.
Proof.
  intros [Hw _ _ _ _]. unfold NAHCancel.
  pose proof (NAHCancel_block_spec (sys_selections sys) (sys_semaphores sys)
                (fun i s H => proj1 (Hw i s H))) as [H1 H2].
  destruct (NAHCancel_block (sys_selections sys) (sys_semaphores sys))
    as [l1 sems1]. cbn [fst snd] in H1, H2. simpl. auto.
Qed.


Lemma latch_inv_NAHCancel sys : latch_inv sys -> latch_inv (NAHCancel sys).
Proof.
  intros Hinv. destruct (NAHCancel_selections sys Hinv) as (Hsel & Hsem & Hws).
  destruct Hinv as [Hw Hd Hh Hi Hc].
  assert (Hold : forall j sj, sys_selections (NAHCancel sys) !! j = Some sj ->
                   exists sj', sys_selections sys !! j = Some sj'
                               /\ wait sj = wait sj' /\ waiting sj = 0).
  { intros j sj. rewrite Hsel, list_lookup_fmap.
    destruct (sys_selections sys !! j) as [sj'|]; [|discriminate].
    intros [= <-]. eauto. }
  constructor.
  - intros j sj Hj. destruct (Hold _ _ Hj) as (sj' & _ & _ & E).
    rewrite E. split; [lia | reflexivity].
  - intros j k sj sk h Hj Hk Hwj Hwk.
    destruct (Hold _ _ Hj) as (sj' & Hj' & Ej & _).
    destruct (Hold _ _ Hk) as (sk' & Hk' & Ek & _).
    apply (Hd j k sj' sk' h Hj' Hk'); congruence.
  - intros t i h j sj Ht Hj Hwj. rewrite Hws in Ht.
    destruct (Hold _ _ Hj) as (sj' & Hj' & Ej & _).
    apply (Hh t i h j sj' Ht Hj'). congruence.
  - intros t w Ht. rewrite Hws in Ht. rewrite Hsel, length_fmap.
    apply (Hi _ _ Ht).
  - intros h. rewrite Hws, Hsem, Hc.
    assert (E : sumZ (counted_on h) (sys_selections (NAHCancel sys)) = 0).
    { apply sumZ_zero. intros j sj Hj.
      destruct (Hold _ _ Hj) as (_ & _ & _ & E). unfold counted_on.
      rewrite E. destruct (bool_decide _); reflexivity. }
    lia.
Qed.




(** *** A caller scheduled alone *)









(** *** What a returned caller has seen *)




(** *** Cancellation is sticky *)









(** ** The properties on sample sessions *)

Example name2mech_case : name2mech (Some "kerberos") = GSS_KERBEROS.
Proof. reflexivity. Qed.

Example name2mech_unknown : name2mech (Some "Digest") = NO_MECH.
Proof. reflexivity. Qed.

Example hex_string_sample :
  hex_string [Byte.x00; Byte.xab; Byte.xff] = "00ABFF".
Proof. reflexivity. Qed.

Example trim_sample : CFStringTrim_dots "..fs.corp.example.com." = "fs.corp.example.com".
Proof. reflexivity. Qed.

Example local_sample : is_local_hostname "mac-mini.local" = true.
Proof. reflexivity. Qed.

Example session_sample :
  NAHCreate_session quiet_environment "fs.corp.example.com" "cifs"
    (sample_info "alice" (Some "p"))
  = Some (sample_session "fs.corp.example.com" "cifs" "alice" (Some "p")).
Proof. reflexivity. Qed.

Example findUsername_domain :
  findUsername quiet_environment (sample_info ("DOMAIN" +:+ backslash +:+ "alice") None)
  = Some ("DOMAIN" +:+ backslash +:+ "alice", Some "alice").
Proof. reflexivity. Qed.

(** Scenario 1 of the specification: Windows file sharing with a password. *)
Example scenario_windows_smb :
  let env :=
    {| pref_GSSEnable := None; pref_UserSelections := None;
       krb5_init_context_ret := 0; hx509_context_init_ret := 0;
       cccol := Some []; krb5_get_host_realm := fun _ => None;
       krb5_get_default_realms := None; gss_iter_creds_NTLM := [];
       getlogin := None; CFNetServiceDeconstructServiceName := fun _ => None;
       LKDCDiscoverRealm := fun _ => None;
       resolver_runs := fun _ _ => false |} in
  let info :=
    Some {| kNAHUserName := Some ("DOMAIN" +:+ backslash +:+ "alice");
            kNAHPassword := Some "p";
            kNAHNegTokenInit :=
              Some {| kSPNEGONegTokenInitMechs :=
                        Some (<[kGSSAPIMechKerberosOID := []]>
                                (<[kGSSAPIMechNTLMOID := []]> ∅));
                      kSPNEGONegTokenInitHintsHostname := None |};
            kNAHCertificates := None |} in
  keys (created (NAHCreate env "fs.corp.example.com" "cifs" info)
          (sample_session "" "" "" None))
  = [ (GSS_KERBEROS, Some "alice@DOMAIN",
       Some "cifs/fs.corp.example.com@DOMAIN", kNAHNTKRB5PrincipalReferral);
      (GSS_NTLM, Some "alice@DOMAIN",
       Some "cifs@fs.corp.example.com", kNAHNTServiceBasedName);
      (GSS_NTLM, Some ("alice@" +:+ backslash +:+ "fs.corp.example.com"),
       Some "cifs@fs.corp.example.com", kNAHNTServiceBasedName) ].
Proof. vm_compute. reflexivity. Qed.

(** Scenario 2 of the specification: a local AFP server, no hints.  The
    one selection is the classic LKDC one for the user, its server not yet
    known, SPNEGO off, a resolver dispatched. *)
Example scenario_local_afp :
  (fun na => (keys na, spnego <$> selections na, wait <$> selections na, bgq na))
    (created (NAHCreate quiet_environment "mac-mini.local" "afpserver"
                (sample_info "bob" (Some "p")))
       (sample_session "" "" "" None))
  = ([ (GSS_KERBEROS, Some "bob", None, kNAHNTKRB5PrincipalReferral) ],
     [ false ], [ Some O ], [ O ]).
Proof. vm_compute. reflexivity. Qed.

(** Scenario 3 of the specification: a PKU2U hint and a certificate, no
    password.  The one selection is the well-known LKDC one for the
    principal the certificate maps to. *)
Example scenario_pku2u_certificate :
  keys
    (created
       (NAHCreate quiet_environment "peer.example" "vnc"
          (Some {| kNAHUserName := None; kNAHPassword := None;
                   kNAHNegTokenInit :=
                     Some {| kSPNEGONegTokenInitMechs :=
                               Some (<[kGSSAPIMechPKU2UOID := []]> ∅);
                             kSPNEGONegTokenInitHintsHostname := None |};
                   kNAHCertificates :=
                     Some (CertificateOrIdentity
                             {| cert_data := Some [];
                                cert_sha1 := [];
                                cert_kerberos_principal := Some "carol";
                                cert_appleid := None |}) |}))
       (sample_session "" "" "" None))
  = [ (GSS_KERBEROS, Some "carol@WELLKNOWN:COM.APPLE.LKDC",
       Some "vnc/localhost@WELLKNOWN:COM.APPLE.LKDC",
       kNAHNTKRB5PrincipalReferral) ].
Proof. vm_compute. reflexivity. Qed.

(** Scenario 5 of the specification: an LKDC cache for this host gives a
    selection with its credential; the classic LKDC selection for the
    password follows it, its server not yet known. *)
Example scenario_cache_hit :
  (fun na => (keys na, have_cred <$> selections na, bgq na))
    (created (NAHCreate lkdc_cache_environment "mac-mini.local" "afpserver"
                (sample_info "bob" (Some "p")))
       (sample_session "" "" "" None))
  = ([ (GSS_KERBEROS, Some "bob@LKDC:SHA1.ABC",
        Some "afpserver/LKDC:SHA1.ABC@LKDC:SHA1.ABC",
        kNAHNTKRB5PrincipalReferral);
       (GSS_KERBEROS, Some "bob", None, kNAHNTKRB5PrincipalReferral) ],
     [ true; false ], [ 1%nat ]).
Proof. vm_compute. reflexivity. Qed.

(** The resolver is not a call of [addSelection]: once it has rewritten
    the classic LKDC selection of the scenario above, the two selections
    of the list carry the same client, server and server type. *)
Example resolver_rewrites_key :
  keys (run_resolvers lkdc_cache_environment
          (created (NAHCreate lkdc_cache_environment "mac-mini.local"
                      "afpserver" (sample_info "bob" (Some "p")))
             (sample_session "" "" "" None)))
  = [ (GSS_KERBEROS, Some "bob@LKDC:SHA1.ABC",
       Some "afpserver/LKDC:SHA1.ABC@LKDC:SHA1.ABC",
       kNAHNTKRB5PrincipalReferral);
      (GSS_KERBEROS, Some "bob@LKDC:SHA1.ABC",
       Some "afpserver/LKDC:SHA1.ABC@LKDC:SHA1.ABC",
       kNAHNTKRB5PrincipalReferral) ].
Proof. vm_compute. reflexivity. Qed.


(** C1 fails as stated: for a caller who hands in the same certificate
    twice on a local host, with the first resolver run before the second
    certificate is scanned, [NAHCreate] returns two selections with the same
    mechanism, client, server and server-name-type.  The first selection
    was rewritten to [AB01@LKDC:SHA1.ABC] when [addSelection] looked for
    [AB01] again. *)
Lemma NAHCreate_duplicates_counterexample :
  exists na,
    NAHCreate eager_environment "mac-mini.local" "afpserver" twin_certificates
    = Done (Some na)
    /\ keys na
       = [ (GSS_KERBEROS, Some "AB01@LKDC:SHA1.ABC",
            Some "afpserver/LKDC:SHA1.ABC@LKDC:SHA1.ABC",
            kNAHNTKRB5PrincipalReferral);
           (GSS_KERBEROS, Some "AB01@LKDC:SHA1.ABC",
            Some "afpserver/LKDC:SHA1.ABC@LKDC:SHA1.ABC",
            kNAHNTKRB5PrincipalReferral) ]
    /\ ~ unique_selections (NAHGetSelections na).
Proof.
  eexists. split; [vm_compute; reflexivity|]. split; [vm_compute; reflexivity|].
  intros Hu.
  assert (H : 0%nat = 1%nat); [|discriminate H].
  eapply Hu; [reflexivity | reflexivity |].
  repeat split; try reflexivity. intros s t [= <-] [= <-]. reflexivity.
Qed.

(** With the resolvers left for later, the same caller gets one selection:
    the second certificate is found as a duplicate of the first. *)
Example twin_certificates_deferred :
  keys (created (NAHCreate quiet_environment "mac-mini.local" "afpserver"
                   twin_certificates)
          (sample_session "" "" "" None))
  = [ (GSS_KERBEROS, Some "AB01", None, kNAHNTKRB5PrincipalReferral) ].
Proof. vm_compute. reflexivity. Qed.

(** The de-duplication of C1 on three calls, the second a repeat of the
    first, and on the two certificates above with the resolvers left for
    later. *)
Lemma addSelection_calls_unique_witness :
  unique_selections
    (selections (sample_session "fs.corp.example.com" "cifs" "alice" (Some "p")))
  /\ unique_selections
       (selections
          (addSelection_calls
             (sample_session "fs.corp.example.com" "cifs" "alice" (Some "p"))
             [ sample_call "alice@EXAMPLE.COM" None GSS_KERBEROS 1;
               sample_call "alice@EXAMPLE.COM"
                 (Some "cifs/fs.corp.example.com@EXAMPLE.COM") GSS_KERBEROS 3;
               sample_call "alice@EXAMPLE.COM" None GSS_NTLM 1 ]))
  /\ unique_selections
       (NAHGetSelections
          (created (NAHCreate quiet_environment "mac-mini.local" "afpserver"
                      twin_certificates)
             (sample_session "" "" "" None))).
Proof.
  split; [apply unique_selections_nil|].
  destruct (addSelection_calls_unique
              (sample_session "fs.corp.example.com" "cifs" "alice" (Some "p"))
              [ sample_call "alice@EXAMPLE.COM" None GSS_KERBEROS 1;
                sample_call "alice@EXAMPLE.COM"
                  (Some "cifs/fs.corp.example.com@EXAMPLE.COM") GSS_KERBEROS 3;
                sample_call "alice@EXAMPLE.COM" None GSS_NTLM 1 ]
              unique_selections_nil) as (Hcalls & _ & Hcreate).
  split; [exact Hcalls|].
  apply (Hcreate quiet_environment "mac-mini.local" "afpserver" twin_certificates).
  - vm_compute. reflexivity.
  - right. intros k n. reflexivity.
Defined.

Example addSelection_calls_sample :
  keys (addSelection_calls
          (sample_session "fs.corp.example.com" "cifs" "alice" (Some "p"))
          [ sample_call "alice@EXAMPLE.COM" None GSS_KERBEROS 1;
            sample_call "alice@EXAMPLE.COM"
              (Some "cifs/fs.corp.example.com@EXAMPLE.COM") GSS_KERBEROS 3;
            sample_call "alice@EXAMPLE.COM" None GSS_NTLM 1 ])
  = [ (GSS_KERBEROS, Some "alice@EXAMPLE.COM", None, kNAHNTKRB5PrincipalReferral);
      (GSS_NTLM, Some "alice@EXAMPLE.COM", None, kNAHNTKRB5PrincipalReferral) ].
Proof. vm_compute. reflexivity. Qed.

(** The filter of C2 on a client that lacks the specific-name. *)
Lemma addSelection_filter_noop_witness :
  addSelection (sample_session "fs.corp.example.com" "cifs" "alice" (Some "p"))
    "bob@EXAMPLE.COM" None (Some "cifs@fs.corp.example.com") None GSS_NTLM
    USE_SPNEGO
  = {| res_na := sample_session "fs.corp.example.com" "cifs" "alice" (Some "p");
       res_nasel := None; res_duplicate := None |}.
Proof.
  apply (addSelection_filter_noop _ _ _ _ _ _ _ "alice").
  - reflexivity.
  - reflexivity.
  - intros H. apply prefix_begins_with in H. vm_compute in H. discriminate H.
Defined.

(** The frame of C10: a call with another server and other flags that
    meets an unresolved selection of the same key. *)
Lemma addSelection_duplicate_frame_witness :
  res_na
    (addSelection_of
       (set_selections (sample_session "mac-mini.local" "afpserver" "alice" None)
          [sample_unresolved])
       (sample_call "alice" (Some "afpserver/LKDC:SHA1.X@LKDC:SHA1.X")
          GSS_KERBEROS 0))
  = set_selections (sample_session "mac-mini.local" "afpserver" "alice" None)
      [sample_unresolved].
Proof.
  apply (addSelection_duplicate_frame _ _ O sample_unresolved).
  - reflexivity.
  - repeat split; try reflexivity. intros s t H. discriminate H.
  - right. right. exists "alice". split; reflexivity.
Defined.

(** C3 fails as stated: an override entry for this host and this user
    whose client lacks the specific-name is not added. *)
Lemma add_user_selections_counterexample :
  CFStringCompare "SERVER.example.com"
    (hostname (sample_session "server.example.com" "afpserver" "alice" None))
    kCFCompareCaseInsensitive
  = kCFCompareEqualTo
  /\ username (sample_session "server.example.com" "afpserver" "alice" None)
     = "alice"
  /\ add_user_selections
       (with_UserSelections quiet_environment
          [CFDictionaryElement
             (sample_override "Kerberos" "SERVER.example.com" "alice"
                "bob@EXAMPLE.COM")])
       (sample_session "server.example.com" "afpserver" "alice" None)
     = Done (sample_session "server.example.com" "afpserver" "alice" None)
  /\ selections (sample_session "server.example.com" "afpserver" "alice" None)
     = [].
Proof. vm_compute. repeat split; reflexivity. Qed.

Lemma add_user_selection_filtered_witness :
  add_user_selection
    (sample_session "server.example.com" "afpserver" "alice" None)
    (CFDictionaryElement
       (sample_override "Kerberos" "SERVER.example.com" "alice"
          "alice@EXAMPLE.COM"))
  = Done (res_na
            (addSelection
               (sample_session "server.example.com" "afpserver" "alice" None)
               "alice@EXAMPLE.COM" None
               (Some "afpserver@server.example.com") None
               GSS_KERBEROS USE_SPNEGO)).
Proof.
  apply (add_user_selection_filtered
           (sample_session "server.example.com" "afpserver" "alice" None)
           (sample_override "Kerberos" "SERVER.example.com" "alice"
              "alice@EXAMPLE.COM")
           "Kerberos" "SERVER.example.com" "alice@EXAMPLE.COM").
  - vm_compute. reflexivity.
  - vm_compute. reflexivity.
  - vm_compute. reflexivity.
  - vm_compute. reflexivity.
  - vm_compute. reflexivity.
  - vm_compute. discriminate.
Defined.

(** C4 fails as stated: a VNC session with no password runs the Kerberos
    pipeline with [try_wlkdc] set and produces no selection. *)
Lemma wellknown_lkdc_counterexample :
  NAHCreate_session quiet_environment "peer.example" "vnc" (sample_info "bob" None)
  = Some (sample_session "peer.example" "vnc" "bob" None)
  /\ have_kerberos
       (guess_kerberos_decide quiet_environment
          (sample_session "peer.example" "vnc" "bob" None)) = true
  /\ try_wlkdc
       (guess_kerberos_decide quiet_environment
          (sample_session "peer.example" "vnc" "bob" None)) = true
  /\ krb5_init_context_ret quiet_environment = 0
  /\ hx509_context_init_ret quiet_environment = 0
  /\ selections
       (guess_kerberos quiet_environment
          (sample_session "peer.example" "vnc" "bob" None)) = []
  /\ (exists na,
        NAHCreate quiet_environment "peer.example" "vnc" (sample_info "bob" None)
        = Done (Some na)
        /\ selections na = []).
Proof.
  vm_compute. repeat split; try reflexivity.
  eexists. split; reflexivity.
Qed.

Lemma NAHCreate_wellknown_lkdc_witness :
  has_selection
    (created (NAHCreate quiet_environment "peer.example" "vnc"
                (sample_info "bob" (Some "p")))
       (sample_session "peer.example" "vnc" "bob" (Some "p")))
    GSS_KERBEROS "bob@WELLKNOWN:COM.APPLE.LKDC"
    "vnc/localhost@WELLKNOWN:COM.APPLE.LKDC".
Proof.
  apply (proj2 (NAHCreate_wellknown_lkdc quiet_environment "peer.example" "vnc"
                  (sample_info "bob" (Some "p"))
                  (sample_session "peer.example" "vnc" "bob" (Some "p"))
                  (created (NAHCreate quiet_environment "peer.example" "vnc"
                              (sample_info "bob" (Some "p")))
                     (sample_session "peer.example" "vnc" "bob" (Some "p")))
                  eq_refl eq_refl eq_refl eq_refl eq_refl
                  (ex_intro _ "p" eq_refl)
                  (or_intror (ex_intro _ "bob" (conj eq_refl eq_refl))))).
  reflexivity.
Defined.

(** The locality of C5 on a local and on a remote host. *)
Lemma lkdc_locality_witness :
  use_classic_kerberos quiet_environment
    (sample_session "mac-mini.local" "afpserver" "bob" (Some "p")) USE_SPNEGO
  = sample_session "mac-mini.local" "afpserver" "bob" (Some "p")
  /\ classic_lkdc quiet_environment
       (sample_session "fs.corp.example.com" "cifs" "bob" (Some "p")) USE_SPNEGO
     = sample_session "fs.corp.example.com" "cifs" "bob" (Some "p").
Proof.
  split.
  - apply (proj1 (lkdc_locality quiet_environment
                    (sample_session "mac-mini.local" "afpserver" "bob" (Some "p"))
                    USE_SPNEGO)).
    left. exists "mac-mini". reflexivity.
  - apply (proj2 (lkdc_locality quiet_environment
                    (sample_session "fs.corp.example.com" "cifs" "bob" (Some "p"))
                    USE_SPNEGO)).
    intros H. apply is_local_hostname_ends_in in H. vm_compute in H.
    discriminate H.
Defined.


(** C6 fails as stated: an override entry that names NTLM yields an NTLM
    selection for a service that is neither CIFS nor host, with no hints. *)
Lemma NAHCreate_ntlm_counterexample :
  exists na sel,
    NAHCreate
      (with_UserSelections quiet_environment
         [CFDictionaryElement
            (sample_override "NTLM" "fs.corp.example.com" "alice" "alice")])
      "fs.corp.example.com" "afpserver" (sample_info "alice" None)
    = Done (Some na)
    /\ is_smb na = false
    /\ haveMech na kGSSAPIMechNTLMOID = false
    /\ selections na !! O = Some sel
    /\ mech sel = GSS_NTLM.
Proof. eexists. eexists. vm_compute. repeat split; reflexivity. Qed.

(** The gate of C6 on a session for a file server that is not SMB. *)
Lemma NAHCreate_ntlm_gated_witness :
  is_smb
    (created (NAHCreate quiet_environment "fs.corp.example.com" "afpserver"
                (sample_info "alice" (Some "p")))
       (sample_session "" "" "" None)) = false
  /\ forall i sel,
       selections
         (created (NAHCreate quiet_environment "fs.corp.example.com" "afpserver"
                     (sample_info "alice" (Some "p")))
            (sample_session "" "" "" None)) !! i = Some sel ->
       mech sel <> GSS_NTLM.
Proof.
  split; [reflexivity|].
  destruct (NAHCreate_ntlm_gated quiet_environment "fs.corp.example.com"
              "afpserver" (sample_info "alice" (Some "p"))
              (created (NAHCreate quiet_environment "fs.corp.example.com"
                          "afpserver" (sample_info "alice" (Some "p")))
                 (sample_session "" "" "" None))
              eq_refl (or_intror (or_introl eq_refl)))
    as (na0 & na1 & ks & _ & _ & _ & _ & H).
  apply H. reflexivity.
Defined.

(** The referral of C8: the KDC answers with another client principal. *)
Lemma acquire_kerberos_referral_witness :
  exists sel',
    selections
      (acquired
         (acquire_kerberos
            (sample_exchange "alice@CORP.EXAMPLE.COM" "CORP.EXAMPLE.COM" false)
            (set_selections
               (sample_session "fs.corp.example.com" "cifs" "alice" (Some "p"))
               [sample_selection GSS_KERBEROS "alice@corp"])
            O (Some "p") None)
         (sample_session "" "" "" None)) !! O = Some sel'
    /\ client sel' = Some "alice@CORP.EXAMPLE.COM"
    /\ server sel' = Some "cifs/fs.corp.example.com@CORP.EXAMPLE.COM".
Proof.
  destruct (acquire_kerberos_referral
              (sample_exchange "alice@CORP.EXAMPLE.COM" "CORP.EXAMPLE.COM" false)
              (set_selections
                 (sample_session "fs.corp.example.com" "cifs" "alice" (Some "p"))
                 [sample_selection GSS_KERBEROS "alice@corp"])
              (acquired
                 (acquire_kerberos
                    (sample_exchange "alice@CORP.EXAMPLE.COM" "CORP.EXAMPLE.COM"
                       false)
                    (set_selections
                       (sample_session "fs.corp.example.com" "cifs" "alice"
                          (Some "p"))
                       [sample_selection GSS_KERBEROS "alice@corp"])
                    O (Some "p") None)
                 (sample_session "" "" "" None))
              O (sample_selection GSS_KERBEROS "alice@corp") "alice@corp"
              (Some "p") None eq_refl eq_refl eq_refl)
    as (sel' & Hsel & Hdiff & _).
  exists sel'. split; [exact Hsel|].
  apply Hdiff. intros H. discriminate H.
Defined.

(** C9 fails as stated: no key for a KerberosU2U selection. *)
Lemma NAHCopyReferenceKey_counterexample :
  client (sample_selection GSS_KERBEROS_U2U "alice@EXAMPLE.COM")
  = Some "alice@EXAMPLE.COM"
  /\ mech (sample_selection GSS_KERBEROS_U2U "alice@EXAMPLE.COM")
     = GSS_KERBEROS_U2U
  /\ NAHCopyReferenceKey (sample_selection GSS_KERBEROS_U2U "alice@EXAMPLE.COM")
     = None
  /\ NAHCopyReferenceKey (sample_selection GSS_KERBEROS_U2U "alice@EXAMPLE.COM")
     <> Some "krb5:alice@EXAMPLE.COM".
Proof. repeat split; try reflexivity. discriminate. Qed.

Lemma NAHCopyReferenceKey_by_mechanism_witness :
  NAHCopyReferenceKey (sample_selection GSS_KERBEROS_IAKERB "alice@EXAMPLE.COM")
  = Some "krb5:alice@EXAMPLE.COM"
  /\ NAHCopyReferenceKey (sample_selection GSS_NTLM "alice@CORP")
     = Some "ntlm:alice@CORP".
Proof.
  split.
  - apply (NAHCopyReferenceKey_by_mechanism
             (sample_selection GSS_KERBEROS_IAKERB "alice@EXAMPLE.COM")
             "alice@EXAMPLE.COM" eq_refl).
  - apply (NAHCopyReferenceKey_by_mechanism
             (sample_selection GSS_NTLM "alice@CORP") "alice@CORP" eq_refl).
Defined.

(** The latch of C7 with one caller blocked when [NAHCancel] runs and one
    caller arriving afterwards. *)
Lemma sample_latch_inv : latch_inv sample_latch.
Proof.
  constructor.
  - intros [|i] s H; [|discriminate H]. injection H as <-. simpl.
    split; [lia | discriminate].
  - intros [|i] [|j] s s' h Hi Hj; simpl in Hi, Hj; try discriminate.
    reflexivity.
  - intros [|t] i h [|j] s Ht Hj; simpl in Ht, Hj; try discriminate.
    injection Ht as <- _. reflexivity.
  - intros [|t] w H; [|discriminate H]. injection H as <-. simpl. lia.
  - intros h. unfold sample_latch, sumZ, blocked_on, counted_on, sem_value.
    simpl. rewrite lookup_empty. simpl.
    destruct h; reflexivity.
Qed.



(** * Further properties of the code *)

(** ** Mechanism names *)

Lemma CFStringCompare_caseless a b :
  comparison_eqb (CFStringCompare a b kCFCompareCaseInsensitive) kCFCompareEqualTo
  = true
  <-> string_map ascii_fold a = string_map ascii_fold b.
Proof.
  unfold CFStringCompare, kCFCompareCaseInsensitive, kCFCompareEqualTo. simpl.
  rewrite comparison_eqb_eq. apply string_compare_eq.
Qed.

(** X1. [name2mech] knows the five names of the table and nothing else, up
    to the case of ASCII letters: a name maps to a mechanism other than
    NO_MECH exactly when it equals, case folded, the name [mech2name] gives
    for that mechanism; and [mech2name] has a name for every mechanism but
    NO_MECH. *)
Theorem name2mech_mech2name (s : string) (m : NAHMechType) :
  (name2mech (Some s) = m /\ m <> NO_MECH
   <-> exists n, mech2name m = Some n
                 /\ string_map ascii_fold n = string_map ascii_fold s)
  /\ (mech2name m = None <-> m = NO_MECH).
Proof.
  split.
  - unfold name2mech, name2mech_loop, mechs. split.
    + intros [H Hne].
      repeat match type of H with
             | (if ?b then _ else _) = _ =>
                 let E := fresh "E" in
                 destruct b eqn:E;
                 [apply CFStringCompare_caseless in E; subst m;
                  eexists; split; [reflexivity | exact E]|]
             end.
      congruence.
    + intros (n & Hn & Hfold).
      destruct m; try discriminate Hn; injection Hn as <-; split;
        try discriminate;
        repeat match goal with
               | |- (if comparison_eqb (CFStringCompare ?a s _) _ then _ else _) = _ =>
                   let E := fresh "E" in
                   destruct (comparison_eqb
                               (CFStringCompare a s kCFCompareCaseInsensitive)
                               kCFCompareEqualTo) eqn:E;
                   [apply CFStringCompare_caseless in E; rewrite <- Hfold in E;
                    try discriminate E; try reflexivity|]
               end;
        try (rewrite <- not_true_iff_false in *;
             match goal with
             | E : ~ _ |- _ => exfalso; apply E; apply CFStringCompare_caseless;
                               exact Hfold
             end).
  - destruct m; split; intros H; try discriminate H; try reflexivity.
Qed.


(** ** The host name of a session *)

Lemma prefix_dot_cons c s : String.prefix "." (String c s) = is_dot c.
Proof.
  unfold is_dot.
  change (String.prefix "." (String c s))
    with (if Ascii.ascii_dec "." c then String.prefix EmptyString s else false).
  destruct (Ascii.ascii_dec "." c) as [<-|H].
  - destruct s; reflexivity.
  - symmetry. apply Ascii.eqb_neq. congruence.
Qed.

Lemma trim_leading_dots_split s :
  exists a, s = a +:+ trim_leading_dots s /\ only_dots a = true
            /\ String.prefix "." (trim_leading_dots s) = false.
Proof.
  induction s as [|c s (a & Ha & Hd & Hp)].
  - exists EmptyString. auto.
  - simpl. destruct (is_dot c) eqn:Hc.
    + exists (String c a). rewrite string_app_cons, <- Ha.
      simpl. rewrite Hc, Hd. auto.
    + exists EmptyString. repeat split; auto.
      rewrite prefix_dot_cons. exact Hc.
Qed.

Lemma trim_trailing_dots_split s :
  exists b, s = trim_trailing_dots s +:+ b /\ only_dots b = true.
Proof.
  induction s as [|c s (b & Hb & Hd)].
  - exists EmptyString. auto.
  - simpl. destruct (trim_trailing_dots s) as [|d t] eqn:Ht.
    + rewrite string_app_nil in Hb. subst b.
      destruct (is_dot c) eqn:Hc.
      * exists (String c s). simpl. rewrite Hc, Hd. auto.
      * exists s. auto.
    + exists b. rewrite !string_app_cons, <- string_app_cons, <- Hb. auto.
Qed.

Lemma trim_trailing_dots_no_dot s :
  ~ ends_in (trim_trailing_dots s) ".".
Proof.
  induction s as [|c s IH]; intros [front Hf]; simpl in Hf.
  - destruct front; discriminate Hf.
  - destruct (trim_trailing_dots s) as [|d t] eqn:Ht.
    + destruct (is_dot c) eqn:Hc.
      * destruct front; discriminate Hf.
      * destruct front as [|e front].
        -- rewrite string_app_nil in Hf. injection Hf as ->. discriminate Hc.
        -- rewrite string_app_cons in Hf. injection Hf as _ Hf.
           destruct front; discriminate Hf.
    + destruct front as [|e front].
      * rewrite string_app_nil in Hf. discriminate Hf.
      * rewrite string_app_cons in Hf. injection Hf as _ Hf.
        apply IH. exists front. exact Hf.
Qed.

Lemma trim_trailing_dots_prefix s :
  String.prefix "." s = false ->
  String.prefix "." (trim_trailing_dots s) = false.
Proof.
  destruct s as [|c s]; [auto|]. rewrite prefix_dot_cons. intros Hc. simpl.
  destruct (trim_trailing_dots s); [rewrite Hc|]; rewrite prefix_dot_cons;
    exact Hc.
Qed.

Lemma CFStringTrim_dots_split s :
  exists a b, s = a +:+ CFStringTrim_dots s +:+ b
              /\ only_dots a = true /\ only_dots b = true
              /\ CFStringHasPrefix (CFStringTrim_dots s) "." = false
              /\ CFStringHasSuffix (CFStringTrim_dots s) "." = false.
Proof.
  unfold CFStringTrim_dots.
  destruct (trim_leading_dots_split s) as (a & Ha & Hda & Hp).
  destruct (trim_trailing_dots_split (trim_leading_dots s)) as (b & Hb & Hdb).
  exists a, b. repeat split; auto.
  - rewrite <- Hb. exact Ha.
  - apply trim_trailing_dots_prefix. exact Hp.
  - apply not_true_is_false. intros H.
    apply CFStringHasSuffix_ends_in in H; [|discriminate].
    exact (trim_trailing_dots_no_dot _ H).
Qed.

(** X2. The host name of a session is the name [NAHCreate] was given (the
    host part of it, when it is a Bonjour service name) with dots removed
    at both ends and nothing else: it neither begins nor ends with a dot,
    and the guessers leave it as it is. *)
Theorem NAHCreate_hostname_trimmed env (h s : string) (info : option Info)
    (na : NAHData)
    (Hna : NAHCreate env h s info = Done (Some na)) :
  exists a b,
    default h (CFNetServiceDeconstructServiceName env h)
    = a +:+ hostname na +:+ b
    /\ only_dots a = true /\ only_dots b = true
    /\ CFStringHasPrefix (hostname na) "." = false
    /\ CFStringHasSuffix (hostname na) "." = false.
Proof.
  destruct (NAHCreate_stages _ _ _ _ _ Hna) as (na0 & na1 & H0 & _ & _).
  pose proof (guesses_inputs _ _ _ _ (NAHCreate_guesses _ _ _ _ _ _ H0 Hna)) as Hin.
  apply inputs_fields in Hin as (-> & _).
  unfold NAHCreate_session in H0.
  destruct (findUsername env info) as [[u sn]|]; [|discriminate].
  injection H0 as <-. simpl.
  destruct (CFNetServiceDeconstructServiceName env h) as [hs|]; simpl;
    apply CFStringTrim_dots_split.
Qed.

(** ** Certificate fingerprints *)

Lemma unhex_sprintf_02X b :
  match sprintf_02X b with
  | String h (String l EmptyString) => unhex_02X h l = Some b
  | _ => False
  end.
Proof. destruct b; reflexivity. Qed.

Lemma sprintf_02X_shape b :
  exists h l, sprintf_02X b = String h (String l EmptyString)
              /\ unhex_02X h l = Some b
              /\ upper_hex (String h (String l EmptyString)) = true.
Proof.
  pose proof (unhex_sprintf_02X b) as H.
  assert (Hu : upper_hex (sprintf_02X b) = true) by (destruct b; reflexivity).
  destruct (sprintf_02X b) as [|h [|l [|]]]; try contradiction.
  exists h, l. auto.
Qed.

(** X3. The client name [classic_lkdc] makes of a certificate's SHA-1
    digest has two characters per byte, all of them in [0-9A-F], and
    different digests give different names. *)
Theorem hex_string_injective (d d' : list Byte.byte) :
  String.length (hex_string d) = (2 * List.length d)%nat
  /\ upper_hex (hex_string d) = true
  /\ (hex_string d = hex_string d' -> d = d').
Proof.
  split; [|split].
  - induction d as [|b d IH]; [reflexivity|].
    simpl hex_string. destruct (sprintf_02X_shape b) as (h & l & -> & _ & _).
    rewrite !string_app_cons, string_app_nil. simpl. lia.
  - induction d as [|b d IH]; [reflexivity|].
    simpl hex_string. destruct (sprintf_02X_shape b) as (h & l & -> & _ & Hu).
    rewrite !string_app_cons, string_app_nil.
    simpl in Hu |- *. rewrite IH.
    rewrite !andb_true_r in Hu. apply andb_true_iff in Hu as [-> ->]. reflexivity.
  - revert d'. induction d as [|b d IH]; intros [|b' d'] H.
    + reflexivity.
    + simpl in H. destruct (sprintf_02X_shape b') as (h & l & E & _ & _).
      rewrite E in H. discriminate H.
    + simpl in H. destruct (sprintf_02X_shape b) as (h & l & E & _ & _).
      rewrite E in H. discriminate H.
    + simpl in H.
      destruct (sprintf_02X_shape b) as (h & l & E & Hb & _).
      destruct (sprintf_02X_shape b') as (h' & l' & E' & Hb' & _).
      rewrite E, E', !string_app_cons, !string_app_nil in H.
      injection H as -> -> H. f_equal; [congruence | apply IH; exact H].
Qed.

(** ** The user name of a session *)

Lemma index_char_cons c b s :
  String.index 0 (String c EmptyString) (String b s)
  = if Ascii.ascii_dec c b then Some O
    else option_map S (String.index 0 (String c EmptyString) s).
Proof.
  simpl. destruct (Ascii.ascii_dec c b); [destruct s; reflexivity|].
  destruct (String.index 0 (String c EmptyString) s); reflexivity.
Qed.

Lemma index_char_split c u loc :
  String.index 0 (String c EmptyString) u = Some loc ->
  u = String.substring 0 loc u +:+ String c EmptyString
      +:+ String.substring (loc + 1) (String.length u - (loc + 1)) u
  /\ String.index 0 (String c EmptyString) (String.substring 0 loc u) = None.
Proof.
  revert loc. induction u as [|b u IH]; intros loc H.
  - discriminate H.
  - rewrite index_char_cons in H. destruct (Ascii.ascii_dec c b) as [<-|Hcb].
    + injection H as <-. split; [|reflexivity].
      change (String.substring 0 0 (String c u)) with EmptyString.
      rewrite string_app_nil, string_app_cons, string_app_nil. f_equal.
      simpl. rewrite Nat.sub_0_r.
      pose proof (substring_split 0 u ltac:(lia)) as Hs.
      replace (String.substring 0 0 u) with EmptyString in Hs
        by (destruct u; reflexivity).
      rewrite string_app_nil, Nat.sub_0_r in Hs. exact Hs.
    + destruct (String.index 0 (String c EmptyString) u) as [k|] eqn:Hk;
        [|discriminate H].
      injection H as <-. destruct (IH k eq_refl) as [Hu Hn].
      split.
      * simpl. rewrite string_app_cons. f_equal. exact Hu.
      * change (String.substring 0 (S k) (String b u))
          with (String b (String.substring 0 k u)).
        rewrite index_char_cons. destruct (Ascii.ascii_dec c b); [congruence|].
        rewrite Hn. reflexivity.
Qed.

Lemma index_char_app_None c (a b : string) :
  String.index 0 (String c EmptyString) (a +:+ b) = None ->
  String.index 0 (String c EmptyString) b = None.
Proof.
  induction a as [|d a IH]; [rewrite string_app_nil; auto|].
  rewrite string_app_cons, index_char_cons.
  destruct (Ascii.ascii_dec c d); [discriminate|].
  destruct (String.index 0 (String c EmptyString) (a +:+ b)); [discriminate|].
  intros _. apply IH. reflexivity.
Qed.

(** X4. How [findUsername] splits the user name it is given.  The user
    name is kept whole.  With an [@] in it, the specific name is what
    stands before the first [@]; else, with a backslash in it, what stands
    after the first backslash; else the whole name.  In each case the parts
    put together give the user name back, and the specific name holds no
    [@]. *)
Theorem findUsername_split env (i : Info) (u : string)
    (Hu : kNAHUserName i = Some u) :
  exists sn, findUsername env (Some i) = Some (u, Some sn)
    /\ CFStringFind sn "@" = None
    /\ ((exists rest, u = sn +:+ "@" +:+ rest)
        \/ (exists dom, u = dom +:+ backslash +:+ sn
                        /\ CFStringFind dom backslash = None
                        /\ CFStringFind u "@" = None)
        \/ (u = sn /\ CFStringFind u backslash = None)).
Proof.
  unfold findUsername. rewrite Hu. unfold CFStringFind, backslash,
    CFStringCreateWithSubstring.
  destruct (String.index 0 "@" u) as [loc|] eqn:Hat.
  - destruct (index_char_split _ _ _ Hat) as [Hsplit Hn].
    eexists. split; [reflexivity|]. split; [exact Hn|].
    left. eexists. exact Hsplit.
  - destruct (String.index 0 (String (ascii_of_nat 92) EmptyString) u)
      as [loc|] eqn:Hbs.
    + destruct (index_char_split _ _ _ Hbs) as [Hsplit Hn].
      eexists. split; [reflexivity|]. split.
      * rewrite Hsplit in Hat at 1.
        apply index_char_app_None in Hat.
        change (String (ascii_of_nat 92) EmptyString +:+ ?x)
          with (String (ascii_of_nat 92) x) in Hat.
        rewrite index_char_cons in Hat.
        destruct (Ascii.ascii_dec "@" (ascii_of_nat 92)); [discriminate|].
        destruct (String.index 0 "@" (String.substring (loc + 1) _ u));
          [discriminate|reflexivity].
      * right. left. eexists. split; [exact Hsplit|]. split; [exact Hn|reflexivity].
    + eexists. split; [reflexivity|]. split; [exact Hat|].
      right. right. split; reflexivity.
Qed.

Lemma findUsername_split_witness :
  exists sn,
    findUsername quiet_environment (Some domain_user_info)
    = Some (domain_user, Some sn)
    /\ CFStringFind sn "@" = None
    /\ ((exists rest, domain_user = sn +:+ "@" +:+ rest)
        \/ (exists dom, domain_user = dom +:+ backslash +:+ sn
                        /\ CFStringFind dom backslash = None
                        /\ CFStringFind domain_user "@" = None)
        \/ (domain_user = sn /\ CFStringFind domain_user backslash = None)).
Proof. apply (findUsername_split quiet_environment domain_user_info). reflexivity. Defined.


(** ** addSelection, the third way *)

Lemma addSelection_shape na c ct sv st m flags :
  (res_na (addSelection na c ct sv st m flags) = na
   /\ res_duplicate (addSelection na c ct sv st m flags) <> Some 0)
  \/ addSelection na c ct sv st m flags
     = {| res_na :=
            set_selections
              match sv with
              | Some _ => na
              | None => set_next_semaphore na (S (next_semaphore na))
              end
              (selections na
               ++ [new_selection (next_semaphore na) c ct sv st m flags]);
          res_nasel := Some (List.length (selections na));
          res_duplicate := Some 0 |}.
Proof.
  unfold addSelection.
  destruct (negb _); [left; simpl; split; [reflexivity | discriminate]|].
  destruct (find_duplicate _ _ _ _ _ _);
    [left; simpl; split; [reflexivity | discriminate]|].
  right. destruct sv; reflexivity.
Qed.

Lemma addSelection_returned na c ct sv st m flags n :
  res_nasel (addSelection na c ct sv st m flags) = Some n ->
  exists sel,
    selections (res_na (addSelection na c ct sv st m flags)) !! n = Some sel
    /\ mech sel = m /\ client sel = Some c.
Proof.
  destruct (addSelection_cases na c ct sv st m flags)
    as [|k sel Hk Hd|na' nasel _ Hsel _ _ _ _ Hm Hc]; simpl.
  - discriminate.
  - intros [= <-]. exists sel. apply is_duplicate_true in Hd as (? & ? & _).
    auto.
  - intros [= <-]. exists nasel. rewrite Hsel.
    rewrite lookup_app_r, Nat.sub_diag by lia. auto.
Qed.

Lemma no_key_find_duplicate na c :
  (forall i r, selections na !! i = Some r -> ~ has_key_of r c) ->
  find_duplicate (selections na) 0 (call_client c) (call_server c)
    (default kNAHNTServiceBasedName (call_servertype c)) (call_mech c) = None.
Proof.
  intros Hnew.
  destruct (find_duplicate _ _ _ _ _ _) as [k|] eqn:H; [|reflexivity].
  apply find_duplicate_Some in H as (r & _ & Hr & Hd).
  exfalso. apply (Hnew _ _ Hr). apply has_key_of_is_duplicate. exact Hd.
Qed.

Lemma passes_filter_matching na c :
  passes_filter na c ->
  (flag_set (call_flags c) FORCE_ADD
   || match specificname na with
      | None => true
      | Some sn => CFStringHasPrefix (call_client c) sn
      end)%bool = true.
Proof.
  intros [H|[H|(sn & H & H')]]; rewrite H; [reflexivity| |].
  - apply orb_true_r.
  - rewrite H'. apply orb_true_r.
Qed.

(** X5. A call of [addSelection] that passes the specific-name filter and
    whose key no selection of the list has appends exactly one selection
    and returns it, reporting no duplicate: the new selection stands last,
    holds the mechanism, client and server of the call, the default name
    types where the call gives none, the SPNEGO flag of the call, no
    credential, no cache, no certificate and no label; it holds a fresh
    semaphore exactly when the call gives no server, and only then is a
    semaphore created.  The rest of the session stays as it was. *)
Theorem addSelection_appends (na : NAHData) (c : addSelection_call)
    (Hfilter : passes_filter na c)
    (Hnew : forall i r, selections na !! i = Some r -> ~ has_key_of r c) :
  addSelection_of na c
  = {| res_na :=
         set_selections
           match call_server c with
           | Some _ => na
           | None => set_next_semaphore na (S (next_semaphore na))
           end
           (selections na
            ++ [new_selection (next_semaphore na) (call_client c)
                  (call_clienttype c) (call_server c) (call_servertype c)
                  (call_mech c) (call_flags c)]);
       res_nasel := Some (List.length (selections na));
       res_duplicate := Some 0 |}.
Proof.
  unfold addSelection_of, addSelection.
  rewrite (passes_filter_matching _ _ Hfilter). simpl negb. cbv iota.
  rewrite (no_key_find_duplicate _ _ Hnew).
  destruct (call_server c); reflexivity.
Qed.

Lemma addSelection_appends_witness :
  addSelection_of (sample_session "fs.corp.example.com" "cifs" "ann" None)
    (sample_call "ann@CORP.EXAMPLE.COM" None GSS_KERBEROS USE_SPNEGO)
  = {| res_na :=
         set_selections
           (set_next_semaphore
              (sample_session "fs.corp.example.com" "cifs" "ann" None) 1%nat)
           [new_selection O "ann@CORP.EXAMPLE.COM" (Some kNAHNTKRB5Principal)
              None (Some kNAHNTKRB5PrincipalReferral) GSS_KERBEROS USE_SPNEGO];
       res_nasel := Some O;
       res_duplicate := Some 0 |}.
Proof.
  apply (addSelection_appends
           (sample_session "fs.corp.example.com" "cifs" "ann" None)
           (sample_call "ann@CORP.EXAMPLE.COM" None GSS_KERBEROS USE_SPNEGO)).
  - right. right. exists "ann". split; reflexivity.
  - intros i r H. simpl in H. rewrite lookup_nil in H. discriminate.
Defined.

Lemma new_selection_is_duplicate sem c ct sv st m flags :
  is_duplicate (new_selection sem c ct sv st m flags) c sv
    (default kNAHNTServiceBasedName st) m = true.
Proof.
  apply is_duplicate_true. simpl. repeat split; try reflexivity.
  intros s t -> [= ->]. reflexivity.
Qed.

Lemma find_duplicate_app l x n c sv st m :
  find_duplicate l n c sv st m = None ->
  is_duplicate x c sv st m = true ->
  find_duplicate (l ++ [x]) n c sv st m = Some (n + List.length l)%nat.
Proof.
  revert n. induction l as [|a l IH]; intros n; simpl.
  - intros _ ->. f_equal. lia.
  - destruct (is_duplicate a c sv st m); [discriminate|].
    intros H Hx. rewrite (IH _ H Hx). f_equal. lia.
Qed.

(** X6. [addSelection] is idempotent: the same call made a second time,
    right after the first, changes nothing in the session and returns the
    selection the first call returned, as a duplicate (or nothing again,
    when the name filter rejected the first). *)
Theorem addSelection_twice (na : NAHData) (c : string)
    (ct sv st : option string) (m : NAHMechType) (flags : Z) :
  addSelection (res_na (addSelection na c ct sv st m flags)) c ct sv st m flags
  = {| res_na := res_na (addSelection na c ct sv st m flags);
       res_nasel := res_nasel (addSelection na c ct sv st m flags);
       res_duplicate :=
         match res_nasel (addSelection na c ct sv st m flags) with
         | Some _ => Some 1
         | None => None
         end |}.
Proof.
  remember (addSelection na c ct sv st m flags) as r eqn:Hr.
  unfold addSelection in Hr.
  destruct (negb _) eqn:Hmatch.
  - subst r. simpl. unfold addSelection. rewrite Hmatch. reflexivity.
  - destruct (find_duplicate (selections na) 0 c sv _ m) as [k|] eqn:Hfind.
    + subst r. simpl. unfold addSelection. rewrite Hmatch, Hfind. reflexivity.
    + pose proof (find_duplicate_app _ _ _ _ _ _ _ Hfind
                    (new_selection_is_duplicate (next_semaphore na) c ct sv st
                       m flags)) as Hsnoc.
      subst r.
      destruct sv; cbn [res_na res_nasel]; unfold addSelection;
        cbn [specificname selections set_selections set_next_semaphore];
        rewrite Hmatch; unfold new_selection in Hsnoc; cbn in Hsnoc;
        cbn [NAHSelectionAlloc have_cred canceled certificate inferredLabel
             ccache next_semaphore];
        rewrite Hsnoc; reflexivity.
Qed.


(** ** What NAHCreate builds *)

Lemma builds_refl env Q na : builds env Q na na.
Proof. apply rtc_refl. Qed.

Lemma builds_trans env Q na1 na2 na3 :
  builds env Q na1 na2 -> builds env Q na2 na3 -> builds env Q na1 na3.
Proof. intros H1 H2. unfold builds in *. etrans; eassumption. Qed.

Lemma builds_mono env (Q Q' : NAHMechType -> bool -> bool -> Prop) na na' :
  (forall m r b, Q m r b -> Q' m r b) -> builds env Q na na' -> builds env Q' na na'.
Proof.
  intros HQ H. induction H as [|x y z Hxy _ IH]; [apply rtc_refl|].
  eapply rtc_l; [|exact IH].
  destruct Hxy; [apply build_add; auto | apply build_add_unresolved; auto
                | apply build_write; auto | apply build_contexts
                | apply build_resolve | apply build_turn].
Qed.

Lemma builds_add env Q na na1 c ct s st m flags :
  builds env Q na na1 -> Q m true (flag_set flags USE_SPNEGO) ->
  builds env Q na (res_na (addSelection na1 c ct (Some s) st m flags)).
Proof. intros H Hm. eapply rtc_r; [exact H | apply build_add; exact Hm]. Qed.

Lemma builds_add_unresolved env Q na na1 c ct st m flags :
  builds env Q na na1 -> Q m false (flag_set flags USE_SPNEGO) ->
  builds env Q na (add_unresolved na1 c ct st m flags).
Proof.
  intros H Hm. eapply rtc_r; [exact H | apply build_add_unresolved; exact Hm].
Qed.

Lemma builds_write env Q na na1 n f :
  builds env Q na na1 ->
  (forall s, frame_view (f s) = frame_view s) ->
  (forall s, selections na1 !! n = Some s -> write_ok s (f s)) ->
  builds env Q na (update_selection na1 n f).
Proof. intros H Hf Hw. eapply rtc_r; [exact H | apply build_write; assumption]. Qed.

Lemma builds_contexts env Q na na1 c h :
  builds env Q na na1 -> builds env Q na (set_contexts na1 c h).
Proof. intros H. eapply rtc_r; [exact H | apply build_contexts]. Qed.

Lemma builds_foldl env {A : Type} Q (f : NAHData -> A -> NAHData) (l : list A) na na1 :
  (forall a x, builds env Q a (f a x)) -> builds env Q na na1 -> builds env Q na (foldl f na1 l).
Proof.
  intros Hf. revert na1. induction l as [|x l IH]; intros na1 H; simpl; [exact H|].
  apply IH. eapply builds_trans; [exact H | apply Hf].
Qed.

(** A turn of the queue is a run of resolvers. *)
Lemma yield_builds env Q na : builds env Q na (yield env na).
Proof.
  unfold yield.
  assert (Hfold : forall l a,
             let a' := foldl (fun na0 n =>
                                if resolver_runs env (clock na) n
                                then run_resolver env na0 n else na0) a l in
             builds env Q a a' /\ clock a' = clock a).
  { induction l as [|n l IH]; intros a; simpl; [split; [apply builds_refl|reflexivity]|].
    destruct (resolver_runs env (clock na) n).
    - destruct (IH (run_resolver env a n)) as [G C]. split.
      + eapply rtc_l; [apply build_resolve | exact G].
      + rewrite C. apply run_resolver_frame.
    - apply IH. }
  destruct (Hfold (bgq na) na) as [G C]. cbv zeta in G, C.
  set (a' := foldl _ _ _) in *.
  eapply rtc_r; [exact G|]. rewrite <- C. apply build_turn.
Qed.

Lemma flag_set_FORCE_ADD flags :
  flag_set (Z.lor flags FORCE_ADD) USE_SPNEGO = flag_set flags USE_SPNEGO.
Proof.
  unfold flag_set, FORCE_ADD, USE_SPNEGO.
  rewrite Z.land_lor_distr_l. change (Z.land 2 1) with 0.
  rewrite Z.lor_0_r. reflexivity.
Qed.

Lemma offers_refl (P : NAHMechType -> bool -> Prop) m r flags :
  P m r -> offers P (flag_set flags USE_SPNEGO) m r (flag_set flags USE_SPNEGO).
Proof. intros H. split; [exact H | reflexivity]. Qed.

Lemma offers_FORCE_ADD (P : NAHMechType -> bool -> Prop) m r flags :
  P m r ->
  offers P (flag_set flags USE_SPNEGO) m r
    (flag_set (Z.lor flags FORCE_ADD) USE_SPNEGO).
Proof. intros H. split; [exact H | apply flag_set_FORCE_ADD]. Qed.

Lemma classic_lkdc_cert_builds env flags na cert :
  builds env (offers kerberos_mech (flag_set flags USE_SPNEGO)) na
    (classic_lkdc_cert env flags na cert).
Proof.
  unfold classic_lkdc_cert. destruct (cert_data cert); [|apply builds_refl].
  cbv zeta.
  pose proof (builds_add_unresolved env _ na (yield env na)
                (hex_string (cert_sha1 cert))
                (Some kNAHNTKRB5Principal) (Some kNAHNTKRB5PrincipalReferral)
                GSS_KERBEROS flags (yield_builds env _ na)
                (offers_refl kerberos_mech _ _ flags eq_refl)) as H.
  unfold add_unresolved in H. cbv zeta in H.
  set (r := addSelection (yield env na) (hex_string (cert_sha1 cert))
              (Some kNAHNTKRB5Principal) None
              (Some kNAHNTKRB5PrincipalReferral) GSS_KERBEROS flags) in *.
  destruct (res_nasel r) as [n|]; [|exact H].
  destruct (res_duplicate r) as [[| |]|]; try exact H.
  change (builds env (offers kerberos_mech (flag_set flags USE_SPNEGO)) na
            (update_selection (dispatch_async_bgq (res_na r) n) n
               (with_certificate (Some cert)))).
  apply builds_write; [exact H | reflexivity|].
  intros s _. apply write_annotation; reflexivity.
Qed.

Lemma classic_lkdc_builds env na flags :
  builds env (offers kerberos_mech (flag_set flags USE_SPNEGO)) na
    (classic_lkdc env na flags).
Proof.
  unfold classic_lkdc.
  destruct (negb (is_local_hostname (hostname na))); [apply builds_refl|].
  cbv zeta.
  set (na1 := match x509identities na with
              | Some certs => foldl (classic_lkdc_cert env flags) na certs
              | None => na
              end).
  assert (H1 : builds env (offers kerberos_mech (flag_set flags USE_SPNEGO)) na na1).
  { unfold na1. destruct (x509identities na) as [certs|]; [|apply builds_refl].
    apply builds_foldl; [|apply builds_refl].
    intros a x. apply classic_lkdc_cert_builds. }
  destruct (password na1); [|exact H1].
  eapply builds_trans; [exact H1|].
  apply (builds_add_unresolved env _ na1 (yield env na1) (username na1)
           (Some kNAHNTKRB5Principal)
           (Some kNAHNTKRB5PrincipalReferral) GSS_KERBEROS flags
           (yield_builds env _ na1)).
  apply offers_refl. reflexivity.
Qed.

Lemma add_realms_builds env na realms flags :
  builds env (offers (with_server_of GSS_KERBEROS) (flag_set flags USE_SPNEGO)) na
    (add_realms na realms flags).
Proof.
  unfold add_realms. apply builds_foldl; [|apply builds_refl].
  intros a x. apply builds_add; [apply builds_refl | apply offers_refl; split; reflexivity].
Qed.

Lemma use_classic_kerberos_builds env na flags :
  builds env (offers (with_server_of GSS_KERBEROS) (flag_set flags USE_SPNEGO)) na
    (use_classic_kerberos env na flags).
Proof.
  unfold use_classic_kerberos.
  destruct (is_local_hostname (hostname na)); [apply builds_refl|].
  repeat match goal with
         | |- builds env _ _ (match ?x with Some _ => _ | None => _ end) =>
             destruct x
         | |- builds env _ _ (add_realms _ _ _) =>
             eapply builds_trans; [|apply add_realms_builds]
         | |- builds env _ _ (res_na (addSelection _ _ _ _ _ _ (Z.lor _ _))) =>
             apply builds_add; [|apply offers_FORCE_ADD; split; reflexivity]
         | |- builds env _ _ (res_na (addSelection _ _ _ _ _ _ _)) =>
             apply builds_add; [|apply offers_refl; split; reflexivity]
         | |- builds env _ ?a ?a => apply builds_refl
         end.
Qed.

Lemma use_existing_principals_builds env na only_lkdc flags :
  builds env (offers (with_server_of GSS_KERBEROS) (flag_set flags USE_SPNEGO)) na
    (use_existing_principals env na only_lkdc flags).
Proof.
  unfold use_existing_principals.
  destruct (cccol env) as [caches|]; [|apply builds_refl].
  apply builds_foldl; [|apply builds_refl].
  intros a id. unfold use_existing_principal.
  destruct (cc_principal id) as [p|]; [|apply builds_refl].
  destruct (_ || _)%bool; [apply builds_refl|].
  destruct (princ_unparsed p) as [u|]; [|apply builds_refl].
  match goal with
  | |- builds env _ _ (match ?x with Some _ => _ | None => _ end) =>
      destruct x as [s|]; [|apply builds_refl]
  end.
  cbv zeta.
  set (r := addSelection (yield env a) u (Some kNAHNTKRB5Principal) (Some s)
              (Some kNAHNTKRB5PrincipalReferral) GSS_KERBEROS flags).
  assert (Hadd : builds env (offers (with_server_of GSS_KERBEROS) (flag_set flags USE_SPNEGO)) a
                   (res_na r))
    by (apply builds_add; [apply yield_builds | apply offers_refl; split; reflexivity]).
  destruct (res_nasel r) as [n|] eqn:Hn; [|exact Hadd].
  destruct (addSelection_returned _ _ _ _ _ _ _ _ Hn) as (sel & Hsel & Hm & _).
  fold r in Hsel. rewrite Hsel.
  destruct (ccache sel) eqn:Hcc; [exact Hadd|].
  apply builds_write; [exact Hadd| |].
  - intros x. simpl.
    destruct (inferredLabel x), (cc_FriendlyName id); reflexivity.
  - intros x Hx. rewrite Hsel in Hx. injection Hx as <-.
    apply write_cache; [exact Hm | exact Hcc | |]; simpl;
      destruct (inferredLabel sel), (cc_FriendlyName id); simpl; eauto.
Qed.

Lemma wellknown_lkdc_builds env na mechtype flags :
  builds env (offers (with_server_of mechtype) (flag_set flags USE_SPNEGO)) na
    (wellknown_lkdc na mechtype flags).
Proof.
  unfold wellknown_lkdc. cbv zeta.
  set (u := username na +:+ "@" +:+ kWELLKNOWN_LKDC).
  set (s := service na +:+ "/localhost@" +:+ kWELLKNOWN_LKDC).
  set (na1 := match password na with
              | Some _ =>
                  res_na (addSelection na u (Some kNAHNTKRB5Principal)
                            (Some s) (Some kNAHNTKRB5Principal) mechtype flags)
              | None => na
              end).
  assert (H1 : builds env (offers (with_server_of mechtype) (flag_set flags USE_SPNEGO)) na na1).
  { unfold na1. destruct (password na); [|apply builds_refl].
    apply builds_add; [apply builds_refl | apply offers_refl; split; reflexivity]. }
  destruct (x509identities na1) as [certs|]; [|exact H1].
  apply builds_foldl; [|exact H1].
  intros a cert. unfold wellknown_lkdc_cert.
  match goal with
  | |- builds env _ _ (match ?x with Some _ => _ | None => _ end) =>
      destruct x as [u0|]; [|apply builds_refl]
  end.
  assert (Hadd : builds env (offers (with_server_of mechtype) (flag_set flags USE_SPNEGO)) a
                   (res_na (addSelection a u0 (Some kNAHNTKRB5Principal) (Some s)
                              (Some kNAHNTKRB5PrincipalReferral) mechtype flags)))
    by (apply builds_add; [apply builds_refl | apply offers_refl; split; reflexivity]).
  cbv zeta. destruct (res_nasel _); [|exact Hadd].
  apply builds_write; [exact Hadd | reflexivity|].
  intros x _. apply write_annotation; reflexivity.
Qed.

Lemma guess_kerberos_run_builds env d na :
  builds env (offers kerberos_family (flag_set (krb_flags d) USE_SPNEGO)) na
    (guess_kerberos_run env d na).
Proof.
  unfold guess_kerberos_run. cbv zeta.
  assert (Hk : forall b m r b', offers (with_server_of GSS_KERBEROS) b m r b' ->
                                offers kerberos_family b m r b')
    by (intros b m r b' [[-> ->] ->]; split; [left|]; reflexivity).
  assert (Hi : forall b m r b',
             offers (with_server_of GSS_KERBEROS_IAKERB) b m r b' ->
             offers kerberos_family b m r b')
    by (intros b m r b' [[-> ->] ->]; split; [right; split|]; reflexivity).
  assert (Hc : forall b m r b', offers kerberos_mech b m r b' ->
                                offers kerberos_family b m r b')
    by (intros b m r b' [-> ->]; split; [left|]; reflexivity).
  eapply builds_trans; [|apply yield_builds].
  eapply builds_trans;
    [|eapply builds_mono; [apply Hk | apply use_existing_principals_builds]].
  eapply builds_trans;
    [|destruct (try_lkdc_classic d);
      [eapply builds_mono; [apply Hc | apply classic_lkdc_builds]
      |apply builds_refl]].
  eapply builds_trans;
    [|match goal with
      | |- builds env _ _ (match ?x with Some _ => _ | None => _ end) =>
          destruct x;
          [eapply builds_mono; [apply Hk | apply use_classic_kerberos_builds]
          |apply builds_refl]
      end].
  eapply builds_trans;
    [|destruct (try_wlkdc d);
      [eapply builds_mono; [apply Hk | apply wellknown_lkdc_builds]
      |apply builds_refl]].
  eapply builds_trans;
    [|destruct (try_iakerb_with_lkdc d);
      [eapply builds_mono; [apply Hi | apply wellknown_lkdc_builds]
      |apply builds_refl]].
  eapply builds_mono; [apply Hk | apply use_existing_principals_builds].
Qed.

Lemma krb_flags_spnego env na :
  flag_set (krb_flags (guess_kerberos_decide env na)) USE_SPNEGO
  = negb (afp_without_lkdc na).
Proof.
  unfold guess_kerberos_decide, afp_without_lkdc. simpl.
  destruct (_ && _)%bool; reflexivity.
Qed.

Lemma guess_kerberos_builds env na :
  builds env (offers kerberos_family (negb (afp_without_lkdc na))) na
    (guess_kerberos env na).
Proof.
  unfold guess_kerberos. cbv zeta.
  destruct (negb (have_kerberos _)); [apply builds_refl|].
  destruct (negb (Z.eqb (krb5_init_context_ret env) 0)); [apply builds_refl|].
  destruct (negb (Z.eqb (hx509_context_init_ret env) 0)).
  - apply builds_contexts, builds_refl.
  - eapply builds_trans;
      [|rewrite <- (krb_flags_spnego env na); apply guess_kerberos_run_builds].
    apply builds_contexts, builds_contexts, builds_refl.
Qed.

Lemma guess_ntlm_builds env na :
  builds env (offers (with_server_of GSS_NTLM) (negb (raw_ntlm na))) na (guess_ntlm env na).
Proof.
  unfold guess_ntlm.
  destruct (negb (haveMech na kGSSAPIMechNTLMOID)); [apply builds_refl|].
  cbv zeta.
  match goal with
  | |- context [Z.lor ?f _] => set (flags := f)
  end.
  assert (Hflags : flag_set flags USE_SPNEGO = negb (raw_ntlm na)).
  { unfold flags, raw_ntlm. destruct (servermechs na) as [d|]; [|reflexivity].
    destruct (d !! kGSSAPIMechNTLMOID) as [data|]; [|reflexivity].
    destruct (_ && _)%bool; reflexivity. }
  rewrite <- Hflags.
  apply builds_foldl.
  - intros a u.
    match goal with
    | |- builds env _ _ (match res_nasel ?x with Some _ => _ | None => _ end) =>
        set (r := x)
    end.
    assert (Hadd : builds env (offers (with_server_of GSS_NTLM) (flag_set flags USE_SPNEGO)) a
                     (res_na r))
      by (apply builds_add; [apply builds_refl | apply offers_refl; split; reflexivity]).
    destruct (res_nasel r) as [n|] eqn:Hn; [|exact Hadd].
    destruct (addSelection_returned _ _ _ _ _ _ _ _ Hn) as (sel & Hsel & Hm & _).
    apply builds_write; [exact Hadd | reflexivity|].
    intros x Hx. fold r in Hsel. rewrite Hsel in Hx. injection Hx as <-.
    apply write_have_cred; [exact Hm | reflexivity | reflexivity].
  - destruct (password na); [|apply builds_refl].
    assert (Hlor : forall f2, f2 = FORCE_ADD \/ f2 = 0 ->
               offers (with_server_of GSS_NTLM) (flag_set flags USE_SPNEGO)
                 GSS_NTLM true (flag_set (Z.lor flags f2) USE_SPNEGO)).
    { intros f2 [->| ->]; [apply offers_FORCE_ADD; split; reflexivity|].
      rewrite Z.lor_0_r. apply offers_refl. split; reflexivity. }
    match goal with
    | |- builds env _ _ (let '(_, _) := ?X in _) =>
        assert (Hf2 : snd X = FORCE_ADD \/ snd X = 0)
          by (destruct (CFStringFind (username na) "@");
              [|destruct (CFStringFind (username na) backslash)]; simpl; auto);
        destruct X as [u flags2]
    end.
    simpl in Hf2.
    match goal with
    | |- builds env _ _ (match ?x with Some _ => _ | None => _ end) =>
        destruct x
    end;
    repeat first [ apply builds_add; [|first [ apply Hlor; exact Hf2
                                             | apply offers_refl; split; reflexivity ]]
                 | apply builds_refl ].
Qed.

Lemma add_user_selection_builds env na elem na' :
  add_user_selection na elem = Done na' ->
  builds env (offers known_with_server true) na na'.
Proof.
  unfold add_user_selection. destruct elem as [dict|];
    [|intros [= <-]; apply builds_refl].
  unfold null_or_not_string, null_and_not_string, CFGetTypeID.
  repeat match goal with
         | |- context [dict !! ?k] => destruct (dict !! k) as [[?|]|]; simpl
         | |- Fault = Done _ -> _ => discriminate
         | |- Done ?a = Done _ -> _ => intros [= <-]
         | |- (if bool_decide (?P) then _ else _) = Done _ -> _ =>
             destruct (bool_decide_reflect P)
         | |- (if ?b then _ else _) = Done _ -> _ => destruct b
         | |- builds env _ ?a ?a => apply builds_refl
         | |- builds env _ _ (res_na (addSelection _ _ _ _ _ _ _)) =>
             apply builds_add;
               [apply builds_refl | split; [split; [assumption|]|]; reflexivity]
         end.
Qed.

Lemma add_user_selections_builds env na na' :
  add_user_selections env na = Done na' ->
  builds env (offers known_with_server true) na na'.
Proof.
  unfold add_user_selections.
  destruct (pref_UserSelections env) as [array|];
    [|intros [= <-]; apply builds_refl].
  revert na. induction array as [|elem array IH]; intros na; simpl.
  - intros [= <-]. apply builds_refl.
  - destruct (add_user_selection na elem) as [na1|] eqn:H1; simpl; [|discriminate].
    intros H. eapply builds_trans; [|apply IH; exact H].
    eapply add_user_selection_builds; eauto.
Qed.

Lemma NAHCreate_builds env h s info na0 na :
  NAHCreate_session env h s info = Some na0 ->
  NAHCreate env h s info = Done (Some na) ->
  builds env any_mech na0 na.
Proof.
  intros H0 H. destruct (NAHCreate_stages _ _ _ _ _ H) as (na0' & na1 & H0' & H1 & ->).
  rewrite H0 in H0'. injection H0' as <-.
  eapply builds_trans;
    [eapply builds_mono; [|eapply add_user_selections_builds; eauto]|].
  { intros m r b [[Hm _] _]. exact Hm. }
  eapply builds_trans;
    [eapply builds_mono; [|apply guess_kerberos_builds]|].
  { intros m r b [[-> |[-> _]] _]; discriminate. }
  destruct (_ && _)%bool; [|apply builds_refl].
  eapply builds_mono; [|apply guess_ntlm_builds].
  intros m r b [[-> _] _]. discriminate.
Qed.


(** ** The session invariant *)

Lemma frame_view_fields s s' :
  frame_view s' = frame_view s ->
  wait s' = wait s /\ waiting s' = waiting s /\ canceled s' = canceled s
  /\ mech s' = mech s /\ client s' = client s /\ server s' = server s.
Proof. unfold frame_view. intros [=]. repeat split; assumption. Qed.

Lemma lookup_alter_frame (f : NAHSelectionData -> NAHSelectionData) (n : nat)
    (l : list NAHSelectionData) (i : nat) s' :
  (forall s, frame_view (f s) = frame_view s) ->
  alter f n l !! i = Some s' ->
  exists s, l !! i = Some s /\ frame_view s' = frame_view s
            /\ (s' = s \/ (i = n /\ s' = f s)).
Proof.
  intros Hf. rewrite list_lookup_alter. destruct (decide (n = i)) as [->|Hne].
  - destruct (l !! i) as [s|]; [|discriminate]. simpl. intros [= <-].
    exists s. auto.
  - intros H. exists s'. auto.
Qed.

Lemma lookup_alter_frame_inv (f : NAHSelectionData -> NAHSelectionData)
    (n : nat) (l : list NAHSelectionData) (i : nat) s :
  (forall s, frame_view (f s) = frame_view s) ->
  l !! i = Some s ->
  exists s', alter f n l !! i = Some s' /\ frame_view s' = frame_view s.
Proof.
  intros Hf H. rewrite list_lookup_alter. destruct (decide (n = i)) as [->|Hne].
  - rewrite H. simpl. eauto.
  - eauto.
Qed.

Lemma selection_wf_write s s' :
  frame_view s' = frame_view s -> write_ok s s' ->
  selection_wf s -> selection_wf s'.
Proof.
  intros Hv Hw [W1 W2 W3 W4 W5 W6 W7].
  apply frame_view_fields in Hv as (Ew & En & Ec & Em & Ecl & Es).
  split; rewrite ?Ew, ?En, ?Ec, ?Em, ?Ecl, ?Es; auto.
  - destruct Hw as [Hc Hh|Hk Hc Hc' Hh|Hn Hc Hh].
    + rewrite Hc, Hh. exact W6.
    + intros _. auto.
    + rewrite Hc. intros H. destruct (W6 H) as [_ Hk]. congruence.
  - destruct Hw as [Hc Hh|Hk Hc Hc' Hh|Hn Hc Hh].
    + rewrite Hc, Hh. exact W7.
    + auto.
    + auto.
Qed.

Lemma selection_wf_new sem c ct sv st m flags :
  m <> NO_MECH -> selection_wf (new_selection sem c ct sv st m flags).
Proof.
  intros Hm. split; simpl; try reflexivity; try exact Hm; eauto.
  - destruct sv; [|reflexivity]. intros [? H]. discriminate H.
  - intros [? H]. discriminate H.
  - discriminate.
Qed.

Lemma selection_wf_released s :
  selection_wf s -> is_Some (server s) -> wait s = None.
Proof.
  intros [_ _ _ _ Hl _ _] [v Hv]. destruct (wait s) as [k|] eqn:Hk; [|reflexivity].
  rewrite Hl in Hv by eauto. discriminate.
Qed.

Lemma session_wf_append env na sv c ct st m flags :
  m <> NO_MECH -> session_wf env na ->
  session_wf env
    (let na1 :=
       set_selections
         match sv with
         | Some _ => na
         | None => set_next_semaphore na (S (next_semaphore na))
         end
         (selections na ++ [new_selection (next_semaphore na) c ct sv st m flags]) in
     match sv with
     | Some _ => na1
     | None => dispatch_async_bgq na1 (List.length (selections na))
     end).
Proof.
  intros Hm [W1 W2 W3 W4 W5 W6].
  set (new := new_selection (next_semaphore na) c ct sv st m flags).
  assert (Hsel : forall i s,
             (selections na ++ [new])%list !! i = Some s ->
             selections na !! i = Some s
             \/ (i = List.length (selections na) /\ s = new)).
  { intros i s H. apply lookup_app_Some in H as [H|[Hle H]]; [auto|].
    apply list_lookup_singleton_Some in H as [Hi <-]. right. split; [lia|auto]. }
  assert (Hnew : forall h, wait new = Some h -> h = next_semaphore na /\ sv = None).
  { unfold new. simpl. destruct sv; [discriminate|]. intros h [= <-]. auto. }
  assert (Hfresh : List.length (selections na) ∉ bgq na).
  { intros H. apply W5 in H as (s & H & _). apply lookup_lt_Some in H. lia. }
  assert (Hlast : (selections na ++ [new])%list !! List.length (selections na)
                  = Some new).
  { rewrite lookup_app_r, Nat.sub_diag by lia. reflexivity. }
  cbv zeta.
  assert (Hgoal :
    forall na',
      selections na' = (selections na ++ [new])%list ->
      (next_semaphore na' = match sv with
                            | Some _ => next_semaphore na
                            | None => S (next_semaphore na)
                            end) ->
      bgq na' = match sv with
                | Some _ => bgq na
                | None => (bgq na ++ [List.length (selections na)])%list
                end ->
      hostname na' = hostname na ->
      session_wf env na').
  { intros na' Hs Hn Hb Hh. split.
    - intros i s H. rewrite Hs in H. apply Hsel in H as [H|[_ ->]]; [eauto|].
      apply selection_wf_new. exact Hm.
    - intros i s h H Hw. rewrite Hs in H. rewrite Hn.
      apply Hsel in H as [H|[_ ->]].
      + pose proof (W2 _ _ _ H Hw). destruct sv; lia.
      + apply Hnew in Hw as [-> ->]. lia.
    - intros i j s s' h Hi Hj Hwi Hwj. rewrite Hs in Hi, Hj.
      apply Hsel in Hi as [Hi|[-> ->]]; apply Hsel in Hj as [Hj|[-> ->]].
      + eauto.
      + apply Hnew in Hwj as [-> _]. pose proof (W2 _ _ _ Hi Hwi). lia.
      + apply Hnew in Hwi as [-> _]. pose proof (W2 _ _ _ Hj Hwj). lia.
      + reflexivity.
    - rewrite Hb. destruct sv; [exact W4|].
      apply NoDup_app. split; [exact W4|]. split; [|apply NoDup_singleton].
      intros x Hx Hx'. apply list_elem_of_singleton in Hx'. subst x. auto.
    - intros n. rewrite Hb, Hs. split.
      + intros H.
        assert (Hcase : n ∈ bgq na \/ (sv = None /\ n = List.length (selections na))).
        { destruct sv; [auto|]. apply elem_of_app in H as [H|H]; [auto|].
          apply list_elem_of_singleton in H. auto. }
        destruct Hcase as [Hin|[-> ->]].
        * apply W5 in Hin as (s & Hin & Hsv). exists s. split; [|exact Hsv].
          apply lookup_app_Some. auto.
        * exists new. split; [exact Hlast | simpl; eauto].
      + intros (s & H & Hsv). apply Hsel in H as [H|[-> ->]].
        * assert (n ∈ bgq na) by (apply W5; eauto).
          destruct sv; [auto|]. apply elem_of_app. auto.
        * destruct Hsv as [k Hk]. apply Hnew in Hk as [_ ->].
          apply elem_of_app. right. apply list_elem_of_singleton. reflexivity.
    - intros i s H Hsv Hw. rewrite Hs in H. rewrite Hh.
      apply Hsel in H as [H|[_ ->]]; [eauto|].
      unfold new in Hsv, Hw. simpl in Hsv, Hw. subst sv. discriminate. }
  destruct sv; apply Hgoal; reflexivity.
Qed.

Lemma session_wf_write env na n f :
  (forall s, frame_view (f s) = frame_view s) ->
  (forall s, selections na !! n = Some s -> write_ok s (f s)) ->
  session_wf env na -> session_wf env (update_selection na n f).
Proof.
  intros Hf Hw [W1 W2 W3 W4 W5 W6]. unfold update_selection. split; simpl.
  - intros i s' H.
    destruct (lookup_alter_frame _ _ _ _ _ Hf H) as (s & Hs & Hv & [->|[-> ->]]).
    + eauto.
    + eapply selection_wf_write; [apply Hf | apply Hw; exact Hs | eauto].
  - intros i s' h H Hwait.
    destruct (lookup_alter_frame _ _ _ _ _ Hf H) as (s & Hs & Hv & _).
    apply frame_view_fields in Hv as (Ew & _). rewrite Ew in Hwait. eauto.
  - intros i j s1 s2 h Hi Hj Hwi Hwj.
    destruct (lookup_alter_frame _ _ _ _ _ Hf Hi) as (t1 & Ht1 & Hv1 & _).
    destruct (lookup_alter_frame _ _ _ _ _ Hf Hj) as (t2 & Ht2 & Hv2 & _).
    apply frame_view_fields in Hv1 as (E1 & _).
    apply frame_view_fields in Hv2 as (E2 & _).
    rewrite E1 in Hwi. rewrite E2 in Hwj. eauto.
  - exact W4.
  - intros k. rewrite W5. split.
    + intros (s & Hs & Hsv).
      destruct (lookup_alter_frame_inv f n _ _ _ Hf Hs) as (s' & Hs' & Hv).
      apply frame_view_fields in Hv as (Ew & _).
      exists s'. split; [exact Hs' | congruence].
    + intros (s' & Hs' & Hsv).
      destruct (lookup_alter_frame _ _ _ _ _ Hf Hs') as (s & Hs & Hv & _).
      apply frame_view_fields in Hv as (Ew & _).
      exists s. split; [exact Hs | congruence].
  - intros i s' H Hsv Hwait.
    destruct (lookup_alter_frame _ _ _ _ _ Hf H) as (s & Hs & Hv & _).
    apply frame_view_fields in Hv as (Ew & _ & _ & _ & _ & Es).
    apply (W6 i s Hs); congruence.
Qed.

(** *** A resolver keeps the invariant *)

Lemma with_latch_released s :
  wait s = None -> waiting s = 0 -> with_latch None 0 (canceled s) s = s.
Proof. destruct s. simpl. intros -> ->. reflexivity. Qed.

Lemma resolver_resolved env na s :
  waiting s = 0 ->
  fst (signal_result_block
         match LKDCDiscoverRealm env (hostname na) with
         | None => s
         | Some realm =>
             with_client
               (Some (default EmptyString (client s) +:+ "@" +:+ realm))
               (with_server
                  (Some (service na +:+ "/" +:+ realm +:+ "@" +:+ realm)) s)
         end ∅)
  = resolved_selection env na s.
Proof.
  intros Hn. unfold resolved_selection.
  match goal with
  | |- fst (signal_result_block ?x _) = _ =>
      assert (Hx : waiting x = 0 /\ wait x = wait s)
        by (destruct (LKDCDiscoverRealm env (hostname na)); simpl; auto);
      generalize dependent x
  end.
  intros x [Hz Hw]. unfold signal_result_block, signal_waiters.
  destruct (wait x) as [k|] eqn:Hk; simpl.
  - rewrite Hz. reflexivity.
  - symmetry. apply with_latch_released; assumption.
Qed.

Lemma run_resolver_lookup env na n sel :
  selections na !! n = Some sel -> waiting sel = 0 ->
  selections (run_resolver env na n) !! n = Some (resolved_selection env na sel).
Proof.
  intros Hn Hz. destruct (classic_lkdc_background_selections env na n) as [Hs _].
  unfold run_resolver.
  change (selections (set_bgq (classic_lkdc_background env na n)
                        (filter (fun k => k <> n) (bgq na))))
    with (selections (classic_lkdc_background env na n)).
  rewrite Hs, list_lookup_alter_eq, Hn. cbn [fmap option_fmap option_map].
  rewrite (resolver_resolved env na sel Hz). reflexivity.
Qed.

Lemma resolved_selection_wf env na s :
  selection_wf s -> selection_wf (resolved_selection env na s).
Proof.
  intros [W1 W2 W3 W4 W5 W6 W7]. unfold resolved_selection.
  destruct (LKDCDiscoverRealm env (hostname na)) as [realm|]; split; simpl;
    eauto; intros [? H]; discriminate H.
Qed.

Lemma session_wf_resolve env na n :
  session_wf env na -> session_wf env (run_resolver env na n).
Proof.
  intros [W1 W2 W3 W4 W5 W6].
  destruct (run_resolver_frame env na n)
    as (Hin & _ & Hb & Hsem & _ & _ & Hother & _).
  assert (Hat : forall s', selections (run_resolver env na n) !! n = Some s' ->
                  exists s, selections na !! n = Some s
                            /\ s' = resolved_selection env na s).
  { intros s' H. destruct (selections na !! n) as [s|] eqn:Hs.
    - exists s. split; [reflexivity|].
      rewrite (run_resolver_lookup env na n s Hs) in H by (apply (W1 _ _ Hs)).
      congruence.
    - exfalso. apply lookup_ge_None in Hs.
      apply lookup_lt_Some in H.
      destruct (run_resolver_frame env na n) as (_ & _ & _ & _ & _ & _ & _ & Hl).
      lia. }
  assert (Hwait : forall s, wait (resolved_selection env na s) = None)
    by (intros s; unfold resolved_selection;
        destruct (LKDCDiscoverRealm env (hostname na)); reflexivity).
  split.
  - intros i s' H. destruct (decide (i = n)) as [->|Hne].
    + destruct (Hat s' H) as (s & Hs & ->). apply resolved_selection_wf. eauto.
    + rewrite (Hother i Hne) in H. eauto.
  - intros i s' k H Hw. rewrite Hsem. destruct (decide (i = n)) as [->|Hne].
    + destruct (Hat s' H) as (s & Hs & ->). rewrite Hwait in Hw. discriminate.
    + rewrite (Hother i Hne) in H. eauto.
  - intros i j s1 s2 k Hi Hj Hwi Hwj.
    destruct (decide (i = n)) as [->|Hi'].
    { destruct (Hat s1 Hi) as (s & Hs & ->). rewrite Hwait in Hwi. discriminate. }
    destruct (decide (j = n)) as [->|Hj'].
    { destruct (Hat s2 Hj) as (s & Hs & ->). rewrite Hwait in Hwj. discriminate. }
    rewrite (Hother i Hi') in Hi. rewrite (Hother j Hj') in Hj. eauto.
  - rewrite Hb. apply NoDup_filter. exact W4.
  - intros k. rewrite Hb, list_elem_of_filter. split.
    + intros [Hne Hk]. rewrite (Hother k Hne). apply W5. exact Hk.
    + intros (s' & H & Hw). destruct (decide (k = n)) as [->|Hne].
      * destruct (Hat s' H) as (s & Hs & ->). rewrite Hwait in Hw.
        destruct Hw as [? Hw]. discriminate Hw.
      * split; [exact Hne|]. rewrite (Hother k Hne) in H. apply W5. eauto.
  - intros i s' H Hsv Hw.
    apply inputs_fields in Hin as (-> & _).
    destruct (decide (i = n)) as [->|Hne].
    + destruct (Hat s' H) as (s & Hs & ->). unfold resolved_selection in Hsv.
      destruct (LKDCDiscoverRealm env (hostname na)); [discriminate|reflexivity].
    + rewrite (Hother i Hne) in H. eauto.
Qed.

Lemma build_step_wf env na na' :
  build_step env any_mech na na' -> session_wf env na -> session_wf env na'.
Proof.
  intros [na0 c ct s st m flags Hm|na0 c ct st m flags Hm|na0 n f Hf Hw|na0 c h
         |na0 n|na0] Hwf.
  - destruct (addSelection_shape na0 c ct (Some s) st m flags) as [[-> _]| ->];
      [exact Hwf|].
    apply (session_wf_append env na0 (Some s) c ct st m flags Hm Hwf).
  - unfold add_unresolved. cbv zeta.
    destruct (addSelection_shape na0 c ct None st m flags) as [[Hna Hd]| ->].
    + rewrite Hna.
      destruct (res_nasel _); [|exact Hwf].
      destruct (res_duplicate _) as [[| |]|]; try exact Hwf. congruence.
    + apply (session_wf_append env na0 None c ct st m flags Hm Hwf).
  - apply session_wf_write; assumption.
  - destruct Hwf as [W1 W2 W3 W4 W5 W6]. split; assumption.
  - apply session_wf_resolve. exact Hwf.
  - destruct Hwf as [W1 W2 W3 W4 W5 W6]. split; assumption.
Qed.

Lemma builds_wf env na na' :
  builds env any_mech na na' -> session_wf env na -> session_wf env na'.
Proof.
  intros H. induction H as [|x y z Hxy _ IH]; [auto|].
  intros Hwf. apply IH. eapply build_step_wf; eauto.
Qed.

Lemma NAHCreate_session_wf env h s info na0 :
  NAHCreate_session env h s info = Some na0 -> session_wf env na0.
Proof.
  unfold NAHCreate_session. destruct (findUsername env info) as [[u sn]|];
    [|discriminate].
  intros [= <-]. split; simpl.
  - intros i x H. rewrite lookup_nil in H. discriminate.
  - intros i x k H. rewrite lookup_nil in H. discriminate.
  - intros i j x y k H. rewrite lookup_nil in H. discriminate.
  - apply NoDup_nil_2.
  - intros n. split.
    + intros H. apply elem_of_nil in H. contradiction.
    + intros (x & H & _). rewrite lookup_nil in H. discriminate.
  - intros i x H. rewrite lookup_nil in H. discriminate.
Qed.

Lemma NAHCreate_wf env h s info na :
  NAHCreate env h s info = Done (Some na) -> session_wf env na.
Proof.
  intros H. destruct (NAHCreate_stages _ _ _ _ _ H) as (na0 & na1 & H0 & _ & _).
  eapply builds_wf; [eapply NAHCreate_builds; eauto|].
  eapply NAHCreate_session_wf; eauto.
Qed.

(** X7. Every selection of the list [NAHCreate] returns has a mechanism
    and a client, counts no waiter and is not canceled.  It holds a
    semaphore only while it has no server; when it has neither server nor
    semaphore, its resolver has run and the realm discovery for the host
    has failed.  A selection bound to a credential cache is a Kerberos
    selection marked as having a credential, and a selection marked as
    having one is bound to a cache or is an NTLM selection.  This holds
    whenever the resolvers run. *)
Theorem NAHCreate_selections_wf (env : Environment) (h s : string)
    (info : option Info) (na : NAHData) (i : nat) (sel : NAHSelectionData)
    (Hcreate : NAHCreate env h s info = Done (Some na))
    (Hsel : NAHGetSelections na !! i = Some sel) :
  mech sel <> NO_MECH /\ is_Some (client sel)
  /\ waiting sel = 0 /\ canceled sel = false
  /\ (is_Some (wait sel) -> server sel = None)
  /\ (server sel = None -> wait sel = None ->
      LKDCDiscoverRealm env (hostname na) = None)
  /\ (is_Some (ccache sel) -> have_cred sel = true /\ mech sel = GSS_KERBEROS)
  /\ (have_cred sel = true -> is_Some (ccache sel) \/ mech sel = GSS_NTLM).
Proof.
  destruct (NAHCreate_wf _ _ _ _ _ Hcreate) as [W1 _ _ _ _ W6].
  destruct (W1 _ _ Hsel) as [? ? ? ? ? ? ?].
  repeat split; try tauto. apply (W6 i sel Hsel).
Qed.

(** X8. In the session [NAHCreate] returns, the background queue holds
    one pending resolver for each selection that still holds its
    semaphore, and nothing else: no resolver is queued twice, none for a
    selection whose latch is released, and no selection holds a semaphore
    that no pending resolver will release.  The semaphores held are
    distinct.  This holds whenever the resolvers run. *)
Theorem NAHCreate_resolvers (env : Environment) (h s : string)
    (info : option Info) (na : NAHData)
    (Hcreate : NAHCreate env h s info = Done (Some na)) :
  NoDup (bgq na)
  /\ (forall n, n ∈ bgq na
                <-> exists sel, selections na !! n = Some sel
                                /\ is_Some (wait sel))
  /\ (forall i j a b sem,
        selections na !! i = Some a -> selections na !! j = Some b ->
        wait a = Some sem -> wait b = Some sem -> i = j).
Proof.
  destruct (NAHCreate_wf _ _ _ _ _ Hcreate) as [_ _ W3 W4 W5 _]. auto.
Qed.


Lemma NAHCreate_local_session :
  NAHCreate lkdc_cache_environment "mac-mini.local" "afpserver"
    (sample_info "bob" (Some "p")) = Done (Some local_session).
Proof. vm_compute. reflexivity. Qed.

Lemma NAHCreate_selections_wf_witness :
  mech (default sample_unresolved (selections local_session !! 1%nat)) <> NO_MECH
  /\ is_Some (client (default sample_unresolved (selections local_session !! 1%nat)))
  /\ waiting (default sample_unresolved (selections local_session !! 1%nat)) = 0
  /\ canceled (default sample_unresolved (selections local_session !! 1%nat)) = false
  /\ (is_Some (wait (default sample_unresolved (selections local_session !! 1%nat)))
      -> server (default sample_unresolved (selections local_session !! 1%nat))
         = None)
  /\ (server (default sample_unresolved (selections local_session !! 1%nat)) = None
      -> wait (default sample_unresolved (selections local_session !! 1%nat)) = None
      -> LKDCDiscoverRealm lkdc_cache_environment (hostname local_session) = None)
  /\ (is_Some (ccache (default sample_unresolved (selections local_session !! 1%nat)))
      -> have_cred (default sample_unresolved (selections local_session !! 1%nat))
         = true
         /\ mech (default sample_unresolved (selections local_session !! 1%nat))
            = GSS_KERBEROS)
  /\ (have_cred (default sample_unresolved (selections local_session !! 1%nat))
      = true
      -> is_Some (ccache (default sample_unresolved
                            (selections local_session !! 1%nat)))
         \/ mech (default sample_unresolved (selections local_session !! 1%nat))
            = GSS_NTLM).
Proof.
  apply (NAHCreate_selections_wf lkdc_cache_environment "mac-mini.local"
           "afpserver" (sample_info "bob" (Some "p")) local_session 1%nat).
  - vm_compute. reflexivity.
  - vm_compute. reflexivity.
Defined.

Lemma NAHCreate_resolvers_witness :
  NoDup (bgq local_session)
  /\ (forall n, n ∈ bgq local_session
                <-> exists sel, selections local_session !! n = Some sel
                                /\ is_Some (wait sel))
  /\ (forall i j a b sem,
        selections local_session !! i = Some a ->
        selections local_session !! j = Some b ->
        wait a = Some sem -> wait b = Some sem -> i = j).
Proof.
  apply (NAHCreate_resolvers lkdc_cache_environment "mac-mini.local"
           "afpserver" (sample_info "bob" (Some "p")) local_session).
  vm_compute. reflexivity.
Defined.

(** ** From NAHCreate to the latch *)

(** X9. The session [NAHCreate] returns, before anyone waits on it, is a
    consistent latch state with no selection canceled: the state from which
    the behaviour of [wait_result] is established. *)
Theorem NAHCreate_latch_inv (env : Environment) (h s : string)
    (info : option Info) (na : NAHData)
    (Hcreate : NAHCreate env h s info = Done (Some na)) :
  latch_inv (latch_of na) /\ none_canceled (latch_of na).
Proof.
  destruct (NAHCreate_wf _ _ _ _ _ Hcreate) as [W1 _ W3 _ _].
  split; [split|]; simpl.
  - intros i x Hx. destruct (W1 _ _ Hx) as [Hw _ _ _ _ _ _].
    rewrite Hw. split; [lia | reflexivity].
  - exact W3.
  - intros t i k j x Ht. rewrite lookup_nil in Ht. discriminate.
  - intros t w Ht. rewrite lookup_nil in Ht. discriminate.
  - intros k. unfold sem_value. rewrite lookup_empty. simpl.
    assert (H0 : forall l : list NAHSelectionData,
               (forall i x, l !! i = Some x -> waiting x = 0) ->
               sumZ (counted_on k) l = 0).
    { induction l as [|a l IH]; intros Hl; simpl; [reflexivity|].
      rewrite IH by (intros i x Hx; apply (Hl (S i)); exact Hx).
      unfold counted_on. rewrite (Hl O a eq_refl).
      destruct (bool_decide _); reflexivity. }
    rewrite H0; [reflexivity|].
    intros i x Hx. destruct (W1 _ _ Hx) as [Hw _ _ _ _ _ _]. exact Hw.
  - intros i x Hx. destruct (W1 _ _ Hx) as [_ Hc _ _ _ _ _]. exact Hc.
Qed.

Lemma NAHCreate_latch_inv_witness :
  latch_inv (latch_of local_session) /\ none_canceled (latch_of local_session).
Proof.
  apply (NAHCreate_latch_inv lkdc_cache_environment "mac-mini.local"
           "afpserver" (sample_info "bob" (Some "p")) local_session).
  vm_compute. reflexivity.
Defined.

(** ** The resolvers *)

Lemma run_resolvers_selections env (q : list nat) na0 na :
  inputs na = inputs na0 -> NoDup q ->
  (forall n, n ∈ q -> exists s h, selections na !! n = Some s
                                  /\ wait s = Some h /\ waiting s = 0) ->
  forall i,
    selections (foldl (classic_lkdc_background env) na q) !! i
    = (if bool_decide (i ∈ q) then resolved_selection env na0
       else fun s => s) <$> selections na !! i.
Proof.
  intros Hin Hq. revert na Hin. induction Hq as [|n q Hn Hq IH]; intros na Hin Hsel i.
  - simpl. destruct (selections na !! i); reflexivity.
  - simpl foldl.
    destruct (classic_lkdc_background_selections env na n) as [Hs Hi].
    rewrite IH.
    + rewrite Hs, list_lookup_alter.
      destruct (decide (n = i)) as [->|Hne].
      * rewrite bool_decide_eq_false_2 by exact Hn.
        rewrite bool_decide_eq_true_2 by (apply elem_of_cons; auto).
        destruct (Hsel i ltac:(apply elem_of_cons; auto)) as (s & h & -> & Hw & Hz).
        simpl. rewrite (resolver_resolved env na s Hz).
        unfold resolved_selection.
        apply inputs_fields in Hin as (-> & -> & _). reflexivity.
      * destruct (bool_decide_reflect (i ∈ q)) as [Hiq|Hiq].
        -- rewrite bool_decide_eq_true_2 by (apply elem_of_cons; auto). reflexivity.
        -- rewrite bool_decide_eq_false_2; [reflexivity|].
           intros H. apply elem_of_cons in H as [->|H]; congruence.
    + rewrite Hi. exact Hin.
    + intros k Hk. rewrite Hs, list_lookup_alter.
      destruct (decide (n = k)) as [->|Hne]; [contradiction|].
      apply Hsel. apply elem_of_cons. auto.
Qed.

Lemma run_resolvers_fmap env na :
  session_wf env na ->
  selections (run_resolvers env na)
  = (fun sel => match server sel with
                | Some _ => sel
                | None => resolved_selection env na sel
                end) <$> selections na.
Proof.
  intros [W1 _ _ W4 W5 W6].
  assert (Hsel : forall n, n ∈ bgq na ->
             exists x k, selections na !! n = Some x
                         /\ wait x = Some k /\ waiting x = 0).
  { intros n Hn. apply W5 in Hn as (x & Hx & [k Hk]).
    exists x, k. split; [exact Hx|]. split; [exact Hk|]. apply (W1 _ _ Hx). }
  apply list_eq. intros i. unfold run_resolvers.
  rewrite (run_resolvers_selections env (bgq na) na na eq_refl W4 Hsel i).
  rewrite list_lookup_fmap.
  destruct (selections na !! i) as [x|] eqn:Hx; [|reflexivity]. simpl.
  destruct (bool_decide_reflect (i ∈ bgq na)) as [Hi|Hi].
  - apply W5 in Hi as (y & Hy & Hw). rewrite Hx in Hy. injection Hy as <-.
    destruct (W1 _ _ Hx) as [_ _ _ _ Hl _ _]. rewrite (Hl Hw). reflexivity.
  - destruct (server x) eqn:Hsv; [reflexivity|].
    assert (Hw : wait x = None).
    { destruct (wait x) as [k|] eqn:Hk; [|reflexivity].
      exfalso. apply Hi. apply W5. eauto. }
    unfold resolved_selection. rewrite (W6 _ _ Hx Hsv Hw).
    destruct (W1 _ _ Hx) as [Hz _ _ _ _ _ _].
    rewrite with_latch_released by assumption. reflexivity.
Qed.

(** X10. Once the resolvers dispatched by [NAHCreate] have run, no
    selection holds a semaphore, so no caller of [wait_result] waits.  The
    selections that had their server are as [NAHCreate] left them.  Each
    selection without a server went through the resolver once: when the
    realm discovery answered with a realm [R], its client is [c@R] and its
    server [<service>/R@R]; when the discovery failed, it stays without a
    server. *)
Theorem run_resolvers_resolved (env : Environment) (h s : string)
    (info : option Info) (na : NAHData)
    (Hcreate : NAHCreate env h s info = Done (Some na)) :
  selections (run_resolvers env na)
  = (fun sel => match server sel with
                | Some _ => sel
                | None => resolved_selection env na sel
                end) <$> selections na
  /\ (forall i sel, selections (run_resolvers env na) !! i = Some sel ->
                    wait sel = None).
Proof.
  pose proof (NAHCreate_wf _ _ _ _ _ Hcreate) as Hwf.
  pose proof (run_resolvers_fmap env na Hwf) as Heq.
  destruct Hwf as [W1 _ _ _ _ _].
  split; [exact Heq|].
  intros i sel. rewrite Heq, list_lookup_fmap.
  destruct (selections na !! i) as [x|] eqn:Hx; [|discriminate]. simpl.
  intros [= <-]. destruct (server x) eqn:Hsv.
  - destruct (W1 _ _ Hx) as [_ _ _ _ Hl _ _].
    destruct (wait x) as [k|] eqn:Hk; [|reflexivity].
    rewrite Hl in Hsv by eauto. discriminate.
  - unfold resolved_selection.
    destruct (LKDCDiscoverRealm env (hostname na)); reflexivity.
Qed.

Lemma run_resolvers_resolved_witness :
  selections (run_resolvers lkdc_cache_environment local_session)
  = (fun sel => match server sel with
                | Some _ => sel
                | None => resolved_selection lkdc_cache_environment local_session sel
                end) <$> selections local_session
  /\ (forall i sel,
        selections (run_resolvers lkdc_cache_environment local_session) !! i
        = Some sel ->
        wait sel = None).
Proof.
  apply (run_resolvers_resolved lkdc_cache_environment "mac-mini.local"
           "afpserver" (sample_info "bob" (Some "p")) local_session).
  vm_compute. reflexivity.
Defined.

(** ** The order of the list *)

Lemma offer_alter na n f :
  (forall s, frame_view (f s) = frame_view s) ->
  offer <$> selections (update_selection na n f) = offer <$> selections na.
Proof.
  intros Hf. unfold update_selection. simpl.
  generalize (selections na). intros l. revert n.
  induction l as [|a l IH]; intros [|n]; simpl; try reflexivity.
  - f_equal. specialize (Hf a). unfold frame_view in Hf. unfold offer.
    injection Hf as _ _ _ -> _ _ -> _ ->. reflexivity.
  - f_equal. apply IH.
Qed.

Lemma addSelection_offers (Q : NAHMechType -> bool -> bool -> Prop)
    na c ct sv st m flags :
  Q m (is_some sv) (flag_set flags USE_SPNEGO) ->
  exists l, offer <$> selections (res_na (addSelection na c ct sv st m flags))
            = ((offer <$> selections na) ++ l)%list
            /\ Forall (fun p => Q p.1.1 p.1.2 p.2) l.
Proof.
  intros HQ.
  destruct (addSelection_shape na c ct sv st m flags) as [[-> _]| ->].
  - exists []. rewrite app_nil_r. auto.
  - exists [(m, is_some sv, flag_set flags USE_SPNEGO)]. split.
    + destruct sv; simpl; rewrite fmap_app; reflexivity.
    + constructor; [exact HQ | constructor].
Qed.

(** How an offer can change while [NAHCreate] runs: an offer with a
    server stays; one without keeps mechanism and SPNEGO flag. *)
Lemma offer_resolve env na n :
  Forall2 (fun p p' => p' = p \/ (p.1.2 = false /\ p'.1.1 = p.1.1 /\ p'.2 = p.2))
    (offer <$> selections na) (offer <$> selections (run_resolver env na n)).
Proof.
  destruct (run_resolver_frame env na n) as (_ & _ & _ & _ & _ & _ & Hs & Hl).
  apply Forall2_same_length_lookup_2.
  - rewrite !length_fmap. symmetry. exact Hl.
  - intros i x y. rewrite !list_lookup_fmap.
    destruct (decide (i = n)) as [->|Hne].
    + destruct (selections na !! n) as [sel|] eqn:Hn; [|discriminate].
      destruct (run_resolver_selection env na n sel Hn)
        as (sel' & Hn' & Hm & _ & _ & Hsp & Hcs).
      rewrite Hn'. simpl. intros [= <-] [= <-]. unfold offer.
      destruct (server sel) as [v|] eqn:Hv.
      * left. rewrite Hm, Hsp.
        destruct (LKDCDiscoverRealm env (hostname na));
          destruct Hcs as [_ ->]; rewrite ?Hv; reflexivity.
      * right. simpl. auto.
    + rewrite (Hs i Hne). intros Hx Hy. rewrite Hx in Hy. injection Hy as <-.
      left. reflexivity.
Qed.

Lemma offer_steps_refl (l : list (NAHMechType * bool * bool)) :
  Forall2 (fun p p' => p' = p \/ (p.1.2 = false /\ p'.1.1 = p.1.1 /\ p'.2 = p.2))
    l l.
Proof. induction l; constructor; auto. Qed.

Lemma offer_steps_trans (l1 l2 l3 : list (NAHMechType * bool * bool)) :
  Forall2 (fun p p' => p' = p \/ (p.1.2 = false /\ p'.1.1 = p.1.1 /\ p'.2 = p.2))
    l1 l2 ->
  Forall2 (fun p p' => p' = p \/ (p.1.2 = false /\ p'.1.1 = p.1.1 /\ p'.2 = p.2))
    l2 l3 ->
  Forall2 (fun p p' => p' = p \/ (p.1.2 = false /\ p'.1.1 = p.1.1 /\ p'.2 = p.2))
    l1 l3.
Proof.
  intros H. revert l3. induction H as [|a b l1 l2 Hab _ IH]; intros l3 H3.
  - inversion H3. constructor.
  - inversion H3 as [|? c ? l3' Hbc H3']; subst. constructor; [|apply IH; exact H3'].
    destruct Hab as [->|(A1 & A2 & A3)]; [exact Hbc|].
    right. destruct Hbc as [->|(B1 & B2 & B3)]; [auto|].
    split; [exact A1|]. split; congruence.
Qed.

Lemma offer_steps_server (l l' : list (NAHMechType * bool * bool)) :
  Forall2 (fun p p' => p' = p \/ (p.1.2 = false /\ p'.1.1 = p.1.1 /\ p'.2 = p.2))
    l l' ->
  Forall (fun p => p.1.2 = true) l -> l' = l.
Proof.
  intros H. induction H as [|a b l l' Hab _ IH]; intros Hall; [reflexivity|].
  apply Forall_cons in Hall as [Ha Hall]. f_equal; [|apply IH; exact Hall].
  destruct Hab as [->|(Hn & _)]; [reflexivity | congruence].
Qed.

Lemma offer_steps_Forall (P : NAHMechType * bool * bool -> Prop)
    (l l' : list (NAHMechType * bool * bool)) :
  (forall p p', P p -> p.1.2 = false -> p'.1.1 = p.1.1 -> p'.2 = p.2 -> P p') ->
  Forall2 (fun p p' => p' = p \/ (p.1.2 = false /\ p'.1.1 = p.1.1 /\ p'.2 = p.2))
    l l' ->
  Forall P l -> Forall P l'.
Proof.
  intros HP H. induction H as [|a b l l' Hab _ IH]; intros Hall; [constructor|].
  apply Forall_cons in Hall as [Ha Hall]. constructor; [|apply IH; exact Hall].
  destruct Hab as [->|(H1 & H2 & H3)]; [exact Ha | eapply HP; eauto].
Qed.

Lemma build_step_offers env Q na na' :
  build_step env Q na na' ->
  exists l0 l,
    offer <$> selections na' = (l0 ++ l)%list
    /\ Forall2 (fun p p' => p' = p
                            \/ (p.1.2 = false /\ p'.1.1 = p.1.1 /\ p'.2 = p.2))
         (offer <$> selections na) l0
    /\ Forall (fun p => Q p.1.1 p.1.2 p.2) l.
Proof.
  intros [na0 c ct s st m flags HQ|na0 c ct st m flags HQ|na0 n f Hf _|na0 c h
         |na0 n|na0].
  - destruct (addSelection_offers Q na0 c ct (Some s) st m flags HQ)
      as (l & Hl & Hall).
    exists (offer <$> selections na0), l. auto using offer_steps_refl.
  - destruct (addSelection_offers Q na0 c ct None st m flags HQ) as (l & Hl & Hall).
    exists (offer <$> selections na0), l.
    split; [|auto using offer_steps_refl]. rewrite <- Hl. unfold add_unresolved.
    cbv zeta. destruct (res_nasel _); [|reflexivity].
    destruct (res_duplicate _) as [[| |]|]; reflexivity.
  - exists (offer <$> selections na0), []. rewrite app_nil_r.
    split; [apply offer_alter; exact Hf|]. auto using offer_steps_refl.
  - exists (offer <$> selections na0), []. rewrite app_nil_r.
    split; [reflexivity|]. auto using offer_steps_refl.
  - exists (offer <$> selections (run_resolver env na0 n)), [].
    rewrite app_nil_r. split; [reflexivity|]. split; [|constructor].
    apply offer_resolve.
  - exists (offer <$> selections na0), []. rewrite app_nil_r.
    split; [reflexivity|]. auto using offer_steps_refl.
Qed.

(** The offers after a run: those of the start, each with its server
    found or as it was, then those of the calls made.  [Q] is a condition
    that the finding of a server does not break. *)
Lemma builds_offers env (Q : NAHMechType -> bool -> bool -> Prop) na na' :
  (forall m b, Q m false b -> Q m true b) ->
  builds env Q na na' ->
  exists l0 l,
    offer <$> selections na' = (l0 ++ l)%list
    /\ Forall2 (fun p p' => p' = p
                            \/ (p.1.2 = false /\ p'.1.1 = p.1.1 /\ p'.2 = p.2))
         (offer <$> selections na) l0
    /\ Forall (fun p => Q p.1.1 p.1.2 p.2) l.
Proof.
  intros Hstable H. induction H as [x|x y z Hxy _ (l0 & l & Hl & H0 & HQ)].
  - exists (offer <$> selections x), []. rewrite app_nil_r.
    auto using offer_steps_refl.
  - destruct (build_step_offers _ _ _ _ Hxy) as (j0 & j & Hj & J0 & JQ).
    rewrite Hj in H0. apply Forall2_app_inv_l in H0 as (a1 & a2 & A1 & A2 & ->).
    exists a1, (a2 ++ l)%list. rewrite Hl, app_assoc. split; [reflexivity|].
    split; [eapply offer_steps_trans; eauto|].
    apply Forall_app. split; [|exact HQ].
    eapply offer_steps_Forall; [|exact A2|exact JQ].
    intros [[m r] b] [[m' r'] b'] HP Hr Hm Hb. simpl in *. subst.
    destruct r'; [apply Hstable|]; exact HP.
Qed.

Lemma afp_without_lkdc_inputs a b :
  inputs a = inputs b -> afp_without_lkdc a = afp_without_lkdc b.
Proof.
  intros H. unfold afp_without_lkdc. rewrite (haveMech_inputs a b) by exact H.
  apply inputs_fields in H as (_ & -> & _). reflexivity.
Qed.

Lemma raw_ntlm_inputs a b : inputs a = inputs b -> raw_ntlm a = raw_ntlm b.
Proof.
  intros H. unfold raw_ntlm.
  apply inputs_fields in H as (_ & _ & _ & _ & -> & _). reflexivity.
Qed.

Lemma NAHCreate_offers_parts (env : Environment) (h s : string)
    (info : option Info) (na : NAHData)
    (Hcreate : NAHCreate env h s info = Done (Some na)) :
  exists lo lk ln,
    offer <$> NAHGetSelections na = (lo ++ lk ++ ln)%list
    /\ Forall (fun p => known_with_server p.1.1 p.1.2 /\ p.2 = true) lo
    /\ Forall (fun p => kerberos_family p.1.1 p.1.2
                        /\ p.2 = negb (afp_without_lkdc na)) lk
    /\ Forall (fun p => with_server_of GSS_NTLM p.1.1 p.1.2
                        /\ p.2 = negb (raw_ntlm na)) ln
    /\ (pref_UserSelections env = None -> lo = [])
    /\ (have_kerberos (guess_kerberos_decide env na) = false
        \/ krb5_init_context_ret env <> 0 \/ hx509_context_init_ret env <> 0 ->
        lk = []).
Proof.
  destruct (NAHCreate_stages _ _ _ _ _ Hcreate) as (na0 & na1 & H0 & H1 & Hna).
  destruct (NAHCreate_overrides _ _ _ _ _ _ H0 H1) as (G1 & P1 & _).
  pose proof (guesses_inputs _ _ _ _ G1) as I1.
  pose proof (guesses_inputs _ _ _ _ (guess_kerberos_guesses env na1 P1)) as I2.
  pose proof (guesses_inputs _ _ _ _ (guess_ntlm_guesses env (guess_kerberos env na1)))
    as I3.
  set (na2 := guess_kerberos env na1) in *.
  assert (I : inputs na = inputs na2)
    by (rewrite Hna; destruct (_ && _)%bool; [exact I3 | reflexivity]).
  assert (So : forall m b, offers known_with_server true m false b ->
                           offers known_with_server true m true b)
    by (intros m b [[_ Hr] _]; discriminate Hr).
  assert (Sk : forall b0 m b, offers kerberos_family b0 m false b ->
                              offers kerberos_family b0 m true b).
  { intros b0 m b [[->|[_ Hr]] ->]; [|discriminate Hr].
    split; [left|]; reflexivity. }
  assert (Sn : forall b0 m b, offers (with_server_of GSS_NTLM) b0 m false b ->
                              offers (with_server_of GSS_NTLM) b0 m true b)
    by (intros b0 m b [[_ Hr] _]; discriminate Hr).
  destruct (builds_offers _ _ _ _ So (add_user_selections_builds _ _ _ H1))
    as (lo0 & lo & Hlo & Ho0 & Qo).
  rewrite (NAHCreate_session_selections _ _ _ _ _ H0) in Ho0. simpl in Ho0.
  inversion Ho0; subst lo0. simpl in Hlo.
  destruct (builds_offers _ _ _ _ (Sk _) (guess_kerberos_builds env na1))
    as (lo1 & lk & Hlk & Ho1 & Qk).
  fold na2 in Hlk. rewrite Hlo in Ho1.
  assert (Hserver : Forall (fun p : NAHMechType * bool * bool => p.1.2 = true) lo).
  { eapply Forall_impl; [exact Qo|]. intros p [[_ Hr] _]. exact Hr. }
  apply offer_steps_server in Ho1; [subst lo1|exact Hserver].
  assert (Hn : exists l2 ln,
             offer <$> selections na = (l2 ++ ln)%list
             /\ Forall2 (fun p p' => p' = p
                           \/ (p.1.2 = false /\ p'.1.1 = p.1.1 /\ p'.2 = p.2))
                  (offer <$> selections na2) l2
             /\ Forall (fun p => offers (with_server_of GSS_NTLM)
                                    (negb (raw_ntlm na2)) p.1.1 p.1.2 p.2) ln).
  { rewrite Hna. destruct (_ && _)%bool.
    - apply (builds_offers env); [apply Sn | apply guess_ntlm_builds].
    - exists (offer <$> selections na2), []. rewrite app_nil_r.
      split; [reflexivity|]. split; [apply offer_steps_refl | constructor]. }
  destruct Hn as (l2 & ln & Hln & Ho2 & Qn).
  rewrite Hlk in Ho2. apply Forall2_app_inv_l in Ho2 as (lo' & lk' & Ho' & Hk' & ->).
  apply offer_steps_server in Ho'; [subst lo'|exact Hserver].
  assert (Qk' : Forall (fun p => offers kerberos_family
                                   (flag_set (krb_flags (guess_kerberos_decide env na1))
                                      USE_SPNEGO) p.1.1 p.1.2 p.2) lk').
  { rewrite krb_flags_spnego.
    eapply offer_steps_Forall; [|exact Hk'|exact Qk].
    intros [[m r] b] [[m' r'] b'] HP Hr Hm Hb. simpl in *. subst.
    destruct r'; [apply Sk|]; exact HP. }
  exists lo, lk', ln. unfold NAHGetSelections.
  split; [rewrite Hln, app_assoc; reflexivity|].
  split; [exact Qo|].
  split.
  { eapply Forall_impl; [exact Qk'|]. intros p [Hp ->]. split; [exact Hp|].
    rewrite krb_flags_spnego.
    f_equal. apply afp_without_lkdc_inputs. rewrite I, I2. reflexivity. }
  split.
  { eapply Forall_impl; [exact Qn|]. intros p [Hp ->]. split; [exact Hp|].
    f_equal. symmetry. apply raw_ntlm_inputs. exact I. }
  split.
  - intros Hpref. unfold add_user_selections in H1. rewrite Hpref in H1.
    injection H1 as <-.
    rewrite (NAHCreate_session_selections _ _ _ _ _ H0) in Hlo.
    destruct lo; [reflexivity | discriminate Hlo].
  - intros Hab.
    assert (Hsame : selections na2 = selections na1).
    { unfold na2, guess_kerberos. cbv zeta.
      rewrite (guess_kerberos_decide_inputs env na na1) in Hab
        by (rewrite I, I2; reflexivity).
      destruct (have_kerberos _); simpl; [|reflexivity].
      destruct (Z.eqb_spec (krb5_init_context_ret env) 0) as [E1|E1]; simpl;
        [|reflexivity].
      destruct (Z.eqb_spec (hx509_context_init_ret env) 0) as [E2|E2]; simpl;
        [|reflexivity].
      destruct Hab as [Hab|[Hab|Hab]]; [discriminate | contradiction..]. }
    rewrite Hsame, Hlo in Hlk.
    rewrite <- (app_nil_r lo) in Hlk at 1.
    apply app_inv_head in Hlk. subst lk. inversion Hk'. reflexivity.
Qed.

(** X11. The list [NAHCreate] returns is ordered by origin: first the
    selections of the user-selection overrides, then those of the Kerberos
    pipeline, then those of the NTLM pipeline.  The override selections
    have a known mechanism and a server, and use SPNEGO.  The Kerberos
    ones have the mechanism Kerberos, or IAKERB with a server, and use
    SPNEGO unless the service is AFP and the server hints lack the
    AppleLKDC marker.  The NTLM ones have a server and use SPNEGO unless
    the hints name NTLM with the tag [raw].  So a selection that waits for
    its server is a Kerberos one.  Without an override list the first part
    is empty; when the hints rule Kerberos out or a Kerberos context fails
    to open, the second is. *)
Theorem NAHCreate_offers (env : Environment) (h s : string)
    (info : option Info) (na : NAHData)
    (Hcreate : NAHCreate env h s info = Done (Some na)) :
  exists lo lk ln,
    offer <$> NAHGetSelections na = (lo ++ lk ++ ln)%list
    /\ Forall (fun p => known_with_server p.1.1 p.1.2 /\ p.2 = true) lo
    /\ Forall (fun p => kerberos_family p.1.1 p.1.2
                        /\ p.2 = negb (afp_without_lkdc na)) lk
    /\ Forall (fun p => with_server_of GSS_NTLM p.1.1 p.1.2
                        /\ p.2 = negb (raw_ntlm na)) ln
    /\ (pref_UserSelections env = None -> lo = [])
    /\ (have_kerberos (guess_kerberos_decide env na) = false
        \/ krb5_init_context_ret env <> 0 \/ hx509_context_init_ret env <> 0 ->
        lk = []).
Proof. exact (NAHCreate_offers_parts env h s info na Hcreate). Qed.

Lemma NAHCreate_offers_witness :
  exists lo lk ln,
    offer <$> NAHGetSelections local_session = (lo ++ lk ++ ln)%list
    /\ Forall (fun p => known_with_server p.1.1 p.1.2 /\ p.2 = true) lo
    /\ Forall (fun p => kerberos_family p.1.1 p.1.2
                        /\ p.2 = negb (afp_without_lkdc local_session)) lk
    /\ Forall (fun p => with_server_of GSS_NTLM p.1.1 p.1.2
                        /\ p.2 = negb (raw_ntlm local_session)) ln
    /\ (pref_UserSelections lkdc_cache_environment = None -> lo = [])
    /\ (have_kerberos (guess_kerberos_decide lkdc_cache_environment local_session)
        = false
        \/ krb5_init_context_ret lkdc_cache_environment <> 0
        \/ hx509_context_init_ret lkdc_cache_environment <> 0 ->
        lk = []).
Proof.
  apply (NAHCreate_offers lkdc_cache_environment "mac-mini.local"
           "afpserver" (sample_info "bob" (Some "p")) local_session).
  vm_compute. reflexivity.
Defined.

(** X12. When no resolver has run before [NAHCreate] returns, the list it
    returns holds no two selections with the same mechanism, the same
    client, the same server when both have one, and the same
    server-name-type.  That is so on every host that is not local, where no
    resolver is dispatched, and under a schedule that leaves the resolvers
    for later. *)
Theorem NAHCreate_no_duplicates (env : Environment) (h s : string)
    (info : option Info) (na : NAHData)
    (Hcreate : NAHCreate env h s info = Done (Some na))
    (Hquiet : is_local_hostname (hostname na) = false
              \/ (forall k n, resolver_runs env k n = false)) :
  unique_selections (NAHGetSelections na).
Proof. unfold NAHGetSelections. eapply NAHCreate_unique; eauto. Qed.

Lemma NAHCreate_no_duplicates_witness :
  unique_selections (NAHGetSelections local_session).
Proof.
  apply (NAHCreate_no_duplicates lkdc_cache_environment "mac-mini.local"
           "afpserver" (sample_info "bob" (Some "p")) local_session).
  - vm_compute. reflexivity.
  - right. intros k n. reflexivity.
Defined.


(** ** What a selection tells *)

Lemma wait_result_alone_ready s :
  wait s = None -> wait_result_alone s = Some (negb (canceled s)).
Proof.
  intros Hw. unfold wait_result_alone, wait_result_block.
  destruct (canceled s); [reflexivity|]. rewrite Hw. reflexivity.
Qed.

Lemma wait_result_alone_canceled s :
  canceled s = true -> wait_result_alone s = Some false.
Proof.
  intros Hc. unfold wait_result_alone, wait_result_block. rewrite Hc. reflexivity.
Qed.

Lemma NAHSelectionGetInfoForKey_ready sel :
  wait_result_alone sel = Some true ->
  NAHSelectionGetInfoForKey sel kNAHSelectionHaveCredential
  = Some (Some (CFBooleanRef (is_some (ccache sel))))
  /\ NAHSelectionGetInfoForKey sel kNAHMechanism
     = Some (if negb (spnego sel) then CFStringRef <$> mech2name (mech sel)
             else Some (CFStringRef kGSSAPIMechSPNEGO))
  /\ NAHSelectionGetInfoForKey sel kNAHCredentialType
     = Some (CFStringRef <$> mech2name (mech sel))
  /\ NAHSelectionGetInfoForKey sel kNAHClientPrincipal
     = Some (CFStringRef <$> client sel)
  /\ NAHSelectionGetInfoForKey sel kNAHServerPrincipal
     = Some (CFStringRef <$> server sel)
  /\ NAHSelectionGetInfoForKey sel kNAHInferredLabel
     = Some (CFStringRef <$> inferredLabel sel)
  /\ NAHSelectionGetInfoForKey sel kNAHUseSPNEGO
     = Some (Some (CFBooleanRef (spnego sel))).
Proof.
  intros H. unfold NAHSelectionGetInfoForKey. rewrite H.
  repeat split; try reflexivity.
  destruct (ccache sel); reflexivity.
Qed.

Lemma CFDictionaryAddValue_fresh (d : gmap string CFTypeRef) k v :
  d !! k = None -> CFDictionaryAddValue d k (Some v) = Done (<[k := v]> d).
Proof. intros H. unfold CFDictionaryAddValue. rewrite H. reflexivity. Qed.

Lemma NAHSelectionCopyAuthInfo_dictionary (sel : NAHSelectionData) (c sv : string)
    (Hwait : wait sel = None)
    (Hcanceled : canceled sel = false)
    (Hclient : client sel = Some c)
    (Hserver : server sel = Some sv)
    (Hmech : mech sel <> NO_MECH) :
  exists d,
    NAHSelectionCopyAuthInfo sel = Some (Done (Some d))
    /\ (forall key, key ∈ info_keys ->
                    NAHSelectionGetInfoForKey sel key = Some (d !! key))
    /\ d !! kNAHClientNameType = Some (CFStringRef (clienttype sel))
    /\ d !! kNAHServerNameType = Some (CFStringRef (servertype sel))
    /\ d !! kNAHClientNameTypeGSSD
       = Some (CFNumberRef (gssdclient_of (clienttype sel)))
    /\ d !! kNAHServerNameTypeGSSD
       = Some (CFNumberRef (gssdserver_of (servertype sel)))
    /\ (forall key, is_Some (d !! key) ->
                    key ∈ info_keys
                    \/ key ∈ [kNAHClientNameType; kNAHServerNameType;
                              kNAHClientNameTypeGSSD; kNAHServerNameTypeGSSD]).
Proof.
  assert (Hname : exists n, mech2name (mech sel) = Some n)
    by (destruct (mech sel); simpl; eauto; congruence).
  destruct Hname as [n Hn].
  assert (Hready : wait_result_alone sel = Some true)
    by (rewrite (wait_result_alone_ready _ Hwait), Hcanceled; reflexivity).
  destruct (NAHSelectionGetInfoForKey_ready sel Hready)
    as (_ & Gm & Gt & Gc & Gs & Gl & Gu).
  rewrite Hn in Gm, Gt. rewrite Hclient in Gc. rewrite Hserver in Gs.
  simpl in Gt, Gc, Gs.
  set (m := if spnego sel then CFStringRef kGSSAPIMechSPNEGO else CFStringRef n).
  assert (Gm' : NAHSelectionGetInfoForKey sel kNAHMechanism = Some (Some m))
    by (rewrite Gm; unfold m; destruct (spnego sel); reflexivity).
  clear Gm.
  unfold NAHSelectionCopyAuthInfo, add_info.
  rewrite Hready, Hserver, Gm', Gt, Gc, Gs, Gl, Gu.
  unfold waits_bind.
  rewrite CFDictionaryAddValue_fresh by fresh_key.
  rewrite CFDictionaryAddValue_fresh by fresh_key.
  rewrite CFDictionaryAddValue_fresh by fresh_key.
  rewrite CFDictionaryAddValue_fresh by fresh_key.
  rewrite CFDictionaryAddValue_fresh by fresh_key.
  rewrite CFDictionaryAddValue_fresh by fresh_key.
  rewrite CFDictionaryAddValue_fresh by fresh_key.
  rewrite CFDictionaryAddValue_fresh by fresh_key.
  destruct (inferredLabel sel) as [l|]; cbn [fmap option_fmap option_map];
    rewrite ?CFDictionaryAddValue_fresh by fresh_key;
    (eexists; split; [reflexivity|]);
    (split;
     [intros key Hk; unfold info_keys in Hk;
      repeat (apply elem_of_cons in Hk as [->|Hk]);
      [rewrite ?Gm', ?Gt, ?Gc, ?Gs, ?Gu, ?Gl; cbn [fmap option_fmap option_map];
       f_equal; symmetry; find_key..
      | apply elem_of_nil in Hk; contradiction]|]);
    (do 4 (split; [find_key|]));
    intros key [v Hv];
    repeat (apply lookup_insert_Some in Hv as [[<- _]|[_ Hv]];
            [unfold info_keys; rewrite !elem_of_cons; tauto|]);
    rewrite lookup_empty in Hv; discriminate.
Qed.

(** X13. For a selection that is not canceled, has its server and its
    client, a released latch and a mechanism with a name,
    [NAHSelectionCopyAuthInfo] returns a dictionary.  Under each of the
    keys mechanism, credential type, client principal, server principal,
    inferred label and SPNEGO it holds what [NAHSelectionGetInfoForKey]
    answers for that key (no entry where the answer is null); it holds the
    two name types and their codes, and nothing else. *)
Theorem NAHSelectionCopyAuthInfo_agrees (sel : NAHSelectionData) (c sv : string)
    (Hwait : wait sel = None)
    (Hcanceled : canceled sel = false)
    (Hclient : client sel = Some c)
    (Hserver : server sel = Some sv)
    (Hmech : mech sel <> NO_MECH) :
  exists d,
    NAHSelectionCopyAuthInfo sel = Some (Done (Some d))
    /\ (forall key, key ∈ info_keys ->
                    NAHSelectionGetInfoForKey sel key = Some (d !! key))
    /\ d !! kNAHClientNameType = Some (CFStringRef (clienttype sel))
    /\ d !! kNAHServerNameType = Some (CFStringRef (servertype sel))
    /\ d !! kNAHClientNameTypeGSSD
       = Some (CFNumberRef (gssdclient_of (clienttype sel)))
    /\ d !! kNAHServerNameTypeGSSD
       = Some (CFNumberRef (gssdserver_of (servertype sel)))
    /\ (forall key, is_Some (d !! key) ->
                    key ∈ info_keys
                    \/ key ∈ [kNAHClientNameType; kNAHServerNameType;
                              kNAHClientNameTypeGSSD; kNAHServerNameTypeGSSD]).
Proof.
  exact (NAHSelectionCopyAuthInfo_dictionary sel c sv Hwait Hcanceled Hclient
           Hserver Hmech).
Qed.

Lemma NAHSelectionCopyAuthInfo_agrees_witness :
  exists d,
    NAHSelectionCopyAuthInfo (sample_selection GSS_KERBEROS "ann")
    = Some (Done (Some d))
    /\ (forall key, key ∈ info_keys ->
                    NAHSelectionGetInfoForKey (sample_selection GSS_KERBEROS "ann") key
                    = Some (d !! key))
    /\ d !! kNAHClientNameType
       = Some (CFStringRef (clienttype (sample_selection GSS_KERBEROS "ann")))
    /\ d !! kNAHServerNameType
       = Some (CFStringRef (servertype (sample_selection GSS_KERBEROS "ann")))
    /\ d !! kNAHClientNameTypeGSSD
       = Some (CFNumberRef
                 (gssdclient_of (clienttype (sample_selection GSS_KERBEROS "ann"))))
    /\ d !! kNAHServerNameTypeGSSD
       = Some (CFNumberRef
                 (gssdserver_of (servertype (sample_selection GSS_KERBEROS "ann"))))
    /\ (forall key, is_Some (d !! key) ->
                    key ∈ info_keys
                    \/ key ∈ [kNAHClientNameType; kNAHServerNameType;
                              kNAHClientNameTypeGSSD; kNAHServerNameTypeGSSD]).
Proof.
  apply (NAHSelectionCopyAuthInfo_agrees (sample_selection GSS_KERBEROS "ann")
           "ann" "cifs@fs.corp.example.com").
  - reflexivity.
  - reflexivity.
  - reflexivity.
  - reflexivity.
  - vm_compute. discriminate.
Defined.

Lemma resolved_selection_fields env na x :
  wait (resolved_selection env na x) = None
  /\ canceled (resolved_selection env na x) = canceled x
  /\ mech (resolved_selection env na x) = mech x
  /\ ccache (resolved_selection env na x) = ccache x
  /\ have_cred (resolved_selection env na x) = have_cred x
  /\ match LKDCDiscoverRealm env (hostname na) with
     | Some realm =>
         client (resolved_selection env na x)
         = Some (default EmptyString (client x) +:+ "@" +:+ realm)
         /\ server (resolved_selection env na x)
            = Some (service na +:+ "/" +:+ realm +:+ "@" +:+ realm)
     | None =>
         client (resolved_selection env na x) = client x
         /\ server (resolved_selection env na x) = server x
     end.
Proof.
  unfold resolved_selection.
  destruct (LKDCDiscoverRealm env (hostname na)); simpl; auto 10.
Qed.

(** X14. Once the resolvers have run, [NAHSelectionCopyAuthInfo] on a
    selection of the list [NAHCreate] returned neither waits nor stops the
    process: it returns a dictionary, or null; and it returns null exactly
    for a selection left without a server, which happens only when the
    realm discovery failed. *)
Theorem run_resolvers_CopyAuthInfo (env : Environment) (h s : string)
    (info : option Info) (na : NAHData) (i : nat) (sel : NAHSelectionData)
    (Hcreate : NAHCreate env h s info = Done (Some na))
    (Hsel : selections (run_resolvers env na) !! i = Some sel) :
  exists d,
    NAHSelectionCopyAuthInfo sel = Some (Done d)
    /\ (d = None <-> server sel = None)
    /\ (server sel = None -> LKDCDiscoverRealm env (hostname na) = None).
Proof.
  pose proof (NAHCreate_wf _ _ _ _ _ Hcreate) as Hwf.
  rewrite (run_resolvers_fmap env na Hwf), list_lookup_fmap in Hsel.
  destruct Hwf as [W1 _ _ _ _ _].
  destruct (selections na !! i) as [x|] eqn:Hx; [|discriminate].
  simpl in Hsel. injection Hsel as <-.
  pose proof (selection_wf_released x (W1 _ _ Hx)) as Hl.
  destruct (W1 _ _ Hx) as [_ Hc Hm [c Hcl] _ _ _].
  assert (Hnull : forall y, wait y = None -> canceled y = false ->
                            server y = None ->
                            NAHSelectionCopyAuthInfo y = Some (Done None)).
  { intros y Hw Hcy Hsy. unfold NAHSelectionCopyAuthInfo.
    rewrite (wait_result_alone_ready _ Hw), Hcy, Hsy. reflexivity. }
  destruct (server x) as [sv|] eqn:Hsv.
  - assert (Hw : wait x = None) by (apply Hl; eauto).
    destruct (NAHSelectionCopyAuthInfo_dictionary x c sv Hw Hc Hcl Hsv Hm)
      as (d & Hd & _).
    exists (Some d). rewrite Hsv. split; [exact Hd|].
    split; [split; discriminate | discriminate].
  - destruct (resolved_selection_fields env na x) as (Rw & Rc & Rm & _ & _ & R).
    destruct (LKDCDiscoverRealm env (hostname na)) as [realm|].
    + destruct R as [Rcl Rsv].
      assert (Rm' : mech (resolved_selection env na x) <> NO_MECH)
        by (rewrite Rm; exact Hm).
      destruct (NAHSelectionCopyAuthInfo_dictionary _ _ _ Rw
                  (eq_trans Rc Hc) Rcl Rsv Rm') as (d & Hd & _).
      exists (Some d). rewrite Rsv. split; [exact Hd|].
      split; [split; discriminate | discriminate].
    + destruct R as [_ Rsv]. rewrite Hsv in Rsv.
      exists None. split; [apply Hnull; congruence|]. rewrite Rsv.
      split; [tauto | intros _; reflexivity].
Qed.

Lemma run_resolvers_CopyAuthInfo_witness :
  exists d,
    NAHSelectionCopyAuthInfo
      (default sample_unresolved
         (selections (run_resolvers lkdc_cache_environment local_session)
            !! 1%nat))
    = Some (Done d)
    /\ (d = None
        <-> server (default sample_unresolved
                      (selections (run_resolvers lkdc_cache_environment
                                     local_session) !! 1%nat)) = None)
    /\ (server (default sample_unresolved
                  (selections (run_resolvers lkdc_cache_environment
                                 local_session) !! 1%nat)) = None ->
        LKDCDiscoverRealm lkdc_cache_environment (hostname local_session) = None).
Proof.
  apply (run_resolvers_CopyAuthInfo lkdc_cache_environment "mac-mini.local"
           "afpserver" (sample_info "bob" (Some "p")) local_session 1%nat).
  - vm_compute. reflexivity.
  - vm_compute. reflexivity.
Defined.

Lemma NAHCreate_offer_lookup env h s info na i sel :
  NAHCreate env h s info = Done (Some na) ->
  selections na !! i = Some sel ->
  known_with_server (mech sel) (is_some (server sel))
  \/ kerberos_family (mech sel) (is_some (server sel))
  \/ with_server_of GSS_NTLM (mech sel) (is_some (server sel)).
Proof.
  intros Hcreate Hsel.
  destruct (NAHCreate_offers_parts _ _ _ _ _ Hcreate)
    as (lo & lk & ln & Heq & Qo & Qk & Qn & _).
  assert (Hin : offer sel ∈ (lo ++ lk ++ ln)%list).
  { rewrite <- Heq. unfold NAHGetSelections. apply list_elem_of_fmap.
    exists sel. split; [reflexivity|]. eapply list_elem_of_lookup_2; eauto. }
  rewrite !elem_of_app in Hin. rewrite Forall_forall in Qo, Qk, Qn.
  destruct Hin as [Hin|[Hin|Hin]].
  - left. apply (Qo _ Hin).
  - right. left. apply (Qk _ Hin).
  - right. right. apply (Qn _ Hin).
Qed.

(** X15. Asked whether a selection of the list [NAHCreate] returned has a
    credential, [NAHSelectionGetInfoForKey] answers by the credential
    cache alone: it says yes only for a Kerberos selection bound to an
    existing cache, and it says no for every NTLM selection, those
    included that [NAHCreate] marked as having a credential. *)
Theorem NAHCreate_HaveCredential (env : Environment) (h s : string)
    (info : option Info) (na : NAHData) (i : nat) (sel : NAHSelectionData)
    (Hcreate : NAHCreate env h s info = Done (Some na))
    (Hsel : NAHGetSelections na !! i = Some sel) :
  (NAHSelectionGetInfoForKey sel kNAHSelectionHaveCredential
   = Some (Some (CFBooleanRef true)) ->
   mech sel = GSS_KERBEROS /\ have_cred sel = true /\ is_Some (ccache sel))
  /\ (mech sel = GSS_NTLM ->
      NAHSelectionGetInfoForKey sel kNAHSelectionHaveCredential
      = Some (Some (CFBooleanRef false))).
Proof.
  destruct (NAHCreate_wf _ _ _ _ _ Hcreate) as [W1 _ _ _ _].
  destruct (W1 _ _ Hsel) as [_ Hc _ _ Hl Hcc _].
  split.
  - unfold NAHSelectionGetInfoForKey.
    destruct (wait_result_alone sel) as [[|]|]; try discriminate.
    change (comparison_eqb
              (CFStringCompare kNAHSelectionHaveCredential
                 kNAHSelectionHaveCredential 0) kCFCompareEqualTo) with true.
    cbv iota. destruct (ccache sel) eqn:E; [|discriminate].
    intros _. destruct Hcc as [? ?]; eauto.
  - intros Hm.
    destruct (NAHCreate_offer_lookup _ _ _ _ _ _ _ Hcreate Hsel)
      as [[_ Hr]|[[Hk|[Hk _]]|[_ Hr]]]; try congruence.
    + assert (Hw : wait sel = None)
        by (apply (selection_wf_released sel (W1 _ _ Hsel));
            destruct (server sel); [eauto | discriminate]).
      assert (Hready : wait_result_alone sel = Some true)
        by (rewrite (wait_result_alone_ready _ Hw), Hc; reflexivity).
      destruct (NAHSelectionGetInfoForKey_ready sel Hready) as (-> & _).
      destruct (ccache sel) eqn:E; [|reflexivity].
      destruct Hcc as [_ ?]; eauto. congruence.
    + assert (Hw : wait sel = None)
        by (apply (selection_wf_released sel (W1 _ _ Hsel));
            destruct (server sel); [eauto | discriminate]).
      assert (Hready : wait_result_alone sel = Some true)
        by (rewrite (wait_result_alone_ready _ Hw), Hc; reflexivity).
      destruct (NAHSelectionGetInfoForKey_ready sel Hready) as (-> & _).
      destruct (ccache sel) eqn:E; [|reflexivity].
      destruct Hcc as [_ ?]; eauto. congruence.
Qed.

Lemma NAHCreate_HaveCredential_witness :
  (NAHSelectionGetInfoForKey
     (default sample_unresolved (NAHGetSelections smb_session !! O))
     kNAHSelectionHaveCredential
   = Some (Some (CFBooleanRef true)) ->
   mech (default sample_unresolved (NAHGetSelections smb_session !! O))
   = GSS_KERBEROS
   /\ have_cred (default sample_unresolved (NAHGetSelections smb_session !! O))
      = true
   /\ is_Some (ccache (default sample_unresolved
                         (NAHGetSelections smb_session !! O))))
  /\ (mech (default sample_unresolved (NAHGetSelections smb_session !! O))
      = GSS_NTLM ->
      NAHSelectionGetInfoForKey
        (default sample_unresolved (NAHGetSelections smb_session !! O))
        kNAHSelectionHaveCredential
      = Some (Some (CFBooleanRef false))).
Proof.
  apply (NAHCreate_HaveCredential ntlm_environment "fs.corp.example.com" "cifs"
           ntlm_info smb_session O).
  - vm_compute. reflexivity.
  - vm_compute. reflexivity.
Defined.


(** ** Acquisition through a selection *)

Lemma acquire_kerberos_cases x na n pw cert sel :
  selections na !! n = Some sel ->
  (is_some pw || is_some cert)%bool = true ->
  (exists ret, ret <> 0 /\ acquire_kerberos x na n pw cert = Done (ret, na))
  \/ acquire_kerberos x na n pw cert
     = Done (0, update_selection na n
                  (fun s => setFriendlyName x na cert
                              (krb5_realm_is_lkdc x (cred_client_realm x))
                              (update_principals x na s))).
Proof.
  intros Hsel Hsecret. unfold acquire_kerberos. rewrite Hsel. unfold check.
  destruct cert as [cert|], pw as [pw|]; try discriminate Hsecret; simpl;
    repeat match goal with
           | |- context [Z.eqb ?r 0] =>
               destruct (Z.eqb_spec r 0) as [?|?];
               [|solve [left; eexists; split; [eassumption | reflexivity]]]
           end;
    right; reflexivity.
Qed.

Lemma update_selection_frame na n f :
  inputs (update_selection na n f) = inputs na
  /\ bgq (update_selection na n f) = bgq na
  /\ next_semaphore (update_selection na n f) = next_semaphore na
  /\ List.length (selections (update_selection na n f))
     = List.length (selections na)
  /\ (forall i, i <> n ->
                selections (update_selection na n f) !! i = selections na !! i)
  /\ selections (update_selection na n f) !! n = f <$> selections na !! n.
Proof.
  unfold update_selection. simpl. repeat split.
  - apply length_alter.
  - intros i Hi. apply list_lookup_alter_ne. congruence.
  - rewrite list_lookup_alter. destruct (decide (n = n)); congruence.
Qed.

Lemma acquired_from_refl na n : acquired_from na n na.
Proof. unfold acquired_from. repeat split; eauto. Qed.

Lemma acquired_from_update na n f :
  (forall s, acquire_frame (f s) = acquire_frame s) ->
  (forall s, is_Some (client s) -> is_Some (client (f s))) ->
  acquired_from na n (update_selection na n f).
Proof.
  intros Hf Hc.
  destruct (update_selection_frame na n f) as (H1 & H2 & H3 & H4 & H5 & H6).
  unfold acquired_from. repeat split; auto.
  intros sel Hsel. rewrite H6, Hsel. simpl. eauto.
Qed.

Lemma acquired_from_trans na n na1 na2 :
  acquired_from na n na1 -> acquired_from na1 n na2 -> acquired_from na n na2.
Proof.
  intros (A1 & A2 & A3 & A4 & A5 & A6) (B1 & B2 & B3 & B4 & B5 & B6).
  unfold acquired_from. repeat split; try congruence.
  - intros i Hi. rewrite B5, A5 by exact Hi. reflexivity.
  - intros sel Hsel. destruct (A6 _ Hsel) as (s1 & Hs1 & E1 & C1).
    destruct (B6 _ Hs1) as (s2 & Hs2 & E2 & C2). exists s2.
    split; [exact Hs2|]. split; [congruence | auto].
Qed.

Lemma acquire_kerberos_client x na cert is_lkdc s :
  is_Some (client s) ->
  is_Some (client (setFriendlyName x na cert is_lkdc (update_principals x na s))).
Proof.
  intros Hc. destruct (setFriendlyName_principals x na cert is_lkdc
                         (update_principals x na s)) as [-> _].
  unfold update_principals. destruct (negb _); simpl; eauto.
Qed.

Lemma setFriendlyName_frame x na cert is_lkdc s :
  acquire_frame (setFriendlyName x na cert is_lkdc s) = acquire_frame s.
Proof.
  unfold setFriendlyName.
  destruct (match cert with Some _ => _ | None => _ end); reflexivity.
Qed.

Lemma update_principals_frame x na s :
  acquire_frame (update_principals x na s) = acquire_frame s.
Proof. unfold update_principals. destruct (negb _); reflexivity. Qed.

Lemma HaveResult_cases x g na n sel :
  selections na !! n = Some sel -> is_Some (client sel) ->
  exists o,
    NAHSelectionAcquireCredentialHaveResult x g na n = Done o
    /\ acquired_from na n (acq_na o)
    /\ ((acq_return o = true /\ exists e, acq_results o = [e])
        \/ (acq_return o = false /\ acq_results o = [])).
Proof.
  intros Hsel [c Hc]. unfold NAHSelectionAcquireCredentialHaveResult.
  rewrite Hsel.
  assert (Hno : forall na',
             acquired_from na n na' ->
             exists o, Done (acquisition_refused na') = Done o
                       /\ acquired_from na n (acq_na o)
                       /\ ((acq_return o = true /\ exists e, acq_results o = [e])
                           \/ (acq_return o = false /\ acq_results o = [])))
    by (intros na' H; eexists; split; [reflexivity|]; simpl; auto).
  assert (Hrefl := acquired_from_refl na n).
  assert (Hlabel : forall l, acquired_from na n
                     (update_selection na n (with_inferredLabel l)))
    by (intros l; apply acquired_from_update; [reflexivity | auto]).
  destruct (mech sel); try (apply Hno; exact Hrefl).
  - destruct (ccache sel).
    { eexists. split; [reflexivity|]. simpl. eauto. }
    destruct (negb (is_some (password na)) && negb (is_some (certificate sel)))%bool
      eqn:Hsecret; [apply Hno; exact Hrefl|].
    assert (Hs : (is_some (password na) || is_some (certificate sel))%bool = true)
      by (destruct (password na), (certificate sel); simpl in *; congruence).
    destruct (acquire_kerberos_cases x na n _ _ sel Hsel Hs)
      as [(ret & Hret & ->)| ->]; simpl.
    + eexists. split; [reflexivity|]. simpl. eauto.
    + eexists. split; [reflexivity|]. simpl. split; [|eauto].
      apply acquired_from_update.
      * intros s. rewrite setFriendlyName_frame. apply update_principals_frame.
      * intros s. apply acquire_kerberos_client.
  - destruct (have_cred sel || negb (is_some (password na)))%bool;
      [apply Hno; exact Hrefl|].
    rewrite Hc. destruct (negb _); [apply Hno; exact Hrefl|].
    cbv zeta.
    destruct (negb (Z.eqb (gss_aapl_initial_cred_major g) 0));
      [apply Hno, Hlabel|].
    destruct (_ || _)%bool; [apply Hno, Hlabel|].
    eexists. split; [reflexivity|]. simpl. split; [|eauto].
    destruct (gss_inquire_cred_by_oid_dataset g) as [|[newclient|] ?];
      try apply Hlabel.
    eapply acquired_from_trans; [apply Hlabel|].
    apply acquired_from_update; [reflexivity | simpl; eauto].
  - destruct (have_cred sel).
    { eexists. split; [reflexivity|]. simpl. eauto. }
    destruct (password na); [|apply Hno; exact Hrefl].
    rewrite Hc. destruct (negb _); [apply Hno; exact Hrefl|].
    eexists. split; [reflexivity|]. simpl. eauto.
Qed.

(** X16. [NAHSelectionAcquireCredentialHaveResult] keeps its contract
    with the result block: on a selection with a client it never reaches
    the [abort] of [acquire_kerberos] nor reads a null client, it runs the
    result block exactly once when it returns true, and never when it
    returns false. *)
Theorem HaveResult_result_block (x : krb5_exchange) (g : gss_exchange)
    (na : NAHData) (n : nat) (sel : NAHSelectionData)
    (Hselection : selections na !! n = Some sel)
    (Hclient : is_Some (client sel)) :
  exists o,
    NAHSelectionAcquireCredentialHaveResult x g na n = Done o
    /\ (acq_return o = true -> exists e, acq_results o = [e])
    /\ (acq_return o = false -> acq_results o = []).
Proof.
  destruct (HaveResult_cases x g na n sel Hselection Hclient)
    as (o & Ho & _ & [[Hr He]|[Hr He]]);
    exists o; (split; [exact Ho|]); rewrite Hr; split; intros; congruence.
Qed.

(** X17. An acquisition through a selection touches nothing but that
    selection, and of it only the client, the client-name-type, the server
    and the label: the other selections, the inputs of the session, the
    background queue, and the latch, the mechanism, the server-name-type,
    the certificate, the SPNEGO flag, the cache and [have_cred] of the
    selection are as before, and the selection still has a client.  In
    particular an acquisition never binds a cache to the selection. *)
Theorem HaveResult_frame (x : krb5_exchange) (g : gss_exchange)
    (na : NAHData) (n : nat) (sel : NAHSelectionData) (o : acquisition)
    (Hselection : selections na !! n = Some sel)
    (Hclient : is_Some (client sel))
    (Hdone : NAHSelectionAcquireCredentialHaveResult x g na n = Done o) :
  inputs (acq_na o) = inputs na /\ bgq (acq_na o) = bgq na
  /\ List.length (selections (acq_na o)) = List.length (selections na)
  /\ (forall i, i <> n -> selections (acq_na o) !! i = selections na !! i)
  /\ exists sel',
       selections (acq_na o) !! n = Some sel'
       /\ acquire_frame sel' = acquire_frame sel
       /\ is_Some (client sel').
Proof.
  destruct (HaveResult_cases x g na n sel Hselection Hclient)
    as (o' & Ho & (A1 & A2 & _ & A4 & A5 & A6) & _).
  rewrite Hdone in Ho. injection Ho as <-.
  destruct (A6 _ Hselection) as (sel' & Hs & Hf & Hc). eauto 10.
Qed.

Lemma HaveResult_result_block_witness :
  exists o,
    NAHSelectionAcquireCredentialHaveResult
      (sample_exchange "bob@LKDC:SHA1.ABC" "LKDC:SHA1.ABC" true) willing_gss
      (run_resolvers lkdc_cache_environment local_session) 1%nat = Done o
    /\ (acq_return o = true -> exists e, acq_results o = [e])
    /\ (acq_return o = false -> acq_results o = []).
Proof.
  apply (HaveResult_result_block _ _
           (run_resolvers lkdc_cache_environment local_session) 1%nat
           (default sample_unresolved
              (selections (run_resolvers lkdc_cache_environment local_session)
                 !! 1%nat))).
  - vm_compute. reflexivity.
  - vm_compute. eexists. reflexivity.
Defined.


(** X18. A selection that [NAHCreate] marked as having a credential is
    acquired without any exchange: the call returns true, runs the result
    block once with no error, and leaves the session as it was; for a
    selection bound to a credential cache it takes one reference to the
    credential of the client, for an NTLM selection none. *)
Theorem NAHCreate_have_cred_acquires (env : Environment) (h s : string)
    (info : option Info) (na : NAHData) (i : nat) (sel : NAHSelectionData)
    (x : krb5_exchange) (g : gss_exchange)
    (Hcreate : NAHCreate env h s info = Done (Some na))
    (Hsel : NAHGetSelections na !! i = Some sel)
    (Hcred : have_cred sel = true) :
  NAHSelectionAcquireCredentialHaveResult x g na i
  = Done {| acq_return := true; acq_na := na; acq_results := [None];
            acq_references :=
              match ccache sel with
              | Some _ => [client sel]
              | None => []
              end |}.
Proof.
  destruct (NAHCreate_wf _ _ _ _ _ Hcreate) as [W1 _ _ _ _].
  destruct (W1 _ _ Hsel) as [_ _ _ _ _ Hcc Hh].
  unfold NAHGetSelections in Hsel.
  unfold NAHSelectionAcquireCredentialHaveResult. rewrite Hsel.
  destruct (ccache sel) as [id|] eqn:E.
  - destruct (Hcc ltac:(eauto)) as [_ ->]. reflexivity.
  - destruct (Hh Hcred) as [[? ?]| ->]; [discriminate|].
    rewrite Hcred. reflexivity.
Qed.

Lemma NAHCreate_have_cred_acquires_witness :
  NAHSelectionAcquireCredentialHaveResult
    (sample_exchange "bob@LKDC:SHA1.ABC" "LKDC:SHA1.ABC" true) unwilling_gss
    local_session O
  = Done {| acq_return := true; acq_na := local_session; acq_results := [None];
            acq_references :=
              match ccache (default sample_unresolved
                              (NAHGetSelections local_session !! O)) with
              | Some _ =>
                  [client (default sample_unresolved
                             (NAHGetSelections local_session !! O))]
              | None => []
              end |}.
Proof.
  apply (NAHCreate_have_cred_acquires lkdc_cache_environment "mac-mini.local"
           "afpserver" (sample_info "bob" (Some "p")) local_session O
           (default sample_unresolved (NAHGetSelections local_session !! O))).
  - vm_compute. reflexivity.
  - vm_compute. reflexivity.
  - vm_compute. reflexivity.
Defined.



Lemma HaveResult_frame_witness :
  inputs (acq_na ntlm_acquisition) = inputs ntlm_password_session
  /\ bgq (acq_na ntlm_acquisition) = bgq ntlm_password_session
  /\ List.length (selections (acq_na ntlm_acquisition))
     = List.length (selections ntlm_password_session)
  /\ (forall i, i <> O ->
                selections (acq_na ntlm_acquisition) !! i
                = selections ntlm_password_session !! i)
  /\ exists sel',
       selections (acq_na ntlm_acquisition) !! O = Some sel'
       /\ acquire_frame sel' = acquire_frame (sample_selection GSS_NTLM "ann@CORP")
       /\ is_Some (client sel').
Proof.
  apply (HaveResult_frame (sample_exchange "ann@CORP" "CORP" false) willing_gss
           ntlm_password_session O (sample_selection GSS_NTLM "ann@CORP")
           ntlm_acquisition).
  - reflexivity.
  - vm_compute. eexists. reflexivity.
  - vm_compute. reflexivity.
Defined.

(** X20. [acquire_kerberos] for a password or a certificate never reaches
    its [abort], and it changes the session only when it succeeds: with a
    status other than zero the session is as it was; with the status zero
    the selection went through the referral block and the label block, and
    nothing else changed. *)
Theorem acquire_kerberos_atomic (x : krb5_exchange) (na : NAHData) (n : nat)
    (sel : NAHSelectionData) (pw : option string) (cert : option SecCertificate)
    (Hselection : selections na !! n = Some sel)
    (Hsecret : is_Some pw \/ is_Some cert) :
  exists ret na',
    acquire_kerberos x na n pw cert = Done (ret, na')
    /\ (ret <> 0 -> na' = na)
    /\ (ret = 0 ->
        na' = update_selection na n
                (fun s => setFriendlyName x na cert
                            (krb5_realm_is_lkdc x (cred_client_realm x))
                            (update_principals x na s))
        /\ acquired_from na n na').
Proof.
  assert (Hs : (is_some pw || is_some cert)%bool = true).
  { destruct Hsecret as [[? ->]|[? ->]]; [reflexivity|].
    destruct pw; reflexivity. }
  destruct (acquire_kerberos_cases x na n pw cert sel Hselection Hs)
    as [(ret & Hret & ->)| ->].
  - exists ret, na. split; [reflexivity|]. split; [auto | contradiction].
  - eexists 0, _. split; [reflexivity|]. split; [intros H; contradiction|].
    intros _. split; [reflexivity|].
    apply acquired_from_update.
    + intros s. rewrite setFriendlyName_frame. apply update_principals_frame.
    + intros s. apply acquire_kerberos_client.
Qed.

Lemma acquire_kerberos_atomic_witness :
  exists ret na',
    acquire_kerberos (sample_exchange "ann@CORP" "CORP" false)
      ntlm_password_session O (Some "p") None = Done (ret, na')
    /\ (ret <> 0 -> na' = ntlm_password_session)
    /\ (ret = 0 ->
        na' = update_selection ntlm_password_session O
                (fun s => setFriendlyName (sample_exchange "ann@CORP" "CORP" false)
                            ntlm_password_session None
                            (krb5_realm_is_lkdc
                               (sample_exchange "ann@CORP" "CORP" false)
                               (cred_client_realm
                                  (sample_exchange "ann@CORP" "CORP" false)))
                            (update_principals
                               (sample_exchange "ann@CORP" "CORP" false)
                               ntlm_password_session s))
        /\ acquired_from ntlm_password_session O na').
Proof.
  apply (acquire_kerberos_atomic (sample_exchange "ann@CORP" "CORP" false)
           ntlm_password_session O (sample_selection GSS_NTLM "ann@CORP")
           (Some "p") None).
  - reflexivity.
  - left. eexists. reflexivity.
Defined.


(** ** References to credentials *)

Lemma substring_app_tail (a b : string) :
  String.substring (String.length a) (String.length (a +:+ b) - String.length a)
    (a +:+ b) = b.
Proof.
  rewrite length_app_string.
  replace (String.length a + String.length b - String.length a)%nat
    with (String.length b) by lia.
  apply substring_app_drop.
Qed.

Lemma CFStringHasPrefix_app (pre rest : string) :
  pre <> EmptyString -> CFStringHasPrefix (pre +:+ rest) pre = true.
Proof.
  intros Hne. unfold CFStringHasPrefix. destruct pre as [|a pre]; [congruence|].
  apply prefix_begins_with. exists rest. reflexivity.
Qed.

Lemma CredChange_of_reference_key (g : gss_credentials) (sel : NAHSelectionData)
    (c key : string) (count : Z) (label : option string)
    (Hclient : client sel = Some c)
    (Hkey : NAHCopyReferenceKey sel = Some key) :
  exists oid,
    credential_oid (mech sel) = Some oid
    /\ CredChange g (Some key) count label = CredChange_named g oid c count label.
Proof.
  unfold NAHCopyReferenceKey in Hkey. rewrite Hclient in Hkey.
  unfold CredChange, CFStringCreateWithSubstring.
  destruct (mech sel); try discriminate Hkey; injection Hkey as <-;
    (eexists; split; [reflexivity|]).
  1-3: change ("krb5" +:+ ":" +:+ c) with ("krb5:" +:+ c);
       rewrite (CFStringHasPrefix_app "krb5:" c) by discriminate;
       change 5%nat with (String.length "krb5:");
       rewrite (substring_app_tail "krb5:" c); reflexivity.
  change ("ntlm" +:+ ":" +:+ c) with ("ntlm:" +:+ c).
  assert (Hk : CFStringHasPrefix ("ntlm:" +:+ c) "krb5:" = false)
    by reflexivity.
  rewrite Hk. rewrite (CFStringHasPrefix_app "ntlm:" c) by discriminate.
  change 5%nat with (String.length "ntlm:").
  rewrite (substring_app_tail "ntlm:" c). reflexivity.
Qed.

(** X21. The reference key of a selection leads [CredChange] back to the
    credential of that selection: for a key made by [NAHCopyReferenceKey]
    from a selection with client [c], [CredChange] acts on the credential
    held for the name [c], whole and unchanged, under the Kerberos
    mechanism for a Kerberos, PKU2U or IAKERB selection and under the NTLM
    mechanism for an NTLM selection. *)
Theorem CredChange_reference_key (g : gss_credentials) (sel : NAHSelectionData)
    (c key : string) (count : Z) (label : option string)
    (Hclient : client sel = Some c)
    (Hkey : NAHCopyReferenceKey sel = Some key) :
  exists oid,
    credential_oid (mech sel) = Some oid
    /\ CredChange g (Some key) count label = CredChange_named g oid c count label.
Proof.
  exact (CredChange_of_reference_key g sel c key count label Hclient Hkey).
Qed.

Lemma CredChange_reference_key_witness :
  exists oid,
    credential_oid (mech (sample_selection GSS_NTLM "ann@CORP")) = Some oid
    /\ CredChange sample_credentials (Some "ntlm:ann@CORP") 1 None
       = CredChange_named sample_credentials oid "ann@CORP" 1 None.
Proof.
  apply (CredChange_reference_key sample_credentials
           (sample_selection GSS_NTLM "ann@CORP") "ann@CORP" "ntlm:ann@CORP"
           1 None).
  - reflexivity.
  - reflexivity.
Defined.

Lemma CredChange_named_cases g oid name count label :
  CredChange_named g oid name count label = (false, [])
  \/ exists cred,
       gss_import_name g name = true
       /\ gss_acquire_cred g oid name = Some cred
       /\ gss_cred_label_get g cred nah_created = true
       /\ CredChange_named g oid name count label
          = (true,
             ((if Z.eqb count 0 then []
               else if Z.ltb 0 count then [gss_cred_hold cred]
               else [gss_cred_unhold cred])
              ++ match label with
                 | Some l => [gss_cred_label_set cred l (Some "1")]
                 | None => []
                 end)%list).
Proof.
  unfold CredChange_named.
  destruct (gss_import_name g name); [|auto]. simpl.
  destruct (gss_acquire_cred g oid name) as [cred|]; [|auto].
  destruct (gss_cred_label_get g cred nah_created) eqn:Hl; [|auto]. simpl.
  right. exists cred. auto.
Qed.

Lemma CredChange_cases g key count label :
  CredChange g key count label = (false, [])
  \/ exists oid name, CredChange g key count label
                      = CredChange_named g oid name count label.
Proof.
  unfold CredChange. destruct key as [key|]; [|auto].
  destruct (CFStringHasPrefix key "krb5:"); [eauto|].
  destruct (CFStringHasPrefix key "ntlm:"); eauto.
Qed.

(** X22. What the reference functions never do.  [CredChange] touches one
    credential at most, and only a credential that carries the label
    [nah-created]; when it returns false it has changed nothing; it holds
    only for a positive count and unholds only for a negative one.
    [NAHFindByLabelAndRelease] unholds only credentials that carry both
    [nah-created] and the label it was given, and removes that label from
    each credential it unholds. *)
Theorem CredChange_guarded (g : gss_credentials) (key : option string)
    (count : Z) (label : option string) (identifier : string) :
  (fst (CredChange g key count label) = false ->
   snd (CredChange g key count label) = [])
  /\ (forall a b, a ∈ snd (CredChange g key count label) ->
                  b ∈ snd (CredChange g key count label) ->
                  call_cred a = call_cred b
                  /\ gss_cred_label_get g (call_cred a) nah_created = true)
  /\ (forall cred, gss_cred_hold cred ∈ snd (CredChange g key count label) ->
                   0 < count)
  /\ (forall cred, gss_cred_unhold cred ∈ snd (CredChange g key count label) ->
                   count < 0)
  /\ (forall a, a ∈ NAHFindByLabelAndRelease g identifier ->
                gss_cred_label_get g (call_cred a) nah_created = true
                /\ gss_cred_label_get g (call_cred a) identifier = true
                /\ gss_cred_label_set (call_cred a) identifier None
                   ∈ NAHFindByLabelAndRelease g identifier
                /\ gss_cred_unhold (call_cred a)
                   ∈ NAHFindByLabelAndRelease g identifier).
Proof.
  assert (Hcalls : CredChange g key count label = (false, [])
                   \/ exists cred,
                        gss_cred_label_get g cred nah_created = true
                        /\ CredChange g key count label
                           = (true,
                              ((if Z.eqb count 0 then []
                                else if Z.ltb 0 count then [gss_cred_hold cred]
                                else [gss_cred_unhold cred])
                               ++ match label with
                                  | Some l => [gss_cred_label_set cred l (Some "1")]
                                  | None => []
                                  end)%list)).
  { destruct (CredChange_cases g key count label) as [H|(oid & name & ->)];
      [auto|].
    destruct (CredChange_named_cases g oid name count label)
      as [H|(cred & _ & _ & Hl & H)]; eauto. }
  assert (Hin : forall cred a,
             a ∈ ((if Z.eqb count 0 then []
                   else if Z.ltb 0 count then [gss_cred_hold cred]
                   else [gss_cred_unhold cred])
                  ++ match label with
                     | Some l => [gss_cred_label_set cred l (Some "1")]
                     | None => []
                     end)%list ->
             call_cred a = cred
             /\ (forall c, a = gss_cred_hold c -> 0 < count)
             /\ (forall c, a = gss_cred_unhold c -> count < 0)).
  { intros cred a Ha. apply elem_of_app in Ha as [Ha|Ha].
    - destruct (Z.eqb_spec count 0) as [?|Hne];
        [apply elem_of_nil in Ha; contradiction|].
      destruct (Z.ltb_spec 0 count) as [Hpos|Hneg];
        apply list_elem_of_singleton in Ha; subst a; simpl;
        (split; [reflexivity|]); split; intros c [=]; lia.
    - destruct label as [l|]; [|apply elem_of_nil in Ha; contradiction].
      apply list_elem_of_singleton in Ha. subst a. simpl.
      split; [reflexivity|]. split; intros c [=]. }
  assert (Hrel : forall a, a ∈ NAHFindByLabelAndRelease g identifier ->
             exists c, Some c ∈ gss_iter_creds g
                       /\ gss_cred_label_get g c nah_created = true
                       /\ gss_cred_label_get g c identifier = true
                       /\ call_cred a = c
                       /\ release_labelled g identifier (Some c)
                          = [gss_cred_label_set c identifier None;
                             gss_cred_unhold c]).
  { intros a Ha. unfold NAHFindByLabelAndRelease in Ha.
    apply list_elem_of_In, in_flat_map in Ha as (c & Hc & Ha).
    destruct c as [c|]; [|contradiction]. exists c.
    split; [apply list_elem_of_In; exact Hc|].
    unfold release_labelled in *.
    destruct (gss_cred_label_get g c nah_created); [|contradiction].
    simpl in *. destruct (gss_cred_label_get g c identifier); [|contradiction].
    destruct Ha as [<-|[<-|[]]]; auto. }
  split; [|split; [|split; [|split]]].
  - destruct Hcalls as [->|(cred & _ & ->)]; [reflexivity | discriminate].
  - intros a b Ha Hb.
    destruct Hcalls as [E|(cred & Hl & E)]; rewrite E in Ha, Hb; simpl in Ha, Hb.
    + apply elem_of_nil in Ha. contradiction.
    + destruct (Hin _ _ Ha) as [-> _]. destruct (Hin _ _ Hb) as [-> _]. auto.
  - intros cred Ha.
    destruct Hcalls as [E|(c & Hl & E)]; rewrite E in Ha; simpl in Ha.
    + apply elem_of_nil in Ha. contradiction.
    + destruct (Hin _ _ Ha) as (_ & Hh & _). eapply Hh. reflexivity.
  - intros cred Ha.
    destruct Hcalls as [E|(c & Hl & E)]; rewrite E in Ha; simpl in Ha.
    + apply elem_of_nil in Ha. contradiction.
    + destruct (Hin _ _ Ha) as (_ & _ & Hu). eapply Hu. reflexivity.
  - intros a Ha. destruct (Hrel a Ha) as (c & Hc & Hl & Hi & -> & Hr).
    split; [exact Hl|]. split; [exact Hi|].
    unfold NAHFindByLabelAndRelease.
    split; apply list_elem_of_In, in_flat_map; exists (Some c);
      (split; [apply list_elem_of_In; exact Hc|]); rewrite Hr; simpl; auto.
Qed.




(** ** The synchronous acquisition *)

(** X24. Called by one caller at a time on a selection that is not
    canceled, counts no waiter and has a released latch,
    [NAHSelectionAcquireCredential] neither waits for ever nor reaches its
    [abort].  It returns true exactly when the inner call returned true
    and its result block reported no error.  In every case it leaves the
    latch of the selection as it found it, released and counting nobody,
    so that the next call finds the same conditions; the other selections
    are untouched. *)
Theorem NAHSelectionAcquireCredential_returns (x : krb5_exchange)
    (g : gss_exchange) (na : NAHData) (n : nat) (sel : NAHSelectionData)
    (error0 : option Z)
    (Hselection : selections na !! n = Some sel)
    (Hclient : is_Some (client sel))
    (Hwait : wait sel = None)
    (Hwaiting : waiting sel = 0)
    (Hcanceled : canceled sel = false) :
  exists na1 o r,
    acquire_block na n = Done na1
    /\ NAHSelectionAcquireCredentialHaveResult x g na1 n = Done o
    /\ NAHSelectionAcquireCredential x g na n error0 = Some (Done r)
    /\ (sync_return r = true <-> acq_return o = true /\ acq_results o = [None])
    /\ (exists sel',
          selections (sync_na r) !! n = Some sel'
          /\ wait sel' = None /\ waiting sel' = 0 /\ canceled sel' = false
          /\ is_Some (client sel')
          /\ mech sel' = mech sel /\ ccache sel' = ccache sel
          /\ have_cred sel' = have_cred sel)
    /\ (forall i, i <> n -> selections (sync_na r) !! i = selections na !! i).
Proof.
  set (sel1 := with_latch (Some (next_semaphore na)) 1 (canceled sel) sel).
  set (na1 := update_selection (set_next_semaphore na (S (next_semaphore na))) n
                (fun s => with_latch (Some (next_semaphore na)) 1 (canceled s) s)).
  assert (Hblock : acquire_block na n = Done na1).
  { unfold acquire_block. rewrite Hselection, Hwaiting, Hwait. reflexivity. }
  assert (Hsel1 : selections na1 !! n = Some sel1).
  { unfold na1, update_selection. simpl. rewrite list_lookup_alter.
    destruct (decide (n = n)); [|congruence]. rewrite Hselection. reflexivity. }
  assert (Hother : forall i, i <> n -> selections na1 !! i = selections na !! i).
  { intros i Hi. unfold na1, update_selection. simpl.
    apply list_lookup_alter_ne. congruence. }
  destruct (HaveResult_cases x g na1 n sel1 Hsel1 Hclient)
    as (o & Ho & (_ & _ & _ & _ & A5 & A6) & Hcases).
  destruct (A6 _ Hsel1) as (sel2 & Hsel2 & Hframe & Hcl).
  assert (Hfields : wait sel2 = Some (next_semaphore na) /\ waiting sel2 = 1
                    /\ canceled sel2 = false /\ mech sel2 = mech sel
                    /\ ccache sel2 = ccache sel /\ have_cred sel2 = have_cred sel).
  { unfold acquire_frame in Hframe. unfold sel1 in Hframe. simpl in Hframe.
    injection Hframe as -> -> -> -> -> _ _ _ ->. rewrite Hcanceled. auto 10. }
  destruct Hfields as (Fw & Fn & Fc & Fm & Fcc & Fh).
  exists na1, o.
  unfold NAHSelectionAcquireCredential.
  rewrite Hselection, (wait_result_alone_ready _ Hwait), Hcanceled, Hblock, Ho.
  cbn [negb].
  assert (Hlookup : forall f,
             selections (update_selection (acq_na o) n f) !! n = Some (f sel2)).
  { intros f. unfold update_selection. simpl. rewrite list_lookup_alter.
    destruct (decide (n = n)); [|congruence]. rewrite Hsel2. reflexivity. }
  assert (Hrest : forall f i, i <> n ->
             selections (update_selection (acq_na o) n f) !! i
             = selections na !! i).
  { intros f i Hi. unfold update_selection. simpl.
    rewrite list_lookup_alter_ne by congruence.
    rewrite A5, Hother by exact Hi. reflexivity. }
  destruct Hcases as [[Hr [e He]]|[Hr He]]; rewrite Hr, He; cbn [negb].
  - cbn [foldl acquire_result_block]. rewrite Hlookup.
    assert (Hsig : fst (signal_result_block sel2 ∅)
                   = with_latch None 0 (canceled sel2) sel2).
    { unfold signal_result_block, signal_waiters. rewrite Fw, Fn. reflexivity. }
    rewrite Hsig.
    rewrite (wait_result_alone_ready (with_latch None 0 (canceled sel2) sel2))
      by reflexivity.
    simpl canceled. rewrite Fc. cbn [negb].
    eexists. split; [reflexivity|]. split; [reflexivity|].
    split; [reflexivity|]. cbn [sync_return sync_na sync_error]. split.
    + destruct e as [code|]; cbn [sync_return].
      * split; [discriminate|]. intros [_ [=]].
      * split; auto.
    + split; [|apply Hrest].
      rewrite Hlookup, Hsig. eexists. split; [reflexivity|]. simpl. auto 10.
  - eexists. split; [reflexivity|]. split; [reflexivity|].
    split; [reflexivity|]. cbn [sync_return sync_na sync_error]. split.
    + split; [discriminate|]. intros [_ [=]].
    + split; [|apply Hrest].
      rewrite Hlookup. eexists. split; [reflexivity|].
      unfold acquire_unwind. rewrite Fn. simpl. auto 10.
Qed.

Lemma NAHSelectionAcquireCredential_returns_witness :
  exists na1 o r,
    acquire_block ntlm_password_session O = Done na1
    /\ NAHSelectionAcquireCredentialHaveResult
         (sample_exchange "ann@CORP" "CORP" false) willing_gss na1 O = Done o
    /\ NAHSelectionAcquireCredential (sample_exchange "ann@CORP" "CORP" false)
         willing_gss ntlm_password_session O None = Some (Done r)
    /\ (sync_return r = true <-> acq_return o = true /\ acq_results o = [None])
    /\ (exists sel',
          selections (sync_na r) !! O = Some sel'
          /\ wait sel' = None /\ waiting sel' = 0 /\ canceled sel' = false
          /\ is_Some (client sel')
          /\ mech sel' = mech (sample_selection GSS_NTLM "ann@CORP")
          /\ ccache sel' = ccache (sample_selection GSS_NTLM "ann@CORP")
          /\ have_cred sel' = have_cred (sample_selection GSS_NTLM "ann@CORP"))
    /\ (forall i, i <> O ->
                  selections (sync_na r) !! i
                  = selections ntlm_password_session !! i).
Proof.
  apply (NAHSelectionAcquireCredential_returns
           (sample_exchange "ann@CORP" "CORP" false) willing_gss
           ntlm_password_session O (sample_selection GSS_NTLM "ann@CORP") None).
  - reflexivity.
  - vm_compute. eexists. reflexivity.
  - reflexivity.
  - reflexivity.
  - reflexivity.
Defined.

(** ** Cancellation and release *)

(** X25. From a consistent latch state, [NAHCancel] marks every selection
    canceled and leaves it counting no waiter; it keeps every semaphore in
    place and signals each one once for every waiter its selection had
    counted, no more and no less; it does not touch the callers.  A second
    [NAHCancel] changes no selection and signals nothing. *)
Theorem NAHCancel_wakes_counted (sys : latch_system) (Hinv : latch_inv sys) :
  sys_selections (NAHCancel sys)
  = (fun s => with_latch (wait s) 0 true s) <$> sys_selections sys
  /\ (forall h, sem_value (sys_semaphores (NAHCancel sys)) h
                = sem_value (sys_semaphores sys) h
                  + sumZ (counted_on h) (sys_selections sys))
  /\ sys_waiters (NAHCancel sys) = sys_waiters sys
  /\ sys_selections (NAHCancel (NAHCancel sys)) = sys_selections (NAHCancel sys)
  /\ (forall h, sem_value (sys_semaphores (NAHCancel (NAHCancel sys))) h
                = sem_value (sys_semaphores (NAHCancel sys)) h).
Proof.
  destruct (NAHCancel_selections sys Hinv) as (H1 & H2 & H3).
  pose proof (latch_inv_NAHCancel sys Hinv) as Hinv'.
  destruct (NAHCancel_selections (NAHCancel sys) Hinv') as (K1 & K2 & _).
  split; [exact H1|]. split; [exact H2|]. split; [exact H3|]. split.
  - rewrite K1, H1, <- list_fmap_compose. apply list_fmap_ext.
    intros i s _. reflexivity.
  - intros h. rewrite K2.
    assert (Hz : sumZ (counted_on h) (sys_selections (NAHCancel sys)) = 0).
    { rewrite H1. generalize (sys_selections sys). intros l.
      induction l as [|a l IH]; [reflexivity|].
      rewrite fmap_cons. cbn [sumZ]. rewrite IH. unfold counted_on. simpl.
      destruct (bool_decide _); reflexivity. }
    lia.
Qed.

Lemma NAHCancel_wakes_counted_witness :
  sys_selections (NAHCancel sample_latch)
  = (fun s => with_latch (wait s) 0 true s) <$> sys_selections sample_latch
  /\ (forall h, sem_value (sys_semaphores (NAHCancel sample_latch)) h
                = sem_value (sys_semaphores sample_latch) h
                  + sumZ (counted_on h) (sys_selections sample_latch))
  /\ sys_waiters (NAHCancel sample_latch) = sys_waiters sample_latch
  /\ sys_selections (NAHCancel (NAHCancel sample_latch))
     = sys_selections (NAHCancel sample_latch)
  /\ (forall h, sem_value (sys_semaphores (NAHCancel (NAHCancel sample_latch))) h
                = sem_value (sys_semaphores (NAHCancel sample_latch)) h).
Proof. apply (NAHCancel_wakes_counted sample_latch). exact sample_latch_inv. Defined.


(** X26. From a consistent latch state, [signal_result] releases the
    latch of its selection: the selection holds no semaphore and counts no
    waiter afterwards, and keeps its cancellation mark; the semaphore it
    held has received one signal for every waiter it had counted, the
    other semaphores none; the other selections and the callers are
    untouched.  A second [signal_result] on the same selection changes
    nothing. *)
Theorem signal_result_releases (sys : latch_system) (i : nat)
    (s : NAHSelectionData)
    (Hinv : latch_inv sys)
    (Hselection : sys_selections sys !! i = Some s) :
  sys_selections (signal_result i sys)
  = <[i := with_latch None 0 (canceled s) s]> (sys_selections sys)
  /\ (forall h, sem_value (sys_semaphores (signal_result i sys)) h
                = sem_value (sys_semaphores sys) h + counted_on h s)
  /\ sys_waiters (signal_result i sys) = sys_waiters sys
  /\ signal_result i (signal_result i sys) = signal_result i sys.
Proof.
  destruct (inv_waiting _ Hinv _ _ Hselection) as [Hpos Hzero].
  assert (Hlt : (i < List.length (sys_selections sys))%nat)
    by (eapply lookup_lt_Some; eauto).
  set (s1 := with_latch None 0 (canceled s) s).
  assert (E : exists sems1,
             signal_result i sys
             = {| sys_selections := <[i := s1]> (sys_selections sys);
                  sys_semaphores := sems1;
                  sys_waiters := sys_waiters sys |}
             /\ forall h, sem_value sems1 h
                          = sem_value (sys_semaphores sys) h + counted_on h s).
  { unfold signal_result. rewrite Hselection. unfold signal_result_block.
    destruct (wait s) as [h0|] eqn:Hw.
    - pose proof (signal_waiters_spec s (sys_semaphores sys) Hpos) as [H1 H2].
      destruct (signal_waiters s (sys_semaphores sys)) as [n sems1].
      cbn [fst snd] in H1, H2. subst n. exists sems1. split; [reflexivity|].
      exact H2.
    - exists (sys_semaphores sys). split.
      + f_equal. f_equal. unfold s1. rewrite <- (Hzero eq_refl), <- Hw.
        destruct s. reflexivity.
      + intros h. unfold counted_on. rewrite Hw.
        rewrite bool_decide_eq_false_2 by discriminate. lia. }
  destruct E as (sems1 & E & Hsem). rewrite E. simpl.
  split; [reflexivity|]. split; [exact Hsem|]. split; [reflexivity|].
  unfold signal_result. simpl.
  rewrite list_lookup_insert_eq by exact Hlt.
  unfold signal_result_block. simpl.
  rewrite list_insert_insert_eq. reflexivity.
Qed.

Lemma signal_result_releases_witness :
  sys_selections (signal_result O sample_latch)
  = <[O := with_latch None 0
             (canceled (with_latch (Some O) 1 false sample_unresolved))
             (with_latch (Some O) 1 false sample_unresolved)]>
      (sys_selections sample_latch)
  /\ (forall h, sem_value (sys_semaphores (signal_result O sample_latch)) h
                = sem_value (sys_semaphores sample_latch) h
                  + counted_on h (with_latch (Some O) 1 false sample_unresolved))
  /\ sys_waiters (signal_result O sample_latch) = sys_waiters sample_latch
  /\ signal_result O (signal_result O sample_latch)
     = signal_result O sample_latch.
Proof.
  apply (signal_result_releases sample_latch O
           (with_latch (Some O) 1 false sample_unresolved)).
  - exact sample_latch_inv.
  - reflexivity.
Defined.

(** ** The names of a session *)

(** X27. [NAHCreate] fails for want of a user, and only for that: it
    returns null exactly when the information names no user and the login
    name is not available.  A session it returns has the user name and the
    specific name [findUsername] made, unchanged by the guessing, the
    service it was given and the password of the information; it has a
    specific name exactly when the information named the user. *)
Theorem NAHCreate_username (env : Environment) (h s : string)
    (info : option Info) :
  (NAHCreate env h s info = Done None
   <-> match info with Some i => kNAHUserName i | None => None end = None
       /\ getlogin env = None)
  /\ (forall na,
        NAHCreate env h s info = Done (Some na) ->
        findUsername env info = Some (username na, specificname na)
        /\ service na = s
        /\ password na = match info with Some i => kNAHPassword i | None => None end
        /\ (is_Some (specificname na)
            <-> is_Some match info with
                        | Some i => kNAHUserName i
                        | None => None
                        end)).
Proof.
  split.
  - unfold NAHCreate, NAHCreate_session, findUsername.
    destruct (match info with Some i => kNAHUserName i | None => None end)
      as [u|].
    + split; [|intros [[=] _]].
      destruct (CFStringFind u "@"); [|destruct (CFStringFind u backslash)];
        (destruct (NAHCreate_guess env _); simpl; discriminate).
    + destruct (getlogin env) as [name|].
      * split; [|intros [_ [=]]].
        destruct (NAHCreate_guess env _); simpl; discriminate.
      * split; auto.
  - intros na Hna.
    destruct (NAHCreate_stages _ _ _ _ _ Hna) as (na0 & na1 & H0 & _ & _).
    pose proof (guesses_inputs _ _ _ _ (NAHCreate_guesses _ _ _ _ _ _ H0 Hna)) as Hin.
    apply inputs_fields in Hin as (_ & -> & -> & -> & _ & _ & _ & ->).
    unfold NAHCreate_session in H0.
    destruct (findUsername env info) as [[u sn]|] eqn:Hf; [|discriminate].
    injection H0 as <-. simpl.
    split; [reflexivity|]. split; [reflexivity|]. split; [reflexivity|].
    unfold findUsername in Hf.
    destruct (match info with Some i => kNAHUserName i | None => None end)
      as [u0|].
    + destruct (CFStringFind u0 "@"); [|destruct (CFStringFind u0 backslash)];
        injection Hf as <- <-; split; eauto.
    + destruct (getlogin env); [|discriminate]. injection Hf as <- <-.
      split; intros [? [=]].
Qed.

Lemma NAHCreate_hostname_trimmed_witness :
  exists a b,
    default "..fs.corp.example.com."
      (CFNetServiceDeconstructServiceName quiet_environment
         "..fs.corp.example.com.")
    = a +:+ hostname (created (NAHCreate quiet_environment
                                 "..fs.corp.example.com." "cifs"
                                 (sample_info "ann" None))
                        (sample_session "" "" "" None)) +:+ b
    /\ only_dots a = true /\ only_dots b = true
    /\ CFStringHasPrefix
         (hostname (created (NAHCreate quiet_environment
                               "..fs.corp.example.com." "cifs"
                               (sample_info "ann" None))
                      (sample_session "" "" "" None))) "." = false
    /\ CFStringHasSuffix
         (hostname (created (NAHCreate quiet_environment
                               "..fs.corp.example.com." "cifs"
                               (sample_info "ann" None))
                      (sample_session "" "" "" None))) "." = false.
Proof.
  apply (NAHCreate_hostname_trimmed quiet_environment "..fs.corp.example.com."
           "cifs" (sample_info "ann" None)
           (created (NAHCreate quiet_environment "..fs.corp.example.com." "cifs"
                       (sample_info "ann" None))
              (sample_session "" "" "" None))).
  vm_compute. reflexivity.
Defined.


(** ** The names the guessers make *)

Lemma string_app_assoc (a b c : string) : (a +:+ b) +:+ c = a +:+ (b +:+ c).
Proof.
  induction a as [|x a IH]; [reflexivity|].
  rewrite !string_app_cons, IH. reflexivity.
Qed.

Lemma index_char_app c (a b : string) :
  String.index 0 (String c EmptyString) a = None ->
  String.index 0 (String c EmptyString) (a +:+ String c EmptyString +:+ b)
  = Some (String.length a).
Proof.
  induction a as [|x a IH]; intros Ha.
  - rewrite string_app_nil, string_app_cons, index_char_cons.
    destruct (Ascii.ascii_dec c c); [reflexivity | congruence].
  - rewrite index_char_cons in Ha. rewrite string_app_cons, index_char_cons.
    destruct (Ascii.ascii_dec c x); [discriminate|].
    destruct (String.index 0 (String c EmptyString) a); [discriminate|].
    rewrite IH by reflexivity. reflexivity.
Qed.

Lemma substring_after_char c (a b : string) :
  String.substring (String.length a + 1)
    (String.length (a +:+ String c EmptyString +:+ b) - (String.length a + 1))
    (a +:+ String c EmptyString +:+ b) = b.
Proof.
  rewrite <- string_app_assoc.
  replace (String.length a + 1)%nat
    with (String.length (a +:+ String c EmptyString))
    by (rewrite length_app_string; reflexivity).
  apply substring_app_tail.
Qed.

Lemma substring_before_char c (a b : string) :
  String.substring 0 (String.length a) (a +:+ String c EmptyString +:+ b) = a.
Proof.
  induction a as [|x a IH].
  - simpl. destruct (EmptyString +:+ String c EmptyString +:+ b); reflexivity.
  - rewrite string_app_cons. simpl. f_equal. exact IH.
Qed.

Lemma addSelection_has_selection_mech na c ct s st m flags :
  (forall i sel, selections na !! i = Some sel -> mech sel = m ->
                 is_Some (server sel)) ->
  (flag_set flags FORCE_ADD = true \/ specificname na = None
   \/ exists sn, specificname na = Some sn /\ CFStringHasPrefix c sn = true) ->
  has_selection (res_na (addSelection na c ct (Some s) st m flags)) m c s.
Proof.
  intros Hall Hfilter.
  destruct (addSelection_cases na c ct (Some s) st m flags)
    as [sn Hf Hsn Hpre | n sel Hn Hd
       | na' nasel Hnone Hsel _ _ _ _ Hm Hc Hs _ _ _ _ _]; simpl.
  - exfalso. destruct Hfilter as [Hp|[Hp|(sn' & Hp & Hq)]]; congruence.
  - apply is_duplicate_true in Hd as (D1 & D2 & D3 & D4).
    destruct (Hall _ _ Hn D1) as [s' Hs'].
    exists n, sel. repeat split; auto.
    rewrite Hs'. f_equal. eapply D3; eauto.
  - exists (List.length (selections na)), nasel. rewrite Hsel.
    rewrite lookup_app_r by reflexivity. rewrite Nat.sub_diag. auto.
Qed.

Lemma addSelection_has_selection na c ct s st m flags :
  all_resolved na ->
  (flag_set flags FORCE_ADD = true \/ specificname na = None
   \/ exists sn, specificname na = Some sn /\ CFStringHasPrefix c sn = true) ->
  has_selection (res_na (addSelection na c ct (Some s) st m flags)) m c s.
Proof.
  intros Hall. apply addSelection_has_selection_mech.
  intros i sel Hi _. eapply all_resolved_lookup; eauto.
Qed.

Lemma use_classic_kerberos_adds env na flags user domain :
  is_local_hostname (hostname na) = false ->
  all_resolved na ->
  username na = user +:+ "@" +:+ domain ->
  CFStringFind user "@" = None ->
  (specificname na = None
   \/ exists sn, specificname na = Some sn
                 /\ CFStringHasPrefix (username na) sn = true) ->
  has_selection (use_classic_kerberos env na flags) GSS_KERBEROS
    (username na) (classic_server na domain).
Proof.
  intros Hremote Hall Huser Hat Hfilter.
  unfold use_classic_kerberos. rewrite Hremote. cbv zeta.
  assert (Hfind : CFStringFind (username na) "@" = Some (String.length user)).
  { rewrite Huser. unfold CFStringFind in *. apply index_char_app. exact Hat. }
  rewrite Hfind. unfold CFStringCreateWithSubstring.
  assert (Hdom : String.substring (String.length user + 1)
                   (String.length (username na) - (String.length user + 1))
                   (username na) = domain).
  { rewrite Huser. apply (substring_after_char "@"). }
  rewrite Hdom. fold (classic_server na domain).
  remember (res_na (addSelection na (username na) (Some kNAHNTKRB5Principal)
                      (Some (classic_server na domain))
                      (Some kNAHNTKRB5PrincipalReferral) GSS_KERBEROS flags))
    as na1 eqn:Hna1.
  assert (H1 : has_selection na1 GSS_KERBEROS (username na)
                 (classic_server na domain)).
  { rewrite Hna1. apply addSelection_has_selection; [exact Hall|]. auto. }
  clear Hna1.
  eapply (has_selection_guesses env (resolved_key GSS_KERBEROS)); [|exact H1].
  repeat match goal with
         | |- guesses env _ _ (match ?x with Some _ => _ | None => _ end) =>
             destruct x
         | |- guesses env _ _ (add_realms _ _ _) =>
             eapply guesses_trans; [|apply add_realms_guesses]
         | |- guesses env _ _ (res_na (addSelection _ _ _ _ _ _ _)) =>
             apply guesses_add; [|split; [reflexivity | eauto]]
         | |- guesses env _ ?a ?a => apply guesses_refl
         end.
Qed.

Lemma classic_server_inputs a b domain :
  inputs a = inputs b -> classic_server a domain = classic_server b domain.
Proof.
  intros H. apply inputs_fields in H as (Hh & Hs & _).
  unfold classic_server. rewrite Hh, Hs. reflexivity.
Qed.

Lemma guess_kerberos_run_classic env d na user domain :
  pending na ->
  is_local_hostname (hostname na) = false ->
  all_resolved na -> is_Some (password na) ->
  username na = user +:+ "@" +:+ domain ->
  CFStringFind user "@" = None ->
  (specificname na = None
   \/ exists sn, specificname na = Some sn
                 /\ CFStringHasPrefix (username na) sn = true) ->
  has_selection (guess_kerberos_run env d na) GSS_KERBEROS
    (username na) (classic_server na domain).
Proof.
  intros Hp Hremote Hall Hpw Huser Hat Hfilter.
  pose proof (guess_kerberos_run_stages env d na Hp) as Hst. cbv zeta in Hst.
  set (flags := krb_flags d) in *.
  set (na1 := use_existing_principals env na true flags) in *.
  set (na2 := if try_iakerb_with_lkdc d
              then wellknown_lkdc na1 GSS_KERBEROS_IAKERB flags else na1) in *.
  set (na3 := if try_wlkdc d then wellknown_lkdc na2 GSS_KERBEROS flags else na2)
    in *.
  destruct Hst as (-> & [G1 _] & [G2 _] & [G3 _] & _ & [G5 _] & [G6 _] & G7 & _).
  pose proof (guesses_all_resolved _ _ _ _ G3
                (guesses_all_resolved _ _ _ _ G2
                   (guesses_all_resolved _ _ _ _ G1 Hall))) as A3.
  assert (I3 : inputs na3 = inputs na).
  { rewrite (guesses_inputs _ _ _ _ G3), (guesses_inputs _ _ _ _ G2).
    apply (guesses_inputs _ _ _ _ G1). }
  pose proof (inputs_fields _ _ I3) as (Eh & _ & Eu & Esn & _ & _ & _ & Ep).
  destruct Hpw as [pw Hpw]. rewrite Ep, Hpw in *.
  set (na4 := use_classic_kerberos env na3 flags) in *.
  assert (H4 : has_selection na4 GSS_KERBEROS (username na)
                 (classic_server na domain)).
  { rewrite <- Eu, <- (classic_server_inputs _ _ domain I3).
    apply (use_classic_kerberos_adds env na3 flags user domain).
    - rewrite Eh. exact Hremote.
    - exact A3.
    - rewrite Eu. exact Huser.
    - exact Hat.
    - rewrite Esn, Eu. exact Hfilter. }
  eapply has_selection_guesses; [apply (G7 any_key)|].
  eapply has_selection_guesses; [exact G6|].
  eapply has_selection_guesses; [exact G5|]. exact H4.
Qed.

(** X28. For a user named [user@domain], a password, a host that is not
    local, and a Kerberos pipeline that runs, the list [NAHCreate] returns
    holds the classic Kerberos selection: the user name as the client and
    [<service>/<hostname>@<DOMAIN>] as the server, the realm being the
    part of the user name after its first [@], in upper case. *)
Theorem NAHCreate_classic_kerberos (env : Environment) (h s : string)
    (i : Info) (na : NAHData) (user domain : string)
    (Hcreate : NAHCreate env h s (Some i) = Done (Some na))
    (Huser : kNAHUserName i = Some (user +:+ "@" +:+ domain))
    (Hname : user <> EmptyString)
    (Hat : CFStringFind user "@" = None)
    (Hpassword : is_Some (password na))
    (Hremote : is_local_hostname (hostname na) = false)
    (Hhave : have_kerberos (guess_kerberos_decide env na) = true)
    (Hkrb5 : krb5_init_context_ret env = 0)
    (Hhx509 : hx509_context_init_ret env = 0) :
  has_selection na GSS_KERBEROS (user +:+ "@" +:+ domain)
    (service na +:+ "/" +:+ hostname na +:+ "@" +:+ CFStringUppercase domain).
Proof.
  destruct (NAHCreate_stages _ _ _ _ _ Hcreate) as (na0 & na1 & H0 & H1 & Hna).
  pose proof (NAHCreate_guesses _ _ _ _ _ _ H0 Hcreate) as Gall.
  pose proof (guesses_inputs _ _ _ _ Gall) as Iall.
  pose proof (add_user_selections_guesses _ _ _ H1) as G1.
  pose proof (guesses_inputs _ _ _ _ G1) as I1.
  assert (A0 : all_resolved na0).
  { unfold all_resolved, keys.
    rewrite (NAHCreate_session_selections _ _ _ _ _ H0). constructor. }
  pose proof (guesses_with_server_all_resolved _ _ _ G1 A0) as A1.
  assert (Hnames : username na0 = user +:+ "@" +:+ domain
                   /\ specificname na0 = Some user).
  { unfold NAHCreate_session in H0.
    destruct (findUsername env (Some i)) as [[u sn]|] eqn:Hf; [|discriminate].
    injection H0 as <-. simpl. unfold findUsername in Hf. rewrite Huser in Hf.
    assert (Hfind : CFStringFind (user +:+ "@" +:+ domain) "@"
                    = Some (String.length user))
      by (unfold CFStringFind in *; apply index_char_app; exact Hat).
    rewrite Hfind in Hf. injection Hf as <- <-.
    unfold CFStringCreateWithSubstring.
    rewrite (substring_before_char "@"). auto. }
  destruct Hnames as [Hu0 Hsn0].
  pose proof (inputs_fields _ _ Iall) as (Eh & Es & Eu & Esn & _ & _ & _ & Ep).
  pose proof (inputs_fields _ _ I1) as (Eh1 & Es1 & Eu1 & Esn1 & _ & _ & _ & Ep1).
  assert (Hrun : guess_kerberos env na1
                 = guess_kerberos_run env (guess_kerberos_decide env na1)
                     (set_contexts (set_contexts na1 true (hxctx na1)) true true)).
  { unfold guess_kerberos.
    rewrite (guess_kerberos_decide_inputs env na1 na)
      by (rewrite I1, Iall; reflexivity).
    rewrite Hhave, Hkrb5, Hhx509. reflexivity. }
  set (na1' := set_contexts (set_contexts na1 true (hxctx na1)) true true) in *.
  assert (Hk : has_selection (guess_kerberos env na1) GSS_KERBEROS
                 (username na1) (classic_server na1 domain)).
  { rewrite Hrun.
    apply (guess_kerberos_run_classic env (guess_kerberos_decide env na1) na1'
             user domain).
    - exact (proj1 (proj2 (NAHCreate_overrides _ _ _ _ _ _ H0 H1))).
    - change (is_local_hostname (hostname na1) = false).
      rewrite Eh1, <- Eh. exact Hremote.
    - exact A1.
    - change (is_Some (password na1)). rewrite Ep1, <- Ep. exact Hpassword.
    - change (username na1 = user +:+ "@" +:+ domain). rewrite Eu1. exact Hu0.
    - exact Hat.
    - right. exists user. split.
      + change (specificname na1 = Some user). rewrite Esn1. exact Hsn0.
      + change (CFStringHasPrefix (username na1) user = true).
        rewrite Eu1, Hu0. apply CFStringHasPrefix_app. exact Hname. }
  assert (Hlast : guesses env (resolved_key GSS_NTLM) (guess_kerberos env na1) na).
  { rewrite Hna. destruct (_ && _)%bool;
      [apply guess_ntlm_guesses | apply guesses_refl]. }
  pose proof (has_selection_guesses _ _ _ _ _ _ _ Hlast Hk) as Hfinal.
  rewrite Eu1, Hu0 in Hfinal. unfold classic_server in Hfinal.
  rewrite Eh1, Es1, <- Eh, <- Es in Hfinal. exact Hfinal.
Qed.

Lemma NAHCreate_classic_kerberos_witness :
  has_selection realm_session GSS_KERBEROS ("ann" +:+ "@" +:+ "corp.example.com")
    (service realm_session +:+ "/" +:+ hostname realm_session +:+ "@"
     +:+ CFStringUppercase "corp.example.com").
Proof.
  apply (NAHCreate_classic_kerberos quiet_environment "fs.corp.example.com"
           "cifs" realm_user_info realm_session "ann" "corp.example.com").
  - vm_compute. reflexivity.
  - reflexivity.
  - discriminate.
  - reflexivity.
  - vm_compute. eexists. reflexivity.
  - vm_compute. reflexivity.
  - vm_compute. reflexivity.
  - reflexivity.
  - reflexivity.
Defined.

(** X29. On a host whose name is not local every selection of the list
    [NAHCreate] returns has its server and a released latch, and no
    resolver was dispatched: nothing in the session waits for the
    background queue. *)
Theorem NAHCreate_remote_no_resolver (env : Environment) (h s : string)
    (info : option Info) (na : NAHData)
    (Hcreate : NAHCreate env h s info = Done (Some na))
    (Hremote : is_local_hostname (hostname na) = false) :
  (forall i sel, NAHGetSelections na !! i = Some sel ->
                 is_Some (server sel) /\ wait sel = None)
  /\ bgq na = [].
Proof.
  pose proof (NAHCreate_remote_resolved _ _ _ _ _ Hcreate Hremote) as Hall.
  destruct (NAHCreate_wf _ _ _ _ _ Hcreate) as [W1 _ _ _ W5].
  split.
  - intros i sel Hsel. unfold NAHGetSelections in Hsel.
    pose proof (all_resolved_lookup _ _ _ Hall Hsel) as Hsv.
    split; [exact Hsv|].
    apply (selection_wf_released sel (W1 _ _ Hsel)). exact Hsv.
  - destruct (bgq na) as [|n q]; [reflexivity|]. exfalso.
    destruct (proj1 (W5 n) (list_elem_of_here n q)) as (x & Hx & Hw).
    destruct (all_resolved_lookup _ _ _ Hall Hx) as [sv Hsv'].
    destruct (W1 _ _ Hx) as [_ _ _ _ Hl _ _]. rewrite (Hl Hw) in Hsv'.
    discriminate.
Qed.

Lemma NAHCreate_remote_no_resolver_witness :
  (forall i sel, NAHGetSelections realm_session !! i = Some sel ->
                 is_Some (server sel) /\ wait sel = None)
  /\ bgq realm_session = [].
Proof.
  apply (NAHCreate_remote_no_resolver quiet_environment "fs.corp.example.com"
           "cifs" (Some realm_user_info) realm_session).
  - vm_compute. reflexivity.
  - vm_compute. reflexivity.
Defined.

(** *** NTLM *)

Lemma flag_set_lor_FORCE_ADD flags :
  flag_set (Z.lor flags FORCE_ADD) FORCE_ADD = true.
Proof.
  unfold flag_set, FORCE_ADD. rewrite Z.land_lor_distr_l.
  change (Z.land 2 2) with 2.
  destruct (Z.eqb_spec (Z.lor (Z.land flags 2) 2) 0) as [E|E]; [|reflexivity].
  exfalso. apply Z.lor_eq_0_iff in E as [_ E]. discriminate E.
Qed.

Lemma ntlm_names_inputs a b :
  inputs a = inputs b ->
  ntlm_client a = ntlm_client b /\ ntlm_server a = ntlm_server b.
Proof.
  intros H. apply inputs_fields in H as (Hh & Hs & Hu & _).
  unfold ntlm_client, ntlm_server. rewrite Hh, Hs, Hu. auto.
Qed.

Lemma guess_ntlm_adds env na :
  haveMech na kGSSAPIMechNTLMOID = true ->
  is_Some (password na) ->
  (forall i sel, selections na !! i = Some sel -> mech sel = GSS_NTLM ->
                 is_Some (server sel)) ->
  (CFStringFind (username na) "@" = None ->
   CFStringFind (username na) backslash = None ->
   specificname na = None
   \/ exists sn, specificname na = Some sn
                 /\ CFStringHasPrefix (ntlm_client na) sn = true) ->
  has_selection (guess_ntlm env na) GSS_NTLM (ntlm_client na) (ntlm_server na).
Proof.
  intros Hmech [pw Hpw] Hres Hfilter. unfold guess_ntlm.
  rewrite Hmech. cbn [negb]. cbv zeta. rewrite Hpw.
  fold (ntlm_server na).
  match goal with
  | |- context [Z.lor ?f _] => set (flags := f)
  end.
  assert (Hfirst : exists fl,
             (let '(u, flags2) :=
                match CFStringFind (username na) "@" with
                | Some _ => (username na, FORCE_ADD)
                | None =>
                    match CFStringFind (username na) backslash with
                    | Some loc =>
                        (CFStringCreateWithSubstring (username na) (loc + 1)
                           (String.length (username na) - (loc + 1))
                         +:+ "@"
                         +:+ CFStringCreateWithSubstring (username na) 0 loc,
                         FORCE_ADD)
                    | None =>
                        (username na +:+ "@" +:+ backslash +:+ hostname na, 0)
                    end
                end in
              res_na (addSelection na u (Some kNAHNTUsername)
                        (Some (ntlm_server na)) None GSS_NTLM
                        (Z.lor flags flags2)))
             = res_na (addSelection na (ntlm_client na) (Some kNAHNTUsername)
                         (Some (ntlm_server na)) None GSS_NTLM fl)
             /\ (flag_set fl FORCE_ADD = true
                 \/ (CFStringFind (username na) "@" = None
                     /\ CFStringFind (username na) backslash = None))).
  { unfold ntlm_client.
    destruct (CFStringFind (username na) "@") as [loc|] eqn:Hat.
    - eexists. split; [reflexivity|]. left. apply flag_set_lor_FORCE_ADD.
    - destruct (CFStringFind (username na) backslash) as [loc|] eqn:Hbs.
      + eexists. split; [reflexivity|]. left. apply flag_set_lor_FORCE_ADD.
      + eexists. split; [reflexivity|]. right. auto. }
  destruct Hfirst as (fl & Heq & Hfl).
  match type of Heq with
  | ?L = _ =>
      match goal with
      | |- has_selection (foldl ?f ?X ?l) _ _ _ =>
          assert (HX : exists na1,
                     has_selection na1 GSS_NTLM (ntlm_client na) (ntlm_server na)
                     /\ guesses env (resolved_key GSS_NTLM) na1 X)
      end
  end.
  { exists (res_na (addSelection na (ntlm_client na) (Some kNAHNTUsername)
                      (Some (ntlm_server na)) None GSS_NTLM fl)).
    split.
    - apply addSelection_has_selection_mech; [exact Hres|].
      destruct Hfl as [Hf|[Hat Hbs]]; [auto|]. right. apply Hfilter; assumption.
    - rewrite <- Heq.
      clear Heq.
      match goal with
      | |- guesses env _ (let '(_, _) := ?P in _) _ => destruct P as [u flags2]
      end.
      match goal with
      | |- guesses env _ ?S _ => remember S as st0 eqn:Hst; clear Hst
      end.
      destruct (specificname st0);
        [apply guesses_add; [apply guesses_refl | split; [reflexivity | eauto]]
        |apply guesses_refl]. }
  destruct HX as (na1 & H1 & G1).
  eapply (has_selection_guesses env (resolved_key GSS_NTLM)); [|exact H1].
  apply guesses_foldl; [|exact G1].
  intros a u.
  assert (Hadd : forall st fl0,
             guesses env (resolved_key GSS_NTLM) a
               (res_na (addSelection a u (Some kNAHNTUsername)
                          (Some (ntlm_server na)) st GSS_NTLM fl0)))
    by (intros; apply guesses_add;
        [apply guesses_refl | split; [reflexivity | eauto]]).
  destruct (res_nasel _); [|apply Hadd].
  apply guesses_write; [apply Hadd | reflexivity].
Qed.

Lemma findUsername_plain env info u sn :
  findUsername env info = Some (u, sn) ->
  CFStringFind u "@" = None -> CFStringFind u backslash = None ->
  sn = None \/ sn = Some u.
Proof.
  unfold findUsername.
  destruct (match info with Some i => kNAHUserName i | None => None end)
    as [u0|].
  - destruct (CFStringFind u0 "@") eqn:Hat.
    + intros [= <- <-] H. congruence.
    + destruct (CFStringFind u0 backslash) eqn:Hbs.
      * intros [= <- <-] _ H. congruence.
      * intros [= <- <-] _ _. auto.
  - destruct (getlogin env); [|discriminate]. intros [= <- <-] _ _. auto.
Qed.

Lemma NAHCreate_session_names env h s info na0 :
  NAHCreate_session env h s info = Some na0 ->
  findUsername env info = Some (username na0, specificname na0).
Proof.
  unfold NAHCreate_session.
  destruct (findUsername env info) as [[u sn]|]; [|discriminate].
  intros [= <-]. reflexivity.
Qed.

(** X30. For an SMB service with a password and no certificates, on a
    server whose hints offer NTLM, the list [NAHCreate] returns holds an
    NTLM selection for the user, with the server [<service>@<hostname>].
    Its client is the user name itself when that holds an [@]; the name
    turned around, [user@DOMAIN], when it is of the form [DOMAIN\user];
    and the name with the host as its domain, [user@\hostname], when it
    is a plain name. *)
Theorem NAHCreate_ntlm_client (env : Environment) (h s : string)
    (info : option Info) (na : NAHData)
    (Hcreate : NAHCreate env h s info = Done (Some na))
    (Hcerts : x509identities na = None)
    (Hsmb : is_smb na = true)
    (Hmech : haveMech na kGSSAPIMechNTLMOID = true)
    (Hpassword : is_Some (password na))
    (Hname : username na <> EmptyString) :
  has_selection na GSS_NTLM (ntlm_client na) (ntlm_server na).
Proof.
  destruct (NAHCreate_stages _ _ _ _ _ Hcreate) as (na0 & na1 & H0 & H1 & Hna).
  pose proof (NAHCreate_guesses _ _ _ _ _ _ H0 Hcreate) as Gall.
  pose proof (guesses_inputs _ _ _ _ Gall) as Iall.
  destruct (NAHCreate_overrides _ _ _ _ _ _ H0 H1) as (G1 & P1 & A1 & _).
  pose proof (guess_kerberos_guesses env na1 P1) as G2.
  set (na2 := guess_kerberos env na1) in *.
  assert (I2 : inputs na2 = inputs na0)
    by (rewrite (guesses_inputs _ _ _ _ G2); apply (guesses_inputs _ _ _ _ G1)).
  assert (I : inputs na2 = inputs na) by (rewrite I2, Iall; reflexivity).
  pose proof (inputs_fields _ _ I) as (Eh & Es & Eu & Esn & _ & _ & Ex & Ep).
  assert (Hrun : na = guess_ntlm env na2).
  { rewrite Hna. rewrite Ex, Hcerts, (is_smb_inputs _ _ I), Hsmb. reflexivity. }
  destruct (ntlm_names_inputs _ _ I) as [Ec Esv].
  rewrite Hrun at 1. rewrite <- Ec, <- Esv.
  apply guess_ntlm_adds.
  - rewrite (haveMech_inputs _ _ _ I). exact Hmech.
  - rewrite Ep. exact Hpassword.
  - intros i sel Hi Hm.
    destruct (guesses_keys_resolved _ _ _ _ G2 A1) as (ks2 & K2 & Q2).
    fold na2 in K2.
    assert (Hin : key_view sel ∈ keys na2).
    { unfold keys. apply list_elem_of_fmap. exists sel.
      split; [reflexivity|]. eapply list_elem_of_lookup_2; eauto. }
    rewrite K2 in Hin.
    unfold all_resolved in A1. rewrite Forall_forall in A1, Q2.
    apply elem_of_app in Hin as [Hin|Hin].
    + apply (A1 _ Hin).
    + destruct (Q2 _ Hin) as (k0 & Hstep & Hk).
      apply key_step_mech in Hstep.
      destruct Hk as [Hk|Hk]; unfold key_mech, key_view in Hk, Hstep;
        simpl in Hk, Hstep; congruence.
  - intros Hat Hbs.
    pose proof (NAHCreate_session_names _ _ _ _ _ H0) as Hf.
    pose proof (inputs_fields _ _ I2) as (_ & _ & Eu0 & Esn0 & _).
    rewrite <- Eu0, <- Esn0 in Hf.
    destruct (findUsername_plain _ _ _ _ Hf Hat Hbs) as [Hn|Hs]; [auto|].
    right. exists (username na2). split; [exact Hs|].
    unfold ntlm_client. rewrite Hat, Hbs.
    apply CFStringHasPrefix_app. rewrite Eu. exact Hname.
Qed.

Lemma NAHCreate_ntlm_client_witness :
  has_selection realm_session GSS_NTLM (ntlm_client realm_session)
    (ntlm_server realm_session).
Proof.
  apply (NAHCreate_ntlm_client quiet_environment "fs.corp.example.com" "cifs"
           (Some realm_user_info) realm_session).
  - vm_compute. reflexivity.
  - reflexivity.
  - vm_compute. reflexivity.
  - vm_compute. reflexivity.
  - vm_compute. eexists. reflexivity.
  - vm_compute. discriminate.
Defined.
